(* ===== verification/_CoqProject ===== *)
-Q . S2P
Prelude.v
Types.v
NetOut.v
Timebomb.v
Bomberman.v
Utf8.v
Json.v
GoJson.v
Errors.v
IpText.v
Codec.v
Streamer.v
Url.v
Routes.v
Backend.v
Sample.v
Prog.v
Handlers.v
Server.v
System.v
Progress.v
Panics.v
Counterfeiter.v
FakeProcess.v
FakeThreads.v
Lifecycle.v
ServerStream.v
ProcessStream.v
Output.v
Connection.v
Client.v
FakeContainer.v
FakeBackend.v
FakeClient.v
FakeConnection.v
FakeHijackStreamer.v
Delegation.v
Godoc.v
EndToEnd.v
Processes.v
