(* ===== verification/Prelude.v ===== *)
(** * Garden: a verification development

    Garden is an API for containers.  A server (server/) answers HTTP requests by
    calling a backend, an implementation of the interfaces of backend.go,
    client.go and container.go; a client (client/) offers the same interfaces over
    a connection to such a server.  The server adds to the backend what these
    files verify: it reaps containers that nobody has used for their grace time,
    it keeps the output of processes until a client has read it, and it serves any
    number of requests at once.

    ** Files

    - [Prelude.v]: results, byte strings, Go's integers, sorted maps, tactics.
    - [Types.v]: the records and constants of client.go, container.go, net_in.go,
      net_out_rule.go and transport/payload.go.  [NetOut.v]: the functions of
      net_out_rule.go.
    - [Timebomb.v], Module [Timebomb]: server/timebomb.  The state is a bomb and
      the runtime's timers; [Strap], [Pause], [Unpause], [Defuse] and [Reset] are
      the methods, [fire] is the runtime running a callback.
    - [Bomberman.v], Module [Bomberman]: server/bomberman.  [manageBombs] serves
      one message; [explode] is a callback.  The state is the map from handles to
      bombs and the heap of all bombs ever made.
    - [Utf8.v], [Json.v], [GoJson.v], [IpText.v]: what the code uses of
      unicode/utf8, encoding/json and net.  [Errors.v]: errors.go.  [Codec.v]: the
      JSON of every message of the API, from the struct tags.
    - [Streamer.v], Module [Streamer]: server/streamer and server/chanwriter.go.
      Each rule of [step] is one atomic action of one goroutine.
    - [Url.v], [Routes.v]: what is used of net/url; routes/routes.go; the vendored
      rata (requests from routes, routes to a multiplexer) and pat (matching).
    - [Backend.v]: the interfaces as a type of operations, and the class [Backend]
      of a state with an implementation of them.  Handlers and theorems are about
      every instance.  [Sample.v] is one, for the witnesses.
    - [Prog.v]: programs of actions, the state [GardenServer] that they share, the
      meaning of each action, and a weakest precondition for protocols.
      [Handlers.v]: server/request_handling.go, one program per handler.
      [ServerStream.v]: its [streamInput].  [Server.v]: [reapContainer] and the
      routing of server.go.
    - [System.v]: any number of handlers and reapers interleaved, action by
      action, with the clock and the timers.  [Progress.v]: that they get to their
      end.  [Panics.v]: the same with the streamer's goroutines, and which of them
      can panic.
    - [Lifecycle.v]: the rest of server.go: [SetupBomberman], [Listen], [Serve],
      [Start], [Stop] and the [ConnState] hook, as a transition system.
    - [Connection.v]: client/connection/connection.go and connection_hijacker.go,
      with the interfaces [Connection] and [HijackStreamer] and the constructors.
      [ProcessStream.v]: process.go, process_stream.go and stream_handler.go.
      [Client.v]: client/client.go and client/container.go, over any [Connection].
    - [EndToEnd.v], [Processes.v]: the client on a network whose other end is the
      server.  [Output.v]: the streamer, the network and the client's stream
      handler, which take the output of a process to the client's writers.
    - [Counterfeiter.v]: the pattern after which every method of the generated
      fakes is written, in the two generations of the generator, as programs over
      the locks and fields of a fake.  [FakeProcess.v], [FakeContainer.v],
      [FakeBackend.v], [FakeClient.v] (gardenfakes/), [FakeConnection.v] and
      [FakeHijackStreamer.v] (connectionfakes/): the fakes, one definition per
      method.  [FakeThreads.v]: goroutines that use a fake at once.
      [Delegation.v]: the fakes as implementations of their interfaces, and the
      client over a fake connection.
    - [Godoc.v]: scripts/update-godoc/main.go, its goroutines interleaved.

    ** What is shown

    - Reaping.  A bomb has one live timer, does not go off while it is paused or
      once it is defused, and starts afresh when the last pause ends.  The
      bomberman refines a machine with one promise per handle
      ([manageBombs_refines]); a container that a request holds is not reaped, for
      the bomberman alone and for the whole server in every interleaving
      ([working_container_not_reaped]), and one that nobody uses is
      ([idle_container_reaped]).  A starting server tracks what the backend
      already has.
    - Destroying.  One goroutine at a time destroys a container, and what it has
      marked is released on every way out.
    - Going on.  From every state that is reached all goroutines of the server can
      run to their end ([every_request_can_complete]), and none but those of the
      two bulk requests can panic ([only_bulk_requests_panic]).
    - Output streams.  What is written is delivered once and in order, the first
      chunks are not dropped, late clients are served, the serving goroutines
      return and the streamer does not panic.
    - The wire.  JSON and every message of the API round-trip, errors with their
      type and status; integers that are decoded are in the range of their type,
      whatever arrives.  Every request reaches the handler of its route with its
      parameters.
    - Client and server.  A program of client calls sees what the backend would
      have answered ([sessions_refine_backend]); a process's input arrives in
      order, its exit status comes back, and whoever has waited for it has all of
      its output ([output_end_to_end]).
    - Fakes.  A method of a fake does what a test has told it, counts and keeps its
      calls ([fake_keeps_its_promise]), and so it does when goroutines use it at
      once ([concurrent_use_is_recorded], [concurrent_calls_are_served]).
    - The script that publishes the documentation asks for every package once.
    - Stopping.  The backend is stopped when no connection is being served, and
      idle connections are closed.
    - Where the code does not do what it means to, a theorem shows the behaviour
      and the doc comment says so: a reset to a zero grace time, requests before
      the strap, the cleanup of a reused handle, draining a closed channel, handles
      that are not escaped, input that is not UTF-8, calls after the input is
      closed, a connection that becomes idle during [Stop], [Start] and repeated
      [Stop], the grace time's error, a failing archive, the invocations of a fake
      looked at while it is called, a stub taken away while it is called, a request
      of the publishing script that fails.

    ** Conventions

    A 64-bit counter is a [Z] with its wrap-around written out ([wraps],
    [wrapu]).  Theorems about the pause count and the stream identifiers bound the
    length of the history by [2^63] and [2^64], below which nothing wraps.
    Recursion is structural, on the bytes for the JSON scanner, except where a
    loop reads messages from a connection ([streamInput], [wait]): these take fuel,
    and since a message has at least one byte the number of bytes and one more is
    enough, which is proved.  An index that is out of range is a panic, where Go
    panics.  A mutex that is held for a whole method makes the method one step;
    where the code releases a lock between two steps they are two actions, between
    which others run.  Time is an integer; a timer may fire at any moment from the
    one it is due.

    ** Not modelled

    - Logging, and the session and trace data of log lines: nothing reads them.
    - net/http, net and os below the calls made: the network is a class of the
      client, the operating system's answers are an argument of [Listen], and the
      environment of [Lifecycle.v] makes the transitions of connections that
      net/http documents.  The client's response bodies are byte strings that end
      or fail.
    - The wording of errors of encoding/json, which is the class [JsonText], and
      the nesting limit of its scanner.
    - The copies that a fake makes of the slices it is given: values do not change
      here, so that a copy is the value.  Stubs that use their own fake.  That a
      waiting writer holds up new readers of a [sync.RWMutex].  A field of a fake
      that is read without a lock is read at once, whatever its size. *)
From stdpp Require Export prelude gmap strings list fin_maps sorting.
From Stdlib Require Export ZArith Lia.
#[export] Set Default Proof Using "Type".

(** ** Scopes and notations *)
Declare Scope garden_scope.
Delimit Scope garden_scope with garden.

(** The result of a Go call that returns [(T, error)] and whose callers look at
    the value only when the error is nil. *)
Inductive result (E A : Type) : Type :=
| Ok (a : A)
| Err (e : E).
Arguments Ok {E A} a.
Arguments Err {E A} e.

#[export] Instance result_eq_dec `{EqDecision E, EqDecision A} :
  EqDecision (result E A).
Proof. solve_decision. Defined.

Definition rbind {E A B} (r : result E A) (f : A → result E B) : result E B :=
  match r with Ok a => f a | Err e => Err e end.

Definition rmap {E A B} (f : A → B) (r : result E A) : result E B :=
  match r with Ok a => Ok (f a) | Err e => Err e end.

Notation "'try' x ':=' c1 'in' c2" := (rbind c1 (λ x, c2))
  (at level 10, x pattern, c1 at level 100, c2 at level 200) : garden_scope.

(** ** Bytes and strings *)

(** A Go [string] is a byte string: Rocq's [string], whose characters are
    8-bit.  A Go [[]byte] is a list of them; [[]byte(s)] and [string(b)] are
    the two conversions. *)
Abbreviation bytes := (list Ascii.ascii).
Definition to_bytes (s : string) : bytes := String.list_ascii_of_string s.
Definition of_bytes (b : bytes) : string := String.string_of_list_ascii b.

Lemma of_to_bytes s : of_bytes (to_bytes s) = s.
Proof. apply String.string_of_list_ascii_of_string. Qed.
Lemma to_of_bytes b : to_bytes (of_bytes b) = b.
Proof. apply String.list_ascii_of_string_of_list_ascii. Qed.
#[export] Instance to_bytes_inj : Inj (=) (=) to_bytes.
Proof. intros s t H. rewrite <-(of_to_bytes s), <-(of_to_bytes t). by f_equal. Qed.
#[export] Instance of_bytes_inj : Inj (=) (=) of_bytes.
Proof. intros s t H. rewrite <-(to_of_bytes s), <-(to_of_bytes t). by f_equal. Qed.
Lemma to_bytes_app s t : to_bytes (s +:+ t) = to_bytes s ++ to_bytes t.
Proof.
  induction s as [|c s IH]; [done|].
  change (c :: to_bytes (s +:+ t) = (c :: to_bytes s) ++ to_bytes t).
  rewrite IH. done.
Qed.
Lemma to_bytes_nil s : to_bytes s = [] ↔ s = "".
Proof. split; [|by intros ->]. by destruct s. Qed.

(** ** Machine integers *)

(** [wrapu w z] and [wraps w z] are the values of [z] at an unsigned and at a
    two's complement signed type of [w] bits. *)
Definition wrapu (w z : Z) : Z := z `mod` 2 ^ w.
Definition wraps (w z : Z) : Z := (z + 2 ^ (w - 1)) `mod` 2 ^ w - 2 ^ (w - 1).

Definition maxint64 : Z := 2 ^ 63 - 1.
Definition minint64 : Z := - 2 ^ 63.

Lemma wrapu_small w z : (0 ≤ z < 2 ^ w)%Z → wrapu w z = z.
Proof. intros. by apply Z.mod_small. Qed.

Lemma wraps_small z : (minint64 ≤ z ≤ maxint64)%Z → wraps 64 z = z.
Proof.
  unfold minint64, maxint64, wraps. intros.
  rewrite Z.mod_small; lia.
Qed.

(** ** Automation *)
Create HintDb garden discriminated.
Create Rewrite HintDb garden_rw.
#[export] Hint Rewrite of_to_bytes to_of_bytes to_bytes_app : garden_rw.

(** Splits the innermost [match] or [if] of the goal, keeping the equation. *)
Ltac case_goal :=
  match goal with
  | |- context [match ?x with _ => _ end] =>
      lazymatch x with context [match _ with _ => _ end] => fail | _ => destruct x eqn:? end
  end.

(** Splits the innermost [match] of a hypothesis. *)
Ltac case_hyp H :=
  match type of H with
  | context [match ?x with _ => _ end] =>
      lazymatch x with context [match _ with _ => _ end] => fail | _ => destruct x eqn:? end
  end.

Lemma rbind_Ok {E A B} (r : result E A) (f : A → result E B) b :
  rbind r f = Ok b ↔ ∃ a, r = Ok a ∧ f a = Ok b.
Proof. destruct r; cbn; split; [eauto|by intros (? & [= <-] & ?)|done|by intros (? & ? & ?)]. Qed.

Lemma rmap_Ok {E A B} (r : result E A) (f : A → B) b :
  rmap f r = Ok b ↔ ∃ a, r = Ok a ∧ f a = b.
Proof.
  destruct r; cbn; split; [intros [= <-]; eauto|by intros (? & [= <-] & <-)|done|by intros (? & ? & ?)].
Qed.

(** ** Maps in the order of their keys *)
Definition key_le {A} (x y : string * A) : Prop := String.le x.1 y.1.
#[export] Instance key_le_dec {A} : RelDecision (@key_le A).
Proof. intros x y. apply _. Defined.

(** What ranging over the sorted keys of a map yields. *)
Definition sorted_entries {A} (m : gmap string A) : list (string * A) :=
  merge_sort key_le (map_to_list m).

Lemma sorted_entries_perm {A} (m : gmap string A) : sorted_entries m ≡ₚ map_to_list m.
Proof. apply merge_sort_Permutation. Qed.

Lemma sorted_entries_map {A} (m : gmap string A) :
  NoDup (sorted_entries m).*1 ∧ list_to_map (sorted_entries m) = m.
Proof.
  assert (NoDup (sorted_entries m).*1) as Hn.
  { rewrite sorted_entries_perm. apply NoDup_fst_map_to_list. }
  split; [done|]. rewrite (list_to_map_proper _ _ Hn (sorted_entries_perm m)).
  apply list_to_map_to_list.
Qed.


(** ** Counting *)
Definition count {A} (b : A → bool) (l : list A) : nat := length (filter (λ x, b x = true) l).

Lemma count_cons {A} (b : A → bool) x l : count b (x :: l) = ((if b x then 1 else 0) + count b l)%nat.
Proof. unfold count. rewrite filter_cons. destruct (b x); [rewrite decide_True by done|rewrite decide_False by done]; done. Qed.

Lemma count_insert {A} (b : A → bool) l i x y :
  l !! i = Some x →
  (count b (<[i := y]> l) + (if b x then 1 else 0) = count b l + (if b y then 1 else 0))%nat.
Proof.
  revert i. induction l as [|z l IH]; intros [|i] Hi; try done.
  - injection Hi as ->. change (<[0%nat := y]> (x :: l)) with (y :: l). rewrite !count_cons. lia.
  - change (<[S i := y]> (z :: l)) with (z :: <[i := y]> l). rewrite !count_cons. specialize (IH i Hi). lia.
Qed.

Lemma count_snoc {A} (b : A → bool) l x : count b (l ++ [x]) = (count b l + (if b x then 1 else 0))%nat.
Proof. induction l as [|z l IH]; cbn [app]; rewrite ?count_cons; [cbn; lia|]. rewrite IH. lia. Qed.

Lemma count_pos {A} (b : A → bool) l i x : l !! i = Some x → b x = true → (0 < count b l)%nat.
Proof.
  revert i. induction l as [|z l IH]; intros [|i] Hi Hb; try done; rewrite count_cons.
  - injection Hi as ->. rewrite Hb. lia.
  - specialize (IH i Hi Hb). lia.
Qed.

Lemma count_zero {A} (b : A → bool) l : (∀ x, x ∈ l → b x = false) → count b l = 0%nat.
Proof.
  induction l as [|z l IH]; intros Hl; [done|]. rewrite count_cons, (Hl z) by (by left).
  rewrite IH; [done|]. intros x Hx. apply Hl. by right.
Qed.

(** What is counted at most once is in one place only. *)
Lemma count_unique {A} (b : A → bool) l i j x y :
  (count b l ≤ 1)%nat → l !! i = Some x → b x = true → l !! j = Some y → b y = true → i = j.
Proof.
  revert i j. induction l as [|z l IH]; intros i j Hle Hi Hx Hj Hy; [done|]. rewrite count_cons in Hle.
  destruct i as [|i], j as [|j]; [done|..].
  - injection Hi as ->. rewrite Hx in Hle. pose proof (count_pos b l j y Hj Hy). lia.
  - injection Hj as ->. rewrite Hy in Hle. pose proof (count_pos b l i x Hi Hx). lia.
  - f_equal. apply IH; [lia|done..].
Qed.

(** ** Splitting *)
(** [strings.Split(s, sep)] for a separator of one byte. *)
Fixpoint split_bytes (sep : Ascii.ascii) (b : bytes) : list bytes :=
  match b with
  | [] => [[]]
  | a :: b' =>
      if bool_decide (a = sep) then [] :: split_bytes sep b'
      else match split_bytes sep b' with w :: ws => (a :: w) :: ws | [] => [[a]] end
  end.


Lemma split_bytes_app sep a b :
  split_bytes sep (a ++ sep :: b) = split_bytes sep a ++ split_bytes sep b.
Proof.
  induction a as [|x a IH]; cbn.
  - by rewrite bool_decide_true.
  - destruct (bool_decide (x = sep)); [by rewrite IH|]. rewrite IH.
    assert (split_bytes sep a ≠ []) as Hne.
    { destruct a as [|y a]; cbn; [done|]. destruct (bool_decide _); [done|].
      by destruct (split_bytes sep a). }
    by destruct (split_bytes sep a).
Qed.

Lemma split_bytes_none sep a : sep ∉ a → split_bytes sep a = [a].
Proof.
  induction a as [|x a IH]; cbn; [done|]. rewrite not_elem_of_cons. intros [Hx Ha].
  rewrite bool_decide_false by done. by rewrite IH.
Qed.
