(* ===== verification/Types.v ===== *)
(** * The data of the garden API

    The records and constants of [client.go], [container.go], [net_in.go],
    [net_out_rule.go] and [transport/payload.go], with the source's fields in
    the source's order.

    Conventions: a Go slice is [slice A], where [None] is the nil slice (it
    encodes as [null], the empty one as an empty array); a Go map with string
    keys is [gomap V], [None] being the nil map; a pointer is an [option]; an
    unsigned or signed integer is a [Z] whose width the codecs of [Codec.v]
    enforce; [time.Duration] is its count of nanoseconds. *)
From S2P Require Import Prelude.

Abbreviation slice A := (option (list A)).
Abbreviation gomap V := (option (gmap string V)).
Abbreviation Duration := Z.

(** [len] of a slice and ranging over one do not tell nil from empty. *)
Definition slice_elems {A} (s : slice A) : list A := default [] s.

(** [type Properties map[string]string] *)
Abbreviation Properties := (gomap string).

(** ** Limits *)
Record BandwidthLimits := mk_BandwidthLimits {
  RateInBytesPerSecond : Z;
  BurstRateInBytesPerSecond : Z;
}.

Record CPULimits := mk_CPULimits {
  cpu_Weight : Z;
  cpu_LimitInShares : Z;
}.

Definition DiskLimitScopeTotal : Z := 0.
Definition DiskLimitScopeExclusive : Z := 1.

Record DiskLimits := mk_DiskLimits {
  InodeSoft : Z;
  InodeHard : Z;
  ByteSoft : Z;
  ByteHard : Z;
  disk_Scope : Z;
}.

Record MemoryLimits := mk_MemoryLimits {
  mem_LimitInBytes : Z;
}.

Record PidLimits := mk_PidLimits {
  pid_Max : Z;
}.

Record Limits := mk_Limits {
  lim_Bandwidth : BandwidthLimits;
  lim_CPU : CPULimits;
  lim_Disk : DiskLimits;
  lim_Memory : MemoryLimits;
  lim_Pid : PidLimits;
}.

Record ProcessLimits := mk_ProcessLimits {
  plim_CPU : CPULimits;
  plim_Memory : MemoryLimits;
}.

Record ResourceLimits := mk_ResourceLimits {
  rl_As : option Z;
  rl_Core : option Z;
  rl_Cpu : option Z;
  rl_Data : option Z;
  rl_Fsize : option Z;
  rl_Locks : option Z;
  rl_Memlock : option Z;
  rl_Msgqueue : option Z;
  rl_Nice : option Z;
  rl_Nofile : option Z;
  rl_Nproc : option Z;
  rl_Rss : option Z;
  rl_Rtprio : option Z;
  rl_Sigpending : option Z;
  rl_Stack : option Z;
}.

(** ** Images and mounts *)
Record ImageRef := mk_ImageRef {
  img_URI : string;
  img_Username : string;
  img_Password : string;
}.

Definition BindMountModeRO : Z := 0.
Definition BindMountModeRW : Z := 1.
Definition BindMountOriginHost : Z := 0.
Definition BindMountOriginContainer : Z := 1.

Record BindMount := mk_BindMount {
  SrcPath : string;
  DstPath : string;
  bm_Mode : Z;
  bm_Origin : Z;
}.

(** ** Networking *)
Record NetIn := mk_NetIn {
  ni_HostPort : Z;
  ni_ContainerPort : Z;
}.

(** [net.IP] is a byte slice. *)
Abbreviation IP := (slice Ascii.ascii).

Definition ProtocolAll : Z := 0.
Definition ProtocolTCP : Z := 1.
Definition ProtocolUDP : Z := 2.
Definition ProtocolICMP : Z := 3.
Definition ProtocolICMPv6 : Z := 4.

Record IPRange := mk_IPRange {
  ipr_Start : IP;
  ipr_End : IP;
}.

Record PortRange := mk_PortRange {
  pr_Start : Z;
  pr_End : Z;
}.

Record ICMPControl := mk_ICMPControl {
  icmp_Type : Z;
  icmp_Code : option Z;
}.

Record NetOutRule := mk_NetOutRule {
  nor_Protocol : Z;
  nor_Networks : slice IPRange;
  nor_Ports : slice PortRange;
  nor_ICMPs : option ICMPControl;
  nor_Log : bool;
}.

(** ** Containers *)
Record ContainerSpec := mk_ContainerSpec {
  spec_Handle : string;
  spec_GraceTime : Duration;
  spec_RootFSPath : string;
  spec_Image : ImageRef;
  spec_BindMounts : slice BindMount;
  spec_Network : string;
  spec_Properties : Properties;
  spec_Env : slice string;
  spec_Privileged : bool;
  spec_Limits : Limits;
  spec_NetOut : slice NetOutRule;
  spec_NetIn : slice NetIn;
}.

Record Capacity := mk_Capacity {
  MemoryInBytes : Z;
  DiskInBytes : Z;
  SchedulableDiskInBytes : Z;
  MaxContainers : Z;
}.

Record PortMapping := mk_PortMapping {
  pm_HostPort : Z;
  pm_ContainerPort : Z;
}.

Record ContainerInfo := mk_ContainerInfo {
  info_State : string;
  info_Events : slice string;
  info_HostIP : string;
  info_ContainerIP : string;
  info_ContainerIPv6 : string;
  info_ExternalIP : string;
  info_ContainerPath : string;
  info_ProcessIDs : slice string;
  info_Properties : Properties;
  info_MappedPorts : slice PortMapping;
}.

(** [TarStream] is a reader: the bytes it will yield. *)
Record StreamInSpec := mk_StreamInSpec {
  si_Path : string;
  si_User : string;
  si_TarStream : bytes;
}.

Record StreamOutSpec := mk_StreamOutSpec {
  so_Path : string;
  so_User : string;
}.

(** ** Metrics *)
Record ContainerMemoryStat := mk_ContainerMemoryStat {
  ms_ActiveAnon : Z;
  ms_ActiveFile : Z;
  ms_Cache : Z;
  ms_HierarchicalMemoryLimit : Z;
  ms_InactiveAnon : Z;
  ms_InactiveFile : Z;
  ms_MappedFile : Z;
  ms_Pgfault : Z;
  ms_Pgmajfault : Z;
  ms_Pgpgin : Z;
  ms_Pgpgout : Z;
  ms_Rss : Z;
  ms_TotalActiveAnon : Z;
  ms_TotalActiveFile : Z;
  ms_TotalCache : Z;
  ms_TotalInactiveAnon : Z;
  ms_TotalInactiveFile : Z;
  ms_TotalMappedFile : Z;
  ms_TotalPgfault : Z;
  ms_TotalPgmajfault : Z;
  ms_TotalPgpgin : Z;
  ms_TotalPgpgout : Z;
  ms_TotalRss : Z;
  ms_TotalUnevictable : Z;
  ms_Unevictable : Z;
  ms_Swap : Z;
  ms_HierarchicalMemswLimit : Z;
  ms_TotalSwap : Z;
  ms_TotalUsageTowardLimit : Z;
  ms_Anon : Z;
  ms_File : Z;
  ms_SwapCached : Z;
}.

Record ContainerCPUStat := mk_ContainerCPUStat {
  cs_Usage : Z;
  cs_User : Z;
  cs_System : Z;
}.

Record ContainerPidStat := mk_ContainerPidStat {
  ps_Current : Z;
  ps_Max : Z;
}.

Record ContainerDiskStat := mk_ContainerDiskStat {
  TotalBytesUsed : Z;
  TotalInodesUsed : Z;
  ExclusiveBytesUsed : Z;
  ExclusiveInodesUsed : Z;
}.

Record ContainerBandwidthStat := mk_ContainerBandwidthStat {
  InRate : Z;
  InBurst : Z;
  OutRate : Z;
  OutBurst : Z;
}.

Record ContainerNetworkStat := mk_ContainerNetworkStat {
  RxBytes : Z;
  TxBytes : Z;
}.

Record Metrics := mk_Metrics {
  m_MemoryStat : ContainerMemoryStat;
  m_CPUStat : ContainerCPUStat;
  m_DiskStat : ContainerDiskStat;
  m_NetworkStat : option ContainerNetworkStat;
  m_PidStat : ContainerPidStat;
  m_Age : Duration;
  m_CPUEntitlement : Z;
}.

(** ** Processes *)
Record WindowSize := mk_WindowSize {
  ws_Columns : Z;
  ws_Rows : Z;
}.

Record TTYSpec := mk_TTYSpec {
  tty_WindowSize : option WindowSize;
}.

Record ProcessSpec := mk_ProcessSpec {
  p_ID : string;
  p_Path : string;
  p_Args : slice string;
  p_Env : slice string;
  p_Dir : string;
  p_User : string;
  p_Limits : ResourceLimits;
  p_OverrideContainerLimits : option ProcessLimits;
  p_TTY : option TTYSpec;
  p_Image : ImageRef;
  p_BindMounts : slice BindMount;
}.

(** [type Signal int], with its two named values. *)
Definition SignalTerminate : Z := 0.
Definition SignalKill : Z := 1.

(** ** Messages of the wire protocol (transport/payload.go) *)
Definition Stdin : Z := 0.
Definition Stdout : Z := 1.
Definition Stderr : Z := 2.

Record ProcessPayload := mk_ProcessPayload {
  pp_ProcessID : string;
  pp_StreamID : string;
  pp_Source : option Z;
  pp_Data : option string;
  pp_ExitStatus : option Z;
  pp_Error : option string;
  pp_TTY : option TTYSpec;
  pp_Signal : option Z;
}.

Record NetInRequest := mk_NetInRequest {
  nir_Handle : string;
  nir_HostPort : Z;
  nir_ContainerPort : Z;
}.

Record NetInResponse := mk_NetInResponse {
  nirs_HostPort : Z;
  nirs_ContainerPort : Z;
}.
