(* ===== verification/NetOut.v ===== *)
(** * Outbound network rules (net_out_rule.go)

    The helpers that build the ranges of a [NetOutRule], and the proof that
    [IPRangeFromIPNet] delimits exactly the addresses of the network. *)
From S2P Require Import Prelude Types.

#[local] Open Scope Z_scope.

Module NetOut.

(** [net.IPNet] *)
Record IPNet := mk_IPNet {
  net_IP : IP;
  net_Mask : slice Ascii.ascii;
}.

Definition byte_val (c : Ascii.ascii) : Z := Z.of_N (Ascii.N_of_ascii c).
Definition byte_of (z : Z) : Ascii.ascii := Ascii.ascii_of_N (Z.to_N z).

(** [(^m) | b] on bytes. *)
Definition last_byte (m b : Ascii.ascii) : Ascii.ascii :=
  byte_of (Z.lor (Z.lxor 255 (byte_val m)) (byte_val b)).

(** The loop [for i, m := range mask { lastip[i] = (^m) | ip[i] }]; an index
    out of range is a panic, [None]. *)
Fixpoint lastIP_loop (i : nat) (mask ip lastip : bytes) : option bytes :=
  match mask with
  | [] => Some lastip
  | m :: mask' =>
      match ip !! i, lastip !! i with
      | Some b, Some _ => lastIP_loop (S i) mask' ip (<[i := last_byte m b]> lastip)
      | _, _ => None
      end
  end.

Definition lastIP (n : IPNet) : option IP :=
  let mask := slice_elems (net_Mask n) in
  let ip := slice_elems (net_IP n) in
  let lastip := replicate (length ip) (byte_of 0) in
  Some <$> lastIP_loop 0 mask ip lastip.

Definition IPRangeFromIP (ip : IP) : IPRange := mk_IPRange ip ip.

Definition IPRangeFromIPNet (ipNet : IPNet) : option IPRange :=
  mk_IPRange (net_IP ipNet) <$> lastIP ipNet.

Definition PortRangeFromPort (port : Z) : PortRange := mk_PortRange port port.

Definition ICMPControlCode (code : Z) : option Z := Some code.

(** ** Addresses as numbers *)

(** The big-endian value of an address, and the network an [IPNet] denotes:
    the addresses that agree with it under the mask. *)
Fixpoint be (l : bytes) : Z :=
  match l with
  | [] => 0
  | b :: l' => byte_val b * 2 ^ (8 * Z.of_nat (length l')) + be l'
  end.

Definition in_network (ip mask a : bytes) : Prop :=
  length a = length ip ∧ Z.land (be a) (be mask) = Z.land (be ip) (be mask).

(** ** Lemmas on bytes *)
Lemma byte_val_range c : 0 ≤ byte_val c < 256.
Proof.
  unfold byte_val. pose proof (Ascii.N_ascii_bounded c). lia.
Qed.

Lemma byte_val_of z : 0 ≤ z < 256 → byte_val (byte_of z) = z.
Proof.
  intros. unfold byte_val, byte_of. rewrite Ascii.N_ascii_embedding; lia.
Qed.

Lemma bits_small z i n : 0 ≤ z < 2 ^ n → n ≤ i → Z.testbit z i = false.
Proof.
  intros [Hz Hlt] Hi.
  destruct (decide (z = 0)) as [->|]; [apply Z.bits_0|].
  apply Z.bits_above_log2; [lia|].
  apply Z.log2_lt_pow2; [lia|].
  eapply Z.lt_le_trans; [done|]. apply Z.pow_le_mono_r; lia.
Qed.

Lemma small_of_bits z n :
  0 ≤ n → 0 ≤ z → (∀ i, n ≤ i → Z.testbit z i = false) → z < 2 ^ n.
Proof.
  intros Hn Hz Hbits. destruct (decide (z = 0)) as [->|]; [lia|].
  apply Z.log2_lt_pow2; [lia|].
  destruct (decide (Z.log2 z < n)) as [|Hge]; [done|].
  assert (Hb : Z.testbit z (Z.log2 z) = true) by (apply Z.bit_log2; lia).
  rewrite Hbits in Hb by lia. done.
Qed.

Lemma last_byte_val m b :
  byte_val (last_byte m b) = Z.lor (Z.lxor 255 (byte_val m)) (byte_val b).
Proof.
  pose proof (byte_val_range m). pose proof (byte_val_range b).
  apply byte_val_of. split.
  - apply Z.lor_nonneg. split; [|lia]. apply Z.lxor_nonneg. lia.
  - change 256 with (2 ^ 8). apply small_of_bits; [lia| |].
    + apply Z.lor_nonneg. split; [|lia]. apply Z.lxor_nonneg. lia.
    + intros i Hi. rewrite Z.lor_spec, Z.lxor_spec.
      rewrite !(bits_small _ _ 8) by lia. done.
Qed.

(** ** The loop computes the bytewise last address *)
Lemma lastIP_loop_spec i mask ip lastip :
  (i + length mask ≤ length ip)%nat → length lastip = length ip →
  lastIP_loop i mask ip lastip =
    Some (take i lastip ++ zip_with last_byte mask (drop i ip)
            ++ drop (i + length mask) lastip).
Proof.
  revert i lastip. induction mask as [|m mask IH]; intros i lastip Hlen Hll; cbn in *.
  - rewrite Nat.add_0_r, take_drop. done.
  - destruct (lookup_lt_is_Some_2 ip i) as [b Hb]; [lia|].
    destruct (lookup_lt_is_Some_2 lastip i) as [c Hc]; [lia|].
    rewrite Hb, Hc. rewrite IH by (rewrite ?length_insert; lia). f_equal.
    rewrite (drop_S ip b i) by done. cbn.
    rewrite (take_S_r _ _ (last_byte m b)) by (apply list_lookup_insert_eq; lia).
    rewrite take_insert_ge by lia. rewrite drop_insert_lt by lia.
    rewrite <-app_assoc. cbn. repeat f_equal. lia.
Qed.

Lemma lastIP_loop_panic i mask ip lastip :
  (length ip < i + length mask)%nat → (i ≤ length ip)%nat →
  length lastip = length ip →
  lastIP_loop i mask ip lastip = None.
Proof.
  revert i lastip. induction mask as [|m mask IH]; intros i lastip H1 H2 H3; cbn in *; [lia|].
  destruct (ip !! i) as [b|] eqn:Hb; [|done].
  apply lookup_lt_Some in Hb as Hlt.
  destruct (lastip !! i); [|done].
  apply IH; rewrite ?length_insert; lia.
Qed.

(** Same lengths: the only case of a network from [net.ParseCIDR]. *)
Lemma lastIP_eq ip mask :
  length mask = length ip →
  lastIP (mk_IPNet (Some ip) (Some mask)) = Some (Some (zip_with last_byte mask ip)).
Proof.
  intros Hlen. unfold lastIP. cbn [net_IP net_Mask]. cbv zeta.
  change (slice_elems (Some ?l)) with l.
  rewrite lastIP_loop_spec by (rewrite ?length_replicate; lia).
  rewrite (drop_ge (replicate _ _)) by (rewrite length_replicate; lia).
  by rewrite app_nil_r.
Qed.

(** ** Big-endian values under bitwise operations *)
Lemma be_range l : 0 ≤ be l < 2 ^ (8 * Z.of_nat (length l)).
Proof.
  induction l as [|b l IH]; cbn [be length]; [lia|].
  pose proof (byte_val_range b) as Hb.
  replace (8 * Z.of_nat (S (length l))) with (8 + 8 * Z.of_nat (length l)) by lia.
  rewrite Z.pow_add_r by lia. change (2 ^ 8) with 256.
  set (p := 2 ^ (8 * Z.of_nat (length l))) in *. nia.
Qed.

Lemma testbit_split a l k i :
  0 ≤ k → 0 ≤ l < 2 ^ k → 0 ≤ i →
  Z.testbit (a * 2 ^ k + l) i = if i <? k then Z.testbit l i else Z.testbit a (i - k).
Proof.
  intros Hk Hl Hi.
  assert (Hsplit : a * 2 ^ k + l = Z.lor (Z.shiftl a k) l).
  { rewrite <-Z.shiftl_mul_pow2 by lia. apply Z.add_nocarry_lor.
    apply Z.bits_inj_0. intros j. rewrite Z.land_spec.
    destruct (Z.lt_ge_cases j 0); [by rewrite !Z.testbit_neg_r|].
    destruct (Z.lt_ge_cases j k).
    - by rewrite Z.shiftl_spec_low.
    - rewrite (bits_small l j k) by lia. apply andb_false_r. }
  rewrite Hsplit, Z.lor_spec. destruct (Z.ltb_spec i k).
  - by rewrite Z.shiftl_spec_low.
  - rewrite Z.shiftl_spec, (bits_small l i k) by lia. apply orb_false_r.
Qed.

Lemma be_last mask ip :
  length mask = length ip →
  be (zip_with last_byte mask ip) =
    Z.lor (2 ^ (8 * Z.of_nat (length ip)) - 1 - be mask) (be ip).
Proof.
  revert ip. induction mask as [|m mask IH]; intros [|b ip] Hlen; try done.
  cbn [zip_with be length] in *. injection Hlen as Hlen.
  rewrite IH by done. rewrite length_zip_with, Hlen, Nat.min_id.
  set (k := 8 * Z.of_nat (length ip)).
  replace (8 * Z.of_nat (S (length ip))) with (8 + k) by lia.
  rewrite Z.pow_add_r by lia. change (2 ^ 8) with 256.
  pose proof (be_range ip) as Hip. pose proof (be_range mask) as Hm.
  rewrite Hlen in Hm. fold k in Hip, Hm.
  pose proof (byte_val_range m) as Hmv. pose proof (byte_val_range b) as Hbv.
  assert (Hlor : 0 ≤ Z.lor (2 ^ k - 1 - be mask) (be ip) < 2 ^ k).
  { assert (0 ≤ Z.lor (2 ^ k - 1 - be mask) (be ip)) by (apply Z.lor_nonneg; lia).
    split; [done|]. apply small_of_bits; [lia|done|].
    intros i Hi. rewrite Z.lor_spec, !(bits_small _ _ k) by lia. done. }
  replace (256 * 2 ^ k - 1 - (byte_val m * 2 ^ k + be mask))
    with ((255 - byte_val m) * 2 ^ k + (2 ^ k - 1 - be mask)) by lia.
  apply Z.bits_inj'. intros i Hi. rewrite Z.lor_spec.
  rewrite !testbit_split by lia. destruct (Z.ltb_spec i k).
  - by rewrite Z.lor_spec.
  - rewrite last_byte_val, !Z.lor_spec. f_equal.
    replace (255 - byte_val m) with (Z.lxor 255 (byte_val m)); [done|].
    assert (Hall : ∀ n : N, (n < 256)%N → Z.lxor 255 (Z.of_N n) = 255 - Z.of_N n).
    { intros n Hn.
      assert (Hf : Forall (λ k, Z.lxor 255 (Z.of_nat k) = 255 - Z.of_nat k) (seq 0 256))
        by (vm_compute; repeat constructor).
      rewrite Forall_forall in Hf. specialize (Hf (N.to_nat n)).
      rewrite N_nat_Z in Hf. apply Hf. apply list_elem_of_In, in_seq. lia. }
    unfold byte_val in *. apply Hall. lia.
Qed.

(** A prefix mask of [h] host bits clears the low [h] bits and keeps the rest. *)
Lemma land_prefix n h x :
  0 ≤ h ≤ n → 0 ≤ x < 2 ^ n → Z.land x (2 ^ n - 2 ^ h) = 2 ^ h * (x / 2 ^ h).
Proof.
  intros Hh Hx.
  assert (Hsub : 2 ^ n - 2 ^ h = Z.shiftl (Z.ones (n - h)) h).
  { rewrite Z.shiftl_mul_pow2, Z.ones_equiv by lia. unfold Z.pred.
    rewrite Z.mul_add_distr_r, <-Z.pow_add_r by lia.
    replace (n - h + h) with n by lia. lia. }
  rewrite Hsub, Z.mul_comm, <-Z.shiftl_mul_pow2, <-Z.shiftr_div_pow2 by lia.
  apply Z.bits_inj'. intros i Hi. rewrite Z.land_spec.
  destruct (Z.lt_ge_cases i h).
  - rewrite !Z.shiftl_spec_low by lia. apply andb_false_r.
  - rewrite !Z.shiftl_spec by lia. rewrite Z.shiftr_spec by lia.
    replace (i - h + h) with i by lia.
    destruct (Z.lt_ge_cases i n).
    + rewrite Z.ones_spec_low by lia. apply andb_true_r.
    + rewrite (bits_small x i n) by lia. done.
Qed.

Lemma last_prefix n h x :
  0 ≤ h ≤ n → 0 ≤ x < 2 ^ n → x `mod` 2 ^ h = 0 →
  Z.lor (2 ^ n - 1 - (2 ^ n - 2 ^ h)) x = x + 2 ^ h - 1.
Proof.
  intros Hh Hx Hmod.
  replace (2 ^ n - 1 - (2 ^ n - 2 ^ h)) with (2 ^ h - 1) by lia.
  rewrite Z.lor_comm.
  replace (x + 2 ^ h - 1) with (x + (2 ^ h - 1)) by lia. symmetry.
  apply Z.add_nocarry_lor.
  replace (2 ^ h - 1) with (Z.ones h) by (rewrite Z.ones_equiv; lia).
  rewrite Z.land_ones by lia. done.
Qed.

(** ** Properties *)

(** C15 [IPRangeFromIPNet] creates a range containing the same addresses as the
    network: for a network whose address and mask have the same length, whose
    mask is a prefix mask with [h] host bits and whose address has its host
    bits clear, the call returns (it does not panic) and an address of that
    length lies between the range's ends, both included, exactly when it
    belongs to the network. *)
Theorem IPRangeFromIPNet_same_ips ip mask h
    (Hlen : length mask = length ip)
    (Hh : 0 ≤ h ≤ 8 * Z.of_nat (length ip))
    (Hmask : be mask = 2 ^ (8 * Z.of_nat (length ip)) - 2 ^ h)
    (Hbase : be ip `mod` 2 ^ h = 0) :
  ∃ last, IPRangeFromIPNet (mk_IPNet (Some ip) (Some mask))
            = Some (mk_IPRange (Some ip) (Some last)) ∧
    length last = length ip ∧
    ∀ a, length a = length ip →
      (in_network ip mask a ↔ be ip ≤ be a ≤ be last).
Proof.
  exists (zip_with last_byte mask ip). unfold IPRangeFromIPNet.
  rewrite lastIP_eq by done. split; [done|].
  split; [rewrite length_zip_with; lia|]. intros a Ha.
  pose proof (be_range ip) as Hip. pose proof (be_range a) as Har. rewrite Ha in Har.
  rewrite be_last, Hmask by done.
  set (n := 8 * Z.of_nat (length ip)) in *.
  rewrite last_prefix by lia. unfold in_network.
  rewrite Hmask. rewrite !land_prefix by lia.
  pose proof (Z.div_mod (be ip) (2 ^ h)) as Di. pose proof (Z.div_mod (be a) (2 ^ h)) as Da.
  pose proof (Z.mod_pos_bound (be a) (2 ^ h)) as Ma.
  assert (0 < 2 ^ h) by (apply Z.pow_pos_nonneg; lia).
  specialize (Di ltac:(lia)). specialize (Da ltac:(lia)). specialize (Ma ltac:(lia)).
  split.
  - intros [_ Heq]. lia.
  - intros Hr. split; [done|]. f_equal. nia.
Qed.

Definition ip4 (a b c d : Z) : bytes := byte_of <$> [a; b; c; d].

Lemma IPRangeFromIPNet_same_ips_witness :
  ∃ last, IPRangeFromIPNet (mk_IPNet (Some (ip4 1 2 3 0)) (Some (ip4 255 255 255 0)))
            = Some (mk_IPRange (Some (ip4 1 2 3 0)) (Some last)) ∧
    length last = 4%nat ∧
    ∀ a, length a = 4%nat →
      (in_network (ip4 1 2 3 0) (ip4 255 255 255 0) a ↔ be (ip4 1 2 3 0) ≤ be a ≤ be last).
Proof.
  apply (IPRangeFromIPNet_same_ips (ip4 1 2 3 0) (ip4 255 255 255 0) 8);
    vm_compute; repeat split; congruence.
Defined.

Example range_of_24 :
  IPRangeFromIPNet (mk_IPNet (Some (ip4 1 2 3 0)) (Some (ip4 255 255 255 0)))
  = Some (mk_IPRange (Some (ip4 1 2 3 0)) (Some (ip4 1 2 3 255))).
Proof. reflexivity. Qed.

(** [lastIP] and so [IPRangeFromIPNet] return exactly when the mask is no
    longer than the address; a longer mask indexes the address out of range. *)
Lemma IPRangeFromIPNet_panics (n : IPNet) :
  IPRangeFromIPNet n = None ↔
    (length (slice_elems (net_IP n)) < length (slice_elems (net_Mask n)))%nat.
Proof.
  unfold IPRangeFromIPNet, lastIP. rewrite !fmap_None. split.
  - intros Hn. apply Nat.nle_gt. intros Hle.
    rewrite lastIP_loop_spec in Hn by (rewrite ?length_replicate; lia). done.
  - intros Hlt. apply lastIP_loop_panic; rewrite ?length_replicate; lia.
Qed.

End NetOut.
