(* ===== verification/Timebomb.v ===== *)
(** * Time bombs (server/timebomb/timebomb.go)

    A [TimeBomb] runs a callback once its countdown has passed, unless it is
    paused, defused or reset first.  The bomb holds its mutex from the first
    to the last line of every method, so each method is one atomic function
    on the bomb and on the runtime's timers. *)
From S2P Require Import Prelude Types.

#[local] Open Scope Z_scope.

(** ** The runtime's timers (package time) *)
Module Timer.

Inductive status := Active | Stopped | Fired.

#[export] Instance status_eq_dec : EqDecision status.
Proof. solve_decision. Defined.

(** A timer made by [time.AfterFunc]: the instant from which the runtime may
    call [t_f], and what became of it. *)
Record timer (F : Type) := mk_timer {
  t_when : Z;
  t_f : F;
  t_status : status;
}.
Arguments mk_timer {F} _ _ _.
Arguments t_when {F} _.
Arguments t_f {F} _.
Arguments t_status {F} _.

Section ops.
Context {F : Type}.
Implicit Types (ts : list (timer F)).

(** The instant a timer of duration [d] set at [now] is due: at once when [d]
    is not positive, saturating at the end of the clock. *)
Definition when (now d : Z) : Z :=
  if d <=? 0 then now else Z.min maxint64 (now + d).

(** [time.AfterFunc(d, f)]: a timer is named by its position in the store. *)
Definition AfterFunc (now d : Z) (f : F) ts : nat * list (timer F) :=
  (length ts, ts ++ [mk_timer (when now d) f Active]).

Definition set_status (s : status) (t : timer F) : timer F :=
  mk_timer (t_when t) (t_f t) s.

Definition is_active (t : timer F) : bool := bool_decide (t_status t = Active).

(** [timer.Stop()]: whether the call stopped the timer. *)
Definition Stop (i : nat) ts : bool * list (timer F) :=
  match ts !! i with
  | Some t => if is_active t then (true, <[i := set_status Stopped t]> ts) else (false, ts)
  | None => (false, ts)
  end.

(** The runtime calls the function of a timer that is due. *)
Definition fire (now : Z) (i : nat) ts : option (F * list (timer F)) :=
  match ts !! i with
  | Some t =>
      if is_active t && (t_when t <=? now)
      then Some (t_f t, <[i := set_status Fired t]> ts) else None
  | None => None
  end.
End ops.
End Timer.

Module Timebomb.
Import Timer.

Section bomb.
Context {F : Type}.

Record TimeBomb := mk_TimeBomb {
  countdown : Duration;
  detonate : F;
  pauses : Z;
  defused : bool;
  timer : option nat;
}.

(** A bomb and the timers it has made. *)
Abbreviation cell := (TimeBomb * list (Timer.timer F))%type.

Definition New (countdown : Duration) (detonate : F) : TimeBomb :=
  mk_TimeBomb countdown detonate 0 false None.

Definition set_timer (b : TimeBomb) (t : option nat) : TimeBomb :=
  mk_TimeBomb (countdown b) (detonate b) (pauses b) (defused b) t.
Definition set_pauses (b : TimeBomb) (n : Z) : TimeBomb :=
  mk_TimeBomb (countdown b) (detonate b) n (defused b) (timer b).
Definition set_defused (b : TimeBomb) : TimeBomb :=
  mk_TimeBomb (countdown b) (detonate b) (pauses b) true (timer b).
Definition set_countdown (b : TimeBomb) (d : Duration) : TimeBomb :=
  mk_TimeBomb d (detonate b) (pauses b) (defused b) (timer b).

(** [b.timer = time.AfterFunc(b.countdown, b.detonate)] *)
Definition arm (now : Z) (c : cell) : cell :=
  let (b, ts) := c in
  let (i, ts') := AfterFunc now (countdown b) (detonate b) ts in
  (set_timer b (Some i), ts').

Definition Strap (now : Z) (c : cell) : cell := arm now c.

Definition Pause (c : cell) : bool * cell :=
  let (b, ts) := c in
  let tm := timer b in
  let b1 := set_timer b None in
  let b2 := set_pauses b1 (wraps 64 (pauses b1 + 1)) in
  match tm with
  | None => (true, (b2, ts))
  | Some i => let (r, ts') := Timer.Stop i ts in (r, (b2, ts'))
  end.

Definition Defuse (c : cell) : bool * cell :=
  let (b, ts) := c in
  let b1 := set_defused b in
  let tm := timer b1 in
  let b2 := set_timer b1 None in
  match tm with
  | None => (true, (b2, ts))
  | Some i => let (r, ts') := Timer.Stop i ts in (r, (b2, ts'))
  end.

Definition Unpause (now : Z) (c : cell) : cell :=
  let (b, ts) := c in
  let b1 := set_pauses b (wraps 64 (pauses b - 1)) in
  if negb (defused b1) && (pauses b1 =? 0) && negb (countdown b1 =? 0)
  then arm now (b1, ts) else (b1, ts).

Definition Reset (now : Z) (d : Duration) (c : cell) : cell :=
  let (b, ts) := c in
  let b1 := set_countdown b d in
  let ts1 := match timer b1 with
             | Some i => (Timer.Stop i ts).2
             | None => ts
             end in
  if bool_decide (is_Some (timer b1)) || (pauses b1 =? 0)
  then arm now (b1, ts1) else (b1, ts1).

(** ** Reachable bombs *)

(** What may happen to a bomb after the one place that makes it
    ([manageBombs], which straps a new bomb at most once): its other methods,
    the runtime firing one of its timers, and time passing. *)
Inductive op :=
| OPause | OUnpause | ODefuse | OReset (d : Duration) | OFire (i : nat).

Definition run_op (now : Z) (o : op) (c : cell) : cell :=
  match o with
  | OPause => (Pause c).2
  | OUnpause => Unpause now c
  | ODefuse => (Defuse c).2
  | OReset d => Reset now d c
  | OFire i => match fire now i c.2 with Some (_, ts) => (c.1, ts) | None => c end
  end.

(** A history: each operation with the instant it happens at. *)
Fixpoint run_ops (h : list (Z * op)) (c : cell) : cell :=
  match h with
  | [] => c
  | (now, o) :: h' => run_ops h' (run_op now o c)
  end.

(** A fresh bomb, strapped at [now] when asked. *)
Definition fresh (now : Z) (strapped : bool) (d : Duration) (f : F) : cell :=
  if strapped then Strap now (New d f, []) else (New d f, []).

(** ** The invariant *)

(** [n] bounds the number of operations so far, and with it the pause count:
    the [int] does not wrap before [2^63] of them. *)
Record inv (n : Z) (c : cell) : Prop := {
  inv_pauses : - n ≤ pauses c.1 ≤ n;
  (** a paused bomb has no timer *)
  inv_paused : 0 < pauses c.1 → timer c.1 = None;
  (** the only timer that can still fire is the one the bomb holds *)
  inv_single : ∀ i t, c.2 !! i = Some t → t_status t = Active → timer c.1 = Some i;
  (** every timer calls the bomb's function *)
  inv_func : ∀ i t, c.2 !! i = Some t → t_f t = detonate c.1;
}.

(** A bomb that no timer of its own can blow up. *)
Definition quiet (c : cell) : Prop := ∀ i t, c.2 !! i = Some t → t_status t ≠ Active.

(** ** Lemmas *)
Lemma Stop_lookup i (ts : list (Timer.timer F)) j t :
  (Timer.Stop i ts).2 !! j = Some t →
  ∃ t0, ts !! j = Some t0 ∧ t_f t = t_f t0 ∧
    (t_status t = Active → t_status t0 = Active ∧ i ≠ j).
Proof.
  unfold Timer.Stop. destruct (ts !! i) as [t0|] eqn:Hi.
  - unfold is_active. case_bool_decide as Ha; cbn.
    + destruct (decide (i = j)) as [->|Hne].
      * rewrite list_lookup_insert_eq by (by eapply lookup_lt_Some).
        intros [= <-]. exists t0. done.
      * rewrite list_lookup_insert_ne by done. eauto 6.
    + intros Hj. exists t. split_and!; try done. intros Hact. split; [done|].
      intros ->. rewrite Hi in Hj. naive_solver.
  - cbn. intros Hj. exists t. split_and!; try done. intros Hact. split; [done|].
    intros ->. by rewrite Hi in Hj.
Qed.

Lemma arm_inv n now b ts :
  - n ≤ pauses b ≤ n → pauses b ≤ 0 →
  (∀ i t, ts !! i = Some t → t_status t ≠ Active ∧ t_f t = detonate b) →
  inv n (arm now (b, ts)).
Proof.
  intros Hp Hp0 Hts. split; cbn; [lia|lia| |].
  - intros i t [Hi|[Hge Hi]]%lookup_app_Some Ht.
    + by apply Hts in Hi as [Hn _].
    + apply list_lookup_singleton_Some in Hi as [Hz _]. f_equal. lia.
  - intros i t [Hi|[Hge Hi]]%lookup_app_Some.
    + by apply Hts in Hi as [_ ?].
    + by apply list_lookup_singleton_Some in Hi as [_ <-].
Qed.

(** Stopping the timer the bomb holds leaves no timer that can fire. *)
Lemma inv_stop n b ts i :
  inv n (b, ts) → timer b = Some i →
  ∀ j t, (Timer.Stop i ts).2 !! j = Some t → t_status t ≠ Active ∧ t_f t = detonate b.
Proof.
  intros [_ _ Hs Hf] Htm j t Hj. apply Stop_lookup in Hj as (t0 & Hj & Hf0 & Ha).
  split; [|rewrite Hf0; by eapply Hf].
  intros [Ht0 Hne]%Ha. apply Hne. specialize (Hs _ _ Hj Ht0). cbn in Hs. congruence.
Qed.

Lemma inv_no_timer n b ts :
  inv n (b, ts) → timer b = None →
  ∀ j t, ts !! j = Some t → t_status t ≠ Active ∧ t_f t = detonate b.
Proof.
  intros [_ _ Hs Hf] Htm j t Hj. split; [|by eapply Hf].
  intros Ha. specialize (Hs _ _ Hj Ha). cbn in Hs. congruence.
Qed.

Lemma quiet_inv n b ts :
  - n ≤ pauses b ≤ n → timer b = None →
  (∀ j t, ts !! j = Some t → t_status t ≠ Active ∧ t_f t = detonate b) →
  inv n (b, ts).
Proof.
  intros Hp Ht Hts. split; cbn; [lia|done| |]; intros i t Hi.
  - by apply Hts in Hi as [? _].
  - by apply Hts in Hi as [_ ?].
Qed.

Lemma Pause_inv n c :
  inv n c → n < maxint64 → inv (n + 1) (Pause c).2.
Proof.
  destruct c as [b ts]. intros Hinv Hn. pose proof (inv_pauses _ _ Hinv) as Hp.
  cbn in Hp. unfold Pause.
  destruct (timer b) as [i|] eqn:Ht.
  - pose proof (inv_stop _ _ _ _ Hinv Ht) as Hstop.
    destruct (Timer.Stop i ts) as [r ts'] eqn:Hst. cbn in *.
    rewrite wraps_small by (unfold minint64, maxint64 in *; lia).
    apply quiet_inv; cbn; [lia|done|done].
  - cbn. rewrite wraps_small by (unfold minint64, maxint64 in *; lia).
    apply quiet_inv; cbn; [lia|done|]. by apply (inv_no_timer n).
Qed.

Lemma Defuse_inv n c : inv n c → inv n (Defuse c).2.
Proof.
  destruct c as [b ts]. intros Hinv. pose proof (inv_pauses _ _ Hinv) as Hp.
  cbn in Hp. unfold Defuse. cbn [timer set_defused].
  destruct (timer b) as [i|] eqn:Ht.
  - pose proof (inv_stop _ _ _ _ Hinv Ht) as Hstop.
    destruct (Timer.Stop i ts) as [r ts'] eqn:Hst. by apply quiet_inv.
  - apply quiet_inv; cbn; [done|done|]. by apply (inv_no_timer n).
Qed.

Lemma Unpause_inv now n c :
  inv n c → n < maxint64 → inv (n + 1) (Unpause now c).
Proof.
  destruct c as [b ts]. intros Hinv Hn. pose proof (inv_pauses _ _ Hinv) as Hp.
  cbn in Hp. unfold Unpause.
  rewrite wraps_small by (unfold minint64, maxint64 in *; lia).
  cbn [pauses defused countdown set_pauses].
  destruct (negb (defused b) && (pauses b - 1 =? 0) && negb (countdown b =? 0)) eqn:E.
  - apply andb_prop in E as [[_ E]%andb_prop _]. apply Z.eqb_eq in E.
    apply arm_inv; cbn; [lia|lia|]. apply (inv_no_timer n); [done|].
    apply (inv_paused _ _ Hinv). cbn. lia.
  - destruct Hinv as [_ Hpz Hs Hf]. cbn in *. split; cbn; [lia| |done|done].
    intros. apply Hpz. lia.
Qed.

Lemma Reset_inv now d n c : inv n c → inv n (Reset now d c).
Proof.
  destruct c as [b ts]. intros Hinv. pose proof (inv_pauses _ _ Hinv) as Hp.
  cbn in Hp. unfold Reset. cbn [timer pauses set_countdown].
  destruct (timer b) as [i|] eqn:Ht; cbn [is_Some].
  - pose proof (inv_paused _ _ Hinv) as Hpz. cbn in Hpz.
    apply arm_inv; cbn; [lia| |exact (inv_stop n b ts i Hinv Ht)].
    destruct (decide (0 < pauses b)) as [Hlt|]; [|lia].
    specialize (Hpz Hlt). congruence.
  - pose proof (inv_no_timer _ _ _ Hinv Ht) as Hts.
    destruct (Z.eqb_spec (pauses b) 0).
    + apply arm_inv; cbn; [lia|lia|done].
    + by apply quiet_inv.
Qed.

Lemma fire_inv now i n c :
  inv n c → inv n (run_op now (OFire i) c).
Proof.
  destruct c as [b ts]. intros Hinv. unfold run_op, fire. cbn [snd fst].
  destruct (ts !! i) as [t|] eqn:Hi; [|done].
  destruct (is_active t && (t_when t <=? now)) eqn:E; [|done].
  destruct Hinv as [Hp Hpz Hs Hf]. split; cbn in *; [done|done| |].
  - intros j t' Hj Ha. destruct (decide (i = j)) as [->|Hne].
    + rewrite list_lookup_insert_eq in Hj by (by eapply lookup_lt_Some).
      injection Hj as <-. done.
    + rewrite list_lookup_insert_ne in Hj by done. by eapply Hs.
  - intros j t' Hj. destruct (decide (i = j)) as [->|Hne].
    + rewrite list_lookup_insert_eq in Hj by (by eapply lookup_lt_Some).
      injection Hj as <-. cbn. by eapply Hf.
    + rewrite list_lookup_insert_ne in Hj by done. by eapply Hf.
Qed.

Lemma inv_mono n m c : n ≤ m → inv n c → inv m c.
Proof. intros Hle [? ? ? ?]. split; [lia|done..]. Qed.

Lemma run_op_inv now o n c :
  inv n c → n < maxint64 → inv (n + 1) (run_op now o c).
Proof.
  intros Hinv Hn. destruct o; cbn [run_op].
  - by apply Pause_inv.
  - by apply Unpause_inv.
  - apply (inv_mono n); [lia|]. by apply Defuse_inv.
  - apply (inv_mono n); [lia|]. by apply Reset_inv.
  - apply (inv_mono n); [lia|]. by apply (fire_inv now i).
Qed.

Lemma fresh_inv now s d f : inv 0 (fresh now s d f).
Proof.
  destruct s; cbn [fresh Strap].
  - apply arm_inv; cbn; [lia|lia|]. intros i t. by rewrite lookup_nil.
  - split; cbn; [lia|lia| |]; intros i t; by rewrite lookup_nil.
Qed.

Lemma run_ops_inv_from h n c :
  inv n c → 0 ≤ n → n + Z.of_nat (length h) ≤ maxint64 →
  inv (n + Z.of_nat (length h)) (run_ops h c).
Proof.
  revert n c. induction h as [|[now o] h IH]; intros n c Hinv Hn Hlen; cbn [run_ops length] in *.
  - by rewrite Z.add_0_r.
  - replace (n + Z.of_nat (S (length h))) with (n + 1 + Z.of_nat (length h)) by lia.
    apply IH; [|lia|lia]. apply run_op_inv; [done|lia].
Qed.

Lemma run_ops_app h1 h2 c : run_ops (h1 ++ h2) c = run_ops h2 (run_ops h1 c).
Proof. revert c. induction h1 as [|[now o] h1 IH]; intros c; [done|]. cbn. apply IH. Qed.

(** ** Histories of pauses *)
Definition is_reset (o : op) : bool := match o with OReset _ => true | _ => false end.

(** Pauses minus unpauses. *)
Fixpoint balance (h : list (Z * op)) : Z :=
  match h with
  | [] => 0
  | (_, OPause) :: h' => 1 + balance h'
  | (_, OUnpause) :: h' => balance h' - 1
  | _ :: h' => balance h'
  end.

(** What a history without [Reset] leaves of a bomb's fields. *)
Lemma run_op_fields now o (c : cell) :
  is_reset o = false → (- maxint64 ≤ pauses c.1 ≤ maxint64 - 1)%Z →
  countdown (run_op now o c).1 = countdown c.1 ∧
  detonate (run_op now o c).1 = detonate c.1 ∧
  pauses (run_op now o c).1 = pauses c.1 + balance [(now, o)] ∧
  (o ≠ ODefuse → defused (run_op now o c).1 = defused c.1) ∧
  (defused c.1 = true → defused (run_op now o c).1 = true).
Proof.
  destruct c as [b ts]. intros Ho Hp. cbn [fst] in Hp.
  destruct o; try done; cbn [run_op balance fst snd].
  - unfold Pause. destruct (timer b); [destruct (Timer.Stop _ _)|];
      cbn; rewrite wraps_small by (unfold minint64, maxint64 in *; lia); split_and!; try done; lia.
  - unfold Unpause. rewrite wraps_small by (unfold minint64, maxint64 in *; lia).
    case_match; cbn; split_and!; try done; lia.
  - unfold Defuse. cbn. destruct (timer b); [destruct (Timer.Stop _ _)|]; cbn;
      split_and!; try done; lia.
  - case_match; [case_match|]; cbn; split_and!; try done; lia.
Qed.

Lemma run_ops_fields h n (c : cell) :
  inv n c → 0 ≤ n → n + Z.of_nat (length h) < maxint64 →
  Forall (λ x, is_reset x.2 = false) h →
  countdown (run_ops h c).1 = countdown c.1 ∧
  detonate (run_ops h c).1 = detonate c.1 ∧
  pauses (run_ops h c).1 = pauses c.1 + balance h ∧
  (Forall (λ x, x.2 ≠ ODefuse) h → defused (run_ops h c).1 = defused c.1) ∧
  (defused c.1 = true → defused (run_ops h c).1 = true).
Proof.
  revert n c. induction h as [|[now o] h IH]; intros n c Hinv Hn Hlen HF.
  { cbn. split_and!; try done; lia. }
  inversion HF as [|? ? Ho HF']; subst. cbn [run_ops length snd] in *.
  pose proof (inv_pauses _ _ Hinv) as Hp.
  destruct (run_op_fields now o c) as (E1 & E2 & E3 & E4 & E5); [done|lia|].
  destruct (IH (n + 1) (run_op now o c)) as (I1 & I2 & I3 & I4 & I5);
    [apply run_op_inv; [done|lia]|lia|lia|done|].
  rewrite I1, I2, I3, E1, E2, E3. split_and!; try done.
  - destruct o; cbn; lia.
  - intros HD. inversion HD; subst. rewrite I4, E4; done.
  - eauto.
Qed.

Lemma quiet_of_no_timer n (c : cell) : inv n c → timer c.1 = None → quiet c.
Proof.
  destruct c as [b ts]. intros Hinv Ht i t Hi.
  by destruct (inv_no_timer _ _ _ Hinv Ht _ _ Hi).
Qed.

Lemma quiet_fire now i (c : cell) : quiet c → fire now i c.2 = None.
Proof.
  intros Hq. unfold fire. destruct (c.2 !! i) as [t|] eqn:Hi; [|done].
  unfold is_active. rewrite bool_decide_false; [done|]. by eapply Hq.
Qed.

(** Operations that never arm a bomb with no countdown, or a defused one,
    leave it with no timer. *)
Lemma run_op_stays_down now o (c : cell) :
  is_reset o = false → timer c.1 = None →
  defused c.1 = true ∨ countdown c.1 = 0 →
  timer (run_op now o c).1 = None ∧
  (defused (run_op now o c).1 = true ∨ countdown (run_op now o c).1 = 0).
Proof.
  destruct c as [b ts]. cbn [fst]. intros Ho Ht Hd.
  destruct o; try done; cbn [run_op fst snd].
  - unfold Pause. rewrite Ht. done.
  - unfold Unpause. cbn [defused countdown set_pauses].
    replace (negb (defused b) && _ && negb (countdown b =? 0)) with false; [done|].
    destruct Hd as [->|Hc]; [done|]. rewrite Hc. cbn. by rewrite andb_false_r.
  - unfold Defuse. cbn. rewrite Ht. cbn. split; [done|by left].
  - case_match; [case_match|]; done.
Qed.

Lemma run_ops_stays_down h (c : cell) :
  Forall (λ x, is_reset x.2 = false) h → timer c.1 = None →
  defused c.1 = true ∨ countdown c.1 = 0 → timer (run_ops h c).1 = None.
Proof.
  revert c. induction h as [|[now o] h IH]; intros c HF Ht Hd; [done|].
  inversion HF; subst. cbn [run_ops].
  destruct (run_op_stays_down now o c) as [Ht' Hd']; [done..|]. by apply IH.
Qed.

Lemma Defuse_timer (c : cell) : timer (Defuse c).2.1 = None ∧ defused (Defuse c).2.1 = true.
Proof.
  destruct c as [b ts]. unfold Defuse. cbn [timer set_defused].
  destruct (timer b); [destruct (Timer.Stop _ _)|]; done.
Qed.

Lemma run_ops_fresh_inv h now0 s d f :
  Z.of_nat (length h) ≤ maxint64 →
  inv (Z.of_nat (length h)) (run_ops h (fresh now0 s d f)).
Proof.
  intros Hlen. apply (run_ops_inv_from h 0); [apply fresh_inv|lia|lia].
Qed.

Lemma fresh_fields now0 s d (f : F) :
  countdown (fresh now0 s d f).1 = d ∧ detonate (fresh now0 s d f).1 = f ∧
  pauses (fresh now0 s d f).1 = 0 ∧ defused (fresh now0 s d f).1 = false.
Proof. by destruct s. Qed.

(** ** Properties *)

(** C25 While a bomb is paused it cannot go off: whatever happened to a bomb
    since it was made (fewer than [2^63] operations), if its pause count is
    positive then no timer it ever made fires, at any instant. *)
Theorem paused_never_detonates h now0 s d (f : F)
    (Hlen : Z.of_nat (length h) ≤ maxint64)
    (Hpaused : 0 < pauses (run_ops h (fresh now0 s d f)).1) :
  ∀ now i, fire now i (run_ops h (fresh now0 s d f)).2 = None.
Proof.
  intros now i. pose proof (run_ops_fresh_inv h now0 s d f Hlen) as Hinv.
  apply quiet_fire. eapply quiet_of_no_timer; [done|]. by apply (inv_paused _ _ Hinv).
Qed.

(** C26 A bomb never has two timers that can go off, and any timer that does go
    off runs the bomb's own callback. *)
Theorem one_live_timer h now0 s d (f : F)
    (Hlen : Z.of_nat (length h) ≤ maxint64) :
  let c := run_ops h (fresh now0 s d f) in
  ∀ now i j g g' ts ts',
    fire now i c.2 = Some (g, ts) → fire now j c.2 = Some (g', ts') → i = j ∧ g = detonate c.1.
Proof.
  intros c now i j g g' ts ts' Hi Hj.
  pose proof (run_ops_fresh_inv h now0 s d f Hlen) as Hinv. fold c in Hinv.
  unfold fire in Hi, Hj.
  destruct (c.2 !! i) as [t|] eqn:Ei; [|done]. destruct (c.2 !! j) as [t'|] eqn:Ej; [|done].
  unfold is_active in *. case_bool_decide; [|done]. case_bool_decide; [|done]. cbn in *.
  pose proof (inv_single _ _ Hinv _ _ Ei ltac:(done)).
  pose proof (inv_single _ _ Hinv _ _ Ej ltac:(done)).
  destruct (t_when t <=? now); [|done]. injection Hi as <- _. split; [congruence|]. by eapply inv_func.
Qed.


(** A defused bomb does not go off: after [Defuse], no later sequence of
    pauses and unpauses can make one of its timers fire. *)
Lemma defused_never_detonates h1 h2 now0 s d (f : F) now1
    (Hlen : Z.of_nat (length h1 + 1 + length h2) ≤ maxint64)
    (Hops : Forall (λ x, is_reset x.2 = false) h2) :
  ∀ now i, fire now i (run_ops (h1 ++ (now1, ODefuse) :: h2) (fresh now0 s d f)).2 = None.
Proof.
  intros now i. apply quiet_fire.
  pose proof (run_ops_fresh_inv (h1 ++ (now1, ODefuse) :: h2) now0 s d f) as Hinv.
  rewrite length_app in Hinv. cbn [length] in Hinv. specialize (Hinv ltac:(lia)).
  eapply quiet_of_no_timer; [done|].
  rewrite run_ops_app. cbn [run_ops run_op].
  destruct (Defuse_timer (run_ops h1 (fresh now0 s d f))) as [Ht Hd].
  apply run_ops_stays_down; [done|done|by left].
Qed.

(** A container without a grace time is never reaped: a bomb made with a
    zero countdown, which [manageBombs] does not strap, never goes off, unless
    it is [Reset]. *)
Lemma zero_countdown_never_detonates h now0 (f : F)
    (Hlen : Z.of_nat (length h) ≤ maxint64)
    (Hops : Forall (λ x, is_reset x.2 = false) h) :
  ∀ now i, fire now i (run_ops h (fresh now0 false 0 f)).2 = None.
Proof.
  intros now i. apply quiet_fire.
  eapply quiet_of_no_timer; [by apply run_ops_fresh_inv|].
  apply run_ops_stays_down; [done|done|by right].
Qed.


End bomb.

(** ** Witnesses *)
Definition nested_pauses : list (Z * op) :=
  [(5, OPause); (6, OPause); (7, OUnpause)].

Lemma paused_never_detonates_witness :
  pauses (run_ops nested_pauses (fresh 0 true 100 tt)).1 = 1 ∧
  ∀ now i, fire now i (run_ops nested_pauses (fresh 0 true 100 tt)).2 = None.
Proof.
  split; [reflexivity|].
  apply (paused_never_detonates nested_pauses 0 true 100 tt); vm_compute; congruence.
Defined.

Lemma one_live_timer_witness :
  Z.of_nat (length nested_pauses) ≤ maxint64 ∧
  let c := run_ops nested_pauses (fresh 0 true 100 tt) in
  ∀ now i j g g' ts ts',
    fire now i c.2 = Some (g, ts) → fire now j c.2 = Some (g', ts') → i = j ∧ g = detonate c.1.
Proof.
  split; [done|]. apply (one_live_timer nested_pauses 0 true 100 tt). done.
Defined.


Lemma defused_never_detonates_witness :
  Forall (λ x, is_reset x.2 = false) [(9, OUnpause)] ∧
  ∀ now i, fire now i (run_ops (nested_pauses ++ (8, ODefuse) :: [(9, OUnpause)])
                         (fresh 0 true 100 tt)).2 = None.
Proof.
  split; [repeat constructor|].
  apply (defused_never_detonates nested_pauses [(9, OUnpause)] 0 true 100 tt 8);
    [vm_compute; congruence|]. repeat constructor.
Defined.

Lemma zero_countdown_never_detonates_witness :
  Forall (λ x, is_reset x.2 = false) [(1, OPause); (2, OUnpause)] ∧
  ∀ now i, fire now i (run_ops [(1, OPause); (2, OUnpause)] (fresh 0 false 0 tt)).2 = None.
Proof.
  split; [repeat constructor|].
  apply (zero_countdown_never_detonates [(1, OPause); (2, OUnpause)] 0 tt);
    [vm_compute; congruence|]. repeat constructor.
Defined.


Arguments TimeBomb : clear implicits.
End Timebomb.
