(* ===== verification/Bomberman.v ===== *)
(** * The bomberman (server/bomberman/bomberman.go)

    One goroutine, [manageBombs], owns a map from container handles to time
    bombs and serves one channel message at a time; the exported methods only
    send messages.  The state is that map, whose values are pointers, and the
    heap of the bombs it ever made: a bomb the map no longer reaches still has
    its timers in the runtime. *)
From S2P Require Import Prelude Types Timebomb.

#[local] Open Scope Z_scope.

Module Bomberman.
Import Timer Timebomb.

Section bomberman.
(** The backend's containers, as far as this component looks at them. *)
Context {C : Type} (Handle : C → string).

(** The messages of the four channels; a [bomb] carries the container or the
    handle its action uses. *)
Inductive bomb :=
| strap (container : C)
| defuse (handle : string)
| reset (container : C).

Inductive message :=
| MBomb (b : bomb)
| MPause (name : string)
| MUnpause (name : string)
| MCleanup (name : string).

Record Bomberman := mk_Bomberman {
  timeBombs : gmap string nat;
  heap : list (TimeBomb C * list (Timer.timer C));
}.

Definition New : Bomberman := mk_Bomberman ∅ [].

(** The exported methods: each sends one message. *)
Definition Strap (c : C) : message := MBomb (strap c).
Definition Pause (name : string) : message := MPause name.
Definition Unpause (name : string) : message := MUnpause name.
Definition Defuse (name : string) : message := MBomb (defuse name).
Definition Reset (c : C) : message := MBomb (reset c).

(** Calling a method of the bomb a handle maps to; [continue] when the handle
    is not found. *)
Definition on_bomb (h : string)
    (f : TimeBomb C * list (Timer.timer C) → TimeBomb C * list (Timer.timer C))
    (b : Bomberman) : Bomberman :=
  match timeBombs b !! h with
  | None => b
  | Some p => mk_Bomberman (timeBombs b) (alter f p (heap b))
  end.

(** One iteration of [manageBombs]: [now] is the clock and [graceTime] what
    [b.backend.GraceTime] answers while the message is served.  The callback
    of a bomb is determined by the container it captures. *)
Definition manageBombs (now : Z) (graceTime : C → Duration) (m : message)
    (b : Bomberman) : Bomberman :=
  match m with
  | MBomb (strap container) =>
      let p := length (heap b) in
      let bomb := Timebomb.New (graceTime container) container in
      let cell := if graceTime container =? 0 then (bomb, []) else Timebomb.Strap now (bomb, []) in
      mk_Bomberman (<[Handle container := p]> (timeBombs b)) (heap b ++ [cell])
  | MBomb (defuse handle) =>
      match timeBombs b !! handle with
      | None => b
      | Some _ =>
          let b' := on_bomb handle (λ c, (Timebomb.Defuse c).2) b in
          mk_Bomberman (delete handle (timeBombs b')) (heap b')
      end
  | MBomb (reset container) =>
      on_bomb (Handle container) (Timebomb.Reset now (graceTime container)) b
  | MPause handle => on_bomb handle (λ c, (Timebomb.Pause c).2) b
  | MUnpause handle => on_bomb handle (Timebomb.Unpause now) b
  | MCleanup handle => mk_Bomberman (delete handle (timeBombs b)) (heap b)
  end.

(** The runtime runs the callback of timer [i] of the bomb at [p]: the
    container that [b.detonate] gets.  The callback then sends
    [MCleanup (Handle c)]. *)
Definition explode (now : Z) (p i : nat) (b : Bomberman) : option (C * Bomberman) :=
  match heap b !! p with
  | None => None
  | Some (tb, ts) =>
      match fire now i ts with
      | None => None
      | Some (c, ts') => Some (c, mk_Bomberman (timeBombs b) (<[p := (tb, ts')]> (heap b)))
      end
  end.

(** ** The contract *)

(** What the bomberman promises about one handle: the grace time its container
    is under, how many requests hold it, and the alarm that is set, with its
    instant and whether it is still to come. *)
Record track := mk_track {
  tr_container : C;
  tr_grace : Duration;
  tr_holds : Z;
  tr_alarm : option (Z * status);
}.

Definition set_alarm (now : Z) (t : track) : track :=
  mk_track (tr_container t) (tr_grace t) (tr_holds t)
    (Some (when now (tr_grace t), Active)).

(** The contract as a machine on handles alone, with no pointers, no timers
    and no heap. *)
Definition spec_step (now : Z) (graceTime : C → Duration) (m : message)
    (s : gmap string track) : gmap string track :=
  match m with
  | MBomb (strap c) =>
      let t := mk_track c (graceTime c) 0 None in
      <[Handle c := if graceTime c =? 0 then t else set_alarm now t]> s
  | MBomb (defuse h) => delete h s
  | MBomb (reset c) =>
      alter (λ t,
        let t' := mk_track (tr_container t) (graceTime c) (tr_holds t) (tr_alarm t) in
        if bool_decide (is_Some (tr_alarm t)) || (tr_holds t =? 0)
        then set_alarm now t' else t') (Handle c) s
  | MPause h =>
      alter (λ t, mk_track (tr_container t) (tr_grace t) (wraps 64 (tr_holds t + 1)) None) h s
  | MUnpause h =>
      alter (λ t,
        let t' := mk_track (tr_container t) (tr_grace t) (wraps 64 (tr_holds t - 1)) (tr_alarm t) in
        if (tr_holds t' =? 0) && negb (tr_grace t =? 0) then set_alarm now t' else t') h s
  | MCleanup h => delete h s
  end.

(** The abstraction: what a bomb's cell says of its handle. *)
Definition track_of (c : TimeBomb C * list (Timer.timer C)) : track :=
  mk_track (detonate c.1) (countdown c.1) (pauses c.1)
    (i ← timer c.1; t ← c.2 !! i; Some (t_when t, t_status t)).

Definition abs (b : Bomberman) : gmap string track :=
  omap (λ p, track_of <$> heap b !! p) (timeBombs b).

(** ** Well-formed states *)
Record wf (n : Z) (b : Bomberman) : Prop := {
  (** every pointer of the map is a bomb of that handle, not defused *)
  wf_ptr : ∀ h p, timeBombs b !! h = Some p →
    ∃ c, heap b !! p = Some c ∧ Handle (detonate c.1) = h ∧ defused c.1 = false;
  (** every bomb satisfies the time bomb invariant, and holds a timer it made *)
  wf_cell : ∀ p c, heap b !! p = Some c →
    inv n c ∧ ∀ i, timer c.1 = Some i → is_Some (c.2 !! i);
}.

Lemma wf_inj n b h1 h2 p :
  wf n b → timeBombs b !! h1 = Some p → timeBombs b !! h2 = Some p → h1 = h2.
Proof.
  intros Hwf H1 H2. apply (wf_ptr _ _ Hwf) in H1 as (c1 & Hc1 & <- & _).
  apply (wf_ptr _ _ Hwf) in H2 as (c2 & Hc2 & <- & _). congruence.
Qed.

Lemma wf_mono n m b : n ≤ m → wf n b → wf m b.
Proof.
  intros Hle [Hp Hc]. split; [done|]. intros p c Hpc.
  destruct (Hc p c Hpc) as [? ?]. split; [by eapply inv_mono|done].
Qed.

(** ** Timers a bomb holds exist *)
Definition held (c : TimeBomb C * list (Timer.timer C)) : Prop :=
  ∀ i, timer c.1 = Some i → is_Some (c.2 !! i).

Lemma held_none c : timer c.1 = None → held c.
Proof. intros Hn i Hi. congruence. Qed.

Lemma Stop_is_Some i (ts : list (Timer.timer C)) j :
  is_Some (ts !! j) → is_Some ((Timer.Stop i ts).2 !! j).
Proof.
  intros [t Hj]. unfold Timer.Stop. destruct (ts !! i) as [t0|] eqn:Hi; [|by eexists].
  destruct (is_active t0); [|by eexists]. cbn.
  destruct (decide (i = j)) as [->|]; [|rewrite list_lookup_insert_ne by done; by eexists].
  rewrite list_lookup_insert_eq by (by eapply lookup_lt_Some). by eexists.
Qed.

Lemma arm_held now c : held (arm now c).
Proof.
  destruct c as [tb ts]. intros i [= <-]. cbn.
  rewrite lookup_app_r, Nat.sub_diag by lia. by eexists.
Qed.

Lemma Pause_held c : held (Timebomb.Pause c).2.
Proof.
  destruct c as [tb ts]. unfold Timebomb.Pause.
  destruct (timer tb); [destruct (Timer.Stop _ _)|]; by apply held_none.
Qed.

Lemma Unpause_held now c : held c → held (Timebomb.Unpause now c).
Proof.
  destruct c as [tb ts]. intros Hh. unfold Timebomb.Unpause.
  destruct (_ && _ && _); [apply arm_held|]. done.
Qed.

Lemma Reset_held now d c : held c → held (Timebomb.Reset now d c).
Proof.
  destruct c as [tb ts]. intros Hh. unfold Timebomb.Reset. cbn [timer set_countdown].
  destruct (timer tb) as [i|] eqn:Ht; [apply arm_held|].
  case_match; [apply arm_held|]. by apply held_none.
Qed.
(** ** Every message keeps a state well formed *)
Lemma on_bomb_wf n m h f b :
  wf n b → n ≤ m →
  (∀ c, inv n c → held c → defused c.1 = false →
    inv m (f c) ∧ held (f c) ∧ detonate (f c).1 = detonate c.1 ∧ defused (f c).1 = false) →
  wf m (on_bomb h f b).
Proof.
  intros Hwf Hle Hf. unfold on_bomb.
  destruct (timeBombs b !! h) as [p|] eqn:Hp; [|by apply (wf_mono n)].
  destruct (wf_ptr _ _ Hwf _ _ Hp) as (c & Hc & Hh & Hd).
  destruct (wf_cell _ _ Hwf _ _ Hc) as [Hi Hheld].
  destruct (Hf c Hi Hheld Hd) as (F1 & F2 & F3 & F4).
  split; cbn.
  - intros h' p' Hp'. destruct (decide (p' = p)) as [->|Hne].
    + exists (f c). rewrite list_lookup_alter_eq, Hc. split_and!; try done.
      rewrite F3. rewrite Hh. by eapply wf_inj.
    + rewrite list_lookup_alter_ne by done. by apply (wf_ptr _ _ Hwf).
  - intros p' c' Hp'. destruct (decide (p' = p)) as [->|Hne].
    + rewrite list_lookup_alter_eq, Hc in Hp'. injection Hp' as <-. done.
    + rewrite list_lookup_alter_ne in Hp' by done.
      destruct (wf_cell _ _ Hwf _ _ Hp') as [? ?]. split; [by eapply inv_mono|done].
Qed.

Lemma delete_wf n h b : wf n b → wf n (mk_Bomberman (delete h (timeBombs b)) (heap b)).
Proof.
  intros Hwf. split; cbn; [|apply (wf_cell _ _ Hwf)].
  intros h' p [Hne Hp]%lookup_delete_Some. by apply (wf_ptr _ _ Hwf).
Qed.

Lemma strap_wf n now d c b :
  wf n b → 0 ≤ n →
  wf n (mk_Bomberman (<[Handle c := length (heap b)]> (timeBombs b))
          (heap b ++ [fresh now (negb (d =? 0)) d c])).
Proof.
  intros Hwf Hn. destruct (fresh_fields now (negb (d =? 0)) d c) as (_ & F2 & _ & F4).
  split; cbn.
  - intros h p [[<- <-]|[Hne Hp]]%lookup_insert_Some.
    + exists (fresh now (negb (d =? 0)) d c).
      rewrite lookup_app_r, Nat.sub_diag by lia. by rewrite F2.
    + destruct (wf_ptr _ _ Hwf _ _ Hp) as (c' & Hc' & ?). exists c'.
      by rewrite lookup_app_l by (by eapply lookup_lt_Some).
  - intros p c' [Hp|[_ Hp]]%lookup_app_Some; [by apply (wf_cell _ _ Hwf p)|].
    apply list_lookup_singleton_Some in Hp as [_ <-]. split.
    + apply (inv_mono 0); [done|]. apply fresh_inv.
    + destruct (d =? 0); [by apply held_none|apply arm_held].
Qed.

Lemma fresh_strap now d (c : C) :
  (if d =? 0 then (Timebomb.New d c, []) else Timebomb.Strap now (Timebomb.New d c, []))
  = fresh now (negb (d =? 0)) d c.
Proof. by destruct (d =? 0). Qed.

Lemma manageBombs_wf n now gt m b :
  wf n b → 0 ≤ n < maxint64 → wf (n + 1) (manageBombs now gt m b).
Proof.
  intros Hwf Hn. destruct m as [[c|h|c]|h|h|h]; cbn [manageBombs].
  - rewrite fresh_strap. apply (wf_mono n); [lia|]. apply strap_wf; [done|lia].
  - destruct (timeBombs b !! h) as [p|] eqn:Hp; [|by apply (wf_mono n); [lia|]].
    unfold on_bomb. rewrite Hp. cbn. split; cbn.
    + intros h' p' [Hne Hp']%lookup_delete_Some.
      rewrite list_lookup_alter_ne; [|intros ->; by apply Hne; eapply wf_inj].
      by apply (wf_ptr _ _ Hwf).
    + intros p' c' Hp'. destruct (decide (p' = p)) as [->|Hne].
      * rewrite list_lookup_alter_eq in Hp'.
        destruct (heap b !! p) as [c|] eqn:Hc; [|done]. injection Hp' as <-.
        destruct (wf_cell _ _ Hwf _ _ Hc) as [Hi _]. split.
        -- apply (inv_mono n); [lia|]. by apply Defuse_inv.
        -- apply held_none. apply Defuse_timer.
      * rewrite list_lookup_alter_ne in Hp' by done.
        destruct (wf_cell _ _ Hwf _ _ Hp') as [? ?].
        split; [by apply (inv_mono n); [lia|]|done].
  - apply (on_bomb_wf n); [done|lia|]. intros [tb ts] Hi Hh Hd. split_and!.
    + apply (inv_mono n); [lia|]. by apply Reset_inv.
    + by apply Reset_held.
    + unfold Timebomb.Reset. by case_match.
    + unfold Timebomb.Reset. by case_match.
  - apply (on_bomb_wf n); [done|lia|]. intros [tb ts] Hi Hh Hd. split_and!.
    + apply Pause_inv; [done|lia].
    + apply Pause_held.
    + unfold Timebomb.Pause. destruct (timer tb); [by destruct (Timer.Stop _ _)|done].
    + unfold Timebomb.Pause. destruct (timer tb); [by destruct (Timer.Stop _ _)|done].
  - apply (on_bomb_wf n); [done|lia|]. intros [tb ts] Hi Hh Hd. split_and!.
    + apply Unpause_inv; [done|lia].
    + by apply Unpause_held.
    + unfold Timebomb.Unpause. by case_match.
    + unfold Timebomb.Unpause. by case_match.
  - apply (wf_mono n); [lia|]. by apply delete_wf.
Qed.

Lemma New_wf : wf 0 New.
Proof. split; cbn; intros ? ?; [by rewrite lookup_empty|by rewrite lookup_nil]. Qed.

(** ** The messages implement the contract *)
Lemma abs_lookup b h :
  abs b !! h = p ← timeBombs b !! h; track_of <$> heap b !! p.
Proof. unfold abs. by rewrite lookup_omap. Qed.

Lemma on_bomb_abs n h f g b :
  wf n b →
  (∀ c, inv n c → held c → defused c.1 = false → track_of (f c) = g (track_of c)) →
  abs (on_bomb h f b) = alter g h (abs b).
Proof.
  intros Hwf Hfg. apply map_eq. intros h'. unfold on_bomb.
  destruct (timeBombs b !! h) as [p|] eqn:Hp.
  - destruct (wf_ptr _ _ Hwf _ _ Hp) as (c & Hc & _ & Hd).
    destruct (wf_cell _ _ Hwf _ _ Hc) as [Hi Hheld].
    destruct (decide (h' = h)) as [->|Hne].
    + rewrite lookup_alter_eq, !abs_lookup. cbn. rewrite Hp. cbn.
      rewrite list_lookup_alter_eq, Hc. cbn. by rewrite Hfg.
    + rewrite lookup_alter_ne, !abs_lookup by done. cbn.
      destruct (timeBombs b !! h') as [p'|] eqn:Hp'; [|done]. cbn.
      rewrite list_lookup_alter_ne; [done|]. intros ->. apply Hne. by eapply wf_inj.
  - destruct (decide (h' = h)) as [->|Hne]; [|by rewrite lookup_alter_ne].
    rewrite lookup_alter_eq, abs_lookup, Hp. done.
Qed.

Lemma delete_abs h m hp :
  abs (mk_Bomberman (delete h m) hp) = delete h (abs (mk_Bomberman m hp)).
Proof.
  apply map_eq. intros h'. destruct (decide (h' = h)) as [->|Hne].
  - rewrite lookup_delete_eq, abs_lookup. cbn. by rewrite lookup_delete_eq.
  - rewrite lookup_delete_ne, !abs_lookup by done. cbn. by rewrite lookup_delete_ne.
Qed.

Lemma track_arm now c :
  track_of (arm now c) = set_alarm now (track_of c).
Proof.
  destruct c as [tb ts]. unfold track_of, set_alarm. cbn.
  by rewrite lookup_app_r, Nat.sub_diag by lia.
Qed.

Lemma track_Pause c :
  track_of (Timebomb.Pause c).2 =
    mk_track (tr_container (track_of c)) (tr_grace (track_of c))
      (wraps 64 (tr_holds (track_of c) + 1)) None.
Proof.
  destruct c as [tb ts]. unfold Timebomb.Pause.
  destruct (timer tb); [by destruct (Timer.Stop _ _)|done].
Qed.

Lemma track_Unpause now c :
  defused c.1 = false →
  track_of (Timebomb.Unpause now c) =
    let t := track_of c in
    let t' := mk_track (tr_container t) (tr_grace t) (wraps 64 (tr_holds t - 1)) (tr_alarm t) in
    if (tr_holds t' =? 0) && negb (tr_grace t =? 0) then set_alarm now t' else t'.
Proof.
  destruct c as [tb ts]. cbn [fst]. intros Hd. unfold Timebomb.Unpause.
  cbn [defused set_pauses pauses countdown]. rewrite Hd. cbn [negb andb].
  destruct (_ && _); [|done]. rewrite track_arm. done.
Qed.

Lemma track_Reset now d c :
  held c →
  track_of (Timebomb.Reset now d c) =
    let t := track_of c in
    let t' := mk_track (tr_container t) d (tr_holds t) (tr_alarm t) in
    if bool_decide (is_Some (tr_alarm t)) || (tr_holds t =? 0) then set_alarm now t' else t'.
Proof.
  destruct c as [tb ts]. intros Hh. unfold Timebomb.Reset.
  cbn [timer set_countdown pauses].
  assert (bool_decide (is_Some (tr_alarm (track_of (tb, ts)))) = bool_decide (is_Some (timer tb))) as ->.
  { apply bool_decide_ext. cbn. destruct (timer tb) as [i|] eqn:Ht; cbn; [|split; by intros [? ?]].
    destruct (Hh i Ht) as [t Hi]. cbn in Hi. rewrite Hi. cbn. split; by eexists. }
  cbv zeta. change (tr_holds (track_of (tb, ts))) with (pauses tb).
  destruct (_ || _) eqn:E; [by rewrite track_arm|].
  apply orb_false_elim in E as [E _]. apply bool_decide_eq_false in E.
  destruct (timer tb) as [i|] eqn:Ht; [exfalso; eauto|].
  unfold track_of. cbn. by rewrite Ht.
Qed.

Lemma strap_abs n now d c b :
  wf n b →
  abs (mk_Bomberman (<[Handle c := length (heap b)]> (timeBombs b))
         (heap b ++ [fresh now (negb (d =? 0)) d c]))
  = <[Handle c := if d =? 0 then mk_track c d 0 None
                  else set_alarm now (mk_track c d 0 None)]> (abs b).
Proof.
  intros Hwf. apply map_eq. intros h. destruct (decide (h = Handle c)) as [->|Hne].
  - rewrite lookup_insert_eq, abs_lookup. cbn. rewrite lookup_insert_eq. cbn.
    rewrite lookup_app_r, Nat.sub_diag by lia.
    change ([?x] !! 0%nat) with (Some x).
    destruct (d =? 0); [done|]. cbn [negb fresh]. unfold Timebomb.Strap.
    change (track_of <$> Some ?x) with (Some (track_of x)). by rewrite track_arm.
  - rewrite lookup_insert_ne, !abs_lookup by done. cbn. rewrite lookup_insert_ne by done.
    destruct (timeBombs b !! h) as [p|] eqn:Hp; [|done]. cbn.
    destruct (wf_ptr _ _ Hwf _ _ Hp) as (c' & Hc' & _).
    by rewrite lookup_app_l by (by eapply lookup_lt_Some).
Qed.

Lemma manageBombs_abs n now gt m b :
  wf n b → abs (manageBombs now gt m b) = spec_step now gt m (abs b).
Proof.
  intros Hwf. destruct m as [[c|h|c]|h|h|h]; cbn [manageBombs spec_step].
  - rewrite fresh_strap. by apply (strap_abs n).
  - destruct (timeBombs b !! h) as [p|] eqn:Hp.
    + unfold on_bomb. rewrite Hp. cbn [timeBombs heap]. rewrite delete_abs. apply map_eq. intros h'.
      destruct (decide (h' = h)) as [->|Hne]; [by rewrite !lookup_delete_eq|].
      rewrite !lookup_delete_ne, !abs_lookup by done. cbn.
      destruct (timeBombs b !! h') as [p'|] eqn:Hp'; [|done]. cbn.
      rewrite list_lookup_alter_ne; [done|]. intros ->. apply Hne. by eapply wf_inj.
    + rewrite delete_id; [done|]. by rewrite abs_lookup, Hp.
  - eapply on_bomb_abs; [done|]. intros. by apply track_Reset.
  - eapply on_bomb_abs; [done|]. intros. apply track_Pause.
  - eapply on_bomb_abs; [done|]. intros. by apply track_Unpause.
  - rewrite delete_abs. by destruct b.
Qed.

(** ** Histories *)

(** What happens to the bomberman: it serves a message, or the runtime runs
    the callback of a timer; each with its instant and the grace times the
    backend answers then. *)
Inductive event :=
| EMessage (m : message)
| EExplode (p i : nat).

Definition run_event (now : Z) (gt : C → Duration) (e : event) (b : Bomberman) : Bomberman :=
  match e with
  | EMessage m => manageBombs now gt m b
  | EExplode p i => match explode now p i b with Some (_, b') => b' | None => b end
  end.

Fixpoint run_events (h : list (Z * (C → Duration) * event)) (b : Bomberman) : Bomberman :=
  match h with
  | [] => b
  | (now, gt, e) :: h' => run_events h' (run_event now gt e b)
  end.

Lemma explode_Some now p i b c b' :
  explode now p i b = Some (c, b') →
  ∃ tb ts t, heap b !! p = Some (tb, ts) ∧ ts !! i = Some t ∧ t_status t = Active ∧
    t_when t ≤ now ∧ c = t_f t ∧
    b' = mk_Bomberman (timeBombs b) (<[p := (tb, <[i := set_status Fired t]> ts)]> (heap b)).
Proof.
  unfold explode, fire, is_active. destruct (heap b !! p) as [[tb ts]|]; [|done].
  destruct (ts !! i) as [t|] eqn:Hi; [|done].
  case_bool_decide; cbn; [|done]. destruct (Z.leb_spec (t_when t) now); [|done].
  intros [= <- <-]. eauto 10.
Qed.

Lemma fire_due now i (ts : list (Timer.timer C)) t :
  ts !! i = Some t → t_status t = Active → t_when t ≤ now →
  fire now i ts = Some (t_f t, <[i := set_status Fired t]> ts).
Proof.
  intros Hi Ha Hw. unfold fire, is_active. rewrite Hi, bool_decide_true by done. cbn.
  by rewrite (proj2 (Z.leb_le _ _) Hw).
Qed.

Lemma explode_wf n now p i b c b' : wf n b → explode now p i b = Some (c, b') → wf n b'.
Proof.
  intros Hwf (tb & ts & t & Hp & Hi & Ha & Hw & -> & ->)%explode_Some.
  destruct (wf_cell _ _ Hwf _ _ Hp) as [Hinv Hheld].
  pose proof (fire_inv now i n _ Hinv) as Hinv'. unfold run_op in Hinv'. cbn [fst snd] in Hinv'.
  rewrite (fire_due _ _ _ _ Hi Ha Hw) in Hinv'.
  assert (Hlt : (p < length (heap b))%nat) by (by eapply lookup_lt_Some).
  split; cbn.
  - intros h q Hq. destruct (wf_ptr _ _ Hwf _ _ Hq) as (c' & Hc' & ? & ?).
    destruct (decide (q = p)) as [->|Hne].
    + rewrite list_lookup_insert_eq by done. rewrite Hp in Hc'. injection Hc' as <-.
      by eexists.
    + rewrite list_lookup_insert_ne by done. by exists c'.
  - intros q c' Hq. destruct (decide (q = p)) as [->|Hne].
    + rewrite list_lookup_insert_eq in Hq by done. injection Hq as <-. split; [done|].
      intros j Hj. cbn in *. destruct (decide (i = j)) as [->|].
      * rewrite list_lookup_insert_eq by (by eapply lookup_lt_Some). by eexists.
      * rewrite list_lookup_insert_ne by done. by apply Hheld.
    + rewrite list_lookup_insert_ne in Hq by done. by apply (wf_cell _ _ Hwf q).
Qed.

Lemma run_event_wf n now gt e b :
  wf n b → 0 ≤ n < maxint64 → wf (n + 1) (run_event now gt e b).
Proof.
  intros Hwf Hn. destruct e as [m|p i]; cbn; [by apply manageBombs_wf|].
  apply (wf_mono n); [lia|]. destruct (explode now p i b) as [[c b']|] eqn:He; [|done].
  by eapply explode_wf.
Qed.

Lemma run_events_wf h n b :
  wf n b → 0 ≤ n → n + Z.of_nat (length h) ≤ maxint64 →
  wf (n + Z.of_nat (length h)) (run_events h b).
Proof.
  revert n b. induction h as [|[[now gt] e] h IH]; intros n b Hwf Hn Hlen;
    cbn [run_events length] in *.
  - by rewrite Z.add_0_r.
  - replace (n + Z.of_nat (S (length h))) with (n + 1 + Z.of_nat (length h)) by lia.
    apply IH; [|lia|lia]. apply run_event_wf; [done|lia].
Qed.

(** ** Bombs out of reach *)

(** A bomb with a timer that can still go off, and the states in which every
    such bomb is in the map. *)
Definition live (c : TimeBomb C * list (Timer.timer C)) : Prop :=
  ∃ i t, c.2 !! i = Some t ∧ t_status t = Active.

Definition reachable_bombs (b : Bomberman) : Prop :=
  ∀ p c, heap b !! p = Some c → live c → ∃ h, timeBombs b !! h = Some p.

(** The order of events the server keeps when no handle is reused while its
    old bomb is still armed: a container is strapped, and a handle cleaned up,
    only when the bomb the handle maps to, if any, cannot go off. *)
Definition disciplined (e : event) (b : Bomberman) : Prop :=
  match e with
  | EMessage (MBomb (strap c)) =>
      ∀ p x, timeBombs b !! Handle c = Some p → heap b !! p = Some x → ¬ live x
  | EMessage (MCleanup h) =>
      ∀ p x, timeBombs b !! h = Some p → heap b !! p = Some x → ¬ live x
  | _ => True
  end.

Fixpoint disciplined_run (h : list (Z * (C → Duration) * event)) (b : Bomberman) : Prop :=
  match h with
  | [] => True
  | (now, gt, e) :: h' => disciplined e b ∧ disciplined_run h' (run_event now gt e b)
  end.

Lemma on_bomb_reachable h f b : reachable_bombs b → reachable_bombs (on_bomb h f b).
Proof.
  intros Hr. unfold on_bomb. destruct (timeBombs b !! h) as [p|] eqn:Hp; [|done].
  intros q c Hq Hl. cbn in *. destruct (decide (q = p)) as [->|Hne]; [by exists h|].
  rewrite list_lookup_alter_ne in Hq by done. by eapply Hr.
Qed.

Lemma run_event_reachable n now gt e b :
  wf n b → reachable_bombs b → disciplined e b → reachable_bombs (run_event now gt e b).
Proof.
  intros Hwf Hr Hd. destruct e as [[[c|h|c]|h|h|h]|p i]; cbn [run_event manageBombs].
  - intros q x Hq Hl. cbn in *. apply lookup_app_Some in Hq as [Hq|[Hge Hq]].
    + destruct (Hr q x Hq Hl) as [h Hh]. exists h. rewrite lookup_insert_ne; [done|].
      intros <-. by eapply Hd.
    + apply list_lookup_singleton_Some in Hq as [Hz _]. exists (Handle c).
      rewrite lookup_insert_eq. f_equal. lia.
  - destruct (timeBombs b !! h) as [p|] eqn:Hp; [|done].
    unfold on_bomb. rewrite Hp. cbn. intros q x Hq Hl. cbn in *.
    destruct (decide (q = p)) as [->|Hne].
    + rewrite list_lookup_alter_eq in Hq. destruct (heap b !! p) as [c|] eqn:Hc; [|done].
      injection Hq as <-. exfalso. destruct Hl as (i & t & Hi & Ha).
      destruct (wf_cell _ _ Hwf _ _ Hc) as [Hinv _].
      eapply quiet_of_no_timer; [by apply Defuse_inv|apply Defuse_timer|done|done].
    + rewrite list_lookup_alter_ne in Hq by done.
      destruct (Hr q x Hq Hl) as [h' Hh']. exists h'. rewrite lookup_delete_ne; [done|].
      intros <-. congruence.
  - by apply on_bomb_reachable.
  - by apply on_bomb_reachable.
  - by apply on_bomb_reachable.
  - intros q x Hq Hl. cbn in *. destruct (Hr q x Hq Hl) as [h' Hh']. exists h'.
    rewrite lookup_delete_ne; [done|]. intros <-. by eapply Hd.
  - destruct (explode now p i b) as [[c b']|] eqn:He; [|done].
    apply explode_Some in He as (tb & ts & t & Hp & Hi & Ha & _ & _ & ->).
    intros q x Hq Hl. cbn in *. destruct (decide (q = p)) as [->|Hne].
    + apply (Hr p (tb, ts)); [done|]. by exists i, t.
    + rewrite list_lookup_insert_ne in Hq by done. by eapply Hr.
Qed.

Lemma run_events_reachable h n b :
  wf n b → 0 ≤ n → n + Z.of_nat (length h) ≤ maxint64 →
  reachable_bombs b → disciplined_run h b → reachable_bombs (run_events h b).
Proof.
  revert n b. induction h as [|[[now gt] e] h IH]; intros n b Hwf Hn Hlen Hr Hd; [done|].
  cbn [run_events length disciplined_run] in *. destruct Hd as [Hd1 Hd2].
  apply (IH (n + 1)); [|lia|lia| |done].
  - apply run_event_wf; [done|lia].
  - by eapply run_event_reachable.
Qed.

Lemma run_events_app h1 h2 b : run_events (h1 ++ h2) b = run_events h2 (run_events h1 b).
Proof. revert b. induction h1 as [|[[now gt] e] h1 IH]; intros b; [done|]. cbn. apply IH. Qed.

(** The handle a message is about. *)
Definition message_handle (m : message) : string :=
  match m with
  | MBomb (strap c) | MBomb (reset c) => Handle c
  | MBomb (defuse h) | MPause h | MUnpause h | MCleanup h => h
  end.

Lemma spec_step_other now gt m s h :
  message_handle m ≠ h → spec_step now gt m s !! h = s !! h.
Proof.
  intros Hne. destruct m as [[c|h'|c]|h'|h'|h']; cbn in *;
    rewrite ?lookup_insert_ne, ?lookup_delete_ne, ?lookup_alter_ne by done; done.
Qed.

Lemma run_events_New_wf h :
  Z.of_nat (length h) ≤ maxint64 → wf (Z.of_nat (length h)) (run_events h New).
Proof. intros Hlen. apply (run_events_wf h 0); [apply New_wf|lia|lia]. Qed.

Lemma New_reachable : reachable_bombs New.
Proof. intros p c Hp. cbn in Hp. by rewrite lookup_nil in Hp. Qed.

(** ** Properties *)

(** C3 [manageBombs] implements its contract: from any state the bomberman
    reaches (fewer than [2^63] events), serving a message changes what it
    promises about the handles exactly as the abstract machine [spec_step]
    says, and changes nothing about any handle but the message's. *)
Theorem manageBombs_refines h now gt m
    (Hlen : Z.of_nat (length h) ≤ maxint64) :
  let b := run_events h New in
  abs (manageBombs now gt m b) = spec_step now gt m (abs b) ∧
  ∀ h', message_handle m ≠ h' → abs (manageBombs now gt m b) !! h' = abs b !! h'.
Proof.
  intros b. pose proof (run_events_New_wf h Hlen) as Hwf. fold b in Hwf.
  rewrite (manageBombs_abs _ _ _ _ _ Hwf). split; [done|]. intros. by apply spec_step_other.
Qed.


(** ** One handle *)

(** Every bomb of a handle that can still go off is the one the map has for it. *)
Definition reaches (hd : string) (b : Bomberman) : Prop :=
  ∀ p c, heap b !! p = Some c → live c → Handle (detonate c.1) = hd → timeBombs b !! hd = Some p.

Lemma reachable_reaches n hd b : wf n b → reachable_bombs b → reaches hd b.
Proof.
  intros Hwf Hr p c Hp Hl Hhd. destruct (Hr p c Hp Hl) as [h Hh].
  destruct (wf_ptr _ _ Hwf _ _ Hh) as (x & Hx & Hhx & _). rewrite Hp in Hx. by simplify_eq.
Qed.

Lemma held_no_explosion n hd b t :
  wf n b → reaches hd b → abs b !! hd = Some t → 0 < tr_holds t →
  ∀ now p i c b', explode now p i b = Some (c, b') → Handle c ≠ hd.
Proof.
  intros Hwf Hr Htrack Hbusy now p i c b' He Heq.
  destruct (explode_Some _ _ _ _ _ _ He) as (tb & ts & t' & Hp & Hi & Ha & _ & Hc & _).
  destruct (wf_cell _ _ Hwf _ _ Hp) as [Hinv _].
  pose proof (inv_func _ _ Hinv i t' Hi) as Hfn. cbn in Hfn.
  assert (timeBombs b !! hd = Some p) as Hh' by (apply (Hr p (tb, ts)); [done|by exists i, t'|cbn; congruence]).
  rewrite abs_lookup, Hh' in Htrack. cbn in Htrack. rewrite Hp in Htrack.
  injection Htrack as <-. cbn in Hbusy.
  pose proof (inv_paused _ _ Hinv Hbusy) as Hn. cbn in Hn.
  pose proof (inv_single _ _ Hinv i t' Hi Ha) as Hs. cbn in Hs. congruence.
Qed.

(** A message that neither straps, defuses nor forgets the handle. *)
Definition gentle (hd : string) (m : message) : Prop :=
  match m with
  | MBomb (strap c) => Handle c ≠ hd
  | MBomb (defuse h) | MCleanup h => h ≠ hd
  | _ => True
  end.

Lemma on_bomb_reaches n h f b hd :
  wf n b → (∀ c, detonate (f c).1 = detonate c.1) → reaches hd b → reaches hd (on_bomb h f b).
Proof.
  intros Hwf Hf Hr. unfold on_bomb. destruct (timeBombs b !! h) as [p|] eqn:Hp; [|done].
  intros q c Hq Hl Hhd. cbn in *. destruct (decide (q = p)) as [->|Hne].
  - rewrite list_lookup_alter_eq in Hq. destruct (heap b !! p) as [c0|] eqn:Hc0; [|done].
    injection Hq as <-. rewrite Hf in Hhd. destruct (wf_ptr _ _ Hwf _ _ Hp) as (x & Hx & Hhx & _).
    rewrite Hc0 in Hx. by simplify_eq.
  - rewrite list_lookup_alter_ne in Hq by done. by eapply Hr.
Qed.

Lemma forget_reaches h hp m hd :
  h ≠ hd → reaches hd (mk_Bomberman m hp) → reaches hd (mk_Bomberman (delete h m) hp).
Proof. intros Hne Hr p c Hp Hl Hhd. cbn. rewrite lookup_delete_ne by done. by eapply Hr. Qed.

Lemma manageBombs_reaches n now gt m b hd :
  wf n b → gentle hd m → reaches hd b → reaches hd (manageBombs now gt m b).
Proof.
  intros Hwf Hg Hr. destruct m as [[c|h|c]|h|h|h]; cbn [manageBombs gentle] in *.
  - rewrite fresh_strap. destruct (fresh_fields now (negb (gt c =? 0)) (gt c) c) as (_ & F2 & _ & _).
    intros p x [Hp|[_ Hp]]%lookup_app_Some Hl Hhd; cbn.
    + rewrite lookup_insert_ne by done. by eapply Hr.
    + apply list_lookup_singleton_Some in Hp as [_ <-]. by rewrite F2 in Hhd.
  - destruct (timeBombs b !! h) as [p|] eqn:Hp; [|done].
    apply forget_reaches; [done|]. cbn.
    assert (reaches hd (on_bomb h (λ c, (Timebomb.Defuse c).2) b)) as H.
    { eapply on_bomb_reaches; [done| |done]. intros [tb ts]. unfold Timebomb.Defuse. cbn.
      destruct (timer tb) as [i|]; [by destruct (Timer.Stop i ts)|done]. }
    by destruct (on_bomb h (λ c, (Timebomb.Defuse c).2) b).
  - eapply on_bomb_reaches; [done| |done]. intros [tb ts]. unfold Timebomb.Reset. by case_match.
  - eapply on_bomb_reaches; [done| |done]. intros [tb ts]. unfold Timebomb.Pause.
    destruct (timer tb) as [i|]; [by destruct (Timer.Stop i ts)|done].
  - eapply on_bomb_reaches; [done| |done]. intros [tb ts]. unfold Timebomb.Unpause. by case_match.
  - apply forget_reaches; [done|]. by destruct b.
Qed.

Lemma explode_reaches now p i b c b' hd :
  explode now p i b = Some (c, b') → reaches hd b → reaches hd b'.
Proof.
  intros (tb & ts & t & Hp & Hi & Ha & _ & -> & ->)%explode_Some Hr q x Hq Hl Hhd. cbn in *.
  destruct (decide (q = p)) as [->|Hne].
  - rewrite list_lookup_insert_eq in Hq by (by eapply lookup_lt_Some). injection Hq as <-.
    apply (Hr p (tb, ts)); [done|by exists i, t|done].
  - rewrite list_lookup_insert_ne in Hq by done. by eapply Hr.
Qed.

(** C11 A container that a request holds is never reaped: in every history in
    which no handle is strapped again or cleaned up while its bomb is still
    armed, as long as the pauses of a handle outnumber its unpauses no callback
    runs for that handle. *)
Theorem busy_container_never_reaped h hd t
    (Hlen : Z.of_nat (length h) ≤ maxint64)
    (Hdisc : disciplined_run h New)
    (Htrack : abs (run_events h New) !! hd = Some t)
    (Hbusy : 0 < tr_holds t) :
  ∀ now p i c b', explode now p i (run_events h New) = Some (c, b') → Handle c ≠ hd.
Proof.
  pose proof (run_events_New_wf h Hlen) as Hwf.
  eapply held_no_explosion; [done| |done|done]. eapply reachable_reaches; [done|].
  apply (run_events_reachable h 0); [apply New_wf|lia|lia|apply New_reachable|done].
Qed.

(** A request that pauses and unpauses the handle [h] at instant [now]. *)
Definition request (now : Z) (gt : C → Duration) (h : string) : list (Z * (C → Duration) * event) :=
  [(now, gt, EMessage (MPause h)); (now, gt, EMessage (MUnpause h))].

Lemma request_abs now gt h n b t :
  wf n b → 0 ≤ n < maxint64 - 1 → abs b !! h = Some t → tr_holds t = -1 →
  abs (run_events (request now gt h) b) !! h
    = Some (mk_track (tr_container t) (tr_grace t) (-1) None).
Proof.
  intros Hwf Hn Ht Hm. cbn [request run_events run_event].
  pose proof (manageBombs_wf n now gt (MPause h) b Hwf ltac:(lia)) as Hwf1.
  rewrite (manageBombs_abs (n + 1)) by done. rewrite (manageBombs_abs n) by done. cbn.
  rewrite !lookup_alter_eq, Ht. cbn. rewrite Hm. done.
Qed.


End bomberman.

(** ** Witnesses, on containers that are a handle and a number *)
Definition ehandle : string * nat → string := fst.

Definition example_events : list (Z * (string * nat → Duration) * event) :=
  [(0, λ _, 10, EMessage (MBomb (strap ("a", 1%nat))));
   (1, λ _, 10, EMessage (MPause "a"))].

Lemma manageBombs_refines_witness :
  let b := run_events ehandle example_events New in
  abs (manageBombs ehandle 5 (λ _, 10) (MUnpause "a") b) = spec_step ehandle 5 (λ _, 10) (MUnpause "a") (abs b)
  ∧ ∀ h', message_handle ehandle (MUnpause "a") ≠ h' →
      abs (manageBombs ehandle 5 (λ _, 10) (MUnpause "a") b) !! h' = abs b !! h'.
Proof. apply (manageBombs_refines ehandle example_events 5 (λ _, 10) (MUnpause "a")). done. Defined.

Definition strapped_only : list (Z * (string * nat → Duration) * event) := take 1 example_events.


Lemma busy_container_never_reaped_witness :
  abs (run_events ehandle example_events New) !! "a" = Some (mk_track ("a", 1%nat) 10 1 None) ∧
  ∀ now p i c b', explode now p i (run_events ehandle example_events New) = Some (c, b') → c.1 ≠ "a".
Proof.
  split; [reflexivity|].
  apply (busy_container_never_reaped ehandle example_events "a"
           (mk_track ("a", 1%nat) 10 1 None)).
  - done.
  - split; [|split; [done|done]]. cbn. intros p x. by rewrite lookup_empty.
  - reflexivity.
  - done.
Defined.


End Bomberman.
