(* ===== verification/Utf8.v ===== *)
(** * UTF-8 as the Go runtime reads it

    A Go string is any sequence of bytes; code that ranges over runes decodes
    it the way [unicode/utf8] does, one invalid byte at a time.  The JSON
    encoder replaces every such byte with the replacement character, which is
    what makes the transport of process data lossy. *)
From S2P Require Import Prelude.

#[local] Open Scope N_scope.

Module Utf8.

Definition code (a : Ascii.ascii) : N := Ascii.N_of_ascii a.
Definition chr (n : N) : Ascii.ascii := Ascii.ascii_of_N n.

Definition between (lo n hi : N) : bool := (lo <=? n) && (n <=? hi).
Definition cont (a : Ascii.ascii) : bool := between 128 (code a) 191.

(** The encodings of two, three and four bytes that [utf8.DecodeRune] accepts:
    no overlong form, no surrogate, nothing above U+10FFFF. *)
Definition two (a b : Ascii.ascii) : bool := between 194 (code a) 223 && cont b.

Definition three (a b c : Ascii.ascii) : bool :=
  between 224 (code a) 239 && cont c &&
  (if code a =? 224 then between 160 (code b) 191
   else if code a =? 237 then between 128 (code b) 159
   else cont b).

Definition four (a b c d : Ascii.ascii) : bool :=
  between 240 (code a) 244 && cont c && cont d &&
  (if code a =? 240 then between 144 (code b) 191
   else if code a =? 244 then between 128 (code b) 143
   else cont b).

(** A piece of a string: one encoded rune, or one invalid byte. *)
Inductive chunk :=
| C1 (a : Ascii.ascii)
| C2 (a b : Ascii.ascii)
| C3 (a b c : Ascii.ascii)
| C4 (a b c d : Ascii.ascii)
| CBad (a : Ascii.ascii).

Definition chunk_ok (k : chunk) : bool :=
  match k with
  | C1 a => code a <? 128
  | C2 a b => two a b
  | C3 a b c => three a b c
  | C4 a b c d => four a b c d
  | CBad a => 128 <=? code a
  end.

(** [for i, r := range s]: the pieces in order. *)
Fixpoint chunks (l : bytes) : list chunk :=
  match l with
  | [] => []
  | a :: l1 =>
      if code a <? 128 then C1 a :: chunks l1 else
      match l1 with
      | [] => [CBad a]
      | b :: l2 =>
          if two a b then C2 a b :: chunks l2 else
          match l2 with
          | [] => CBad a :: chunks l1
          | c :: l3 =>
              if three a b c then C3 a b c :: chunks l3 else
              match l3 with
              | [] => CBad a :: chunks l1
              | d :: l4 => if four a b c d then C4 a b c d :: chunks l4 else CBad a :: chunks l1
              end
          end
      end
  end.

(** U+FFFD *)
Definition replacement : bytes := chr <$> [239; 191; 189].

(** The bytes of a piece once invalid ones are replaced. *)
Definition chunk_bytes (k : chunk) : bytes :=
  match k with
  | C1 a => [a]
  | C2 a b => [a; b]
  | C3 a b c => [a; b; c]
  | C4 a b c d => [a; b; c; d]
  | CBad _ => replacement
  end.

Definition coerce (l : bytes) : bytes := chunks l ≫= chunk_bytes.

Definition is_bad (k : chunk) : bool := match k with CBad _ => true | _ => false end.

(** [utf8.Valid] *)
Definition valid (l : bytes) : bool := forallb (λ k, negb (is_bad k)) (chunks l).

(** Strings whose bytes are valid UTF-8. *)
Definition valid_string (s : string) : bool := valid (to_bytes s).

(** ** Lemmas *)

(** Induction that follows [chunks]. *)
Lemma chunks_ind (P : bytes → Prop) :
  P [] → (∀ k raw l, chunk_ok k = true →
            chunks (raw ++ l) = k :: chunks l →
            (is_bad k = false → raw = chunk_bytes k) →
            P l → P (raw ++ l)) → ∀ l, P l.
Proof.
  intros H0 HS l. remember (length l) as n eqn:Hn. revert l Hn.
  induction (lt_wf n) as [n _ IH]. intros l ->.
  assert (Hstep : ∀ k raw l', l = raw ++ l' → raw ≠ [] → chunk_ok k = true →
    chunks l = k :: chunks l' → (is_bad k = false → raw = chunk_bytes k) → P l).
  { intros k raw l' -> Hraw Hok Hc Hbad. apply (HS k); [done..|].
    eapply IH; [|done]. rewrite length_app. destruct raw; [done|]. cbn. lia. }
  destruct l as [|a l1]; [done|]. cbn [chunks] in Hstep.
  destruct (code a <? 128) eqn:Ha; [by apply (Hstep (C1 a) [a] l1)|].
  assert (Hge : (128 <=? code a) = true) by (apply N.leb_le; apply N.ltb_ge in Ha; done).
  assert (Hbad : chunks (a :: l1) = CBad a :: chunks l1 → P (a :: l1)).
  { intros Hc. apply (HS (CBad a) [a] l1); [done|done|done|]. eapply IH; [|done]. cbn. lia. }
  cbn [chunks] in Hbad. rewrite Ha in Hbad.
  destruct l1 as [|b l2]; [by apply Hbad|].
  destruct (two a b) eqn:H2; [by apply (Hstep (C2 a b) [a; b] l2)|].
  destruct l2 as [|c l3]; [by apply Hbad|].
  destruct (three a b c) eqn:H3; [by apply (Hstep (C3 a b c) [a; b; c] l3)|].
  destruct l3 as [|d l4]; [by apply Hbad|].
  destruct (four a b c d) eqn:H4; [by apply (Hstep (C4 a b c d) [a; b; c; d] l4)|].
  by apply Hbad.
Qed.

Lemma chunks_ok l : Forall (λ k, chunk_ok k = true) (chunks l).
Proof.
  induction l as [|k raw l Hk Hc _ IH] using chunks_ind; [constructor|].
  rewrite Hc. by constructor.
Qed.

(** A string is its own coercion exactly when it is valid. *)
Lemma coerce_valid l : valid l = true → coerce l = l.
Proof.
  unfold valid, coerce.
  induction l as [|k raw l Hk Hc Hraw IH] using chunks_ind; [done|].
  rewrite Hc. cbn. intros [Hb Hv]%andb_prop. rewrite IH by done.
  rewrite Hraw by (by destruct (is_bad k)). done.
Qed.

Lemma between_spec lo n hi : between lo n hi = true ↔ lo ≤ n ≤ hi.
Proof. unfold between. rewrite andb_true_iff, !N.leb_le. done. Qed.

(** The lead byte decides the length of a well-formed piece. *)
Lemma two_lead a b : two a b = true → 194 ≤ code a ≤ 223.
Proof. unfold two. intros [H _]%andb_prop. by apply between_spec. Qed.
Lemma three_lead a b c : three a b c = true → 224 ≤ code a ≤ 239.
Proof. unfold three. intros [[H _]%andb_prop _]%andb_prop. by apply between_spec. Qed.
Lemma four_lead a b c d : four a b c d = true → 240 ≤ code a ≤ 244.
Proof. unfold four. intros [[[H _]%andb_prop _]%andb_prop _]%andb_prop. by apply between_spec. Qed.

Lemma two_not a b : 224 ≤ code a → two a b = false.
Proof.
  intros Ha. destruct (two a b) eqn:H; [|done]. apply two_lead in H. lia.
Qed.
Lemma three_not a b c : 240 ≤ code a → three a b c = false.
Proof.
  intros Ha. destruct (three a b c) eqn:H; [|done]. apply three_lead in H. lia.
Qed.

(** A well-formed piece at the head is read back as itself. *)
Lemma chunks_chunk k l :
  chunk_ok k = true → is_bad k = false → chunks (chunk_bytes k ++ l) = k :: chunks l.
Proof.
  assert (Hlt : ∀ a, 128 ≤ code a → (code a <? 128) = false)
    by (intros; by apply N.ltb_ge).
  destruct k as [a|a b|a b c|a b c d|a]; intros Hok Hb; try done;
    cbn [chunk_bytes app chunks chunk_ok] in *.
  - by rewrite Hok.
  - pose proof (two_lead _ _ Hok). rewrite Hlt, Hok by lia. done.
  - pose proof (three_lead _ _ _ Hok). rewrite Hlt, two_not, Hok by lia. done.
  - pose proof (four_lead _ _ _ _ Hok). rewrite Hlt, two_not, three_not, Hok by lia. done.
Qed.

Lemma chunks_replacement l : chunks (replacement ++ l) = C3 (chr 239) (chr 191) (chr 189) :: chunks l.
Proof. reflexivity. Qed.

(** What [coerce] yields has no invalid byte. *)
Lemma coerce_is_valid l : valid (coerce l) = true.
Proof.
  unfold coerce. pose proof (chunks_ok l) as Hok. unfold valid.
  induction Hok as [|k ks Hk _ IH]; [done|]. cbn.
  destruct (is_bad k) eqn:Hb.
  - destruct k; done.
  - rewrite chunks_chunk by done. cbn. by rewrite Hb, IH.
Qed.

Lemma coerce_id_iff l : coerce l = l ↔ valid l = true.
Proof. split; [|apply coerce_valid]. intros <-. apply coerce_is_valid. Qed.

Lemma valid_app k l :
  chunk_ok k = true → is_bad k = false → valid (chunk_bytes k ++ l) = valid l.
Proof. intros Hk Hb. unfold valid. rewrite chunks_chunk by done. cbn. by rewrite Hb. Qed.

(** ASCII bytes neither make nor break validity. *)
Lemma valid_ascii_app l t : Forall (λ a, code a < 128) l → valid (l ++ t) = valid t.
Proof.
  induction 1 as [|a l Ha _ IH]; [done|].
  change (valid (chunk_bytes (C1 a) ++ (l ++ t)) = valid t).
  rewrite valid_app; [done| |done]. by apply N.ltb_lt.
Qed.

Lemma valid_ascii l : Forall (λ a, code a < 128) l → valid l = true.
Proof. intros H. by rewrite <-(app_nil_r l), valid_ascii_app. Qed.

End Utf8.
