(* ===== verification/Json.v ===== *)
(** * JSON text (package encoding/json)

    The values that travel between client and server, the text the encoder
    writes for them and the scanner that reads it back.  The scanner is the
    state machine of the decoder, one byte at a time with a stack of open
    arrays and objects, so it needs no fuel.  Its nesting limit (10000) and the
    wording of its error messages are not modelled. *)
From S2P Require Import Prelude Utf8.
From Stdlib Require DecimalString DecimalZ DecimalFacts.

#[local] Open Scope N_scope.

Module Json.
Import Utf8.
#[local] Set Warnings "-register-all".

(** A JSON value; a number is its literal. *)
Inductive json :=
| JNull
| JBool (b : bool)
| JNum (lit : string)
| JStr (s : string)
| JArr (l : list json)
| JObj (l : list (string * json)).

Section json_ind.
Variable P : json → Prop.
Hypothesis HNull : P JNull.
Hypothesis HBool : ∀ b, P (JBool b).
Hypothesis HNum : ∀ n, P (JNum n).
Hypothesis HStr : ∀ s, P (JStr s).
Hypothesis HArr : ∀ l, Forall P l → P (JArr l).
Hypothesis HObj : ∀ l, Forall (λ kv, P kv.2) l → P (JObj l).

Fixpoint json_ind' (j : json) : P j :=
  match j with
  | JNull => HNull
  | JBool b => HBool b
  | JNum n => HNum n
  | JStr s => HStr s
  | JArr l => HArr l ((fix go l := match l return Forall P l with
                      | [] => Forall_nil_2 _
                      | x :: l' => Forall_cons_2 _ _ _ (json_ind' x) (go l')
                      end) l)
  | JObj l => HObj l ((fix go l := match l return Forall (λ kv, P kv.2) l with
                      | [] => Forall_nil_2 _
                      | kv :: l' => Forall_cons_2 _ kv _ (json_ind' kv.2) (go l')
                      end) l)
  end.
End json_ind.

(** ** Encoding strings *)
Definition bs : Ascii.ascii := chr 92.
Definition dq : Ascii.ascii := chr 34.
Definition nl : Ascii.ascii := chr 10.

Definition hexdigit (n : N) : Ascii.ascii := if n <? 10 then chr (48 + n) else chr (87 + n).

(** An ASCII character inside a string literal, HTML escaping on. *)
Definition esc1 (a : Ascii.ascii) : bytes :=
  let n := code a in
  if (32 <=? n) && negb (n =? 34) && negb (n =? 92) && negb (n =? 60)
     && negb (n =? 62) && negb (n =? 38) then [a]
  else if (n =? 34) || (n =? 92) then [bs; a]
  else if n =? 8 then [bs; chr 98]
  else if n =? 12 then [bs; chr 102]
  else if n =? 10 then [bs; chr 110]
  else if n =? 13 then [bs; chr 114]
  else if n =? 9 then [bs; chr 116]
  else [bs; chr 117; chr 48; chr 48; hexdigit (n / 16); hexdigit (n mod 16)].

Definition esc_chunk (k : chunk) : bytes :=
  match k with
  | C1 a => esc1 a
  | C3 a b c =>
      if (code a =? 226) && (code b =? 128) && ((code c =? 168) || (code c =? 169))
      then [bs; chr 117; chr 50; chr 48; chr 50; hexdigit (code c mod 16)]
      else [a; b; c]
  | CBad _ => bs :: to_bytes "ufffd"
  | _ => chunk_bytes k
  end.

Definition quote (s : string) : bytes :=
  dq :: (chunks (to_bytes s) ≫= esc_chunk) ++ [dq].

(** ** Encoding values *)
Fixpoint commas (ls : list bytes) : bytes :=
  match ls with
  | [] => []
  | [x] => x
  | x :: ls' => x ++ chr 44 :: commas ls'
  end.

Fixpoint print (j : json) : bytes :=
  match j with
  | JNull => to_bytes "null"
  | JBool true => to_bytes "true"
  | JBool false => to_bytes "false"
  | JNum lit => to_bytes lit
  | JStr s => quote s
  | JArr l => chr 91 :: commas (List.map print l) ++ [chr 93]
  | JObj l => chr 123 :: commas (List.map (λ kv, quote kv.1 ++ chr 58 :: print kv.2) l) ++ [chr 125]
  end.

(** [json.NewEncoder(w).Encode(v)]: the value and a newline. *)
Definition encode (j : json) : bytes := print j ++ [nl].

(** ** Decoding strings *)
Definition hexval (a : Ascii.ascii) : option N :=
  let n := code a in
  if between 48 n 57 then Some (n - 48)
  else if between 97 n 102 then Some (n - 87)
  else if between 65 n 70 then Some (n - 55)
  else None.

Definition hex4 (a b c d : Ascii.ascii) : option N :=
  w ← hexval a; x ← hexval b; y ← hexval c; z ← hexval d;
  Some (((w * 16 + x) * 16 + y) * 16 + z).

Definition encode_rune (r : N) : bytes :=
  if r <? 128 then [chr r]
  else if r <? 2048 then [chr (192 + r / 64); chr (128 + r mod 64)]
  else if r <? 65536 then
    [chr (224 + r / 4096); chr (128 + (r / 64) mod 64); chr (128 + r mod 64)]
  else [chr (240 + r / 262144); chr (128 + (r / 4096) mod 64);
        chr (128 + (r / 64) mod 64); chr (128 + r mod 64)].

Definition simple_escape (e : Ascii.ascii) : option Ascii.ascii :=
  let n := code e in
  if (n =? 34) || (n =? 92) || (n =? 47) then Some e
  else if n =? 98 then Some (chr 8)
  else if n =? 102 then Some (chr 12)
  else if n =? 110 then Some (chr 10)
  else if n =? 114 then Some (chr 13)
  else if n =? 116 then Some (chr 9)
  else None.

Definition prepend (p : bytes) (o : option bytes) : option bytes := (app p) <$> o.

(** [unquote]: the contents of a string literal. *)
Fixpoint unquote (l : bytes) : option bytes :=
  match l with
  | [] => Some []
  | a :: l1 =>
      if code a =? 92 then
        match l1 with
        | [] => None
        | e :: l2 =>
            if code e =? 117 then
              match l2 with
              | h1 :: h2 :: h3 :: h4 :: l3 =>
                  match hex4 h1 h2 h3 h4 with
                  | None => None
                  | Some r =>
                      if between 55296 r 57343 then
                        match l3 with
                        | b1 :: b2 :: g1 :: g2 :: g3 :: g4 :: l4 =>
                            match (if (code b1 =? 92) && (code b2 =? 117)
                                   then hex4 g1 g2 g3 g4 else None) with
                            | Some r2 =>
                                if between 55296 r 56319 && between 56320 r2 57343
                                then prepend (encode_rune (65536 + (r - 55296) * 1024 + (r2 - 56320)))
                                       (unquote l4)
                                else prepend replacement (unquote l3)
                            | None => prepend replacement (unquote l3)
                            end
                        | _ => prepend replacement (unquote l3)
                        end
                      else prepend (encode_rune r) (unquote l3)
                  end
              | _ => None
              end
            else match simple_escape e with
                 | Some c => prepend [c] (unquote l2)
                 | None => None
                 end
        end
      else if (code a =? 34) || (code a <? 32) then None
      else if code a <? 128 then prepend [a] (unquote l1)
      else
        match l1 with
        | [] => prepend replacement (unquote l1)
        | b :: l2 =>
            if two a b then prepend [a; b] (unquote l2) else
            match l2 with
            | [] => prepend replacement (unquote l1)
            | c :: l3 =>
                if three a b c then prepend [a; b; c] (unquote l3) else
                match l3 with
                | [] => prepend replacement (unquote l1)
                | d :: l4 =>
                    if four a b c d then prepend [a; b; c; d] (unquote l4)
                    else prepend replacement (unquote l1)
                end
            end
        end
  end.

(** ** The scanner *)
Inductive nstate := NNeg | N0 | N1 | NDot | NDot0 | NE | NESign | NE0.

Inductive mode :=
| MValue | MValueOrEnd              (* a value; a value or the end of an array *)
| MKey | MKeyOrEnd                  (* a key; a key or the end of an object *)
| MStr (key : bool) (raw : bytes)   (* in a string literal, read so far, reversed *)
| MEsc (key : bool) (raw : bytes)
| MU (n : nat) (key : bool) (raw : bytes)
| MNum (s : nstate) (raw : bytes)
| MLit (rest : bytes) (v : json)    (* in null, true or false *)
| MColon (key : string)
| MEnd                              (* after a value inside an array or object *)
| MTop (v : json).                  (* after a scalar at top level *)

Inductive frame :=
| FArr (acc : list json)
| FObj (acc : list (string * json))
| FVal (acc : list (string * json)) (key : string).

Inductive sres :=
| Next (m : mode) (stk : list frame)
| Finish (v : json)
| Fail.

Definition is_ws (a : Ascii.ascii) : bool :=
  let n := code a in (n =? 32) || (n =? 9) || (n =? 10) || (n =? 13).
Definition is_digit (a : Ascii.ascii) : bool := between 48 (code a) 57.

Definition num_step (s : nstate) (c : Ascii.ascii) : option nstate :=
  let n := code c in
  match s with
  | NNeg => if n =? 48 then Some N0 else if is_digit c then Some N1 else None
  | N0 => if n =? 46 then Some NDot else if (n =? 101) || (n =? 69) then Some NE else None
  | N1 => if is_digit c then Some N1 else if n =? 46 then Some NDot
          else if (n =? 101) || (n =? 69) then Some NE else None
  | NDot => if is_digit c then Some NDot0 else None
  | NDot0 => if is_digit c then Some NDot0 else if (n =? 101) || (n =? 69) then Some NE else None
  | NE => if (n =? 43) || (n =? 45) then Some NESign else if is_digit c then Some NE0 else None
  | NESign => if is_digit c then Some NE0 else None
  | NE0 => if is_digit c then Some NE0 else None
  end.

Definition num_final (s : nstate) : bool :=
  match s with N0 | N1 | NDot0 | NE0 => true | _ => false end.

(** A complete value goes to the array or object it is in. *)
Definition deliver (v : json) (stk : list frame) : sres :=
  match stk with
  | [] => Next (MTop v) []
  | FArr acc :: s => Next MEnd (FArr (v :: acc) :: s)
  | FVal acc k :: s => Next MEnd (FObj ((k, v) :: acc) :: s)
  | FObj _ :: _ => Fail
  end.

Definition close (v : json) (stk : list frame) : sres :=
  match stk with [] => Finish v | _ => deliver v stk end.

Definition step_end (c : Ascii.ascii) (stk : list frame) : sres :=
  let n := code c in
  if is_ws c then Next MEnd stk else
  match stk with
  | FArr acc :: s =>
      if n =? 44 then Next MValue stk
      else if n =? 93 then close (JArr (rev acc)) s else Fail
  | FObj acc :: s =>
      if n =? 44 then Next MKey stk
      else if n =? 125 then close (JObj (rev acc)) s else Fail
  | _ => Fail
  end.

Definition step_value (c : Ascii.ascii) (m : mode) (stk : list frame) : sres :=
  let n := code c in
  if is_ws c then Next m stk
  else if n =? 123 then Next MKeyOrEnd (FObj [] :: stk)
  else if n =? 91 then Next MValueOrEnd (FArr [] :: stk)
  else if n =? 34 then Next (MStr false []) stk
  else if n =? 45 then Next (MNum NNeg [c]) stk
  else if n =? 48 then Next (MNum N0 [c]) stk
  else if is_digit c then Next (MNum N1 [c]) stk
  else if n =? 116 then Next (MLit (to_bytes "rue") (JBool true)) stk
  else if n =? 102 then Next (MLit (to_bytes "alse") (JBool false)) stk
  else if n =? 110 then Next (MLit (to_bytes "ull") JNull) stk
  else Fail.

Definition step (c : Ascii.ascii) (m : mode) (stk : list frame) : sres :=
  let n := code c in
  match m with
  | MValue => step_value c m stk
  | MValueOrEnd =>
      match stk with
      | FArr acc :: s => if n =? 93 then close (JArr (rev acc)) s else step_value c m stk
      | _ => Fail
      end
  | MKey => if is_ws c then Next m stk else if n =? 34 then Next (MStr true []) stk else Fail
  | MKeyOrEnd =>
      if is_ws c then Next m stk else if n =? 34 then Next (MStr true []) stk
      else match stk with
           | FObj acc :: s => if n =? 125 then close (JObj (rev acc)) s else Fail
           | _ => Fail
           end
  | MStr key raw =>
      if n =? 34 then
        match unquote (rev raw) with
        | None => Fail
        | Some b => if key then Next (MColon (of_bytes b)) stk
                    else deliver (JStr (of_bytes b)) stk
        end
      else if n =? 92 then Next (MEsc key (c :: raw)) stk
      else if n <? 32 then Fail
      else Next (MStr key (c :: raw)) stk
  | MEsc key raw =>
      if n =? 117 then Next (MU 3 key (c :: raw)) stk
      else match simple_escape c with
           | Some _ => Next (MStr key (c :: raw)) stk
           | None => Fail
           end
  | MU k key raw =>
      match hexval c with
      | None => Fail
      | Some _ => match k with
                  | O => Next (MStr key (c :: raw)) stk
                  | S k' => Next (MU k' key (c :: raw)) stk
                  end
      end
  | MNum s raw =>
      match num_step s c with
      | Some s' => Next (MNum s' (c :: raw)) stk
      | None =>
          if num_final s then
            match deliver (JNum (of_bytes (rev raw))) stk with
            | Next MEnd stk' => step_end c stk'
            | Next (MTop v) _ => if is_ws c then Finish v else Fail
            | r => r
            end
          else Fail
      end
  | MLit rest v =>
      match rest with
      | [] => Fail
      | r :: rest' =>
          if n =? code r then
            match rest' with [] => deliver v stk | _ => Next (MLit rest' v) stk end
          else Fail
      end
  | MColon key =>
      if is_ws c then Next m stk
      else if n =? 58 then
        match stk with FObj acc :: s => Next MValue (FVal acc key :: s) | _ => Fail end
      else Fail
  | MEnd => step_end c stk
  | MTop v => if is_ws c then Finish v else Fail
  end.

(** What reading one value from a stream gives: the value and what is left, or
    [io.EOF], [io.ErrUnexpectedEOF] or a syntax error. *)
Inductive parsed :=
| Done (v : json) (rest : bytes)
| Eof
| UnexpectedEof
| Syntax.

Definition at_eof (m : mode) (stk : list frame) : parsed :=
  match m, stk with
  | MTop v, [] => Done v []
  | MNum s raw, [] => if num_final s then Done (JNum (of_bytes (rev raw))) [] else UnexpectedEof
  | MValue, [] => Eof
  | _, _ => UnexpectedEof
  end.

Fixpoint scan (l : bytes) (m : mode) (stk : list frame) : parsed :=
  match l with
  | [] => at_eof m stk
  | c :: l' =>
      match step c m stk with
      | Next m' stk' => scan l' m' stk'
      | Finish v => Done v l'
      | Fail => Syntax
      end
  end.

(** [json.NewDecoder(r).Decode]: the first value of the stream. *)
Definition decode (l : bytes) : parsed := scan l MValue [].

(** [json.Unmarshal]: exactly one value. *)
Definition unmarshal (l : bytes) : parsed :=
  match decode l with
  | Done v rest => if forallb is_ws rest then Done v [] else Syntax
  | Eof | UnexpectedEof | Syntax => Syntax
  end.

(** ** Reading back what was written *)

(** The value a text carries: every string with its invalid bytes replaced. *)
Definition coerce_string (s : string) : string := of_bytes (coerce (to_bytes s)).

Fixpoint coerce_json (j : json) : json :=
  match j with
  | JStr s => JStr (coerce_string s)
  | JArr l => JArr (List.map coerce_json l)
  | JObj l => JObj (List.map (λ kv, (coerce_string kv.1, coerce_json kv.2)) l)
  | _ => j
  end.

(** A number literal: what the number states accept from its first byte on. *)
Fixpoint num_run (s : nstate) (l : bytes) : option nstate :=
  match l with
  | [] => Some s
  | c :: l' => match num_step s c with Some s' => num_run s' l' | None => None end
  end.

Definition num_first (c : Ascii.ascii) : option nstate :=
  if code c =? 45 then Some NNeg
  else if code c =? 48 then Some N0
  else if is_digit c then Some N1 else None.

Definition num_ok (lit : string) : bool :=
  match to_bytes lit with
  | [] => false
  | c :: l =>
      match num_first c with
      | Some s => match num_run s l with Some s' => num_final s' | None => false end
      | None => false
      end
  end.

Fixpoint nums_ok (j : json) : bool :=
  match j with
  | JNum lit => num_ok lit
  | JArr l => forallb nums_ok l
  | JObj l => forallb (λ kv, nums_ok kv.2) l
  | _ => true
  end.

(** Strings, names and numbers as the encoder of well-formed data has them. *)
Fixpoint json_ok (j : json) : bool :=
  match j with
  | JNum lit => num_ok lit
  | JStr s => valid_string s
  | JArr l => forallb json_ok l
  | JObj l => forallb (λ kv, valid_string kv.1 && json_ok kv.2) l
  | _ => true
  end.

Ltac ascii_cases a := destruct a as [[] [] [] [] [] [] [] []].

(** *** Strings *)
Lemma unquote_esc1 a l :
  (code a <? 128) = true → unquote (esc1 a ++ l) = prepend [a] (unquote l).
Proof. ascii_cases a; intros H; first [discriminate H | reflexivity]. Qed.

Lemma scan_esc1 a l key raw stk :
  (code a <? 128) = true →
  scan (esc1 a ++ l) (MStr key raw) stk = scan l (MStr key (rev (esc1 a) ++ raw)) stk.
Proof. ascii_cases a; intros H; first [discriminate H | reflexivity]. Qed.

(** Bytes above ASCII are read as they are. *)
Lemma high_tests a : 128 ≤ code a →
  (code a =? 92) = false ∧ (code a =? 34) = false ∧ (code a <? 32) = false ∧ (code a <? 128) = false.
Proof. intros H. repeat split; first [apply N.eqb_neq | apply N.ltb_ge]; lia. Qed.

Lemma scan_high a l key raw stk :
  128 ≤ code a → scan (a :: l) (MStr key raw) stk = scan l (MStr key (a :: raw)) stk.
Proof.
  intros (E1 & E2 & E3 & _)%high_tests. cbn [scan step]. by rewrite E1, E2, E3.
Qed.

Lemma cont_high a : cont a = true → 128 ≤ code a.
Proof. unfold cont. rewrite between_spec. lia. Qed.

Lemma two_high a b : two a b = true → 128 ≤ code a ∧ 128 ≤ code b.
Proof.
  intros H. pose proof (two_lead _ _ H). apply andb_prop in H as [_ H].
  apply cont_high in H. lia.
Qed.

Lemma second_high b (x y : bool) (l1 h1 l2 h2 : N) :
  128 ≤ l1 → 128 ≤ l2 →
  (if x then between l1 (code b) h1 else if y then between l2 (code b) h2 else cont b) = true →
  128 ≤ code b.
Proof.
  intros H1 H2. destruct x; [|destruct y]; [rewrite between_spec; lia..|apply cont_high].
Qed.

Lemma three_high a b c : three a b c = true → 128 ≤ code a ∧ 128 ≤ code b ∧ 128 ≤ code c.
Proof.
  intros H. pose proof (three_lead _ _ _ H). unfold three in H.
  apply andb_prop in H as [[_ Hc]%andb_prop Hb].
  apply cont_high in Hc. apply second_high in Hb; lia.
Qed.

Lemma four_high a b c d :
  four a b c d = true → 128 ≤ code a ∧ 128 ≤ code b ∧ 128 ≤ code c ∧ 128 ≤ code d.
Proof.
  intros H. pose proof (four_lead _ _ _ _ H). unfold four in H.
  apply andb_prop in H as [[[_ Hc]%andb_prop Hd]%andb_prop Hb].
  apply cont_high in Hc, Hd. apply second_high in Hb; lia.
Qed.

(** The two line separators, the only non-ASCII runes the encoder escapes. *)
Definition separator (a b c : Ascii.ascii) : bool :=
  (code a =? 226) && (code b =? 128) && ((code c =? 168) || (code c =? 169)).

Lemma code_inj a b : code a = code b → a = b.
Proof.
  unfold code. intros H. rewrite <-(Ascii.ascii_N_embedding a), <-(Ascii.ascii_N_embedding b).
  by rewrite H.
Qed.

Lemma separator_cases a b c :
  separator a b c = true → a = chr 226 ∧ b = chr 128 ∧ (c = chr 168 ∨ c = chr 169).
Proof.
  unfold separator. intros [[Ha Hb]%andb_prop Hc]%andb_prop.
  apply N.eqb_eq in Ha, Hb. apply orb_prop in Hc as [Hc|Hc]; apply N.eqb_eq in Hc;
    repeat split; first [by apply code_inj | left; by apply code_inj | right; by apply code_inj].
Qed.

Lemma esc_C3 a b c :
  esc_chunk (C3 a b c) =
    if separator a b c then [bs; chr 117; chr 50; chr 48; chr 50; hexdigit (code c mod 16)]
    else [a; b; c].
Proof. reflexivity. Qed.

Lemma unquote_esc k l :
  chunk_ok k = true → unquote (esc_chunk k ++ l) = prepend (chunk_bytes k) (unquote l).
Proof.
  destruct k as [a|a b|a b c|a b c d|a]; intros Hok; cbn [chunk_ok] in Hok.
  - by apply unquote_esc1.
  - destruct (two_high _ _ Hok) as [Ha _]. destruct (high_tests _ Ha) as (E1 & E2 & E3 & E4).
    cbn [esc_chunk chunk_bytes app unquote]. rewrite E1, E2, E3, E4. cbn [orb]. by rewrite Hok.
  - rewrite esc_C3. destruct (separator a b c) eqn:Hsep.
    + apply separator_cases in Hsep as (-> & -> & [-> | ->]); reflexivity.
    + destruct (three_high _ _ _ Hok) as (Ha & _). destruct (high_tests _ Ha) as (E1 & E2 & E3 & E4).
      pose proof (three_lead _ _ _ Hok).
      cbn [chunk_bytes app unquote]. rewrite E1, E2, E3, E4. cbn [orb].
      rewrite two_not by lia. by rewrite Hok.
  - destruct (four_high _ _ _ _ Hok) as (Ha & _). destruct (high_tests _ Ha) as (E1 & E2 & E3 & E4).
    pose proof (four_lead _ _ _ _ Hok).
    cbn [esc_chunk chunk_bytes app unquote]. rewrite E1, E2, E3, E4. cbn [orb].
    rewrite two_not, three_not by lia. by rewrite Hok.
  - reflexivity.
Qed.

Lemma scan_esc k l key raw stk :
  chunk_ok k = true →
  scan (esc_chunk k ++ l) (MStr key raw) stk = scan l (MStr key (rev (esc_chunk k) ++ raw)) stk.
Proof.
  destruct k as [a|a b|a b c|a b c d|a]; intros Hok; cbn [chunk_ok] in Hok.
  - by apply scan_esc1.
  - destruct (two_high _ _ Hok). cbn [esc_chunk chunk_bytes app rev].
    by rewrite !scan_high.
  - rewrite esc_C3. destruct (separator a b c) eqn:Hsep.
    + apply separator_cases in Hsep as (-> & -> & [-> | ->]); reflexivity.
    + destruct (three_high _ _ _ Hok) as (? & ? & ?). cbn [app rev]. by rewrite !scan_high.
  - destruct (four_high _ _ _ _ Hok) as (? & ? & ? & ?). cbn [esc_chunk chunk_bytes app rev].
    by rewrite !scan_high.
  - reflexivity.
Qed.

Lemma unquote_all ks :
  Forall (λ k, chunk_ok k = true) ks →
  unquote (ks ≫= esc_chunk) = Some (ks ≫= chunk_bytes).
Proof.
  induction 1 as [|k ks Hk _ IH]; [done|]. cbn. rewrite unquote_esc by done.
  cbn in IH. rewrite IH. done.
Qed.

Lemma scan_all ks l key raw stk :
  Forall (λ k, chunk_ok k = true) ks →
  scan ((ks ≫= esc_chunk) ++ l) (MStr key raw) stk
  = scan l (MStr key (rev (ks ≫= esc_chunk) ++ raw)) stk.
Proof.
  intros Hks. revert raw. induction Hks as [|k ks Hk _ IH]; intros raw; [done|].
  cbn. rewrite <-app_assoc, scan_esc by done. cbn in IH. rewrite IH.
  by rewrite rev_app_distr, <-app_assoc.
Qed.

(** A literal read from its first quote on. *)
Lemma scan_string s l (key : bool) stk :
  scan ((chunks (to_bytes s) ≫= esc_chunk) ++ dq :: l) (MStr key []) stk
  = match (if key then Next (MColon (coerce_string s)) stk
           else deliver (JStr (coerce_string s)) stk) with
    | Next m' stk' => scan l m' stk'
    | Finish v => Done v l
    | Fail => Syntax
    end.
Proof.
  rewrite scan_all by apply chunks_ok. rewrite app_nil_r. cbn [scan step].
  change (code dq =? 34) with true. cbn match.
  rewrite rev_involutive, unquote_all by apply chunks_ok.
  by destruct key.
Qed.

(** *** Values *)
Lemma Forall_impl_forallb {A} (f : A → bool) (P : A → Prop) l :
  Forall (λ x, f x = true → P x) l → forallb f l = true → Forall P l.
Proof.
  induction 1 as [|x l Hx _ IH]; cbn; [constructor|]. intros [? ?]%andb_prop. auto.
Qed.

Definition after (r : sres) (l : bytes) : parsed :=
  match r with
  | Next m stk => scan l m stk
  | Finish v => Done v l
  | Fail => Syntax
  end.

Lemma scan_cons c l m stk : scan (c :: l) m stk = after (step c m stk) l.
Proof. reflexivity. Qed.

(** The stack once a value is complete inside an array or object. *)
Definition push (v : json) (stk : list frame) : list frame :=
  match stk with
  | FArr acc :: s => FArr (v :: acc) :: s
  | FVal acc k :: s => FObj ((k, v) :: acc) :: s
  | _ => stk
  end.

Definition in_container (stk : list frame) : bool :=
  match stk with FArr _ :: _ | FVal _ _ :: _ => true | _ => false end.

Definition delim (c : Ascii.ascii) : bool :=
  (code c =? 44) || (code c =? 93) || (code c =? 125).

Lemma deliver_push v stk : in_container stk = true → deliver v stk = Next MEnd (push v stk).
Proof. by destruct stk as [|[]]. Qed.

Lemma close_push v stk : in_container stk = true → close v stk = Next MEnd (push v stk).
Proof. by destruct stk as [|[]]. Qed.

Lemma num_first_step c s stk :
  num_first c = Some s → step_value c MValue stk = Next (MNum s [c]) stk.
Proof.
  ascii_cases c; cbv; intros [= <-]; reflexivity.
Qed.

Lemma scan_num l s s' t raw stk :
  num_run s l = Some s' →
  scan (l ++ t) (MNum s raw) stk = scan t (MNum s' (rev l ++ raw)) stk.
Proof.
  revert s raw. induction l as [|c l IH]; intros s raw; cbn [num_run app rev].
  - by intros [= ->].
  - destruct (num_step s c) as [s1|] eqn:Hs; [|done]. intros Hr.
    rewrite scan_cons. cbn [step]. rewrite Hs. cbn [after]. rewrite IH by done.
    by rewrite <-app_assoc.
Qed.

Lemma scan_num_lit lit t stk :
  num_ok lit = true →
  ∃ s, num_final s = true ∧
    scan (to_bytes lit ++ t) MValue stk = scan t (MNum s (rev (to_bytes lit))) stk.
Proof.
  unfold num_ok. destruct (to_bytes lit) as [|c l]; [done|].
  destruct (num_first c) as [s|] eqn:Hf; [|done].
  destruct (num_run s l) as [s'|] eqn:Hr; [|done]. intros Hfin. exists s'. split; [done|].
  cbn [app]. rewrite scan_cons. cbn [step]. rewrite (num_first_step _ _ _ Hf). cbn [after].
  by rewrite (scan_num _ _ _ _ _ _ Hr).
Qed.

Lemma num_step_delim s c : delim c || is_ws c = true → num_step s c = None.
Proof.
  intros H. destruct s; revert H; ascii_cases c; cbv; intros; congruence.
Qed.

(** The first byte of a value is no space and closes nothing. *)
Lemma print_first j :
  nums_ok j = true → ∃ c r, print j = c :: r ∧ is_ws c = false ∧ (code c =? 93) = false.
Proof.
  destruct j as [|[]|lit|s|l|l]; intros Hok; cbn [print nums_ok] in *; try by do 2 eexists.
  unfold num_ok in Hok. destruct (to_bytes lit) as [|c r]; [done|].
  exists c, r. split; [done|]. destruct (num_first c) eqn:Hf; [|done].
  revert Hf. clear. ascii_cases c; cbv; intros; split; congruence.
Qed.

Lemma step_or_end c acc stk :
  is_ws c = false → (code c =? 93) = false →
  step c MValueOrEnd (FArr acc :: stk) = step c MValue (FArr acc :: stk).
Proof. intros Hw Hc. cbn [step]. rewrite Hc. unfold step_value. by rewrite Hw. Qed.

(** The induction hypothesis on the parts of an array or object. *)
Definition reads_back (j : json) : Prop :=
  ∀ c l stk, delim c = true → in_container stk = true →
    scan (print j ++ c :: l) MValue stk = scan (c :: l) MEnd (push (coerce_json j) stk).

Lemma scan_elems l t acc stk :
  Forall reads_back l → l ≠ [] →
  scan (commas (List.map print l) ++ chr 93 :: t) MValue (FArr acc :: stk)
  = after (close (JArr (rev acc ++ List.map coerce_json l)) stk) t.
Proof.
  intros Hl. revert acc. induction Hl as [|j l Hj Hl IH]; intros acc Hne; [done|].
  destruct l as [|j' l].
  - cbn [List.map commas]. rewrite Hj by done. reflexivity.
  - change (commas (List.map print (j :: j' :: l)))
      with (print j ++ chr 44 :: commas (List.map print (j' :: l))).
    rewrite <-app_assoc. cbn [app]. rewrite Hj by done. rewrite scan_cons.
    cbn [step push].
    change (step_end (chr 44) (FArr ?a :: ?k)) with (Next MValue (FArr a :: k)). cbn [after].
    rewrite IH by done. cbn [rev List.map]. by rewrite <-app_assoc.
Qed.

Lemma scan_array l t stk :
  Forall reads_back l → forallb nums_ok l = true →
  scan (print (JArr l) ++ t) MValue stk = after (close (coerce_json (JArr l)) stk) t.
Proof.
  intros Hl Hok. cbn [print app]. rewrite scan_cons.
  cbn [step]. change (step_value (chr 91) MValue stk) with (Next MValueOrEnd (FArr [] :: stk)).
  cbn [after]. rewrite <-app_assoc. cbn [app]. destruct l as [|j l]; [reflexivity|].
  etransitivity; [|by apply (scan_elems (j :: l) t [] stk)].
  cbn [forallb] in Hok. apply andb_prop in Hok as [Hj _].
  destruct (print_first j Hj) as (c & r & Hp & Hw & Hc).
  assert (∃ r', commas (List.map print (j :: l)) = c :: r') as [r' Hr'].
  { cbn [List.map commas]. rewrite Hp. destruct (List.map print l); by eexists. }
  rewrite Hr'. cbn [app]. rewrite !scan_cons. by rewrite step_or_end.
Qed.

(** A member of an object, from its key on. *)
Definition member (kv : string * json) : bytes := quote kv.1 ++ chr 58 :: print kv.2.
Definition coerce_member (kv : string * json) : string * json :=
  (coerce_string kv.1, coerce_json kv.2).

Lemma scan_member kv c l acc stk m :
  reads_back kv.2 → delim c = true → m = MKey ∨ m = MKeyOrEnd →
  scan (member kv ++ c :: l) m (FObj acc :: stk)
  = scan (c :: l) MEnd (FObj (coerce_member kv :: acc) :: stk).
Proof.
  intros Hj Hc Hm. destruct kv as [k j]. unfold member, quote, coerce_member. cbn [fst snd].
  rewrite <-app_assoc. cbn [app]. rewrite scan_cons.
  assert (step dq m (FObj acc :: stk) = Next (MStr true []) (FObj acc :: stk)) as ->
    by (destruct Hm as [-> | ->]; reflexivity).
  cbn [after]. rewrite <-app_assoc. cbn [app]. rewrite scan_string. cbn [after].
  rewrite scan_cons. cbn [step]. change (is_ws (chr 58)) with false.
  change (code (chr 58) =? 58) with true. cbn match. cbn [after].
  rewrite <-app_comm_cons || idtac. rewrite Hj by done. reflexivity.
Qed.

Lemma scan_members l t acc stk m :
  Forall (λ kv, reads_back kv.2) l → l ≠ [] → m = MKey ∨ m = MKeyOrEnd →
  scan (commas (List.map member l) ++ chr 125 :: t) m (FObj acc :: stk)
  = after (close (JObj (rev acc ++ List.map coerce_member l)) stk) t.
Proof.
  intros Hl. revert acc m. induction Hl as [|kv l Hj Hl IH]; intros acc m Hne Hm; [done|].
  destruct l as [|kv' l].
  - cbn [List.map commas]. rewrite scan_member by done. reflexivity.
  - change (commas (List.map member (kv :: kv' :: l)))
      with (member kv ++ chr 44 :: commas (List.map member (kv' :: l))).
    rewrite <-app_assoc. cbn [app]. rewrite scan_member by done. rewrite scan_cons.
    cbn [step].
    change (step_end (chr 44) (FObj ?a :: ?k)) with (Next MKey (FObj a :: k)). cbn [after].
    rewrite IH by auto. cbn [rev List.map]. by rewrite <-app_assoc.
Qed.

Lemma scan_object l t stk :
  Forall (λ kv, reads_back kv.2) l →
  scan (print (JObj l) ++ t) MValue stk = after (close (coerce_json (JObj l)) stk) t.
Proof.
  intros Hl. cbn [print app]. rewrite scan_cons.
  cbn [step]. change (step_value (chr 123) MValue stk) with (Next MKeyOrEnd (FObj [] :: stk)).
  cbn [after]. rewrite <-app_assoc. cbn [app]. destruct l as [|kv l]; [reflexivity|].
  apply (scan_members (kv :: l) t [] stk); auto.
Qed.

Lemma scan_scalar_lit w v t stk :
  w ≠ [] → scan (w ++ t) (MLit w v) stk = after (deliver v stk) t.
Proof.
  induction w as [|a w IH]; [done|]. intros _. cbn [app]. rewrite scan_cons. cbn [step].
  rewrite N.eqb_refl. destruct w as [|b w]; [done|]. cbn [after]. by apply IH.
Qed.

Lemma scan_literal a w v t stk :
  step_value a MValue stk = Next (MLit w v) stk → w ≠ [] →
  scan ((a :: w) ++ t) MValue stk = after (deliver v stk) t.
Proof.
  intros Hs Hw. cbn [app]. rewrite scan_cons. cbn [step]. rewrite Hs. cbn [after].
  by apply scan_scalar_lit.
Qed.

(** The values that are neither array nor object. *)
Definition scalar (j : json) : bool :=
  match j with JArr _ | JObj _ => false | _ => true end.

Lemma scan_scalar j c l stk :
  scalar j = true → nums_ok j = true → (delim c || is_ws c) = true →
  scan (print j ++ c :: l) MValue stk
  = match deliver (coerce_json j) stk with
    | Next MEnd stk' => scan (c :: l) MEnd stk'
    | Next (MTop v) stk' => scan (c :: l) (MTop v) stk'
    | r => after r (c :: l)
    end.
Proof.
  intros Hsc Hok Hc.
  assert (Hd : ∀ v, after (deliver v stk) (c :: l) =
    match deliver v stk with
    | Next MEnd stk' => scan (c :: l) MEnd stk'
    | Next (MTop v) stk' => scan (c :: l) (MTop v) stk'
    | r => after r (c :: l)
    end) by (intros v; by destruct stk as [|[]]).
  destruct j as [|[]|lit|s|?|?]; try done; cbn [print coerce_json].
  - rewrite <-Hd. by apply (scan_literal (chr 110) (to_bytes "ull")).
  - rewrite <-Hd. by apply (scan_literal (chr 116) (to_bytes "rue")).
  - rewrite <-Hd. by apply (scan_literal (chr 102) (to_bytes "alse")).
  - destruct (scan_num_lit lit (c :: l) stk Hok) as (s & Hf & ->).
    rewrite scan_cons. cbn [step]. rewrite num_step_delim, Hf by done.
    rewrite rev_involutive, of_to_bytes. by destruct stk as [|[]].
  - unfold quote. cbn [app]. rewrite scan_cons. cbn [step].
    change (step_value dq MValue stk) with (Next (MStr false []) stk). cbn [after].
    rewrite <-app_assoc. cbn [app]. rewrite scan_string. rewrite <-Hd. done.
Qed.

Lemma print_reads_back j : nums_ok j = true → reads_back j.
Proof.
  induction j as [| | | |l IH|l IH] using json_ind'; intros Hok c t stk Hc Hin;
    try (rewrite scan_scalar by (rewrite ?Hc; done); by rewrite deliver_push).
  - cbn [nums_ok] in Hok. rewrite scan_array; [|by apply (Forall_impl_forallb _ _ _ IH)|done].
    by rewrite close_push.
  - cbn [nums_ok] in Hok. rewrite scan_object; [by rewrite close_push|].
    by apply (Forall_impl_forallb _ _ _ IH).
Qed.

(** *** Streams of values *)
Lemma decode_nl t : decode (nl :: t) = decode t.
Proof. reflexivity. Qed.

Lemma coerce_string_valid s : valid_string s = true → coerce_string s = s.
Proof.
  unfold valid_string, coerce_string. intros Hv. rewrite coerce_valid by done. apply of_to_bytes.
Qed.

Lemma json_ok_nums j : json_ok j = true → nums_ok j = true.
Proof.
  induction j as [| | | |l IH|l IH] using json_ind'; cbn [json_ok nums_ok]; try done.
  - intros Hok. pose proof (Forall_impl_forallb _ _ _ IH Hok) as Hl. clear -Hl.
    induction Hl as [|x l Hx _ IHl]; [done|]. cbn. by rewrite Hx, IHl.
  - intros Hok. induction l as [|kv l IHl]; [done|]. cbn in *.
    inversion IH; subst. apply andb_prop in Hok as [[_ Hj]%andb_prop Hok].
    rewrite IHl by done. by rewrite H1.
Qed.

Lemma json_ok_coerce j : json_ok j = true → coerce_json j = j.
Proof.
  induction j as [| | |s|l IH|l IH] using json_ind'; cbn [json_ok coerce_json]; try done.
  - intros Hv. by rewrite coerce_string_valid.
  - intros Hok. f_equal. induction l as [|x l IHl]; [done|]. cbn in *.
    inversion IH; subst. apply andb_prop in Hok as [Hx Hok].
    rewrite IHl by done. by rewrite H1.
  - intros Hok. f_equal. induction l as [|[k x] l IHl]; [done|].
    cbn [forallb List.map fst snd] in *.
    inversion IH; subst. apply andb_prop in Hok as [[Hk Hx]%andb_prop Hok].
    rewrite IHl, coerce_string_valid by done. cbn in H1. by rewrite H1.
Qed.

(** Reading an encoded value from a stream gives the value, invalid bytes of
    its strings replaced, and leaves what follows it. *)
Lemma decode_encode_coerce j t :
  nums_ok j = true →
  ∃ rest, decode (encode j ++ t) = Done (coerce_json j) rest ∧ (rest = t ∨ rest = nl :: t).
Proof.
  intros Hok. unfold decode, encode. rewrite <-app_assoc. cbn [app].
  destruct (scalar j) eqn:Hs.
  - rewrite scan_scalar by done. exists t. split; [|by left]. reflexivity.
  - exists (nl :: t). split; [|by right]. destruct j as [| | | |l|l]; try done.
    + rewrite scan_array; [done| |done]. cbn in Hok.
      apply (Forall_impl_forallb nums_ok); [|done].
      apply Forall_forall. intros. by apply print_reads_back.
    + rewrite scan_object; [done|]. cbn in Hok.
      apply (Forall_impl_forallb (λ kv, nums_ok kv.2)); [|done].
      apply Forall_forall. intros. by apply print_reads_back.
Qed.

Lemma decode_encode j t :
  json_ok j = true →
  ∃ rest, decode (encode j ++ t) = Done j rest ∧ decode rest = decode t.
Proof.
  intros Hok. destruct (decode_encode_coerce j t) as (rest & Hd & Hr); [by apply json_ok_nums|].
  exists rest. rewrite json_ok_coerce in Hd by done. split; [done|].
  destruct Hr as [-> | ->]; [done|apply decode_nl].
Qed.

Lemma unmarshal_encode j : json_ok j = true → unmarshal (encode j) = Done j [].
Proof.
  intros Hok. unfold unmarshal.
  destruct (decode_encode_coerce j [] (json_ok_nums _ Hok)) as (rest & Hd & Hr).
  rewrite app_nil_r in Hd. rewrite Hd, json_ok_coerce by done.
  destruct Hr as [-> | ->]; done.
Qed.

Lemma unmarshal_print j :
  json_ok j = true → scalar j = false → unmarshal (print j) = Done j [].
Proof.
  intros Hok Hs. unfold unmarshal, decode. pose proof (json_ok_nums _ Hok) as Hn.
  destruct j as [| | | |l|l]; try done; rewrite <-(app_nil_r (print _)).
  - rewrite scan_array; [| |done]; [by rewrite json_ok_coerce|].
    apply (Forall_impl_forallb nums_ok); [|done].
    apply Forall_forall. intros. by apply print_reads_back.
  - rewrite scan_object; [by rewrite json_ok_coerce|].
    apply (Forall_impl_forallb (λ kv, nums_ok kv.2)); [|done].
    apply Forall_forall. intros. by apply print_reads_back.
Qed.

(** ** Integers *)

(** [strconv.FormatInt(z, 10)], and [strconv.ParseInt] on a number literal:
    a literal with a fraction or an exponent is no integer. *)
Definition format_int (z : Z) : string := DecimalString.NilZero.string_of_int (Z.to_int z).
Definition parse_int (lit : string) : option Z :=
  Z.of_int <$> DecimalString.NilZero.int_of_string lit.

(** The digits of [Z.to_int] have no leading zero. *)
Definition leading (d : Decimal.uint) : Prop :=
  d = Decimal.D0 Decimal.Nil ∨ d ≠ Decimal.Nil ∧ ∀ d', d ≠ Decimal.D0 d'.

Lemma to_int_leading z :
  match Z.to_int z with
  | Decimal.Pos d => leading d
  | Decimal.Neg d => d ≠ Decimal.Nil ∧ ∀ d', d ≠ Decimal.D0 d'
  end.
Proof.
  assert (Hn : Z.to_int z = Decimal.norm (Z.to_int z))
    by (rewrite <-DecimalZ.to_of, DecimalZ.of_to; done).
  rewrite Hn. destruct (Z.to_int z) as [d|d]; cbn [Decimal.norm].
  - unfold Decimal.unorm. destruct (Decimal.nzhead d) as [|d'| | | | | | | | |] eqn:Hd;
      [by left| |by right..].
    exfalso. by apply (DecimalFacts.nzhead_nonzero d d').
  - destruct (Decimal.nzhead d) as [|d'| | | | | | | | |] eqn:Hd; [by left| |done..].
    exfalso. by apply (DecimalFacts.nzhead_nonzero d d').
Qed.

Lemma parse_format_int z : parse_int (format_int z) = Some z.
Proof.
  unfold parse_int, format_int. pose proof (to_int_leading z) as Hl.
  rewrite DecimalString.NilZero.isi; [cbn; by rewrite DecimalZ.of_to| |];
    intros E; rewrite E in Hl; [|by destruct Hl].
  destruct Hl as [?|[? ?]]; done.
Qed.

Lemma num_run_digits d :
  num_run N1 (to_bytes (DecimalString.NilEmpty.string_of_uint d)) = Some N1.
Proof. induction d; cbn; [done|assumption..]. Qed.

Lemma num_ok_digit a d :
  num_first a = Some N1 →
  num_ok (String a (DecimalString.NilEmpty.string_of_uint d)) = true.
Proof.
  intros Ha. unfold num_ok. change (to_bytes (String a ?s)) with (a :: to_bytes s).
  cbv iota. by rewrite Ha, num_run_digits.
Qed.

Lemma num_ok_neg a d :
  num_step NNeg a = Some N1 →
  num_ok (String (chr 45) (String a (DecimalString.NilEmpty.string_of_uint d))) = true.
Proof.
  intros Ha. pose proof (num_run_digits d) as Hr.
  enough (match match num_step NNeg a with
                | Some s => num_run s (to_bytes (DecimalString.NilEmpty.string_of_uint d))
                | None => None
                end with Some s => num_final s | None => false end = true) by done.
  by rewrite Ha, Hr.
Qed.

Lemma format_int_ok z : num_ok (format_int z) = true.
Proof.
  unfold format_int. pose proof (to_int_leading z) as Hl.
  destruct (Z.to_int z) as [d|d]; cbn [DecimalString.NilZero.string_of_int].
  - destruct Hl as [->|[Hne H0]]; [done|].
    destruct d as [|d| | | | | | | | |]; [done|by destruct (H0 d)|..]; by apply (num_ok_digit _ d).
  - destruct Hl as [Hne H0].
    destruct d as [|d| | | | | | | | |]; [done|by destruct (H0 d)|..]; by apply (num_ok_neg _ d).
Qed.

(** ** Properties *)

(** What the encoder writes, the decoder reads back: a value written by
    [json.NewEncoder(w).Encode] at the head of a stream is read by the next
    [Decode] as the same value, with every byte of its strings that is not
    valid UTF-8 replaced by U+FFFD, and the next read starts where the value
    ended. *)
Lemma decode_of_encode j t
    (Hok : nums_ok j = true) :
  ∃ rest, decode (encode j ++ t) = Done (coerce_json j) rest ∧ decode rest = decode t.
Proof.
  destruct (decode_encode_coerce j t Hok) as (rest & Hd & Hr). exists rest.
  split; [done|]. destruct Hr as [-> | ->]; [done|apply decode_nl].
Qed.

Definition example_json : json :=
  JObj [("process_id", JStr "p<1>"); ("exit_status", JNum "-3"); ("l", JArr [JNull; JBool true])].

Lemma decode_of_encode_witness :
  nums_ok example_json = true ∧
  ∃ rest, decode (encode example_json ++ to_bytes "{}") = Done (coerce_json example_json) rest
    ∧ decode rest = decode (to_bytes "{}").
Proof.
  split; [reflexivity|]. apply (decode_of_encode example_json (to_bytes "{}")). reflexivity.
Defined.

End Json.
