(* ===== verification/GoJson.v ===== *)
(** * Go values as JSON (package encoding/json, the reflection part)

    What [json.Marshal] and [json.Unmarshal] do at each kind of Go type: a
    [codec] is the behaviour at one type, and struct codecs are built from a
    list of fields the way reflection reads the struct tags.  The laws of a
    codec ([codec_ok]) say that well-formed data survives a round trip; each
    combinator preserves them. *)
From S2P Require Import Prelude Types Utf8 Json.

Create HintDb codec.

Module GoJson.
Import Utf8 Json.

(** The errors of the package, and the ones of the readers under it.  A type
    error names the innermost struct and the path of JSON names to the value. *)
Inductive json_error :=
| UnmarshalTypeError (value type : string) (Struct Field : string)
| MarshalerError (type : string) (msg : string)
| UnmarshalerError (msg : string)
| SyntaxError
| EOF
| UnexpectedEOF.

#[export] Instance json_error_eq_dec : EqDecision json_error.
Proof. solve_decision. Defined.

(** How decoding a value ended: a value of the wrong type is noted and decoding
    goes on, keeping the first such error; an error of a type's own
    unmarshaller ends it. *)
Inductive outcome :=
| Good
| Saved (e : json_error)
| Abort (e : json_error).

Definition after (o o' : outcome) : outcome :=
  match o, o' with
  | Good, _ => o'
  | Saved _, Abort _ => o'
  | Saved _, _ | Abort _, _ => o
  end.

Definition outcome_error (o : outcome) : option json_error :=
  match o with Good => None | Saved e | Abort e => Some e end.

Definition outcome_map (f : json_error → json_error) (o : outcome) : outcome :=
  match o with Good => Good | Saved e => Saved (f e) | Abort e => Abort (f e) end.

(** What a value is called in an [UnmarshalTypeError]. *)
Definition kind (j : json) : string :=
  match j with
  | JNull => "null" | JBool _ => "bool" | JNum _ => "number"
  | JStr _ => "string" | JArr _ => "array" | JObj _ => "object"
  end.

(** The behaviour at a type: its zero value, whether [omitempty] drops a
    value, encoding, and decoding into a value that is already there.  A
    decoder that meets a wrong value keeps what is there and reports the first
    such error.  [c_wf] tells the data that survives the round trip, [c_typed]
    the values that the type has: integers within its width. *)
Record codec (A : Type) := mk_codec {
  c_zero : A;
  c_is_zero : A → bool;
  c_empty : A → bool;
  c_enc : A → result json_error json;
  c_dec : json → A → A * outcome;
  c_wf : A → bool;
  c_typed : A → bool;
}.
Arguments mk_codec {A} _ _ _ _ _ _ _.
Arguments c_zero {A} _.
Arguments c_is_zero {A} _ _.
Arguments c_empty {A} _ _.
Arguments c_enc {A} _ _.
Arguments c_dec {A} _ _ _.
Arguments c_wf {A} _ _.
Arguments c_typed {A} _ _.

Record codec_ok {A} (c : codec A) : Prop := {
  ok_round v : c_wf c v = true →
    ∃ j, c_enc c v = Ok j ∧ json_ok j = true ∧ c_dec c j (c_zero c) = (v, Good);
  ok_is_zero v : c_is_zero c v = true → v = c_zero c;
  ok_typed_zero : c_typed c (c_zero c) = true;
  ok_typed_dec j v : c_typed c v = true → c_typed c (c_dec c j v).1 = true;
}.

(** ** Scalars *)
Definition mismatch {A} (j : json) (ty : string) (v : A) : A * outcome :=
  match j with
  | JNull => (v, Good)
  | _ => (v, Saved (UnmarshalTypeError (kind j) ty "" ""))
  end.

Definition bool_codec : codec bool :=
  mk_codec false negb negb (λ b, Ok (JBool b))
    (λ j v, match j with JBool b => (b, Good) | _ => mismatch j "bool" v end)
    (λ _, true) (λ _, true).

Definition string_codec : codec string :=
  mk_codec "" (λ s, bool_decide (s = "")) (λ s, bool_decide (s = "")) (λ s, Ok (JStr s))
    (λ j v, match j with JStr s => (s, Good) | _ => mismatch j "string" v end)
    valid_string (λ _, true).

(** Integers, decoded at the width of the type. *)
Definition signed_literal (lit : string) : bool :=
  match lit with String a _ => bool_decide (a = chr 45) | EmptyString => false end.

Definition int_dec (signed : bool) (lo hi : Z) (ty lit : string) (v : Z) : Z * outcome :=
  let bad := (v, Saved (UnmarshalTypeError ("number " +:+ lit) ty "" "")) in
  match parse_int lit with
  | Some z =>
      if (negb signed && signed_literal lit) || negb ((lo <=? z) && (z <=? hi))%Z then bad
      else (z, Good)
  | None => bad
  end.

Definition int_codec (signed : bool) (lo hi : Z) (ty : string) : codec Z :=
  mk_codec 0%Z (λ z, (z =? 0)%Z) (λ z, (z =? 0)%Z) (λ z, Ok (JNum (format_int z)))
    (λ j v, match j with JNum lit => int_dec signed lo hi ty lit v | _ => mismatch j ty v end)
    (λ z, (lo <=? z) && (z <=? hi))%Z (λ z, (lo <=? z) && (z <=? hi))%Z.

Definition uint64_codec : codec Z := int_codec false 0 (2 ^ 64 - 1) "uint64".
Definition uint32_codec : codec Z := int_codec false 0 (2 ^ 32 - 1) "uint32".
Definition uint16_codec : codec Z := int_codec false 0 (2 ^ 16 - 1) "uint16".
Definition uint8_codec (ty : string) : codec Z := int_codec false 0 (2 ^ 8 - 1) ty.
Definition int64_codec (ty : string) : codec Z := int_codec true minint64 maxint64 ty.

(** ** Pointers, slices, maps *)
Definition ptr_codec {A} (c : codec A) : codec (option A) :=
  mk_codec None (λ p, bool_decide (p = None)) (λ p, bool_decide (p = None))
    (λ p, match p with None => Ok JNull | Some v => c_enc c v end)
    (λ j p, match j with
            | JNull => (None, Good)
            | _ => let (v, e) := c_dec c j (default (c_zero c) p) in (Some v, e)
            end)
    (λ p, match p with
          | None => true
          | Some v => c_wf c v && match c_enc c v with Ok JNull => false | _ => true end
          end)
    (λ p, match p with None => true | Some v => c_typed c v end).

Fixpoint enc_list {A} (c : codec A) (l : list A) : result json_error (list json) :=
  match l with
  | [] => Ok []
  | x :: l' => rbind (c_enc c x) (λ j, rmap (cons j) (enc_list c l'))
  end.

(** Elements decode into the ones already there, then into zero values. *)
Fixpoint dec_list {A} (c : codec A) (js : list json) (old : list A) : list A * outcome :=
  match js with
  | [] => ([], Good)
  | j :: js' =>
      match c_dec c j (default (c_zero c) (head old)) with
      | (x, Abort e) => (x :: tail old, Abort e)
      | (x, o) => let (l, o') := dec_list c js' (tail old) in (x :: l, after o o')
      end
  end.

Definition slice_codec {A} (ty : string) (c : codec A) : codec (slice A) :=
  mk_codec None (λ s, bool_decide (s = None)) (λ s, bool_decide (slice_elems s = []))
    (λ s, match s with None => Ok JNull | Some l => rmap JArr (enc_list c l) end)
    (λ j s, match j with
            | JNull => (None, Good)
            | JArr js => let (l, e) := dec_list c js (slice_elems s) in (Some l, e)
            | _ => mismatch j ty s
            end)
    (λ s, forallb (c_wf c) (slice_elems s)) (λ s, forallb (c_typed c) (slice_elems s)).

Fixpoint enc_entries {A} (c : codec A) (l : list (string * A)) :
    result json_error (list (string * json)) :=
  match l with
  | [] => Ok []
  | (k, x) :: l' => rbind (c_enc c x) (λ j, rmap (cons (k, j)) (enc_entries c l'))
  end.

Fixpoint dec_entries {A} (c : codec A) (l : list (string * json)) (m : gmap string A) :
    gmap string A * outcome :=
  match l with
  | [] => (m, Good)
  | (k, j) :: l' =>
      match c_dec c j (c_zero c) with
      | (_, Abort e) => (m, Abort e)
      | (x, o) => let (m', o') := dec_entries c l' (<[k := x]> m) in (m', after o o')
      end
  end.

Definition map_codec {A} (ty : string) (c : codec A) : codec (gomap A) :=
  mk_codec None (λ s, bool_decide (s = None))
    (λ s, match s with None => true | Some m => bool_decide (m = ∅) end)
    (λ s, match s with None => Ok JNull | Some m => rmap JObj (enc_entries c (sorted_entries m)) end)
    (λ j s, match j with
            | JNull => (None, Good)
            | JObj kvs => let (m, e) := dec_entries c kvs (default ∅ s) in (Some m, e)
            | _ => mismatch j ty s
            end)
    (λ s, match s with
          | None => true
          | Some m => forallb (λ kx, valid_string kx.1 && c_wf c kx.2) (map_to_list m)
          end)
    (λ s, bool_decide (map_Forall (λ _ x, c_typed c x = true) (default ∅ s))).

(** ** Structs

    The fields of a struct in order, each with its JSON name, whether it is
    [omitempty], and the codec of its type; the index is the tuple of the field
    types. *)
Inductive fields : Type → Type :=
| FNil : fields unit
| FCons {A X} (name : string) (omit : bool) (c : codec A) (fs : fields X) : fields (A * X).

Fixpoint names {X} (fs : fields X) : list string :=
  match fs with FNil => [] | FCons name _ _ fs' => name :: names fs' end.

Fixpoint zeros {X} (fs : fields X) : X :=
  match fs with FNil => () | FCons _ _ c fs' => (c_zero c, zeros fs') end.

Fixpoint enc_fields {X} (fs : fields X) : X → result json_error (list (string * json)) :=
  match fs with
  | FNil => λ _, Ok []
  | FCons name omit c fs' => λ ax,
      if omit && c_empty c ax.1 then enc_fields fs' ax.2
      else rbind (c_enc c ax.1) (λ j, rmap (cons (name, j)) (enc_fields fs' ax.2))
  end.

(** Case folding of a key, as far as it can meet an ASCII name: the letters,
    and the two other runes that fold to letters (U+017F and U+212A). *)
Definition fold_char (a : Ascii.ascii) : Ascii.ascii :=
  if ((97 <=? code a) && (code a <=? 122))%N then chr (code a - 32) else a.

Fixpoint fold_bytes (b : bytes) : bytes :=
  match b with
  | [] => []
  | a :: ((b1 :: b') as t) =>
      if ((code a =? 197) && (code b1 =? 191))%N then chr 83 :: fold_bytes b'
      else match b' with
           | b2 :: b'' =>
               if ((code a =? 226) && (code b1 =? 132) && (code b2 =? 170))%N
               then chr 75 :: fold_bytes b'' else fold_char a :: fold_bytes t
           | [] => fold_char a :: fold_bytes t
           end
  | a :: [] => [fold_char a]
  end.

Definition fold_name (s : string) : string := of_bytes (fold_bytes (to_bytes s)).

Definition add_context (ty name : string) (e : json_error) : json_error :=
  match e with
  | UnmarshalTypeError v t s f =>
      UnmarshalTypeError v t (if decide (s = "") then ty else s)
        (if decide (f = "") then name else name +:+ "." +:+ f)
  | _ => e
  end.

(** Decoding into the first field whose name is selected. *)
Fixpoint set_field {X} (ty : string) (sel : string → bool) (fs : fields X) (j : json) :
    X → option (X * outcome) :=
  match fs with
  | FNil => λ _, None
  | FCons name _ c fs' => λ ax,
      if sel name then
        let (a, e) := c_dec c j ax.1 in Some ((a, ax.2), outcome_map (add_context ty name) e)
      else (λ r, ((ax.1, r.1), r.2)) <$> set_field ty sel fs' j ax.2
  end.

(** A key selects the field of that very name, or else the first one equal up
    to case; a key that selects none is skipped. *)
Definition dec_key {X} (ty : string) (fs : fields X) (k : string) (j : json) (x : X) :
    X * outcome :=
  match set_field ty (λ n, bool_decide (n = k)) fs j x with
  | Some r => r
  | None =>
      default (x, Good) (set_field ty (λ n, bool_decide (fold_name n = fold_name k)) fs j x)
  end.

Fixpoint dec_obj {X} (ty : string) (fs : fields X) (kvs : list (string * json)) (x : X) :
    X * outcome :=
  match kvs with
  | [] => (x, Good)
  | (k, j) :: kvs' =>
      match dec_key ty fs k j x with
      | (x1, Abort e) => (x1, Abort e)
      | (x1, o) => let (x2, o') := dec_obj ty fs kvs' x1 in (x2, after o o')
      end
  end.

Fixpoint wf_fields {X} (fs : fields X) : X → bool :=
  match fs with
  | FNil => λ _, true
  | FCons _ omit c fs' => λ ax,
      (if omit && c_empty c ax.1 then c_is_zero c ax.1 else c_wf c ax.1) && wf_fields fs' ax.2
  end.

Fixpoint typed_fields {X} (fs : fields X) : X → bool :=
  match fs with FNil => λ _, true | FCons _ _ c fs' => λ ax, c_typed c ax.1 && typed_fields fs' ax.2 end.

(** The codec of a struct, given the correspondence of its record type with the
    tuple of its fields; [ty] is the type as printed, [name] the bare name. *)
Definition struct_codec {T X} (ty name : string) (fs : fields X) (to : T → X) (from : X → T) : codec T :=
  mk_codec (from (zeros fs)) (λ _, false) (λ _, false)
    (λ t, rmap JObj (enc_fields fs (to t)))
    (λ j t, match j with
            | JObj kvs => let (x, e) := dec_obj name fs kvs (to t) in (from x, e)
            | _ => mismatch j ty t
            end)
    (λ t, wf_fields fs (to t)) (λ t, typed_fields fs (to t)).

(** ** The laws *)

Lemma mk_ok {A} (c : codec A) :
  (∀ v, c_wf c v = true → ∃ j, c_enc c v = Ok j ∧ json_ok j = true ∧ c_dec c j (c_zero c) = (v, Good)) →
  (∀ v, c_is_zero c v = true → v = c_zero c) →
  c_typed c (c_zero c) = true → (∀ j v, c_typed c v = true → c_typed c (c_dec c j v).1 = true) → codec_ok c.
Proof. by split. Qed.

Lemma mismatch_keeps {A} j ty (v : A) : (mismatch j ty v).1 = v.
Proof. by destruct j. Qed.

Lemma bool_ok : codec_ok bool_codec.
Proof. apply mk_ok; [|by intros []|done..]. intros b _. by eexists. Qed.

Lemma string_ok : codec_ok string_codec.
Proof. apply mk_ok; cbn; [|by intros s ->%bool_decide_eq_true|done..]. intros s Hs. by eexists. Qed.

Lemma signed_literal_format z : (0 <= z)%Z → signed_literal (format_int z) = false.
Proof.
  intros Hz. unfold format_int. destruct z as [|p|p]; [done| |lia].
  cbn. destruct (Pos.to_uint p); done.
Qed.

(** An integer that is not in range is refused. *)
Lemma int_dec_range signed lo hi ty lit v :
  ((lo <=? v) && (v <=? hi))%Z = true →
  ((lo <=? (int_dec signed lo hi ty lit v).1) && ((int_dec signed lo hi ty lit v).1 <=? hi))%Z = true.
Proof.
  intros Hv. unfold int_dec. destruct (parse_int lit) as [z|]; [|done].
  destruct (negb signed && signed_literal lit); [done|]. cbn [orb].
  destruct ((lo <=? z) && (z <=? hi))%Z eqn:Hz; [exact Hz|done].
Qed.

Lemma int_ok signed lo hi ty :
  (signed = true ∨ (0 <= lo)%Z) → (lo <= 0 <= hi)%Z → codec_ok (int_codec signed lo hi ty).
Proof.
  intros Hs H0. apply mk_ok; cbn; [|intros z; lia|lia|].
  2: { intros [] v Hv; try done. by apply int_dec_range. }
  intros z Hz. eexists. split_and!; [done|apply format_int_ok|].
  unfold int_dec. rewrite parse_format_int, Hz. cbn [negb].
  destruct Hs as [->|Hlo]; [done|]. rewrite signed_literal_format by lia.
  by rewrite andb_false_r.
Qed.

Lemma ptr_ok {A} (c : codec A) : codec_ok c → codec_ok (ptr_codec c).
Proof.
  intros [Hr _ Hz Ht]. apply mk_ok; cbn; [|by intros p ->%bool_decide_eq_true|done|].
  2: { intros j p Hp. assert (c_typed c (default (c_zero c) p) = true) as Hd by (by destruct p).
       pose proof (Ht j _ Hd) as Hj. destruct j; [done|..];
         by destruct (c_dec c _ (default (c_zero c) p)). }
  intros [v|] Hwf; [|by eexists]. apply andb_true_iff in Hwf as [Hwf Hn].
  destruct (Hr v Hwf) as (j & He & Hj & Hd). exists j. rewrite He in Hn. split_and!; [done..|].
  destruct j; [done|by rewrite Hd..].
Qed.

Lemma enc_dec_list {A} (c : codec A) l :
  codec_ok c → forallb (c_wf c) l = true →
  ∃ js, enc_list c l = Ok js ∧ forallb json_ok js = true ∧ dec_list c js [] = (l, Good).
Proof.
  intros [Hr _ _ _]. induction l as [|x l IH]; cbn [forallb]; [by eexists|].
  intros [Hx Hl]%andb_true_iff. destruct (Hr x Hx) as (j & He & Hj & Hd).
  destruct (IH Hl) as (js & He' & Hj' & Hd'). exists (j :: js). cbn.
  by rewrite He, He', Hj, Hj', Hd, Hd'.
Qed.

Lemma dec_list_typed {A} (c : codec A) js old :
  codec_ok c → forallb (c_typed c) old = true → forallb (c_typed c) (dec_list c js old).1 = true.
Proof.
  intros Hc. revert old. induction js as [|j js IH]; intros old Ho; cbn [dec_list]; [done|].
  assert (c_typed c (default (c_zero c) (head old)) = true) as Hx.
  { destruct old; [apply (ok_typed_zero c Hc)|]. by apply andb_prop in Ho as [? _]. }
  assert (forallb (c_typed c) (tail old) = true) as Ht by (destruct old; [done|by apply andb_prop in Ho as [_ ?]]).
  apply (ok_typed_dec c Hc j) in Hx. specialize (IH _ Ht).
  destruct (c_dec c j (default (c_zero c) (head old))) as [x [|e|e]]; cbn [fst] in Hx;
    [destruct (dec_list c js (tail old))..|]; cbn [fst forallb] in *; by rewrite Hx.
Qed.

Lemma slice_ok {A} ty (c : codec A) : codec_ok c → codec_ok (slice_codec ty c).
Proof.
  intros Hc. apply mk_ok; cbn; [|by intros p ->%bool_decide_eq_true|done|].
  2: { intros j s Hs. destruct j as [| | | |js|]; try done. pose proof (dec_list_typed c js _ Hc Hs) as Hd.
       by destruct (dec_list c js (slice_elems s)). }
  intros [l|] Hwf; [|by eexists].
  destruct (enc_dec_list c l Hc Hwf) as (js & He & Hj & Hd). exists (JArr js).
  rewrite He. split_and!; [done..|]. cbn. by rewrite Hd.
Qed.

Lemma enc_dec_entries {A} (c : codec A) l :
  codec_ok c → forallb (λ kx, valid_string kx.1 && c_wf c kx.2) l = true →
  ∃ kvs, enc_entries c l = Ok kvs ∧
    forallb (λ kv, valid_string kv.1 && json_ok kv.2) kvs = true ∧
    ∀ m, dec_entries c kvs m = (foldl (λ m kx, <[kx.1 := kx.2]> m) m l, Good).
Proof.
  intros [Hr _ _ _]. induction l as [|[k x] l IH]; cbn [forallb]; [by eexists|].
  intros [[Hk Hx]%andb_true_iff Hl]%andb_true_iff. cbn in Hk, Hx.
  destruct (Hr x Hx) as (j & He & Hj & Hd).
  destruct (IH Hl) as (js & He' & Hj' & Hd'). exists ((k, j) :: js). cbn.
  rewrite He, He', Hk, Hj, Hj', Hd. split_and!; [done..|]. intros m. by rewrite Hd'.
Qed.

Lemma foldl_insert_list {A} (l : list (string * A)) (m : gmap string A) :
  NoDup l.*1 → foldl (λ (m : gmap string A) kx, <[kx.1 := kx.2]> m) m l = list_to_map l ∪ m.
Proof.
  revert m. induction l as [|[k x] l IH]; intros m; cbn.
  - intros _. by rewrite (left_id_L ∅ (∪)).
  - intros [Hk Hl]%NoDup_cons. rewrite IH by done.
    rewrite <-insert_union_l. apply map_eq. intros i.
    destruct (decide (i = k)) as [->|Hi].
    + rewrite lookup_insert_eq, lookup_union_r, lookup_insert_eq; [done|].
      by apply not_elem_of_list_to_map.
    + by rewrite lookup_insert_ne, !lookup_union, lookup_insert_ne.
Qed.

Lemma forallb_perm {A} (P : A → bool) l l' : l ≡ₚ l' → forallb P l' = true → forallb P l = true.
Proof. intros Hp. rewrite !forallb_forall. intros H x Hx. apply H. by rewrite <-Hp. Qed.

Lemma dec_entries_typed {A} (c : codec A) kvs (m : gmap string A) :
  codec_ok c → map_Forall (λ _ x, c_typed c x = true) m →
  map_Forall (λ _ x, c_typed c x = true) (dec_entries c kvs m).1.
Proof.
  intros Hc. revert m. induction kvs as [|[k j] kvs IH]; intros m Hm; cbn [dec_entries]; [done|].
  pose proof (ok_typed_dec c Hc j _ (ok_typed_zero c Hc)) as Hx.
  destruct (c_dec c j (c_zero c)) as [x [|e|e]]; [| |done]; cbn [fst] in Hx;
    specialize (IH (<[k := x]> m) (map_Forall_insert_2 _ _ _ _ Hx Hm));
    by destruct (dec_entries c kvs (<[k := x]> m)).
Qed.

Lemma map_ok {A} ty (c : codec A) : codec_ok c → codec_ok (map_codec ty c).
Proof.
  intros Hc. apply mk_ok; cbn; [|by intros p ->%bool_decide_eq_true| |].
  2: { apply bool_decide_eq_true, map_Forall_empty. }
  2: { intros j s Hs%bool_decide_eq_true. apply bool_decide_eq_true. destruct j as [| | | | |kvs]; try done.
       pose proof (dec_entries_typed c kvs _ Hc Hs) as Hd. by destruct (dec_entries c kvs (default ∅ s)). }
  intros [m|] Hwf; [|by eexists].
  apply (forallb_perm _ _ _ (sorted_entries_perm m)) in Hwf.
  destruct (enc_dec_entries c _ Hc Hwf) as (kvs & He & Hj & Hd). exists (JObj kvs).
  rewrite He. split_and!; [done..|]. cbn.
  destruct (sorted_entries_map m) as [Hn Hm].
  by rewrite Hd, foldl_insert_list, Hm, (right_id_L ∅ (∪)).
Qed.

(** Every codec of a struct's fields obeys the laws, and the names of the
    fields are distinct. *)
Fixpoint fields_ok {X} (fs : fields X) : Prop :=
  match fs with
  | FNil => True
  | FCons _ _ c fs' => codec_ok c ∧ fields_ok fs'
  end.

Lemma set_field_in {X} ty sel (fs : fields X) j x :
  Exists (λ n, sel n = true) (names fs) → ∃ r, set_field ty sel fs j x = Some r.
Proof.
  induction fs as [|A X name omit c fs IH]; cbn; [by intros ?%Exists_nil|].
  destruct (sel name) eqn:Hs.
  - intros _. destruct (c_dec c j x.1). by eexists.
  - intros [?|Hx]%Exists_cons; [congruence|]. destruct (IH x.2 Hx) as [r ->]. by eexists.
Qed.

Lemma dec_key_tail {A X} ty name omit (c : codec A) (fs : fields X) k j a x :
  name ≠ k → k ∈ names fs →
  dec_key ty (FCons name omit c fs) k j (a, x) =
  let (x', e) := dec_key ty fs k j x in ((a, x'), e).
Proof.
  intros Hn Hk. unfold dec_key. cbn [set_field]. rewrite bool_decide_false by done. cbn.
  destruct (set_field_in ty (λ n, bool_decide (n = k)) fs j x) as [[x' e] ->]; [|done].
  apply Exists_exists. exists k. by rewrite bool_decide_true.
Qed.

Lemma dec_obj_tail {A X} ty name omit (c : codec A) (fs : fields X) kvs a x :
  Forall (λ kv, name ≠ kv.1 ∧ kv.1 ∈ names fs) kvs →
  dec_obj ty (FCons name omit c fs) kvs (a, x) =
  let (x', e) := dec_obj ty fs kvs x in ((a, x'), e).
Proof.
  intros H. revert x. induction H as [|[k j] kvs [Hn Hk] _ IH]; intros x; cbn [dec_obj]; [done|].
  rewrite dec_key_tail by done. destruct (dec_key ty fs k j x) as [x1 [|e1|e1]]; [..|done];
    rewrite IH; by destruct (dec_obj ty fs kvs x1).
Qed.

Lemma enc_fields_names {X} (fs : fields X) x kvs :
  enc_fields fs x = Ok kvs → Forall (λ kv, kv.1 ∈ names fs) kvs.
Proof.
  revert kvs. induction fs as [|A X name omit c fs IH]; cbn; [by intros ? [= <-]|].
  intros kvs He. assert (∀ l, enc_fields fs x.2 = Ok l → Forall (λ kv, kv.1 ∈ name :: names fs) l) as Ht.
  { intros l Hl. eapply Forall_impl; [by apply (IH x.2)|]. intros ??. by right. }
  destruct (omit && c_empty c x.1); [by apply Ht|].
  destruct (c_enc c x.1); [|done]. destruct (enc_fields fs x.2) as [l|]; [|done].
  injection He as <-. constructor; [by left|by apply Ht].
Qed.

Lemma dec_key_head {A X} ty name omit (c : codec A) (fs : fields X) j v x :
  c_dec c j (c_zero c) = (v, Good) →
  dec_key ty (FCons name omit c fs) name j (c_zero c, x) = ((v, x), Good).
Proof. intros Hd. unfold dec_key. cbn. by rewrite bool_decide_true, Hd. Qed.

Lemma enc_dec_fields {X} ty (fs : fields X) x :
  fields_ok fs → NoDup (names fs) → forallb valid_string (names fs) = true →
  wf_fields fs x = true →
  ∃ kvs, enc_fields fs x = Ok kvs ∧
    forallb (λ kv, valid_string kv.1 && json_ok kv.2) kvs = true ∧
    dec_obj ty fs kvs (zeros fs) = (x, Good).
Proof.
  induction fs as [|A X name omit c fs IH]; [by destruct x; eexists|].
  cbn [fields_ok names forallb wf_fields zeros enc_fields].
  intros [Hc Hfs] [Hn Hnd]%NoDup_cons [Hv Hvs]%andb_true_iff [Hw Hws]%andb_true_iff.
  destruct x as [v x]. cbn [fst snd] in *.
  destruct (IH x Hfs Hnd Hvs Hws) as (kvs & He & Hj & Hd).
  assert (Forall (λ kv, name ≠ kv.1 ∧ kv.1 ∈ names fs) kvs) as Hall.
  { eapply Forall_impl; [by eapply enc_fields_names|]. cbn. intros kv Hkv. by split; [intros ->|]. }
  destruct (omit && c_empty c v).
  - exists kvs. split_and!; [done..|]. rewrite dec_obj_tail, Hd by done.
    by rewrite (ok_is_zero c Hc v Hw).
  - destruct (ok_round c Hc v Hw) as (j & Hej & Hjj & Hdj). exists ((name, j) :: kvs).
    rewrite Hej, He. cbn [rbind rmap forallb fst snd dec_obj]. rewrite Hv, Hjj, Hj.
    split_and!; [done..|]. by rewrite (dec_key_head _ _ _ _ _ _ v), dec_obj_tail, Hd.
Qed.

Lemma zeros_typed {X} (fs : fields X) : fields_ok fs → typed_fields fs (zeros fs) = true.
Proof.
  induction fs as [|A X name omit c fs IH]; [done|]. intros [Hc Hfs]. cbn. by rewrite (ok_typed_zero c Hc), IH.
Qed.

Lemma set_field_typed {X} ty sel (fs : fields X) j x r :
  fields_ok fs → typed_fields fs x = true → set_field ty sel fs j x = Some r → typed_fields fs r.1 = true.
Proof.
  revert r. induction fs as [|A X name omit c fs IH]; intros r; [done|].
  intros [Hc Hfs] [Ha Hx]%andb_prop. cbn [set_field]. destruct (sel name).
  - pose proof (ok_typed_dec c Hc j _ Ha) as Hd. destruct (c_dec c j x.1) as [a o]. intros [= <-].
    cbn [typed_fields fst snd]. apply andb_true_iff. by split.
  - destruct (set_field ty sel fs j x.2) as [[x' o]|] eqn:Hf; [|done]. intros [= <-].
    cbn [typed_fields fst snd]. apply andb_true_iff. split; [done|]. by apply (IH x.2 (x', o)).
Qed.

Lemma dec_key_typed {X} ty (fs : fields X) k j x :
  fields_ok fs → typed_fields fs x = true → typed_fields fs (dec_key ty fs k j x).1 = true.
Proof.
  intros Hfs Hx. unfold dec_key. destruct (set_field ty _ fs j x) as [r|] eqn:Hr; [by eapply set_field_typed|].
  destruct (set_field ty (λ n, bool_decide (fold_name n = fold_name k)) fs j x) as [r|] eqn:Hr'; [|done].
  by eapply set_field_typed.
Qed.

Lemma dec_obj_typed {X} ty (fs : fields X) kvs x :
  fields_ok fs → typed_fields fs x = true → typed_fields fs (dec_obj ty fs kvs x).1 = true.
Proof.
  intros Hfs. revert x. induction kvs as [|[k j] kvs IH]; intros x Hx; cbn [dec_obj]; [done|].
  pose proof (dec_key_typed ty fs k j x Hfs Hx) as Hk.
  destruct (dec_key ty fs k j x) as [x1 [|e|e]]; [| |done]; cbn [fst] in Hk; specialize (IH x1 Hk);
    by destruct (dec_obj ty fs kvs x1).
Qed.

Lemma struct_ok {T X} ty name (fs : fields X) (to : T → X) (from : X → T) :
  (∀ t, from (to t) = t) → (∀ x, to (from x) = x) →
  fields_ok fs →
  (bool_decide (NoDup (names fs)) && forallb valid_string (names fs)) = true →
  codec_ok (struct_codec ty name fs to from).
Proof.
  intros Hft Htf Hfs [?%bool_decide_eq_true Hv]%andb_true_iff. apply mk_ok; [|done| |].
  2: { cbn. rewrite Htf. by apply zeros_typed. }
  2: { intros j t Ht. cbn [c_typed c_dec struct_codec] in *. destruct j as [| | | | |kvs]; try done.
       pose proof (dec_obj_typed name fs kvs _ Hfs Ht) as Hd. destruct (dec_obj name fs kvs (to t)).
       cbn [fst] in *. by rewrite Htf. }
  intros t Hwf. destruct (enc_dec_fields name fs (to t)) as (kvs & He & Hj & Hd); [done..|].
  exists (JObj kvs). cbn. rewrite He. split_and!; [done..|]. by rewrite Htf, Hd, Hft.
Qed.

Lemma uint64_ok : codec_ok uint64_codec.
Proof. apply int_ok; [by right|done]. Qed.
Lemma uint32_ok : codec_ok uint32_codec.
Proof. apply int_ok; [by right|done]. Qed.
Lemma uint16_ok : codec_ok uint16_codec.
Proof. apply int_ok; [by right|done]. Qed.
Lemma uint8_ok ty : codec_ok (uint8_codec ty).
Proof. apply int_ok; [by right|done]. Qed.
Lemma int64_ok ty : codec_ok (int64_codec ty).
Proof. apply int_ok; [by left|done]. Qed.

(** ** Messages on the wire *)

(** [json.Marshal], [json.Unmarshal], [json.NewEncoder(w).Encode(v)] and
    [json.NewDecoder(r).Decode(v)] at a type.  The decoder also gives what it
    left unread. *)
Definition Marshal {A} (c : codec A) (v : A) : result json_error bytes := rmap print (c_enc c v).

Definition Encode {A} (c : codec A) (v : A) : result json_error bytes := rmap encode (c_enc c v).

Definition decoded {A} (r : A * outcome) : A * option json_error := (r.1, outcome_error r.2).

Definition Unmarshal {A} (c : codec A) (b : bytes) (v : A) : A * option json_error :=
  match unmarshal b with
  | Done j _ => decoded (c_dec c j v)
  | Eof | UnexpectedEof | Syntax => (v, Some SyntaxError)
  end.

Definition Decode {A} (c : codec A) (b : bytes) (v : A) : A * option json_error * bytes :=
  match decode b with
  | Done j rest => (decoded (c_dec c j v), rest)
  | Eof => (v, Some EOF, [])
  | UnexpectedEof => (v, Some UnexpectedEOF, [])
  | Syntax => (v, Some SyntaxError, [])
  end.

(** What a decoder gets from an encoder is what was encoded, whatever follows,
    and it goes on with what follows. *)
Lemma Decode_Encode {A} (c : codec A) v t :
  codec_ok c → c_wf c v = true →
  ∃ b rest, Encode c v = Ok b ∧ Decode c (b ++ t) (c_zero c) = (v, None, rest) ∧
    decode rest = decode t.
Proof.
  intros Hc Hwf. destruct (ok_round c Hc v Hwf) as (j & He & Hj & Hd).
  destruct (decode_encode j t Hj) as (rest & Hdec & Hrest).
  exists (encode j), rest. unfold Encode, Decode, decoded. by rewrite He, Hdec, Hd.
Qed.

Lemma Unmarshal_Encode {A} (c : codec A) v :
  codec_ok c → c_wf c v = true →
  ∃ b, Encode c v = Ok b ∧ Unmarshal c b (c_zero c) = (v, None).
Proof.
  intros Hc Hwf. destruct (ok_round c Hc v Hwf) as (j & He & Hj & Hd).
  exists (encode j). unfold Encode, Unmarshal, decoded. by rewrite He, unmarshal_encode, Hd.
Qed.

#[export] Hint Resolve bool_ok string_ok ptr_ok slice_ok map_ok
  uint64_ok uint32_ok uint16_ok uint8_ok int64_ok : codec.

(** The laws of a struct's codec, from those of its fields in the database. *)
Ltac codec_struct :=
  apply struct_ok;
  [ by intros []
  | intros; repeat match goal with x : _ * _ |- _ => destruct x | x : unit |- _ => destruct x end;
    reflexivity
  | cbn [fields_ok]; split_and!; auto with codec
  | reflexivity ].

Lemma Decode_ext {A} (c : codec A) b b' v : decode b = decode b' → Decode c b v = Decode c b' v.
Proof. unfold Decode. by intros ->. Qed.
End GoJson.
