(* ===== verification/Errors.v ===== *)
(** * Errors and their wire form (errors.go)

    The error types of the API, the status they are answered with, and the JSON
    form in which they cross the wire. *)
From S2P Require Import Prelude Types Utf8 Json GoJson.

Module Errors.
Import Utf8 Json GoJson.

(** A Go [error] by its dynamic type: the types of errors.go, the errors of
    encoding/json, and any other type by its text. *)
Inductive error :=
| UnrecoverableError (Symptom : string)
| ContainerNotFoundError (Handle : string)
| ServiceUnavailableError (Cause : string)
| ProcessNotFoundError (ProcessID : string)
| ExecutableNotFoundError (Message : string)
| OtherError (Message : string)
| JsonError (e : json_error).

#[export] Instance error_eq_dec : EqDecision error.
Proof. solve_decision. Defined.

Definition NewUnrecoverableError (symptom : string) : error := UnrecoverableError symptom.
Definition NewServiceUnavailableError (cause : string) : error := ServiceUnavailableError cause.

(** The wording of encoding/json's errors. *)
Class JsonText := json_text : json_error → string.

(** The struct that wraps an error for the wire; its field is nil in the zero
    value. *)
Record Error := mk_Error { e_Err : option error }.

Definition NewError (err : string) : Error := mk_Error (Some (OtherError err)).

Definition unrecoverableErrType : string := "UnrecoverableError".
Definition serviceUnavailableErrType : string := "ServiceUnavailableError".
Definition containerNotFoundErrType : string := "ContainerNotFoundError".
Definition processNotFoundErrType : string := "ProcessNotFoundError".
Definition executableNotFoundError : string := "ExecutableNotFoundError".

Record marshalledError := mk_marshalledError {
  me_Type : string;
  me_Message : string;
  me_Handle : string;
  me_ProcessID : string;
  me_Binary : string;
}.

Definition marshalledError_codec : codec marshalledError :=
  struct_codec "garden.marshalledError" "marshalledError"
    (FCons "Type" false string_codec $ FCons "Message" false string_codec $
     FCons "Handle" false string_codec $ FCons "ProcessID" false string_codec $
     FCons "Binary" false string_codec FNil)
    (λ '(mk_marshalledError t m h p b), (t, (m, (h, (p, (b, ()))))))
    (λ '(t, (m, (h, (p, (b, ()))))), mk_marshalledError t m h p b).

Definition StatusNotFound : Z := 404.
Definition StatusInternalServerError : Z := 500.

Definition StatusCode (m : Error) : Z :=
  match e_Err m with
  | Some (ContainerNotFoundError _) => StatusNotFound
  | Some (ProcessNotFoundError _) => StatusNotFound
  | _ => StatusInternalServerError
  end.

Section text.
Context `{JsonText}.

(** The [Error] method. *)
Definition error_text (err : error) : string :=
  match err with
  | UnrecoverableError Symptom => Symptom
  | ContainerNotFoundError Handle => "unknown handle: " +:+ Handle
  | ServiceUnavailableError Cause => Cause
  | ProcessNotFoundError ProcessID => "unknown process: " +:+ ProcessID
  | ExecutableNotFoundError Message => Message
  | OtherError Message => Message
  | JsonError e => json_text e
  end.

Definition marshalled (err : error) : marshalledError :=
  let '(errorType, handle, processID) :=
    match err with
    | ContainerNotFoundError Handle => (containerNotFoundErrType, Handle, "")
    | ProcessNotFoundError ProcessID => (processNotFoundErrType, "", ProcessID)
    | ExecutableNotFoundError _ => (executableNotFoundError, "", "")
    | ServiceUnavailableError _ => (serviceUnavailableErrType, "", "")
    | UnrecoverableError _ => (unrecoverableErrType, "", "")
    | OtherError _ | JsonError _ => ("", "", "")
    end in
  mk_marshalledError errorType (error_text err) handle processID "".

(** On a nil [Err] the code dereferences nil; it is told apart by this error,
    which no caller ever sees as a value. *)
Definition NilDereference : json_error := MarshalerError "*garden.Error" "nil pointer dereference".

Definition MarshalJSON (m : Error) : result json_error json :=
  match e_Err m with
  | Some err => c_enc marshalledError_codec (marshalled err)
  | None => Err NilDereference
  end.

Definition unmarshalled (r : marshalledError) : error :=
  if decide (me_Type r = unrecoverableErrType) then UnrecoverableError (me_Message r)
  else if decide (me_Type r = serviceUnavailableErrType) then ServiceUnavailableError (me_Message r)
  else if decide (me_Type r = containerNotFoundErrType) then ContainerNotFoundError (me_Handle r)
  else if decide (me_Type r = processNotFoundErrType) then ProcessNotFoundError (me_ProcessID r)
  else if decide (me_Type r = executableNotFoundError) then ExecutableNotFoundError (me_Message r)
  else OtherError (me_Message r).

(** The inner decoder's error ends the outer decoding, which names its own
    struct in a type error. *)
Definition outer_context (e : json_error) : json_error :=
  match e with UnmarshalTypeError v t _ f => UnmarshalTypeError v t "" f | _ => e end.

Definition UnmarshalJSON (j : json) (m : Error) : Error * outcome :=
  let (result, o) := c_dec marshalledError_codec j (c_zero marshalledError_codec) in
  match outcome_error o with
  | Some e => (m, Abort (outer_context e))
  | None => (mk_Error (Some (unmarshalled result)), Good)
  end.

(** What an error is once it has crossed the wire. *)
Definition received (err : error) : error :=
  match err with JsonError e => OtherError (json_text e) | _ => err end.

Definition Error_codec : codec Error :=
  mk_codec (mk_Error None) (λ _, false) (λ _, false) MarshalJSON UnmarshalJSON
    (λ m, match e_Err m with
          | Some err => bool_decide (received err = err) &&
              c_wf marshalledError_codec (marshalled err)
          | None => false
          end) (λ _, true).

(** ** Properties *)
Lemma marshalledError_ok : codec_ok marshalledError_codec.
Proof. codec_struct. Qed.

Lemma unmarshalled_marshalled err : unmarshalled (marshalled err) = received err.
Proof. by destruct err. Qed.

Lemma Error_enc_dec err :
  c_wf marshalledError_codec (marshalled err) = true →
  ∃ j, MarshalJSON (mk_Error (Some err)) = Ok j ∧ json_ok j = true ∧
    ∀ m, UnmarshalJSON j m = (mk_Error (Some (received err)), Good).
Proof.
  intros Hwf. destruct (ok_round _ marshalledError_ok _ Hwf) as (j & He & Hj & Hd).
  exists j. split_and!; [done..|]. intros m. unfold UnmarshalJSON.
  by rewrite Hd, <-unmarshalled_marshalled.
Qed.

Lemma Error_ok : codec_ok Error_codec.
Proof.
  apply mk_ok; [|done..]. intros [[err|]]; [|done]. cbn [c_wf Error_codec e_Err].
  intros [Hr%bool_decide_eq_true Hwf]%andb_true_iff.
  destruct (Error_enc_dec err Hwf) as (j & He & Hj & Hd). exists j.
  split_and!; [done..|]. cbn. by rewrite Hd, Hr.
Qed.
End text.

(** The data of an error is text. *)
Definition error_valid `{JsonText} (err : error) : bool :=
  match err with
  | UnrecoverableError s | ServiceUnavailableError s | ExecutableNotFoundError s
  | OtherError s | ContainerNotFoundError s | ProcessNotFoundError s => valid_string s
  | JsonError e => valid_string (json_text e)
  end.

Lemma valid_string_ascii_app s t :
  forallb (λ a, (code a <? 128)%N) (to_bytes s) = true →
  valid_string t = true → valid_string (s +:+ t) = true.
Proof.
  intros Hs Ht. unfold valid_string in *. rewrite to_bytes_app, valid_ascii_app; [done|].
  rewrite Forall_forall. intros a Ha. apply N.ltb_lt.
  by apply (proj1 (forallb_forall _ _) Hs a), list_elem_of_In.
Qed.

Lemma error_valid_wf `{JsonText} err :
  error_valid err = true → c_wf marshalledError_codec (marshalled err) = true.
Proof.
  assert (∀ e s h p, valid_string e = true → valid_string s = true → valid_string h = true →
    valid_string p = true → c_wf marshalledError_codec (mk_marshalledError e s h p "") = true) as Hw.
  { intros e s h p He Hs Hh Hp.
    change ((valid_string e && (valid_string s && (valid_string h && (valid_string p && true)))) = true).
    by rewrite He, Hs, Hh, Hp. }
  destruct err; intros Hv; apply Hw; try done; by apply valid_string_ascii_app.
Qed.

(** C21 An error sent as a response body is read back by the client as the same
    error, of the same type, with the same data: an error of one of the API's
    types is received as it was sent, and any other as an error with its text.
    The status of the response is the one the received error stands for. *)
Theorem Error_roundtrip `{JsonText} (err : error) (Hv : error_valid err = true) :
  ∃ b, Encode Error_codec (mk_Error (Some err)) = Ok b ∧
    Unmarshal Error_codec b (mk_Error None) = (mk_Error (Some (received err)), None) ∧
    StatusCode (mk_Error (Some (received err))) = StatusCode (mk_Error (Some err)).
Proof.
  destruct (Error_enc_dec err (error_valid_wf err Hv)) as (j & He & Hj & Hd).
  exists (encode j). unfold Encode, Unmarshal, decoded. cbn [c_enc c_dec Error_codec].
  rewrite He, unmarshal_encode, Hd by done. split_and!; [done..|by destruct err].
Qed.

Lemma Error_roundtrip_witness :
  error_valid (H := λ _, "EOF") (ContainerNotFoundError "some-handle") = true ∧
  ∃ b, Encode (Error_codec (H := λ _, "EOF")) (mk_Error (Some (ContainerNotFoundError "some-handle"))) = Ok b ∧
    Unmarshal (Error_codec (H := λ _, "EOF")) b (mk_Error None) =
      (mk_Error (Some (ContainerNotFoundError "some-handle")), None) ∧
    StatusCode (mk_Error (Some (ContainerNotFoundError "some-handle"))) = 404%Z.
Proof.
  split; [by vm_compute|].
  exact (Error_roundtrip (H := λ _, "EOF") (ContainerNotFoundError "some-handle") eq_refl).
Defined.
End Errors.
