(* ===== verification/IpText.v ===== *)
(** * IP addresses as text (package net, net/netip)

    [net.IP] marshals as text.  [ip_string] and [ParseIP] are what the package
    does with the two textual forms; the codec built on them is the one of the
    [net.IP] fields of a network rule. *)
From S2P Require Import Prelude Types Utf8 Json GoJson.

Module IpText.
Import Utf8 Json GoJson.
#[local] Open Scope N_scope.

Definition dot : Ascii.ascii := chr 46.
Definition colon : Ascii.ascii := chr 58.

(** ** Printing *)
Definition digit (n : N) : Ascii.ascii := chr (48 + n).

Definition dec_byte (a : Ascii.ascii) : bytes :=
  let n := code a in
  if n <? 10 then [digit n]
  else if n <? 100 then [digit (n / 10); digit (n mod 10)]
  else [digit (n / 100); digit (n / 10 mod 10); digit (n mod 10)].

Definition v4_text (a b c d : Ascii.ascii) : bytes :=
  dec_byte a ++ [dot] ++ dec_byte b ++ [dot] ++ dec_byte c ++ [dot] ++ dec_byte d.

Definition hex_digit (n : N) : Ascii.ascii := if n <? 10 then chr (48 + n) else chr (87 + n).

(** A 16-bit group in hexadecimal, without leading zeros. *)
Definition hex_group (n : N) : bytes :=
  (if 4096 <=? n then [hex_digit (n / 4096)] else []) ++
  (if 256 <=? n then [hex_digit (n / 256 mod 16)] else []) ++
  (if 16 <=? n then [hex_digit (n / 16 mod 16)] else []) ++
  [hex_digit (n mod 16)].

Fixpoint groups (b : bytes) : list N :=
  match b with
  | hi :: lo :: b' => (code hi * 256 + code lo) :: groups b'
  | _ => []
  end.

Fixpoint zero_run (g : list N) : nat :=
  match g with n :: g' => if n =? 0 then S (zero_run g') else O | [] => O end.

(** The first longest run of at least two zero groups, as its start and length. *)
Fixpoint longest_run (i : nat) (g : list N) (best : option (nat * nat)) : option (nat * nat) :=
  match g with
  | [] => best
  | _ :: g' =>
      let l := zero_run g in
      let best' :=
        if ((2 <=? l) && (match best with Some (_, l') => l' <? l | None => true end))%nat
        then Some (i, l) else best in
      longest_run (S i) g' best'
  end.

Fixpoint join_groups (g : list N) : bytes :=
  match g with
  | [] => []
  | [n] => hex_group n
  | n :: g' => hex_group n ++ [colon] ++ join_groups g'
  end.

Definition v6_text (b : bytes) : bytes :=
  let g := groups b in
  match longest_run 0 g None with
  | Some (i, l) => join_groups (take i g) ++ [colon; colon] ++ join_groups (drop (i + l) g)
  | None => join_groups g
  end.

Definition v4InV6Prefix : bytes := replicate 10 (chr 0) ++ [chr 255; chr 255].

(** [IP.String] of an address of 4 or 16 bytes; an IPv4 address in IPv6 form is
    written as the IPv4 address. *)
Definition ip_string (b : bytes) : option bytes :=
  match b with
  | [a; b; c; d] => Some (v4_text a b c d)
  | _ =>
      if bool_decide (length b = 16%nat) then
        match decide (take 12 b = v4InV6Prefix), drop 12 b with
        | left _, [a; b; c; d] => Some (v4_text a b c d)
        | _, _ => Some (v6_text b)
        end
      else None
  end.

(** ** Parsing *)
Definition is_digit (a : Ascii.ascii) : bool := (48 <=? code a) && (code a <=? 57).

(** [parseIPv4Fields]: the bytes seen, the value of the field being read, its
    number of digits, and whether a field may end here. *)
Fixpoint v4_fields (s : bytes) (done : bytes) (val : N) (digLen : nat) : option bytes :=
  match s with
  | [] => if bool_decide (length done = 3%nat) then Some (done ++ [chr val]) else None
  | a :: s' =>
      if is_digit a then
        if ((digLen =? 1)%nat && (val =? 0)) then None
        else
          let val' := val * 10 + (code a - 48) in
          if 255 <? val' then None else v4_fields s' done val' (S digLen)
      else if bool_decide (a = dot) then
        if (digLen =? 0)%nat || bool_decide (s' = []) || bool_decide (length done = 3%nat) then None
        else v4_fields s' (done ++ [chr val]) 0 O
      else None
  end.

Definition parseIPv4Fields (s : bytes) : option bytes := v4_fields s [] 0 O.

Definition hex_value (a : Ascii.ascii) : option N :=
  if is_digit a then Some (code a - 48)
  else if (97 <=? code a) && (code a <=? 102) then Some (code a - 87)
  else if (65 <=? code a) && (code a <=? 70) then Some (code a - 55)
  else None.

(** The hexadecimal digits at the head, at most four of them: their number,
    their value and what follows. *)
Fixpoint hex_field (s : bytes) (off : nat) (acc : N) : option (nat * N * bytes) :=
  match s with
  | a :: s' =>
      match hex_value a with
      | Some v => if (3 <? off)%nat then None else hex_field s' (S off) (acc * 16 + v)
      | None => Some (off, acc, s)
      end
  | [] => Some (off, acc, [])
  end.

(** The loop of [parseIPv6], for [n] groups at most: the bytes so far and where
    the ellipsis was. *)
Fixpoint v6_loop (n : nat) (ip : bytes) (ellipsis : option nat) (s : bytes) :
    option (bytes * option nat * bytes) :=
  match n with
  | O => Some (ip, ellipsis, s)
  | S n' =>
      match hex_field s O 0 with
      | None => None
      | Some (off, acc, rest) =>
          if (off =? 0)%nat then None
          else
            let ip' := ip ++ [chr (acc / 256); chr (acc mod 256)] in
            match rest with
            | [] => Some (ip', ellipsis, [])
            | c :: rest' =>
                if bool_decide (c = dot) then
                  if (bool_decide (ellipsis = None) && negb (bool_decide (length ip = 12%nat)))
                     || (16 <? length ip + 4)%nat then None
                  else (λ f, (ip ++ f, ellipsis, [])) <$> parseIPv4Fields s
                else if bool_decide (c = colon) then
                  match rest' with
                  | [] => None
                  | c' :: rest'' =>
                      if bool_decide (c' = colon) then
                        match ellipsis, rest'' with
                        | Some _, _ => None
                        | None, [] => Some (ip', Some (length ip'), [])
                        | None, _ => v6_loop n' ip' (Some (length ip')) rest''
                        end
                      else v6_loop n' ip' ellipsis rest'
                  end
                else None
            end
      end
  end.

Definition v6_finish (r : bytes * option nat * bytes) : option bytes :=
  match r with
  | (ip, ellipsis, []) =>
      if (length ip <? 16)%nat then
        match ellipsis with
        | None => None
        | Some e => Some (take e ip ++ replicate (16 - length ip) (chr 0) ++ drop e ip)
        end
      else match ellipsis with Some _ => None | None => Some ip end
  | _ => None
  end.

Definition parseIPv6 (s : bytes) : option bytes :=
  match s with
  | c1 :: c2 :: s' =>
      if bool_decide (c1 = colon) && bool_decide (c2 = colon) then
        match s' with
        | [] => Some (replicate 16 (chr 0))
        | _ => v6_loop 8 [] (Some O) s' ≫= v6_finish
        end
      else v6_loop 8 [] None s ≫= v6_finish
  | _ => v6_loop 8 [] None s ≫= v6_finish
  end.

(** Which form it is depends on the first of [.], [:] and [%] (a zone, which
    [ParseIP] does not take). *)
Fixpoint addr_form (s : bytes) : option bool :=
  match s with
  | [] => None
  | a :: s' =>
      if bool_decide (a = dot) then Some true
      else if bool_decide (a = colon) then Some false
      else if bool_decide (a = chr 37) then None
      else addr_form s'
  end.

(** [ParseIP]: always the 16-byte form. *)
Definition ParseIP (s : bytes) : option bytes :=
  match addr_form s with
  | Some true => app v4InV6Prefix <$> parseIPv4Fields s
  | Some false => parseIPv6 s
  | None => None
  end.

(** ** The codec *)
Definition hex_string (b : bytes) : bytes :=
  b ≫= λ a, [hex_digit (code a / 16); hex_digit (code a mod 16)].

(** [MarshalText] *)
Definition MarshalText (ip : IP) : result json_error json :=
  match slice_elems ip with
  | [] => Ok (JStr "")
  | b =>
      match ip_string b with
      | Some t => Ok (JStr (of_bytes t))
      | None => Err (MarshalerError "net.IP" ("address " +:+ of_bytes (hex_string b) +:+ ": invalid IP address"))
      end
  end.

(** [UnmarshalText] *)
Definition UnmarshalText (j : json) (ip : IP) : IP * outcome :=
  match j with
  | JNull => (None, Good)
  | JStr "" => (None, Good)
  | JStr s =>
      match ParseIP (to_bytes s) with
      | Some b => (Some b, Good)
      | None => (ip, Abort (UnmarshalerError ("invalid IP address: " +:+ s)))
      end
  | _ => mismatch j "net.IP" ip
  end.

(** What survives the trip: no address, and an address in its 16-byte form
    whose text reads back. *)
Definition ip_wf (ip : IP) : bool :=
  match ip with
  | None => true
  | Some b => bool_decide (length b = 16%nat ∧ take 12 b = v4InV6Prefix)
  end.

Definition ip_codec : codec IP :=
  mk_codec None (λ ip, bool_decide (ip = None)) (λ ip, bool_decide (slice_elems ip = []))
    MarshalText UnmarshalText ip_wf (λ _, true).

(** ** Properties *)
Lemma v4_fields_last a x y z : v4_fields (dec_byte a) [x; y; z] 0 O = Some [x; y; z; a].
Proof. destruct a as [[] [] [] [] [] [] [] []]; reflexivity. Qed.

Lemma v4_fields_next a s done :
  s ≠ [] → (length done < 3)%nat →
  v4_fields (dec_byte a ++ [dot] ++ s) done 0 O = v4_fields s (done ++ [a]) 0 O.
Proof.
  intros Hs Hd. destruct s as [|c s]; [done|].
  destruct done as [|x [|y [|z done]]]; [..|cbn in Hd; lia];
    destruct a as [[] [] [] [] [] [] [] []]; reflexivity.
Qed.

Lemma dec_byte_head a : ∃ c l, dec_byte a = c :: l ∧ is_digit c = true.
Proof. destruct a as [[] [] [] [] [] [] [] []]; by do 2 eexists. Qed.

Lemma dec_byte_app_ne a s : dec_byte a ++ s ≠ [].
Proof. by destruct (dec_byte_head a) as (c & l & -> & _). Qed.

Lemma parse_v4_text a b c d : parseIPv4Fields (v4_text a b c d) = Some [a; b; c; d].
Proof.
  unfold parseIPv4Fields, v4_text.
  rewrite !v4_fields_next by (apply dec_byte_app_ne || (rewrite <-(app_nil_r (dec_byte d)); apply dec_byte_app_ne) || (cbn; lia)).
  apply v4_fields_last.
Qed.

Lemma addr_form_v4 a s : addr_form (dec_byte a ++ [dot] ++ s) = Some true.
Proof. destruct a as [[] [] [] [] [] [] [] []]; reflexivity. Qed.

Lemma v4_text_ascii a b c d : Forall (λ x, code x < 128) (v4_text a b c d).
Proof.
  assert (∀ x, Forall (λ x, code x < 128) (dec_byte x)) as H.
  { intros [[] [] [] [] [] [] [] []]; repeat constructor. }
  unfold v4_text. rewrite !Forall_app. by repeat (split; [apply H|split; [by repeat constructor|]]).
Qed.

(** The text of an IPv4 address is read as that address, in its 16-byte form. *)
Lemma ParseIP_v4 a b c d :
  ParseIP (v4_text a b c d) = Some (v4InV6Prefix ++ [a; b; c; d]).
Proof.
  unfold ParseIP. unfold v4_text at 1. by rewrite addr_form_v4, parse_v4_text.
Qed.

Lemma UnmarshalText_text t ip : t ≠ [] →
  UnmarshalText (JStr (of_bytes t)) ip =
  match ParseIP t with
  | Some b => (Some b, Good)
  | None => (ip, Abort (UnmarshalerError ("invalid IP address: " +:+ of_bytes t)))
  end.
Proof.
  destruct t as [|x t]; [done|]. intros _. unfold UnmarshalText.
  change (of_bytes (x :: t)) with (String x (of_bytes t)). cbv iota.
  change (String x (of_bytes t)) with (of_bytes (x :: t)). by rewrite to_of_bytes.
Qed.

Lemma ip_ok : codec_ok ip_codec.
Proof.
  apply mk_ok; [|by intros ip ->%bool_decide_eq_true|done..].
  intros [b|] Hwf; [|by eexists]. apply bool_decide_eq_true in Hwf as [Hl Hp].
  rewrite <-(take_drop 12 b), Hp. assert (length (drop 12 b) = 4%nat) as Hd by (rewrite length_drop; lia).
  destruct (drop 12 b) as [|w [|x [|y [|z [|? ?]]]]]; try done.
  exists (JStr (of_bytes (v4_text w x y z))). split_and!; [done| |].
  - cbn. unfold valid_string. rewrite to_of_bytes. apply valid_ascii, v4_text_ascii.
  - cbn [c_dec ip_codec]. rewrite UnmarshalText_text, ParseIP_v4; [done|apply dec_byte_app_ne].
Qed.
End IpText.
