(* ===== verification/Streamer.v ===== *)
(** * Output streams of processes (server/chanwriter.go, server/streamer)

    The output of a process goes through a buffered channel: the backend writes
    to a [chanWriter], and a goroutine of the HTTP request for the stream copies
    the channel to its connection until the stream is stopped, then drains it.
    The state holds the channels, the streams and the goroutines; each rule of
    [step] is one atomic action of one goroutine, so a list of events is an
    interleaving. *)
From S2P Require Import Prelude Types Utf8 Json.

(** ** Channels *)
Module Chan.

(** A buffered [chan []byte]: what it holds, its capacity, whether it is closed. *)
Record chan := mk_chan {
  ch_buf : list bytes;
  ch_cap : nat;
  ch_closed : bool;
}.

Definition make (cap : nat) : chan := mk_chan [] cap false.

Inductive send_result :=
| Sent (ch : chan)
| WouldBlock
| SendPanic.

(** A send in a [select] with a default case. *)
Definition try_send (ch : chan) (d : bytes) : send_result :=
  if ch_closed ch then SendPanic
  else if (length (ch_buf ch) <? ch_cap ch)%nat
  then Sent (mk_chan (ch_buf ch ++ [d]) (ch_cap ch) false)
  else WouldBlock.

(** A receive: what is there, or nil for ever on a closed channel; [None] where
    it would block. *)
Definition recv (ch : chan) : option (bytes * chan) :=
  match ch_buf ch with
  | d :: buf => Some (d, mk_chan buf (ch_cap ch) (ch_closed ch))
  | [] => if ch_closed ch then Some ([], ch) else None
  end.

(** [close]; closing twice panics. *)
Definition close (ch : chan) : option chan :=
  if ch_closed ch then None else Some (mk_chan (ch_buf ch) (ch_cap ch) true).
End Chan.

Module Streamer.
Import Json Chan.

(** ** State *)

(** The channels of a stream, by reference, and whether [done] is closed. *)
Record stream := mk_stream {
  stdout : nat;
  stderr : nat;
  done : bool;
}.

(** A goroutine in [serve] or [drain]: its channel, its stream, where it is. *)
Inductive pc := Serving | Draining | Returned.

Record server := mk_server {
  s_pipe : nat;
  s_done : nat;
  s_pc : pc;
}.

(** The fields of [Streamer], and the heap, goroutines and clock around it.  The
    deletions are the goroutines that [Stop] leaves sleeping. *)
Record Streamer := mk_Streamer {
  idGen : Z;
  graceTime : Duration;
  streams : gmap string nat;
  heap : list stream;
  chans : list chan;
  servers : list server;
  deletions : list (Z * string);
  now : Z;
}.

Definition New (graceTime : Duration) : Streamer := mk_Streamer 0 graceTime ∅ [] [] [] [] 0.

Definition set_chan (c : nat) (ch : chan) (m : Streamer) : Streamer :=
  mk_Streamer (idGen m) (graceTime m) (streams m) (heap m) (<[c := ch]> (chans m))
    (servers m) (deletions m) (now m).

Definition set_pc (t : nat) (p : pc) (m : Streamer) : Streamer :=
  mk_Streamer (idGen m) (graceTime m) (streams m) (heap m) (chans m)
    (alter (λ s, mk_server (s_pipe s) (s_done s) p) t (servers m)) (deletions m) (now m).

(** What an action does that is seen outside: a chunk put in a channel or
    dropped for want of room, a chunk taken from one and written to a client
    (or lost to a failed write), an identifier returned. *)
Inductive obs :=
| Accepted (c : nat) (d : bytes)
| Dropped (c : nat) (d : bytes)
| Delivered (c t : nat) (d : bytes)
| Failed (c t : nat) (d : bytes)
| Returns (id : string).

(** An action happens, cannot happen now, or panics. *)
Inductive outcome :=
| Next (m : Streamer) (o : list obs)
| Blocked
| Panic.

(** ** Operations *)

(** [make(chan []byte, cap)] *)
Definition make_chan (cap : nat) (m : Streamer) : outcome :=
  Next (mk_Streamer (idGen m) (graceTime m) (streams m) (heap m) (chans m ++ [make cap])
          (servers m) (deletions m) (now m)) [].

(** [chanWriter.Write]: the copy of the data is sent, or dropped when the
    channel is full. *)
Definition Write (c : nat) (d : bytes) (m : Streamer) : outcome :=
  match chans m !! c with
  | None => Blocked
  | Some ch =>
      match try_send ch d with
      | Sent ch' => Next (set_chan c ch' m) [Accepted c d]
      | WouldBlock => Next m [Dropped c d]
      | SendPanic => Panic
      end
  end.

(** [chanWriter.Close] *)
Definition Close (c : nat) (m : Streamer) : outcome :=
  match chans m !! c with
  | None => Blocked
  | Some ch => match close ch with Some ch' => Next (set_chan c ch' m) [] | None => Panic end
  end.

(** [syncStreamIDGenerator.next]: the incremented counter, in decimal. *)
Definition next (current : Z) : Z * string :=
  let current := wrapu 64 (current + 1) in (current, format_int current).

Definition newStream (stdout stderr : nat) : stream := mk_stream stdout stderr false.

Definition Stream (stdout stderr : nat) (m : Streamer) : outcome :=
  let (current, sid) := next (idGen m) in
  Next (mk_Streamer current (graceTime m) (<[sid := length (heap m)]> (streams m))
          (heap m ++ [newStream stdout stderr]) (chans m) (servers m) (deletions m) (now m))
    [Returns sid].

Definition loadStream (id : string) (m : Streamer) : option (nat * stream) :=
  match streams m !! id with
  | Some l => (λ s, (l, s)) <$> heap m !! l
  | None => None
  end.

(** [ServeStdout] and [ServeStderr]: a goroutine enters [serve], or returns at
    once for an unknown stream. *)
Definition start_serve (pipe : stream → nat) (streamID : string) (m : Streamer) : outcome :=
  match loadStream streamID m with
  | None => Next m []
  | Some (l, strm) =>
      Next (mk_Streamer (idGen m) (graceTime m) (streams m) (heap m) (chans m)
              (servers m ++ [mk_server (pipe strm) l Serving]) (deletions m) (now m)) []
  end.

Definition ServeStdout := start_serve stdout.
Definition ServeStderr := start_serve stderr.

(** The receive case of the [select]s of [serve] and [drain].  The chunk is
    written to the client; [serve] returns when that fails, [drain] ignores it. *)
Definition serve_recv (t : nat) (failed : bool) (m : Streamer) : outcome :=
  match servers m !! t with
  | Some (mk_server c _ p) =>
      match p, chans m !! c ≫= recv with
      | Returned, _ | _, None => Blocked
      | _, Some (d, ch') =>
          let m' := set_chan c ch' m in
          if failed then
            Next (match p with Serving => set_pc t Returned m' | _ => m' end) [Failed c t d]
          else Next m' [Delivered c t d]
      end
  | None => Blocked
  end.

(** The [done] case of [serve]: on to [drain]. *)
Definition serve_done (t : nat) (m : Streamer) : outcome :=
  match servers m !! t with
  | Some (mk_server _ l Serving) =>
      match heap m !! l with
      | Some (mk_stream _ _ true) => Next (set_pc t Draining m) []
      | _ => Blocked
      end
  | _ => Blocked
  end.

(** The default case of [drain], taken when there is nothing to receive. *)
Definition drain_default (t : nat) (m : Streamer) : outcome :=
  match servers m !! t with
  | Some (mk_server c _ Draining) =>
      match chans m !! c ≫= recv with
      | None => Next (set_pc t Returned m) []
      | Some _ => Blocked
      end
  | _ => Blocked
  end.

(** [Stop]: closing [done] a second time panics.  The stream stays known for the
    grace time. *)
Definition Stop (streamID : string) (m : Streamer) : outcome :=
  match loadStream streamID m with
  | None => Next m []
  | Some (l, strm) =>
      if done strm then Panic
      else
        Next (mk_Streamer (idGen m) (graceTime m) (streams m)
                (<[l := mk_stream (stdout strm) (stderr strm) true]> (heap m))
                (chans m) (servers m) (deletions m ++ [(now m + graceTime m, streamID)%Z]) (now m)) []
  end.

(** Time passes; a sleeping goroutine whose time has come deletes its stream. *)
Definition sleep (d : Z) (m : Streamer) : outcome :=
  Next (mk_Streamer (idGen m) (graceTime m) (streams m) (heap m) (chans m) (servers m)
          (deletions m) (now m + Z.max 0 d)) [].

Definition Delete (k : nat) (m : Streamer) : outcome :=
  match deletions m !! k with
  | Some (at_, id) =>
      if (at_ <=? now m)%Z then
        Next (mk_Streamer (idGen m) (graceTime m) (delete id (streams m)) (heap m) (chans m)
                (servers m) (delete k (deletions m)) (now m)) []
      else Blocked
  | None => Blocked
  end.

Inductive event :=
| EMake (cap : nat)
| EWrite (c : nat) (d : bytes)
| EClose (c : nat)
| EStream (stdout stderr : nat)
| EServeStdout (id : string)
| EServeStderr (id : string)
| ERecv (t : nat) (failed : bool)
| EDone (t : nat)
| EDefault (t : nat)
| EStop (id : string)
| ESleep (d : Z)
| EDelete (k : nat).

Definition step (e : event) (m : Streamer) : outcome :=
  match e with
  | EMake cap => make_chan cap m
  | EWrite c d => Write c d m
  | EClose c => Close c m
  | EStream o e => Stream o e m
  | EServeStdout id => ServeStdout id m
  | EServeStderr id => ServeStderr id m
  | ERecv t failed => serve_recv t failed m
  | EDone t => serve_done t m
  | EDefault t => drain_default t m
  | EStop id => Stop id m
  | ESleep d => sleep d m
  | EDelete k => Delete k m
  end.

(** A sequence of events, with what was seen. *)
Fixpoint run (es : list event) (m : Streamer) : outcome :=
  match es with
  | [] => Next m []
  | e :: es' =>
      match step e m with
      | Next m' o =>
          match run es' m' with Next m'' o' => Next m'' (o ++ o') | r => r end
      | r => r
      end
  end.

(** ** What a trace says of a channel *)
Definition accepted (c : nat) (o : list obs) : list bytes :=
  omap (λ x, match x with Accepted c' d => if decide (c' = c) then Some d else None | _ => None end) o.

Definition dropped (c : nat) (o : list obs) : list bytes :=
  omap (λ x, match x with Dropped c' d => if decide (c' = c) then Some d else None | _ => None end) o.

(** What was taken out of the channel, and what of it reached a client. *)
Definition taken (c : nat) (o : list obs) : list bytes :=
  omap (λ x, match x with
             | Delivered c' _ d | Failed c' _ d => if decide (c' = c) then Some d else None
             | _ => None end) o.

Definition delivered (c t : nat) (o : list obs) : list bytes :=
  omap (λ x, match x with
             | Delivered c' t' d => if decide (c' = c ∧ t' = t) then Some d else None
             | _ => None end) o.

Definition failed (c : nat) (o : list obs) : list bytes :=
  omap (λ x, match x with Failed c' _ d => if decide (c' = c) then Some d else None | _ => None end) o.

Definition returned (o : list obs) : list string :=
  omap (λ x, match x with Returns id => Some id | _ => None end) o.

(** What the process wrote. *)
Definition written (c : nat) (es : list event) : list bytes :=
  omap (λ e, match e with EWrite c' d => if decide (c' = c) then Some d else None | _ => None end) es.

Definition buffered (m : Streamer) (c : nat) : list bytes := default [] (ch_buf <$> chans m !! c).
Definition is_open (m : Streamer) (c : nat) : bool :=
  from_option (λ ch, negb (ch_closed ch)) true (chans m !! c).

(** ** The rules, by what they change *)
Lemma run_cons e es m m' o :
  run (e :: es) m = Next m' o ↔
  ∃ m1 o1 o2, step e m = Next m1 o1 ∧ run es m1 = Next m' o2 ∧ o = o1 ++ o2.
Proof.
  cbn. split.
  - destruct (step e m) as [m1 o1| |]; [|done..]. destruct (run es m1) as [m2 o2| |] eqn:Hr; [|done..].
    intros [= <- <-]. by exists m1, o1, o2.
  - intros (m1 & o1 & o2 & -> & -> & ->). done.
Qed.

Lemma run_app es1 es2 m m' o :
  run (es1 ++ es2) m = Next m' o ↔
  ∃ m1 o1 o2, run es1 m = Next m1 o1 ∧ run es2 m1 = Next m' o2 ∧ o = o1 ++ o2.
Proof.
  revert m o. induction es1 as [|e es IH]; intros m o.
  - cbn. split; [intros H; by exists m, [], o|by intros (? & ? & ? & [= <- <-] & ? & ->)].
  - change ((e :: es) ++ es2) with (e :: (es ++ es2)). rewrite run_cons. setoid_rewrite IH. split.
    + intros (m1 & o1 & o2 & Hs & (m2 & o3 & o4 & Hr & Hr' & ->) & ->).
      exists m2, (o1 ++ o3), o4. rewrite run_cons, app_assoc. split_and!; [|done..]. by eexists _, _, _.
    + intros (m2 & o3 & o4 & (m1 & o1 & o2 & Hs & Hr & ->)%run_cons & Hr' & ->).
      exists m1, o1, (o2 ++ o4). rewrite app_assoc. split_and!; [done| |done]. by eexists _, _, _.
Qed.

(** Unfolds one rule and splits it into its branches. *)
Ltac rule H :=
  unfold step, make_chan, Write, Close, Stream, ServeStdout, ServeStderr, start_serve, serve_recv,
    serve_done, drain_default, Stop, sleep, Delete in H;
  repeat case_hyp H; simplify_eq; try done.

Lemma chans_set_pc t p m : chans (set_pc t p m) = chans m.
Proof. done. Qed.

Lemma set_chan_lookup c ch m c' :
  is_Some (chans m !! c) →
  chans (set_chan c ch m) !! c' = if decide (c = c') then Some ch else chans m !! c'.
Proof.
  intros Hc%lookup_lt_is_Some. cbn. destruct (decide (c = c')) as [->|Hne].
  - by apply list_lookup_insert_eq.
  - by apply list_lookup_insert_ne.
Qed.

Definition closes (e : event) : bool := match e with EClose _ => true | _ => false end.

(** The channels after a rule, with what was seen of them. *)
Inductive chan_step (e : event) (c : nat) (m m' : Streamer) : list obs → Prop :=
| cs_same o : accepted c o = [] → taken c o = [] → chans m' !! c = chans m !! c → chan_step e c m m' o
| cs_made cap o : accepted c o = [] → taken c o = [] →
    chans m !! c = None → chans m' !! c = Some (make cap) → chan_step e c m m' o
| cs_sent ch d : chans m !! c = Some ch → try_send ch d = Sent (mk_chan (ch_buf ch ++ [d]) (ch_cap ch) false) →
    ch_closed ch = false →
    chans m' !! c = Some (mk_chan (ch_buf ch ++ [d]) (ch_cap ch) false) → chan_step e c m m' [Accepted c d]
| cs_closed ch o : closes e = true → accepted c o = [] → taken c o = [] → chans m !! c = Some ch →
    chans m' !! c = Some (mk_chan (ch_buf ch) (ch_cap ch) true) → chan_step e c m m' o
| cs_recv ch d ch' o : chans m !! c = Some ch → recv ch = Some (d, ch') →
    accepted c o = [] → taken c o = [d] → chans m' !! c = Some ch' → chan_step e c m m' o.

Lemma recv_chan_step e c t d ch ch' p (b : bool) m c' o :
  chans m !! c = Some ch → recv ch = Some (d, ch') →
  o = [if b then Failed c t d else Delivered c t d] →
  chan_step e c' m (if b then match p with Serving => set_pc t Returned (set_chan c ch' m)
                             | _ => set_chan c ch' m end else set_chan c ch' m) o.
Proof.
  intros Hc Hr ->.
  assert (∀ m', chans m' = chans (set_chan c ch' m) →
    chan_step e c' m m' [if b then Failed c t d else Delivered c t d]) as H.
  { intros m' Hm'. destruct (decide (c = c')) as [->|Hne].
    - eapply cs_recv; [done..| | |]; [by destruct b| |].
      + destruct b; cbn; by rewrite decide_True.
      + rewrite Hm', set_chan_lookup by done. by rewrite decide_True.
    - apply cs_same; [by destruct b| |].
      + destruct b; cbn; by rewrite decide_False.
      + rewrite Hm', set_chan_lookup by done. by rewrite decide_False. }
  apply H. by destruct b, p.
Qed.

Lemma step_chans e m m' o c : step e m = Next m' o → chan_step e c m m' o.
Proof.
  intros H. destruct e as [cap|c0 d|c0|so se|id|id|t b|t|t|id|d|k]; cbn [step] in H.
  - unfold make_chan in H. simplify_eq. destruct (decide (c = length (chans m))) as [->|Hne].
    + eapply cs_made; [done..|by apply lookup_ge_None|]. cbn. by rewrite list_lookup_middle.
    + apply cs_same; [done..|]. cbn. destruct (decide (c < length (chans m))%nat).
      * by apply lookup_app_l.
      * rewrite !(proj2 (lookup_ge_None _ _)); [done|lia|rewrite length_app; cbn; lia].
  - unfold Write in H. destruct (chans m !! c0) as [ch|] eqn:Hc; [|done].
    destruct (try_send ch d) as [ch'| |] eqn:Ht; [|simplify_eq..]; [|by apply cs_same].
    simplify_eq. unfold try_send in Ht. destruct (ch_closed ch) eqn:Hcl; [done|].
    destruct (_ <? _)%nat eqn:Hlt; [|done]. simplify_eq.
    destruct (decide (c0 = c)) as [->|Hne].
    + eapply cs_sent; [done| |done|].
      * unfold try_send. by rewrite Hcl, Hlt.
      * rewrite set_chan_lookup by done. by rewrite decide_True.
    + apply cs_same; [cbn; by rewrite decide_False|done|].
      rewrite set_chan_lookup by done. by rewrite decide_False.
  - unfold Close in H. destruct (chans m !! c0) as [ch|] eqn:Hc; [|done].
    unfold close in H. destruct (ch_closed ch); [done|]. simplify_eq.
    destruct (decide (c0 = c)) as [->|Hne].
    + eapply cs_closed; [done..|]. rewrite set_chan_lookup by done. by rewrite decide_True.
    + apply cs_same; [done..|]. rewrite set_chan_lookup by done. by rewrite decide_False.
  - apply cs_same; by rule H.
  - apply cs_same; by rule H.
  - apply cs_same; by rule H.
  - unfold serve_recv in H. destruct (servers m !! t) as [[c1 l p]|]; [|done].
    destruct (chans m !! c1) as [ch|] eqn:Hc; [|by destruct p].
    cbn in H. destruct (recv ch) as [[d ch']|] eqn:Hr; [|by destruct p].
    assert (m' = (if b then match p with Serving => set_pc t Returned (set_chan c1 ch' m)
      | _ => set_chan c1 ch' m end else set_chan c1 ch' m) ∧
      o = [if b then Failed c1 t d else Delivered c1 t d]) as [-> ->] by (destruct p, b; by simplify_eq).
    by eapply recv_chan_step.
  - apply cs_same; by rule H.
  - apply cs_same; by rule H.
  - apply cs_same; by rule H.
  - apply cs_same; by rule H.
  - apply cs_same; by rule H.
Qed.

(** ** First in, first out *)
Lemma obs_app {A} (f : obs → option A) o1 o2 : omap f (o1 ++ o2) = omap f o1 ++ omap f o2.
Proof. apply omap_app. Qed.

Lemma buffered_Some m c ch : chans m !! c = Some ch → buffered m c = ch_buf ch.
Proof. unfold buffered. by intros ->. Qed.

Lemma is_open_Some m c ch : chans m !! c = Some ch → is_open m c = negb (ch_closed ch).
Proof. unfold is_open. by intros ->. Qed.

Lemma recv_open ch d ch' :
  recv ch = Some (d, ch') → ch_closed ch' = false →
  ch_buf ch = d :: ch_buf ch' ∧ ch_closed ch = false ∧ ch_cap ch' = ch_cap ch.
Proof.
  unfold recv. destruct (ch_buf ch) as [|x l]; [|by intros [= <- <-]].
  destruct (ch_closed ch) eqn:Hc; [|done]. intros [= <- <-]. congruence.
Qed.

Lemma chan_step_fifo e c m m' o :
  chan_step e c m m' o → is_open m' c = true →
  is_open m c = true ∧ buffered m c ++ accepted c o = taken c o ++ buffered m' c.
Proof.
  intros H Ho. destruct H as [o Ha Ht He|cap o Ha Ht H0 H1|ch d H0 _ Hc H1|ch o _ Ha Ht H0 H1|ch d ch' o H0 Hr Ha Ht H1].
  - unfold is_open, buffered in *. rewrite Ha, Ht, He in *. by rewrite app_nil_r.
  - unfold is_open, buffered. by rewrite Ha, Ht, H0, H1.
  - rewrite (is_open_Some _ _ _ H0), (buffered_Some _ _ _ H0), (buffered_Some _ _ _ H1), Hc.
    cbn. by rewrite decide_True.
  - by rewrite (is_open_Some _ _ _ H1) in Ho.
  - rewrite (is_open_Some _ _ _ H1) in Ho. apply negb_true_iff in Ho.
    destruct (recv_open _ _ _ Hr Ho) as (Hb & Hc & _).
    rewrite (is_open_Some _ _ _ H0), (buffered_Some _ _ _ H0), (buffered_Some _ _ _ H1), Hc, Ha, Ht, Hb.
    by rewrite app_nil_r.
Qed.

Lemma run_fifo es m m' o c :
  run es m = Next m' o → is_open m' c = true →
  is_open m c = true ∧ buffered m c ++ accepted c o = taken c o ++ buffered m' c.
Proof.
  revert m o. induction es as [|e es IH]; intros m o.
  - intros [= <- <-] Ho. cbn. by rewrite app_nil_r.
  - intros (m1 & o1 & o2 & Hs & Hr & ->)%run_cons Ho.
    destruct (IH _ _ Hr Ho) as [Ho1 Hb]. destruct (chan_step_fifo _ c _ _ _ (step_chans _ _ _ _ c Hs) Ho1) as [Ho0 Hb0].
    split; [done|]. unfold accepted, taken in *. rewrite !obs_app, app_assoc, Hb0, <-!app_assoc. by f_equal.
Qed.

(** What is written is accepted or dropped, and dropped only when the channel
    is full. *)
Lemma step_written e m m' o c :
  step e m = Next m' o →
  (written c [e] = accepted c o ∧ dropped c o = []) ∨
  (written c [e] = dropped c o ∧ accepted c o = [] ∧
   ∃ ch, chans m !! c = Some ch ∧ (ch_cap ch ≤ length (ch_buf ch))%nat).
Proof.
  intros H. destruct e as [cap|c0 d|c0|so se|id|id|t b|t|t|id|d|k]; cbn [step] in H;
    try (left; by rule H).
  unfold Write in H. destruct (chans m !! c0) as [ch|] eqn:Hc; [|done].
  destruct (try_send ch d) as [ch'| |] eqn:Ht; simplify_eq; [by left|].
  cbn. destruct (decide (c0 = c)) as [->|]; [right|by left]. split_and!; [done..|].
  exists ch. split; [done|]. unfold try_send in Ht. destruct (ch_closed ch); [done|].
  destruct (_ <? _)%nat eqn:Hlt; [done|]. by apply Nat.ltb_ge in Hlt.
Qed.

Lemma written_cons c e es : written c (e :: es) = written c [e] ++ written c es.
Proof. apply (omap_app _ [e] es). Qed.

Lemma run_written es m m' o c :
  run es m = Next m' o → dropped c o = [] → written c es = accepted c o.
Proof.
  revert m o. induction es as [|e es IH]; intros m o; [by intros [= <- <-]|].
  intros (m1 & o1 & o2 & Hs & Hr & ->)%run_cons Hd.
  unfold dropped in Hd. rewrite obs_app in Hd. apply app_nil in Hd as [Hd1 Hd2].
  rewrite written_cons, (IH _ _ Hr Hd2). unfold accepted. rewrite obs_app. f_equal.
  destruct (step_written _ _ _ _ c Hs) as [[-> _]|(-> & Ha & _)]; [done|].
  unfold accepted in Ha. by rewrite Ha.
Qed.

(** What is taken is delivered to a goroutine of the channel, or lost. *)
Lemma taken_delivered c t o :
  failed c o = [] → (∀ t' d, Delivered c t' d ∈ o → t' = t) → taken c o = delivered c t o.
Proof.
  induction o as [|x o IH]; [done|]. intros Hf Ht.
  destruct x as [| |c' t' d|c' t' d|]; cbn in *;
    try (apply IH; [done|intros t1 d1 ?; apply (Ht t1 d1); by right]).
  - assert (taken c o = delivered c t o) as Hrest.
    { apply IH; [done|]. intros t1 d1 ?. apply (Ht t1 d1). by right. }
    unfold taken, delivered in Hrest. destruct (decide (c' = c)) as [->|Hne].
    + rewrite (Ht t' d) by (by left). rewrite decide_True by done. by rewrite Hrest.
    + rewrite decide_False by (by intros [? _]). done.
  - destruct (decide (c' = c)); [done|].
    apply IH; [done|]. intros t1 d1 ?. apply (Ht t1 d1). by right.
Qed.

(** Deliveries are made by the goroutines of the channel. *)
Definition serves (m : Streamer) (c t : nat) : Prop :=
  ∃ s, servers m !! t = Some s ∧ s_pipe s = c.

Lemma set_pc_serves t p m c t' : serves (set_pc t p m) c t' ↔ serves m c t'.
Proof.
  unfold serves. cbn. destruct (decide (t = t')) as [->|Hne].
  - rewrite list_lookup_alter_eq. destruct (servers m !! t') as [s|]; [|done].
    cbn. split; intros (? & [= <-] & ?); by eexists.
  - by rewrite list_lookup_alter_ne.
Qed.

Lemma app_serves m c t s' m' : servers m' = servers m ++ s' → serves m c t → serves m' c t.
Proof. intros He (s & Hs & Hc). exists s. rewrite He. by erewrite lookup_app_l_Some. Qed.

Lemma step_serves e m m' o c t : step e m = Next m' o → serves m c t → serves m' c t.
Proof.
  intros H Hm. destruct e as [cap|c0 d|c0|so se|id|id|t0 b|t0|t0|id|d|k]; cbn [step] in H; rule H;
    try (by apply set_pc_serves); by eapply app_serves.
Qed.

Lemma step_delivered e m m' o c t d :
  step e m = Next m' o → Delivered c t d ∈ o → serves m c t.
Proof.
  intros H Hd. destruct e as [cap|c0 d0|c0|so se|id|id|t0 b|t0|t0|id|d0|k]; cbn [step] in H; rule H;
    rewrite ?elem_of_nil, ?list_elem_of_singleton in Hd; simplify_eq; try done;
    (eexists; split; [eassumption|reflexivity]).
Qed.

Lemma run_delivered es m m' o c t d :
  run es m = Next m' o → Delivered c t d ∈ o → serves m' c t.
Proof.
  assert (∀ es m m' o, run es m = Next m' o → serves m c t → serves m' c t) as Hmono.
  { clear. induction es as [|e es IH]; intros m m' o; [by intros [= <- <-]|].
    intros (m1 & o1 & o2 & Hs & Hr & ->)%run_cons Hm. eapply IH; [done|]. by eapply step_serves. }
  revert m o. induction es as [|e es IH]; intros m o; [by intros [= <- <-] ?%elem_of_nil|].
  intros (m1 & o1 & o2 & Hs & Hr & ->)%run_cons [Hd|Hd]%elem_of_app; [|by eapply IH].
  eapply Hmono; [done|]. eapply step_serves; [done|]. by eapply step_delivered.
Qed.

(** The goroutine has drained its channel and returns. *)
Lemma drain_default_empty t m m' o :
  step (EDefault t) m = Next m' o →
  ∃ s, servers m !! t = Some s ∧ buffered m (s_pipe s) = [] ∧ o = [].
Proof.
  cbn. unfold drain_default, buffered. intros H.
  destruct (servers m !! t) as [[c l []]|] eqn:Hs; try done.
  exists (mk_server c l Draining). split; [done|]. cbn [s_pipe].
  destruct (chans m !! c) as [ch|]; cbn in *; [|by simplify_eq].
  unfold recv in H. destruct (ch_buf ch); [|done]. by destruct (ch_closed ch); simplify_eq.
Qed.


(** A channel of the given capacity that was never filled drops nothing. *)
Lemma run_cap es m m' o c ch :
  run es m = Next m' o → chans m !! c = Some ch →
  ∃ ch', chans m' !! c = Some ch' ∧ ch_cap ch' = ch_cap ch.
Proof.
  revert m o ch. induction es as [|e es IH]; intros m o ch; [intros [= <- <-]; eauto|].
  intros (m1 & o1 & o2 & Hs & Hr & ->)%run_cons Hc.
  assert (∃ ch1, chans m1 !! c = Some ch1 ∧ ch_cap ch1 = ch_cap ch) as (ch1 & Hc1 & <-).
  { destruct (step_chans _ _ _ _ c Hs) as [? _ _ He|? ? _ _ He _|? ? He _ _ He1|? ? _ _ _ He He1|? ? ? ? He Hrv _ _ He1];
      simplify_eq; try (by rewrite He1; eexists); [by rewrite He; eexists|].
    rewrite He1. eexists. split; [done|]. unfold recv in Hrv.
    destruct (ch_buf ch); [|by simplify_eq]. by destruct (ch_closed ch); simplify_eq. }
  by eapply IH.
Qed.

Lemma buffered_le_written es m m' o c :
  run es m = Next m' o → (length (buffered m' c) ≤ length (buffered m c) + length (written c es))%nat.
Proof.
  revert m o. induction es as [|e es IH]; intros m o; [intros [= <- <-]; cbn; lia|].
  intros (m1 & o1 & o2 & Hs & Hr & ->)%run_cons. pose proof (IH _ _ Hr).
  rewrite written_cons, length_app.
  assert (length (buffered m1 c) ≤ length (buffered m c) + length (accepted c o1))%nat.
  { destruct (step_chans _ _ _ _ c Hs) as [? _ _ He|? ? _ _ He He1|? ? He _ _ He1|? ? _ _ _ He He1|? ? ? ? He Hrv _ _ He1];
      unfold buffered; rewrite ?He, ?He1; cbn; rewrite ?length_app, ?decide_True by done; cbn; try lia.
    unfold recv in Hrv. destruct (ch_buf ch) eqn:Hb; [|by simplify_eq; cbn; lia].
    destruct (ch_closed ch); [|done]. simplify_eq. rewrite Hb. cbn. lia. }
  destruct (step_written _ _ _ _ c Hs) as [[-> _]|(_ & Ha & _)]; [lia|]. rewrite Ha in *. cbn in *. lia.
Qed.

Lemma no_drop es m m' o c ch :
  run es m = Next m' o → chans m !! c = Some ch →
  (length (ch_buf ch) + length (written c es) ≤ ch_cap ch)%nat → dropped c o = [].
Proof.
  revert m o ch. induction es as [|e es IH]; intros m o ch; [by intros [= <- <-]|].
  intros (m1 & o1 & o2 & Hs & Hr & ->)%run_cons Hc Hl. unfold dropped. rewrite obs_app.
  assert (run [e] m = Next m1 (o1 ++ [])) as H1 by (apply run_cons; by eexists _, _, []).
  destruct (run_cap _ _ _ _ _ _ H1 Hc) as (ch1 & Hc1 & Hcap).
  pose proof (buffered_le_written _ _ _ _ c H1) as Hb.
  rewrite (buffered_Some _ _ _ Hc), (buffered_Some _ _ _ Hc1) in Hb.
  rewrite written_cons, length_app in Hl.
  fold (dropped c o1) (dropped c o2). rewrite (IH _ _ _ Hr Hc1), app_nil_r by lia.
  destruct (step_written _ _ _ _ c Hs) as [[_ ?]|(Hw & _ & ch' & Hc' & Hfull)]; [done|].
  simplify_eq. rewrite Hw in Hl. destruct (dropped c o1); [done|]. cbn in Hl. lia.
Qed.

(** ** Stopping *)

(** The events of one goroutine. *)
Definition of_server (t : nat) (e : event) : bool :=
  match e with ERecv t' _ | EDone t' | EDefault t' => bool_decide (t' = t) | _ => false end.

(** How many actions the goroutine has left once its stream is stopped. *)
Definition actions_left (m : Streamer) (t : nat) : nat :=
  match servers m !! t with
  | Some s =>
      match s_pc s with
      | Serving => S (S (length (buffered m (s_pipe s))))
      | Draining => S (length (buffered m (s_pipe s)))
      | Returned => 0
      end
  | None => 0
  end.

Lemma server_step_decreases e m m' o t s :
  of_server t e = true → servers m !! t = Some s → is_open m (s_pipe s) = true →
  step e m = Next m' o →
  (actions_left m' t < actions_left m t)%nat ∧
  ∃ p, servers m' !! t = Some (mk_server (s_pipe s) (s_done s) p) ∧ is_open m' (s_pipe s) = true.
Proof.
  destruct s as [c l p]. cbn [s_pipe s_done]. intros Ht Hs Ho H.
  destruct e as [| | | | | |t' b|t'|t'| | |]; try done; apply bool_decide_eq_true in Ht as ->;
    cbn [step] in H.
  - unfold serve_recv in H. rewrite Hs in H. destruct (chans m !! c) as [ch|] eqn:Hc; [|by destruct p].
    cbn in H. destruct (recv ch) as [[d ch']|] eqn:Hr; [|by destruct p].
    rewrite (is_open_Some _ _ _ Hc) in Ho. apply negb_true_iff in Ho.
    assert (ch_buf ch = d :: ch_buf ch' ∧ ch_closed ch' = false) as [Hb Hc'].
    { unfold recv in Hr. rewrite Ho in Hr. destruct (ch_buf ch); by simplify_eq. }
    assert (chans (set_chan c ch' m) !! c = Some ch') as Hcc.
    { rewrite set_chan_lookup by done. by rewrite decide_True. }
    assert (servers (set_chan c ch' m) !! t = Some (mk_server c l p)) as Hss by done.
    assert (actions_left m t = actions_left (set_chan c ch' m) t + match p with Returned => 0 | _ => 1 end)%nat as Hal.
    { unfold actions_left. rewrite Hs, Hss. cbn [s_pc s_pipe].
      rewrite (buffered_Some _ _ _ Hc), (buffered_Some _ _ _ Hcc), Hb. destruct p; cbn; lia. }
    assert (is_open (set_chan c ch' m) c = true) as Hop by (by rewrite (is_open_Some _ _ _ Hcc), Hc').
    destruct p; [|destruct b; simplify_eq; (split; [lia|by eexists])|done].
    destruct b; simplify_eq; [|split; [lia|by eexists]].
    split; [|eexists; split; [cbn; by rewrite list_lookup_alter_eq, Hs|done]].
    unfold actions_left at 1. cbn. rewrite list_lookup_alter_eq, Hs. cbn. unfold actions_left. rewrite Hs. cbn. lia.
  - unfold serve_done in H. rewrite Hs in H. destruct p; try done.
    destruct (heap m !! l) as [[? ? []]|]; try done. simplify_eq.
    split; [|eexists; split; [cbn; by rewrite list_lookup_alter_eq, Hs|done]].
    unfold actions_left. cbn. rewrite list_lookup_alter_eq, Hs. cbn. unfold buffered. cbn. lia.
  - unfold drain_default in H. rewrite Hs in H. destruct p; try done.
    destruct (chans m !! c ≫= recv); try done. simplify_eq.
    split; [|eexists; split; [cbn; by rewrite list_lookup_alter_eq, Hs|done]].
    unfold actions_left. cbn. rewrite list_lookup_alter_eq, Hs. cbn. lia.
Qed.

Lemma server_run_bounded es m m' o t s :
  Forall (λ e, of_server t e = true) es → servers m !! t = Some s → is_open m (s_pipe s) = true →
  run es m = Next m' o → (length es + actions_left m' t ≤ actions_left m t)%nat.
Proof.
  intros Hes. revert m o s. induction Hes as [|e es He Hes IH]; intros m o s Hs Ho; [intros [= <- <-]; cbn; lia|].
  intros (m1 & o1 & o2 & Hst & Hr & ->)%run_cons.
  destruct (server_step_decreases _ _ _ _ _ _ He Hs Ho Hst) as (Hlt & p & Hs1 & Ho1).
  pose proof (IH _ _ _ Hs1 Ho1 Hr). cbn. lia.
Qed.

(** Draining delivers what is left, then returns. *)
Lemma drain_finishes m t c l :
  servers m !! t = Some (mk_server c l Draining) → is_open m c = true →
  ∃ es m' o, Forall (λ e, of_server t e = true) es ∧ run es m = Next m' o ∧
    servers m' !! t = Some (mk_server c l Returned) ∧ delivered c t o = buffered m c.
Proof.
  intros Hs Ho. remember (buffered m c) as buf eqn:Hbuf. revert m Hs Ho Hbuf.
  induction buf as [|d buf IH]; intros m Hs Ho Hbuf.
  - exists [EDefault t], (set_pc t Returned m), []. split_and!.
    + constructor; [by apply bool_decide_eq_true|constructor].
    + apply run_cons. exists (set_pc t Returned m), [], []. split_and!; [|done..]. cbn. unfold drain_default. rewrite Hs.
      unfold buffered, is_open in *. destruct (chans m !! c) as [ch|]; cbn in *; [|done].
      unfold recv. rewrite <-Hbuf. by destruct (ch_closed ch).
    + cbn. by rewrite list_lookup_alter_eq, Hs.
    + done.
  - unfold buffered in Hbuf. destruct (chans m !! c) as [ch|] eqn:Hc; [|done]. cbn in Hbuf.
    rewrite (is_open_Some _ _ _ Hc) in Ho. pose (ch' := mk_chan buf (ch_cap ch) (ch_closed ch)).
    assert (recv ch = Some (d, ch')) as Hr by (unfold recv; by rewrite <-Hbuf).
    assert (chans (set_chan c ch' m) !! c = Some ch') as Hc'.
    { rewrite set_chan_lookup by done. by rewrite decide_True. }
    destruct (IH (set_chan c ch' m)) as (es & m' & o & Hes & Hrun & Hret & Hd); [done| | |].
    { by rewrite (is_open_Some _ _ _ Hc'). } { by rewrite (buffered_Some _ _ _ Hc'). }
    exists (ERecv t false :: es), m', (Delivered c t d :: o). split_and!; [|  |done|].
    + constructor; [by apply bool_decide_eq_true|done].
    + apply run_cons. exists (set_chan c ch' m), [Delivered c t d], o. split_and!; [|done..].
      cbn. unfold serve_recv.
      rewrite Hs, Hc. cbn. by rewrite Hr.
    + cbn. rewrite decide_True by done. unfold delivered in Hd. by rewrite Hd.
Qed.

Lemma serve_finishes m t c l so se :
  servers m !! t = Some (mk_server c l Serving) → heap m !! l = Some (mk_stream so se true) → is_open m c = true →
  ∃ es m' o, Forall (λ e, of_server t e = true) es ∧ run es m = Next m' o ∧
    servers m' !! t = Some (mk_server c l Returned) ∧ delivered c t o = buffered m c.
Proof.
  intros Hs Hstop Ho. destruct (drain_finishes (set_pc t Draining m) t c l) as (es & m' & o & Hes & Hr & Hret & Hd).
  { cbn. by rewrite list_lookup_alter_eq, Hs. } { done. }
  exists (EDone t :: es), m', o. split_and!; [|  |done|done].
  - constructor; [by apply bool_decide_eq_true|done].
  - apply run_cons. exists (set_pc t Draining m), [], o. split_and!; [|done..].
    cbn. unfold serve_done. by rewrite Hs, Hstop.
Qed.


(** ** Identifiers and the life of a stream *)
Definition stream_count (es : list event) : nat :=
  length (omap (λ e, match e with EStream _ _ => Some () | _ => None end) es).

Definition stops (es : list event) : list string :=
  omap (λ e, match e with EStop id => Some id | _ => None end) es.

Definition stream_id (l : nat) : string := format_int (Z.of_nat l + 1).

Lemma stream_id_inj l l' : stream_id l = stream_id l' → l = l'.
Proof.
  unfold stream_id. intros H. apply (f_equal parse_int) in H. rewrite !parse_format_int in H.
  simplify_eq. lia.
Qed.

(** The streams are numbered in the order of their creation; a stopped one is
    known to have been stopped, and is deleted after its grace time only. *)
Record life (m : Streamer) (stopped : list string) : Prop := {
  life_gen : idGen m = Z.of_nat (length (heap m));
  life_map id l : streams m !! id = Some l → id = stream_id l ∧ (l < length (heap m))%nat;
  life_done l s : heap m !! l = Some s → done s = true → stream_id l ∈ stopped;
  life_del at_ id : (at_, id) ∈ deletions m →
    ∃ l s, id = stream_id l ∧ heap m !! l = Some s ∧ done s = true;
  life_open c ch : chans m !! c = Some ch → ch_closed ch = false;
}.

Lemma life_New g : life (New g) [].
Proof. split; cbn; [done|intros ??|intros ??|intros ??|intros ??]; by rewrite ?lookup_empty, ?lookup_nil, ?elem_of_nil. Qed.

(** Where the streams and the deletions are as before. *)
Lemma life_same m m' st :
  life m st → idGen m' = idGen m → heap m' = heap m → streams m' = streams m →
  deletions m' = deletions m → (∀ c ch, chans m' !! c = Some ch → ch_closed ch = false) → life m' st.
Proof.
  intros [] Hg Hh Hs Hd Ho. split; [by rewrite Hg, Hh|rewrite Hs, Hh; eauto|rewrite Hh; eauto|rewrite Hd, Hh; eauto|done].
Qed.

Lemma step_open e m m' o :
  (∀ c ch, chans m !! c = Some ch → ch_closed ch = false) → closes e = false →
  step e m = Next m' o → ∀ c ch, chans m' !! c = Some ch → ch_closed ch = false.
Proof.
  intros Ho He Hs c ch Hc.
  destruct (step_chans _ _ _ _ c Hs) as [? _ _ H|? ? _ _ _ H|? ? _ _ _ H|ch0 o0 He' _ _ _ H|ch0 ? ? ? H0 Hr _ _ H];
    rewrite Hc in H; simplify_eq; [by eapply Ho|done..|congruence|].
  pose proof (Ho _ _ H0) as Hcl. unfold recv in Hr. rewrite Hcl in Hr.
  destruct (ch_buf ch0); by simplify_eq.
Qed.

Lemma life_Stream so se m m' o st :
  life m st → (Z.of_nat (length (heap m)) + 1 < 2 ^ 64)%Z → Stream so se m = Next m' o →
  life m' st ∧ o = [Returns (stream_id (length (heap m)))] ∧
  length (heap m') = S (length (heap m)).
Proof.
  intros [Hg Hm Hd Hdel Ho] Hlt. unfold Stream, next. rewrite Hg, wrapu_small by lia. intros [= <- <-].
  split_and!; [|done|by cbn; rewrite length_app; cbn; lia]. split; cbn.
  - rewrite length_app. cbn. lia.
  - intros id l. rewrite length_app. cbn. intros [[<- <-]|[_ Hl]]%lookup_insert_Some; [split; [done|lia]|].
    destruct (Hm _ _ Hl). split; [done|lia].
  - intros l s [Hl|[Hge Hl]]%lookup_app_Some Hds; [by eapply Hd|].
    apply list_lookup_singleton_Some in Hl as [_ <-]. done.
  - intros a i (l & s & -> & Hl & Hds)%Hdel. exists l, s. by rewrite lookup_app_l_Some with (x := s).
  - done.
Qed.

Lemma life_Stop id m m' o st :
  life m st → Stop id m = Next m' o → life m' (id :: st) ∧ o = [] ∧ length (heap m') = length (heap m).
Proof.
  intros [Hg Hm Hd Hdel Ho] H. unfold Stop, loadStream in H.
  assert (life m (id :: st)) as Hweak.
  { split; [done|done| |done|done]. intros l s Hl Hs. right. by eapply Hd. }
  destruct (streams m !! id) as [l|] eqn:Hid; [|by simplify_eq].
  destruct (heap m !! l) as [s|] eqn:Hl; cbn in H; [|by simplify_eq].
  destruct (done s) eqn:Hds; [done|]. simplify_eq. destruct (Hm _ _ Hid) as [-> Hlt].
  split_and!; [|done|by cbn; rewrite length_insert]. split; cbn.
  - by rewrite length_insert.
  - intros id' l'. rewrite length_insert. apply Hm.
  - intros l' s' [(<- & <- & _)|[_ Hl']]%list_lookup_insert_Some Hs'; [by left|right; by eapply Hd].
  - intros a i [(l' & s' & -> & Hl' & Hs')%Hdel|Hi%list_elem_of_singleton]%elem_of_app.
    + exists l', s'. split_and!; [done| |done]. rewrite list_lookup_insert_ne; [done|]. congruence.
    + simplify_eq. eexists l, _. by rewrite list_lookup_insert_eq.
  - done.
Qed.

Lemma life_step e m m' o st :
  life m st → closes e = false →
  (Z.of_nat (length (heap m) + stream_count [e]) < 2 ^ 64)%Z → step e m = Next m' o →
  life m' (stops [e] ++ st) ∧ length (heap m') = (length (heap m) + stream_count [e])%nat ∧
  returned o = stream_id <$> seq (length (heap m)) (stream_count [e]).
Proof.
  intros Hl He Hlt Hs. pose proof (step_open _ _ _ _ (life_open _ _ Hl) He Hs) as Ho.
  destruct e as [cap|c0 d|c0|so se|id|id|t b|t|t|id|d|k]; try done; unfold stream_count in *;
    cbn [stops omap list_omap length app] in *; rewrite ?Nat.add_0_r in *; cbn [step] in Hs.
  all: try (rule Hs; (split_and!; [eapply life_same; [exact Hl|reflexivity..|exact Ho]|reflexivity..])).
  - destruct (life_Stream _ _ _ _ _ _ Hl ltac:(lia) Hs) as (? & -> & ?). split_and!; [done|lia|done].
  - by destruct (life_Stop _ _ _ _ _ Hl Hs) as (? & -> & ?).
  - unfold Delete in Hs. destruct (deletions m !! k) as [[a i]|] eqn:Hk; [|done].
    destruct (a <=? now m)%Z; [|done]. simplify_eq. split_and!; [|done..].
    destruct Hl as [Hg Hm Hd Hdel _]. split; cbn; [done| |done| |done].
    + intros i' l [_ Hl']%lookup_delete_Some. by apply Hm.
    + intros a' i' Hin%list_elem_of_delete_inv. by eapply Hdel.
Qed.

Lemma life_mono m st st' : life m st → st ⊆ st' → life m st'.
Proof. intros [Hg Hm Hd Hdel Ho] Hs. split; [done..| |done|done]. intros l s Hl Hds. apply Hs. by eapply Hd. Qed.

Lemma stream_count_cons e es : stream_count (e :: es) = (stream_count [e] + stream_count es)%nat.
Proof. unfold stream_count. rewrite (omap_app _ [e] es). apply length_app. Qed.

Lemma stops_cons e es : stops (e :: es) = stops [e] ++ stops es.
Proof. apply (omap_app _ [e] es). Qed.

Lemma life_run es m m' o st :
  life m st → Forall (λ e, closes e = false) es →
  (Z.of_nat (length (heap m) + stream_count es) < 2 ^ 64)%Z → run es m = Next m' o →
  life m' (stops es ++ st) ∧ returned o = stream_id <$> seq (length (heap m)) (stream_count es) ∧
  length (heap m') = (length (heap m) + stream_count es)%nat.
Proof.
  intros Hl Hes. revert m o st Hl. induction Hes as [|e es He Hes IH]; intros m o st Hl Hlt.
  { intros [= <- <-]. split_and!; [done..|cbn; lia]. }
  intros (m1 & o1 & o2 & Hs & Hr & ->)%run_cons. rewrite stream_count_cons in *.
  destruct (life_step _ _ _ _ _ Hl He ltac:(lia) Hs) as (Hl1 & Hlen & Hret).
  destruct (IH m1 o2 _ Hl1 ltac:(lia) Hr) as (Hl2 & Hret2 & Hlen2). split_and!; [| |lia].
  - eapply life_mono; [exact Hl2|]. rewrite (stops_cons e es). intros x. rewrite !elem_of_app. tauto.
  - unfold returned in *. rewrite obs_app, Hret, Hret2, Hlen, seq_app. by rewrite fmap_app.
Qed.

(** No two streams are given the same identifier, for the first 2^64-1 of
    them. *)
Lemma stream_ids_distinct (g : Duration) (es : list event) (m : Streamer) (o : list obs)
    (Hcl : Forall (λ e, closes e = false) es) (Hlt : (Z.of_nat (stream_count es) < 2 ^ 64)%Z)
    (Hrun : run es (New g) = Next m o) :
  NoDup (returned o).
Proof.
  destruct (life_run _ _ _ _ _ (life_New g) Hcl Hlt Hrun) as (_ & -> & _).
  apply NoDup_fmap_2; [intros ??; apply stream_id_inj|apply NoDup_seq].
Qed.

Lemma step_no_panic e m st :
  life m st → closes e = false → (∀ id, e = EStop id → id ∉ st) → step e m ≠ Panic.
Proof.
  intros [Hg Hm Hd Hdel Ho] He Hst H.
  destruct e as [cap|c0 d|c0|so se|id|id|t b|t|t|id|d|k]; try done; cbn [step] in H;
    try (by rule H).
  - unfold Write in H. destruct (chans m !! c0) as [ch|] eqn:Hc; [|done].
    unfold try_send in H. rewrite (Ho _ _ Hc) in H. by destruct (_ <? _)%nat.
  - unfold Stop, loadStream in H. destruct (streams m !! id) as [l|] eqn:Hid; [|done].
    destruct (heap m !! l) as [s|] eqn:Hl; [|done]. cbn in H. destruct (done s) eqn:Hs; [|done].
    destruct (Hm _ _ Hid) as [-> _]. by eapply Hst, Hd.
Qed.

Lemma run_no_panic es m st :
  life m st → Forall (λ e, closes e = false) es →
  (Z.of_nat (length (heap m) + stream_count es) < 2 ^ 64)%Z →
  NoDup (stops es) → (∀ id, id ∈ stops es → id ∉ st) → run es m ≠ Panic.
Proof.
  intros Hl Hes. revert m st Hl. induction Hes as [|e es He Hes IH]; intros m st Hl Hlt Hnd Hst; [done|].
  rewrite stream_count_cons, stops_cons in *. cbn.
  destruct (step e m) as [m1 o1| |] eqn:Hs; [|done|].
  - destruct (life_step _ _ _ _ _ Hl He ltac:(lia) Hs) as (Hl1 & Hlen & _).
    apply NoDup_app in Hnd as (_ & Hnd1 & Hnd2).
    pose proof (IH m1 _ Hl1 ltac:(lia) Hnd2) as Hr. destruct (run es m1); [done|done|].
    intros _. apply Hr; [|done]. intros id Hid. rewrite elem_of_app. intros [Hi|Hi].
    + by eapply Hnd1.
    + eapply Hst; [|done]. rewrite elem_of_app. by right.
  - exfalso. eapply step_no_panic; [done|done| |done]. intros id ->. apply Hst. by left.
Qed.

(** The streamer does not panic, whatever the interleaving, when each stream
    is stopped at most once and the channels are left open, as the handlers do. *)
Lemma streamer_never_panics (g : Duration) (es : list event)
    (Hcl : Forall (λ e, closes e = false) es) (Hlt : (Z.of_nat (stream_count es) < 2 ^ 64)%Z)
    (Honce : NoDup (stops es)) :
  run es (New g) ≠ Panic.
Proof. eapply run_no_panic; [apply life_New|done..|]. intros id _. apply not_elem_of_nil. Qed.

(** ** Late clients *)

(** A stopped stream that is not deleted before [deadline]. *)
Record kept (m : Streamer) (l so se : nat) (deadline : Z) : Prop := {
  kept_map : streams m !! stream_id l = Some l;
  kept_done : heap m !! l = Some (mk_stream so se true);
  kept_del at_ : (at_, stream_id l) ∈ deletions m → (deadline ≤ at_)%Z;
}.

Lemma step_now e m m' o : step e m = Next m' o → (now m ≤ now m')%Z.
Proof.
  intros H. destruct e; cbn [step] in H; rule H; cbn; lia.
Qed.

Lemma run_now es m m' o : run es m = Next m' o → (now m ≤ now m')%Z.
Proof.
  revert m o. induction es as [|e es IH]; intros m o; [by intros [= <- <-]|].
  intros (m1 & o1 & o2 & Hs & Hr & ->)%run_cons. pose proof (step_now _ _ _ _ Hs).
  pose proof (IH _ _ Hr). lia.
Qed.

Lemma kept_same m m' l so se dl :
  kept m l so se dl → streams m' = streams m → heap m' = heap m → deletions m' = deletions m → kept m' l so se dl.
Proof. intros [] Hs Hh Hd. split; [by rewrite Hs|by rewrite Hh|rewrite Hd; eauto]. Qed.

Lemma kept_step e m m' o st l so se dl :
  life m st → kept m l so se dl → (Z.of_nat (length (heap m) + stream_count [e]) < 2 ^ 64)%Z →
  step e m = Next m' o → (now m' < dl)%Z → kept m' l so se dl.
Proof.
  intros Hlife Hk Hlt H Hnow. pose proof (step_now _ _ _ _ H). unfold stream_count in Hlt.
  destruct e as [cap|c0 d|c0|x y|id|id|t b|t|t|id|d|k]; cbn [step omap list_omap length] in *;
    try (rule H; (eapply kept_same; [exact Hk|reflexivity..])).
  - destruct Hk as [Hm Hd Hdel]. destruct Hlife as [Hg Hmap _ _ _]. unfold Stream, next in H.
    rewrite Hg, wrapu_small in H by lia. destruct (Hmap _ _ Hm) as [_ Hlen]. injection H as <- <-.
    split; cbn; [|by rewrite lookup_app_l|done].
    rewrite lookup_insert_ne; [done|]. intros Heq%(stream_id_inj (length (heap m)) l). lia.
  - destruct Hk as [Hm Hd Hdel]. destruct Hlife as [Hg Hmap _ _ _]. unfold Stop, loadStream in H.
    destruct (streams m !! id) as [l'|] eqn:Hid; [|by simplify_eq; split; eauto].
    destruct (heap m !! l') as [s|] eqn:Hl; cbn in H; [|by simplify_eq; split; eauto].
    destruct (done s) eqn:Hs; [done|]. simplify_eq. destruct (Hmap _ _ Hid) as [-> _].
    assert (l' ≠ l) as Hne by (intros ->; rewrite Hd in Hl; by simplify_eq).
    split; cbn; [done|by rewrite list_lookup_insert_ne|].
    intros a [Ha|Ha%list_elem_of_singleton]%elem_of_app; [by apply Hdel|].
    injection Ha as _ Heq. by apply stream_id_inj in Heq.
  - unfold Delete in H. destruct (deletions m !! k) as [[a i]|] eqn:Hk'; [|done].
    destruct (a <=? now m)%Z eqn:Ha; [|done]. injection H as <- <-. destruct Hk as [Hm Hd Hdel].
    split; cbn; [|done|intros a' Hin%list_elem_of_delete_inv; by apply Hdel].
    rewrite lookup_delete_ne; [done|]. intros ->.
    apply list_elem_of_lookup_2, Hdel in Hk'. cbn in Hnow. lia.
Qed.

Lemma kept_run es m m' o st l so se dl :
  life m st → kept m l so se dl → Forall (λ e, closes e = false) es →
  (Z.of_nat (length (heap m) + stream_count es) < 2 ^ 64)%Z →
  run es m = Next m' o → (now m' < dl)%Z → kept m' l so se dl.
Proof.
  intros Hl Hk Hes. revert m o st Hl Hk. induction Hes as [|e es He Hes IH]; intros m o st Hl Hk Hlt; [by intros [= <- <-]|].
  intros (m1 & o1 & o2 & Hs & Hr & ->)%run_cons Hnow. rewrite stream_count_cons in *.
  destruct (life_step _ _ _ _ _ Hl He ltac:(lia) Hs) as (Hl1 & Hlen & _).
  pose proof (run_now _ _ _ _ Hr). eapply IH; [exact Hl1| |lia|done|done].
  eapply (kept_step e); [exact Hl|done|lia|done|lia].
Qed.

Lemma run_graceTime es m m' o : run es m = Next m' o → graceTime m' = graceTime m.
Proof.
  revert m o. induction es as [|e es IH]; intros m o; [by intros [= <- <-]|].
  intros (m1 & o1 & o2 & Hs & Hr & ->)%run_cons. rewrite (IH _ _ Hr).
  destruct e; cbn [step] in Hs; rule Hs.
Qed.

(** A stream is kept from the moment it is stopped. *)
Lemma stop_kept m m' o st id l so se :
  life m st → loadStream id m = Some (l, mk_stream so se false) → Stop id m = Next m' o →
  id = stream_id l ∧ kept m' l so se (now m + graceTime m).
Proof.
  intros [Hg Hmap _ Hdel _] Hk. unfold Stop. rewrite Hk. cbn. intros [= <- <-].
  unfold loadStream in Hk. destruct (streams m !! id) as [l'|] eqn:Hid; [|done].
  destruct (heap m !! l') as [s|] eqn:Hl; [|done]. cbn in Hk. simplify_eq.
  destruct (Hmap _ _ Hid) as [-> Hlt]. split; [done|]. split; cbn; [done|by rewrite list_lookup_insert_eq|].
  intros a [(l1 & s1 & ->%stream_id_inj & Hl1 & Hs1)%Hdel|Ha%list_elem_of_singleton]%elem_of_app.
  - rewrite Hl in Hl1. by simplify_eq.
  - simplify_eq. lia.
Qed.

(** C27 A client that asks for a stream within the grace time after it was
    stopped is still served: the stream is known under its identifier, with the
    channels it was created with. *)
Theorem late_client_served (g : Duration) (es1 es2 : list event) (m1 m2 m3 : Streamer)
    (o1 o2 o3 : list obs) (id : string) (l so se : nat)
    (Hcl : Forall (λ e, closes e = false) (es1 ++ es2))
    (Hlt : (Z.of_nat (stream_count es1 + stream_count es2) < 2 ^ 64)%Z)
    (Hrun1 : run es1 (New g) = Next m1 o1)
    (Hknown : loadStream id m1 = Some (l, mk_stream so se false))
    (Hstop : step (EStop id) m1 = Next m2 o2)
    (Hrun2 : run es2 m2 = Next m3 o3) (Hgrace : (now m3 < now m1 + g)%Z) :
  loadStream id m3 = Some (l, mk_stream so se true).
Proof.
  apply Forall_app in Hcl as [Hcl1 Hcl2].
  destruct (life_run _ _ _ _ _ (life_New g) Hcl1 ltac:(cbn; lia) Hrun1) as (Hl1 & _ & Hlen1).
  destruct (life_Stop _ _ _ _ _ Hl1 Hstop) as (Hl2 & _ & Hlen2).
  destruct (stop_kept _ _ _ _ _ _ _ _ Hl1 Hknown Hstop) as [-> Hk2].
  rewrite (run_graceTime _ _ _ _ Hrun1) in Hk2. cbn in Hlen1.
  destruct (kept_run _ _ _ _ _ _ _ _ _ Hl2 Hk2 Hcl2 ltac:(lia) Hrun2 Hgrace) as [Hm3 Hd3 _].
  unfold loadStream. by rewrite Hm3, Hd3.
Qed.

(** C28 Output is kept until a client reads it: of the first [cap] chunks written
    to a channel of capacity [cap], none is dropped, whatever the interleaving
    and even when no client has connected. *)
Theorem first_chunks_never_dropped (es : list event) (m m' : Streamer) (o : list obs) (c cap : nat)
    (Hrun : run es m = Next m' o) (Hnew : chans m !! c = Some (make cap))
    (Hfew : (length (written c es) ≤ cap)%nat) :
  dropped c o = [] ∧ written c es = accepted c o.
Proof.
  assert (dropped c o = []) as Hd by (by eapply no_drop).
  split; [done|]. by eapply run_written.
Qed.

(** ** Closed channels *)
Lemma step_closed e m m' o c ch :
  step e m = Next m' o → chans m !! c = Some ch → ch_closed ch = true →
  ∃ ch', chans m' !! c = Some ch' ∧ ch_closed ch' = true.
Proof.
  intros Hs Hc Hcl.
  destruct (step_chans _ _ _ _ c Hs) as [? _ _ H|? ? _ _ H _|? ? H _ Ho _|? ? _ _ _ H H'|? ? ? ? H Hr _ _ H'];
    simplify_eq; try congruence; rewrite ?H, ?H'; eauto.
  eexists. split; [done|]. unfold recv in Hr. rewrite Hcl in Hr. destruct (ch_buf ch); by simplify_eq.
Qed.

Lemma step_draining_closed e m m' o t c l ch :
  step e m = Next m' o → servers m !! t = Some (mk_server c l Draining) →
  chans m !! c = Some ch → ch_closed ch = true →
  servers m' !! t = Some (mk_server c l Draining).
Proof.
  intros H Hs Hc Hcl.
  assert (recv ch ≠ None) as Hr by (unfold recv; rewrite Hcl; by destruct (ch_buf ch)).
  destruct e as [cap|c0 d|c0|so se|id|id|t' b|t'|t'|id|d|k]; cbn [step] in H;
    try (rule H; cbn; rewrite ?list_lookup_alter_ne by (intros ->; congruence); done).
  - rule H. cbn. by apply lookup_app_l_Some.
  - rule H. cbn. by apply lookup_app_l_Some.
  - unfold drain_default in H. destruct (decide (t' = t)) as [->|Hne].
    + rewrite Hs, Hc in H. cbn in H. by destruct (recv ch).
    + rule H. cbn. by rewrite list_lookup_alter_ne.
Qed.

(** Draining a closed channel never ends: a receive from a closed channel
    always succeeds, so the goroutine that drains one never takes the default
    case, whatever else happens. *)
Lemma closed_channel_drains_forever (es : list event) (m m' : Streamer) (o : list obs) (t c l : nat) (ch : chan)
    (Hrun : run es m = Next m' o)
    (Hs : servers m !! t = Some (mk_server c l Draining))
    (Hc : chans m !! c = Some ch) (Hcl : ch_closed ch = true) :
  servers m' !! t = Some (mk_server c l Draining) ∧ step (EDefault t) m' = Blocked.
Proof.
  revert m o ch Hrun Hs Hc Hcl. induction es as [|e es IH]; intros m o ch Hrun Hs Hc Hcl.
  - injection Hrun as <- <-. split; [done|]. cbn. unfold drain_default. rewrite Hs, Hc. cbn.
    unfold recv. rewrite Hcl. by destruct (ch_buf ch).
  - apply run_cons in Hrun as (m1 & o1 & o2 & Hst & Hr & ->).
    destruct (step_closed _ _ _ _ _ _ Hst Hc Hcl) as (ch1 & Hc1 & Hcl1).
    eapply IH; [done| |done|done]. by eapply step_draining_closed.
Qed.

(** ** Witnesses *)
Definition final (r : outcome) : Streamer := match r with Next m _ => m | _ => New 0 end.
Definition seen (r : outcome) : list obs := match r with Next _ o => o | _ => [] end.

(** A process writes twice, its client connecting in between. *)
Definition example_events : list event :=
  [EMake 4000; EMake 4000; EStream 0 1; EWrite 0 [Utf8.chr 97]; EServeStdout "1"; EWrite 0 [Utf8.chr 98];
   ERecv 0 false; EStop "1"; EDone 0; ERecv 0 false].


Definition stopped_example : Streamer :=
  final (run (take 8 example_events) (New 60)).


Lemma stream_ids_distinct_witness :
  returned (seen (run [EStream 0 1; EStream 2 3] (New 60))) = ["1"; "2"] ∧
  NoDup (returned (seen (run [EStream 0 1; EStream 2 3] (New 60)))).
Proof.
  split; [by vm_compute|].
  refine (stream_ids_distinct 60 [EStream 0 1; EStream 2 3] (final (run [EStream 0 1; EStream 2 3] (New 60))) _ _ _ _);
    [by repeat constructor|by vm_compute..].
Defined.

Lemma streamer_never_panics_witness :
  stops example_events = ["1"] ∧ run example_events (New 60) ≠ Panic.
Proof.
  split; [done|].
  refine (streamer_never_panics 60 example_events _ _ _);
    [by repeat constructor|by vm_compute|apply (bool_decide_unpack _); by vm_compute].
Defined.

Lemma late_client_served_witness :
  loadStream "1" (final (run [EStream 0 1] (New 60))) = Some (0%nat, mk_stream 0 1 false) ∧
  loadStream "1" (final (run [ESleep 59; EStream 2 3] (final (run [EStream 0 1; EStop "1"] (New 60))))) =
    Some (0%nat, mk_stream 0 1 true).
Proof.
  split; [by vm_compute|].
  refine (late_client_served 60 [EStream 0 1] [ESleep 59; EStream 2 3]
    (final (run [EStream 0 1] (New 60))) (final (run [EStream 0 1; EStop "1"] (New 60))) _
    [Returns "1"] [] [Returns "2"] "1" 0 0 1 _ _ _ _ _ _ _);
    [by repeat constructor|by vm_compute..].
Defined.

Lemma first_chunks_never_dropped_witness :
  (length (written 0 example_events) ≤ 4000)%nat ∧
  dropped 0 (seen (run (drop 1 example_events) (final (run [EMake 4000] (New 60))))) = [] ∧
  written 0 (drop 1 example_events) =
    accepted 0 (seen (run (drop 1 example_events) (final (run [EMake 4000] (New 60))))).
Proof.
  split; [apply Nat.leb_le; by vm_compute|].
  refine (first_chunks_never_dropped (drop 1 example_events) (final (run [EMake 4000] (New 60)))
    (final (run (drop 1 example_events) (final (run [EMake 4000] (New 60))))) _ 0 4000 _ _ _);
    [by vm_compute|reflexivity|apply Nat.leb_le; by vm_compute].
Defined.

(** The process's writer is closed while its stream is drained. *)
Definition closed_example : Streamer :=
  final (run [EMake 1; EMake 1; EStream 0 1; EServeStdout "1"; EClose 0; EStop "1"; EDone 0] (New 60)).

Lemma closed_channel_drains_forever_witness :
  is_open closed_example 0 = false ∧
  servers (final (run [ERecv 0 false; ERecv 0 false] closed_example)) !! 0%nat = Some (mk_server 0 0 Draining) ∧
  step (EDefault 0) (final (run [ERecv 0 false; ERecv 0 false] closed_example)) = Blocked.
Proof.
  split; [by vm_compute|].
  refine (closed_channel_drains_forever [ERecv 0 false; ERecv 0 false] closed_example _
    (seen (run [ERecv 0 false; ERecv 0 false] closed_example)) 0 0 0 (mk_chan [] 1 true) _ _ _ _); by vm_compute.
Defined.
End Streamer.
