(* ===== verification/Url.v ===== *)
(** * URLs (package net/url, the parts the client and the router use)

    Escaping, the path of a URL, and query strings.  The URLs of this protocol
    are [http://api] followed by a path that starts with a slash, so only the
    path, query and fragment are parsed here. *)
From S2P Require Import Prelude Types Utf8.

Module Url.
Import Utf8.
#[local] Open Scope N_scope.

(** ** Escaping *)
Inductive mode := encodePath | encodeQueryComponent.

Definition alnum (a : Ascii.ascii) : bool :=
  ((97 <=? code a) && (code a <=? 122)) || ((65 <=? code a) && (code a <=? 90))
  || ((48 <=? code a) && (code a <=? 57)).

Definition one_of (l : list N) (a : Ascii.ascii) : bool := existsb (N.eqb (code a)) l.

(** [-], [_], [.], [~]; and the reserved characters, of which only [?] is
    escaped in a path. *)
Definition shouldEscape (m : mode) (a : Ascii.ascii) : bool :=
  if alnum a then false
  else if one_of [45; 95; 46; 126] a then false
  else if one_of [36; 38; 43; 44; 47; 58; 59; 61; 63; 64] a then
    match m with encodePath => code a =? 63 | encodeQueryComponent => true end
  else true.

Definition upperhex (n : N) : Ascii.ascii := if n <? 10 then chr (48 + n) else chr (55 + n).

Definition percent : Ascii.ascii := chr 37.
Definition plus : Ascii.ascii := chr 43.
Definition space : Ascii.ascii := chr 32.

Definition escape_char (m : mode) (a : Ascii.ascii) : bytes :=
  if shouldEscape m a then
    if bool_decide (a = space) && match m with encodeQueryComponent => true | encodePath => false end
    then [plus]
    else [percent; upperhex (code a / 16); upperhex (code a mod 16)]
  else [a].

Definition escape (m : mode) (s : bytes) : bytes := s ≫= escape_char m.

Definition unhex (a : Ascii.ascii) : option N :=
  if (48 <=? code a) && (code a <=? 57) then Some (code a - 48)
  else if (97 <=? code a) && (code a <=? 102) then Some (code a - 87)
  else if (65 <=? code a) && (code a <=? 70) then Some (code a - 55)
  else None.

Fixpoint unescape (m : mode) (s : bytes) : option bytes :=
  match s with
  | [] => Some []
  | a :: s' =>
      if bool_decide (a = percent) then
        match s' with
        | h :: l :: s'' =>
            match unhex h, unhex l with
            | Some h, Some l => cons (chr (h * 16 + l)) <$> unescape m s''
            | _, _ => None
            end
        | _ => None
        end
      else
        let c := if bool_decide (a = plus) && match m with encodeQueryComponent => true | encodePath => false end
                 then space else a in
        cons c <$> unescape m s'
  end.

Definition QueryEscape (s : string) : bytes := escape encodeQueryComponent (to_bytes s).
Definition QueryUnescape (s : bytes) : option string := of_bytes <$> unescape encodeQueryComponent s.

(** ** Paths *)

(** The path of a URL as parsed, with the original text when escaping the path
    does not give it back. *)
Record URL := mk_URL {
  Path : bytes;
  RawPath : bytes;
  RawQuery : bytes;
}.

Definition set_path (p : bytes) : option (bytes * bytes) :=
  path ← unescape encodePath p;
  Some (path, if decide (escape encodePath path = p) then [] else p).

Definition validEncoded (s : bytes) : bool :=
  forallb (λ a, one_of [33; 36; 38; 39; 40; 41; 42; 43; 44; 59; 61; 58; 64; 91; 93; 37] a
                || negb (shouldEscape encodePath a)) s.

Definition EscapedPath (u : URL) : bytes :=
  if bool_decide (RawPath u ≠ []) && validEncoded (RawPath u)
     && bool_decide (unescape encodePath (RawPath u) = Some (Path u))
  then RawPath u
  else if decide (Path u = [chr 42]) then [chr 42]
  else escape encodePath (Path u).

(** [strings.Cut] at the first occurrence of a byte. *)
Fixpoint cut (sep : Ascii.ascii) (s : bytes) : bytes * option bytes :=
  match s with
  | [] => ([], None)
  | a :: s' =>
      if bool_decide (a = sep) then ([], Some s')
      else let (before, after) := cut sep s' in (a :: before, after)
  end.

Definition is_ctl (a : Ascii.ascii) : bool := (code a <? 32) || (code a =? 127).

(** [url.Parse] of a text that starts with a slash: the fragment is cut off (and
    has to be properly escaped), then the query; a control character is an
    error. *)
Definition Parse (s : bytes) : option URL :=
  if existsb is_ctl s then None
  else
    let (u, frag) := cut (chr 35) s in
    _ ← unescape encodePath (default [] frag);
    let (rest, q) := cut (chr 63) u in
    '(path, raw) ← set_path rest;
    Some (mk_URL path raw (default [] q)).

(** [u.String()], for a URL without a scheme, up to the fragment, which is never
    sent. *)
Definition URL_String (u : URL) : bytes :=
  EscapedPath u ++ match RawQuery u with [] => [] | q => chr 63 :: q end.

(** ** Query strings *)

(** [Values.Encode]: by key, each value as an escaped pair. *)
Definition encode_pair (k v : string) : bytes := QueryEscape k ++ [chr 61] ++ QueryEscape v.

Fixpoint join_amp (l : list bytes) : bytes :=
  match l with
  | [] => []
  | [x] => x
  | x :: l' => x ++ [chr 38] ++ join_amp l'
  end.

Definition Values_Encode (v : gmap string (list string)) : bytes :=
  join_amp (sorted_entries v ≫= λ kvs, encode_pair kvs.1 <$> kvs.2).

Definition add_value (m : gmap string (list string)) (kv : string * string) : gmap string (list string) :=
  <[kv.1 := default [] (m !! kv.1) ++ [kv.2]]> m.

(** One pair of a query; a pair that is empty, holds a semicolon or is badly
    escaped is skipped. *)
Definition parse_pair (seg : bytes) : option (string * string) :=
  if bool_decide (seg = []) || existsb (λ a, code a =? 59) seg then None
  else
    let (k, v) := cut (chr 61) seg in
    k ← QueryUnescape k; v ← QueryUnescape (default [] v); Some (k, v).

Definition add_pair (m : gmap string (list string)) (seg : bytes) : gmap string (list string) :=
  match parse_pair seg with Some kv => add_value m kv | None => m end.

(** [u.Query()] *)
Definition ParseQuery (q : bytes) : gmap string (list string) :=
  foldl add_pair ∅ (split_bytes (chr 38) q).

(** ** Escaping is undone by unescaping *)
Lemma unhex_upperhex n : n < 16 → unhex (upperhex n) = Some n.
Proof.
  intros Hn. assert (n = 0 ∨ n = 1 ∨ n = 2 ∨ n = 3 ∨ n = 4 ∨ n = 5 ∨ n = 6 ∨ n = 7 ∨ n = 8 ∨ n = 9
    ∨ n = 10 ∨ n = 11 ∨ n = 12 ∨ n = 13 ∨ n = 14 ∨ n = 15) as H by lia.
  repeat destruct H as [->|H]; try reflexivity. by subst.
Qed.

Lemma unescape_escape_char m a s :
  unescape m (escape_char m a ++ s) = cons a <$> unescape m s.
Proof. destruct m, a as [[] [] [] [] [] [] [] []]; reflexivity. Qed.

Lemma unescape_escape m s : unescape m (escape m s) = Some s.
Proof.
  induction s as [|a s IH]; [done|]. unfold escape. cbn [mbind list_bind].
  rewrite unescape_escape_char. unfold escape in IH. by rewrite IH.
Qed.

Lemma QueryUnescape_Escape s : QueryUnescape (QueryEscape s) = Some s.
Proof. unfold QueryUnescape, QueryEscape. rewrite unescape_escape. cbn. by rewrite of_to_bytes. Qed.

(** An escaped component holds no separator. *)
Lemma escape_query_clean a s :
  one_of [38; 59; 61] a = true → a ∉ escape encodeQueryComponent s.
Proof.
  intros Ha. induction s as [|b s IH]; [apply not_elem_of_nil|].
  unfold escape in *. cbn [mbind list_bind]. rewrite not_elem_of_app. split; [|done].
  clear IH. assert (∀ x, x ∈ escape_char encodeQueryComponent b → one_of [38; 59; 61] x = false) as Hb.
  { destruct b as [[] [] [] [] [] [] [] []]; intros x Hx; repeat (apply elem_of_cons in Hx as [->|Hx]);
      try reflexivity; by apply elem_of_nil in Hx. }
  intros Hin. apply Hb in Hin. congruence.
Qed.

Lemma cut_app sep a b : sep ∉ a → cut sep (a ++ sep :: b) = (a, Some b).
Proof.
  induction a as [|x a IH]; cbn; [by rewrite bool_decide_true|].
  rewrite not_elem_of_cons. intros [Hx Ha]. rewrite bool_decide_false by done. by rewrite IH.
Qed.

Lemma cut_none sep a : sep ∉ a → cut sep a = (a, None).
Proof.
  induction a as [|x a IH]; cbn; [done|].
  rewrite not_elem_of_cons. intros [Hx Ha]. rewrite bool_decide_false by done. by rewrite IH.
Qed.

Lemma parse_encode_pair k v : parse_pair (encode_pair k v) = Some (k, v).
Proof.
  unfold parse_pair, encode_pair.
  assert (existsb (λ a, code a =? 59) (QueryEscape k ++ [chr 61] ++ QueryEscape v) = false) as ->.
  { apply not_true_iff_false. rewrite existsb_exists. intros (a & Ha & Hc%N.eqb_eq).
    assert (one_of [38; 59; 61] a = true) as H1 by (unfold one_of; by rewrite Hc).
    apply list_elem_of_In in Ha. rewrite !elem_of_app, list_elem_of_singleton in Ha.
    destruct Ha as [Ha|[->|Ha]]; [by eapply escape_query_clean|done|by eapply escape_query_clean]. }
  rewrite bool_decide_false by (by intros [_ ?]%app_nil). cbn [orb].
  change ([chr 61] ++ ?x) with (chr 61 :: x).
  rewrite cut_app by (by apply escape_query_clean). cbv iota beta.
  rewrite QueryUnescape_Escape. cbn [mbind option_bind default].
  change (id ?x) with x. by rewrite QueryUnescape_Escape.
Qed.

Lemma encode_pair_clean k v : chr 38 ∉ encode_pair k v.
Proof.
  unfold encode_pair. rewrite !not_elem_of_app.
  split_and!; [by apply escape_query_clean|by rewrite list_elem_of_singleton|by apply escape_query_clean].
Qed.

(** ** Query strings read back *)
Lemma split_join l :
  Forall (λ x, chr 38 ∉ x) l → l ≠ [] → split_bytes (chr 38) (join_amp l) = l.
Proof.
  intros Hl Hne. induction Hl as [|x l Hx Hl IH]; [done|].
  destruct l as [|y l]; [by apply split_bytes_none|].
  change (join_amp (x :: y :: l)) with (x ++ chr 38 :: join_amp (y :: l)).
  rewrite split_bytes_app, split_bytes_none by done. by rewrite IH.
Qed.

Lemma ParseQuery_pairs (l : list (string * string)) m rest :
  foldl add_pair m (split_bytes (chr 38) (join_amp ((λ kv, encode_pair kv.1 kv.2) <$> l) ++ chr 38 :: rest)) =
  foldl add_pair (foldl add_value m l) (split_bytes (chr 38) rest).
Proof.
  rewrite split_bytes_app, foldl_app. f_equal.
  destruct l as [|kv l]; [done|]. rewrite split_join; [|rewrite Forall_fmap; apply Forall_true; intros; apply encode_pair_clean|done].
  revert m. generalize (kv :: l). clear. intros l. induction l as [|kv l IH]; intros m; [done|].
  cbn [fmap list_fmap foldl]. unfold add_pair at 2. rewrite parse_encode_pair. destruct kv. apply IH.
Qed.

Definition pairs (v : gmap string (list string)) : list (string * string) :=
  sorted_entries v ≫= λ kvs, pair kvs.1 <$> kvs.2.

Lemma Values_Encode_pairs v :
  Values_Encode v = join_amp ((λ kv, encode_pair kv.1 kv.2) <$> pairs v).
Proof.
  unfold Values_Encode, pairs. f_equal. induction (sorted_entries v) as [|[k vs] l IH]; [done|].
  cbn [mbind list_bind]. rewrite fmap_app, IH. f_equal. by rewrite <-list_fmap_compose.
Qed.

Lemma add_values_key k vs m :
  foldl add_value m (pair k <$> vs) = match vs with [] => m | _ => <[k := default [] (m !! k) ++ vs]> m end.
Proof.
  revert m. induction vs as [|v vs IH]; intros m; [done|]. cbn [fmap list_fmap foldl]. rewrite IH.
  unfold add_value. cbn [fst snd]. destruct vs as [|w vs]; [done|].
  rewrite lookup_insert_eq, insert_insert_eq. cbn. by rewrite <-app_assoc.
Qed.

Lemma add_entries (l : list (string * list string)) m :
  NoDup l.*1 → Forall (λ kvs, kvs.2 ≠ []) l → (∀ k, k ∈ l.*1 → m !! k = None) →
  foldl add_value m (l ≫= λ kvs, pair kvs.1 <$> kvs.2) = list_to_map l ∪ m.
Proof.
  revert m. induction l as [|[k vs] l IH]; intros m; cbn [fmap list_fmap]; [intros; symmetry; apply (left_id_L ∅ (∪))|].
  intros [Hk Hnd]%NoDup_cons [Hvs Hne]%Forall_cons Hm. cbn [mbind list_bind]. rewrite foldl_app, add_values_key.
  cbn [fst snd] in *. destruct vs as [|v vs]; [done|].
  rewrite (Hm k) by (by left). rewrite IH; [|done..|].
  - cbn. rewrite insert_union_singleton_l, (insert_union_singleton_l (list_to_map l)).
    rewrite !(assoc_L (∪)). f_equal. apply map_union_comm.
    apply map_disjoint_singleton_r. by apply not_elem_of_list_to_map.
  - intros k' Hk'. rewrite lookup_insert_ne by (by intros ->). apply Hm. by right.
Qed.

(** The query a map of values is encoded as is read as the same values; more
    pairs after it are added to them. *)
Lemma ParseQuery_Encode v rest :
  map_Forall (λ _ vs, vs ≠ []) v →
  ParseQuery (Values_Encode v ++ chr 38 :: rest) = foldl add_pair v (split_bytes (chr 38) rest).
Proof.
  intros Hv. unfold ParseQuery. rewrite Values_Encode_pairs, ParseQuery_pairs. f_equal.
  destruct (sorted_entries_map v) as [Hnd Hm]. unfold pairs.
  rewrite add_entries; [by rewrite Hm, (right_id_L ∅ (∪))|done| |intros; apply lookup_empty].
  rewrite (sorted_entries_perm v). apply Forall_forall. intros [k vs] Hin%elem_of_map_to_list. by eapply Hv.
Qed.

Lemma add_pairs_amp m q :
  foldl add_pair m (split_bytes (chr 38) (q ++ [chr 38])) = foldl add_pair m (split_bytes (chr 38) q).
Proof. rewrite split_bytes_app, foldl_app. done. Qed.

Lemma ParseQuery_amp q : ParseQuery (q ++ [chr 38]) = ParseQuery q.
Proof. apply add_pairs_amp. Qed.

Lemma add_pairs_Encode m v :
  foldl add_pair m (split_bytes (chr 38) (Values_Encode v)) = foldl add_value m (pairs v).
Proof. rewrite <-add_pairs_amp, Values_Encode_pairs. by rewrite (ParseQuery_pairs (pairs v) m []). Qed.

Lemma add_values_ne m l :
  map_Forall (λ _ vs, vs ≠ []) m → map_Forall (λ _ (vs : list string), vs ≠ []) (foldl add_value m l).
Proof.
  revert m. induction l as [|kv l IH]; intros m Hm; [done|]. cbn. apply IH.
  apply map_Forall_insert_2; [|done]. by intros [_ ?]%app_nil.
Qed.

(** The bytes of an encoded query. *)
Lemma Values_Encode_chars v x :
  x ∈ Values_Encode v → is_ctl x = false ∧ one_of [35; 63] x = false.
Proof.
  assert (∀ s x, x ∈ QueryEscape s → is_ctl x = false ∧ one_of [35; 63] x = false) as He.
  { clear. intros s x. unfold QueryEscape, escape. rewrite list_elem_of_bind. intros (a & Hx & _).
    destruct a as [[] [] [] [] [] [] [] []]; cbn in Hx;
      repeat (apply elem_of_cons in Hx as [->|Hx]); try done; by apply elem_of_nil in Hx. }
  rewrite Values_Encode_pairs. induction (pairs v) as [|[k w] l IH]; [by intros ?%elem_of_nil|].
  assert (x ∈ encode_pair k w → is_ctl x = false ∧ one_of [35; 63] x = false) as Hp.
  { unfold encode_pair. rewrite !elem_of_app, list_elem_of_singleton.
    intros [?|[->|?]]; [by eapply He|done|by eapply He]. }
  cbn [fmap list_fmap fst snd] in *. destruct ((λ kv, encode_pair kv.1 kv.2) <$> l) as [|y l'] eqn:Hl; [exact Hp|].
  change (join_amp (encode_pair k w :: y :: l')) with (encode_pair k w ++ chr 38 :: join_amp (y :: l')).
  rewrite elem_of_app, elem_of_cons. intros [?|[->|?]]; [by apply Hp|done|by apply IH].
Qed.

Lemma ParseQuery_roundtrip v :
  map_Forall (λ _ vs, vs ≠ []) v → ParseQuery (Values_Encode v) = v.
Proof. intros Hv. rewrite <-ParseQuery_amp. by rewrite (ParseQuery_Encode v []). Qed.
End Url.
