(* ===== verification/Routes.v ===== *)
(** * Routes (routes/routes.go, and the vendored rata and pat)

    The table of routes, the requests the client makes from it
    ([rata.RequestGenerator]) and the multiplexer the server makes from it
    ([rata.NewRouter] over [pat.PatternServeMux]). *)
From S2P Require Import Prelude Types Utf8 GoJson Errors Url.

Module Routes.
Import Utf8 Errors Url.

(** ** The table *)
Record Route := mk_Route {
  Name : string;
  Method : string;
  RoutePath : string;
}.

Definition Ping : string := "Ping".
Definition Capacity : string := "Capacity".
Definition List : string := "List".
Definition Create : string := "Create".
Definition Info : string := "Info".
Definition BulkInfo : string := "BulkInfo".
Definition BulkMetrics : string := "BulkMetrics".
Definition Destroy : string := "Destroy".
Definition Stop : string := "Stop".
Definition StreamIn : string := "StreamIn".
Definition StreamOut : string := "StreamOut".
Definition Stdout : string := "Stdout".
Definition Stderr : string := "Stderr".
Definition CurrentBandwidthLimits : string := "CurrentBandwidthLimits".
Definition CurrentCPULimits : string := "CurrentCPULimits".
Definition CurrentDiskLimits : string := "CurrentDiskLimits".
Definition CurrentMemoryLimits : string := "CurrentMemoryLimits".
Definition NetIn : string := "NetIn".
Definition NetOut : string := "NetOut".
Definition BulkNetOut : string := "BulkNetOut".
Definition Run : string := "Run".
Definition Attach : string := "Attach".
Definition SetGraceTime : string := "SetGraceTime".
Definition Properties : string := "Properties".
Definition Property : string := "Property".
Definition SetProperty : string := "SetProperty".
Definition Metrics : string := "Metrics".
Definition RemoveProperty : string := "RemoveProperty".

Definition Routes : list Route := [
  mk_Route Ping "GET" "/ping";
  mk_Route Capacity "GET" "/capacity";
  mk_Route List "GET" "/containers";
  mk_Route Create "POST" "/containers";
  mk_Route Info "GET" "/containers/:handle/info";
  mk_Route BulkInfo "GET" "/containers/bulk_info";
  mk_Route BulkMetrics "GET" "/containers/bulk_metrics";
  mk_Route Destroy "DELETE" "/containers/:handle";
  mk_Route Stop "PUT" "/containers/:handle/stop";
  mk_Route StreamIn "PUT" "/containers/:handle/files";
  mk_Route StreamOut "GET" "/containers/:handle/files";
  mk_Route CurrentBandwidthLimits "GET" "/containers/:handle/limits/bandwidth";
  mk_Route CurrentCPULimits "GET" "/containers/:handle/limits/cpu";
  mk_Route CurrentDiskLimits "GET" "/containers/:handle/limits/disk";
  mk_Route CurrentMemoryLimits "GET" "/containers/:handle/limits/memory";
  mk_Route NetIn "POST" "/containers/:handle/net/in";
  mk_Route NetOut "POST" "/containers/:handle/net/out";
  mk_Route BulkNetOut "POST" "/containers/:handle/net/out/bulk";
  mk_Route Stdout "GET" "/containers/:handle/processes/:pid/attaches/:streamid/stdout";
  mk_Route Stderr "GET" "/containers/:handle/processes/:pid/attaches/:streamid/stderr";
  mk_Route Run "POST" "/containers/:handle/processes";
  mk_Route Attach "GET" "/containers/:handle/processes/:pid";
  mk_Route SetGraceTime "PUT" "/containers/:handle/grace_time";
  mk_Route Properties "GET" "/containers/:handle/properties";
  mk_Route Property "GET" "/containers/:handle/properties/:key";
  mk_Route SetProperty "PUT" "/containers/:handle/properties/:key";
  mk_Route RemoveProperty "DELETE" "/containers/:handle/properties/:key";
  mk_Route Metrics "GET" "/containers/:handle/metrics" ].

(** ** Making requests (rata) *)
Definition slash : Ascii.ascii := chr 47.
Definition colon : Ascii.ascii := chr 58.

Fixpoint FindRouteByName (r : list Route) (name : string) : option Route :=
  match r with
  | [] => None
  | route :: r' => if decide (Name route = name) then Some route else FindRouteByName r' name
  end.

(** [strings.Join(components, "/")] *)
Fixpoint join_slash (l : list bytes) : bytes :=
  match l with
  | [] => []
  | [x] => x
  | x :: l' => x ++ slash :: join_slash l'
  end.

(** The loop over the components of [CreatePath]. *)
Fixpoint fill (params : gmap string string) (cs : list bytes) : result error (list bytes) :=
  match cs with
  | [] => Ok []
  | c :: cs' =>
      let val :=
        match c with
        | a :: n =>
            if bool_decide (a = colon) then
              match params !! of_bytes n with
              | Some v => Ok (to_bytes v)
              | None => Err (OtherError ("missing param " +:+ of_bytes c))
              end
            else Ok c
        | [] => Ok c
        end in
      rbind val (λ v, rmap (cons v) (fill params cs'))
  end.

(** The text of the error is net/url's. *)
Definition url_error : error := OtherError "parse".

Definition CreatePath (r : Route) (params : gmap string string) : result error bytes :=
  rbind (fill params (split_bytes slash (to_bytes (RoutePath r)))) (λ cs,
    match Parse (join_slash cs) with
    | Some u => Ok (URL_String u)
    | None => Err url_error
    end).

(** [strings.TrimLeft(path, "/")] *)
Fixpoint trim_slashes (s : bytes) : bytes :=
  match s with a :: s' => if bool_decide (a = slash) then trim_slashes s' else s | [] => [] end.

(** The method and the URL of the request, after the host. *)
Definition CreateRequest (name : string) (params : gmap string string) : result error (string * URL) :=
  match FindRouteByName Routes name with
  | None => Err (OtherError ("No route exists with the name " +:+ name))
  | Some route =>
      rbind (CreatePath route params) (λ path,
        match Parse (slash :: trim_slashes path) with
        | Some u => Ok (Method route, u)
        | None => Err url_error
        end)
  end.

(** ** The multiplexer (pat) *)

(** A pattern, read: literal bytes, and captures with the byte that follows
    them (zero at the end). *)
Inductive token :=
| Lit (a : Ascii.ascii)
| Cap (name : bytes) (nextc : Ascii.ascii).

Definition isAlnum (a : Ascii.ascii) : bool := alnum a || (code a =? 95)%N.

Fixpoint tokens (p : bytes) (cap : option bytes) : list token :=
  match p with
  | [] => match cap with Some n => [Cap n (chr 0)] | None => [] end
  | a :: p' =>
      let here := if bool_decide (a = colon) then tokens p' (Some []) else Lit a :: tokens p' None in
      match cap with
      | None => here
      | Some n => if isAlnum a then tokens p' (Some (n ++ [a])) else Cap n a :: here
      end
  end.

(** [match] with [matchPart]: up to the given byte or a slash. *)
Fixpoint span_part (nextc : Ascii.ascii) (s : bytes) : bytes * bytes :=
  match s with
  | [] => ([], [])
  | a :: s' =>
      if bool_decide (a = nextc) || bool_decide (a = slash) then ([], s)
      else let (m, r) := span_part nextc s' in (a :: m, r)
  end.

(** [patHandler.try]: what the captures matched, or no match. *)
Fixpoint try_tokens (ends_in_slash : bool) (ts : list token) (path : bytes)
    (p : gmap string (list string)) : option (gmap string (list string)) :=
  match ts, path with
  | [], [] => Some p
  | _ :: _, [] => None
  | [], _ :: _ => if ends_in_slash then Some p else None
  | Cap name nextc :: ts', _ :: _ =>
      let (val, rest) := span_part nextc path in
      escval ← QueryUnescape val;
      try_tokens ends_in_slash ts' rest (add_value p (":" +:+ of_bytes name, escval))
  | Lit b :: ts', a :: path' =>
      if bool_decide (a = b) then try_tokens ends_in_slash ts' path' p else None
  end.

Definition ends_in_slash (pat : bytes) : bool :=
  bool_decide (pat ≠ [slash]) && bool_decide (last pat = Some slash).

Definition try_pat (pat : string) (path : bytes) : option (gmap string (list string)) :=
  try_tokens (ends_in_slash (to_bytes pat)) (tokens (to_bytes pat) None) path ∅.

Section mux.
Context {H : Type}.

(** [patHandler]; the handler of a redirect is pat's own. *)
Record patHandler := mk_patHandler {
  ph_pat : string;
  ph_handler : option H;
}.

(** [PatternServeMux.add], on the reversed pattern: a pattern that ends with a
    slash is also registered without it, as a redirect. *)
Fixpoint add_rev (meth : string) (rpat : bytes) (h : option H) (p : gmap string (list patHandler)) :
    gmap string (list patHandler) :=
  let pat := of_bytes (reverse rpat) in
  let handlers := default [] (p !! meth) in
  if existsb (λ p1, bool_decide (ph_pat p1 = pat)) handlers then p
  else
    let p' := <[meth := handlers ++ [mk_patHandler pat h]]> p in
    match rpat with
    | a :: rpat' => if bool_decide (a = slash) then add_rev meth rpat' None p' else p'
    | [] => p'
    end.

Definition Add (meth pat : string) (h : H) (p : gmap string (list patHandler)) :
    gmap string (list patHandler) :=
  add_rev meth (reverse (to_bytes pat)) (Some h) p.

Definition methods : list string :=
  ["GET"; "HEAD"; "POST"; "PUT"; "PATCH"; "DELETE"; "CONNECT"; "OPTIONS"; "TRACE"].

(** [rata.NewRouter]; the methods of the table are already upper case. *)
Fixpoint NewRouter_loop (routes : list Route) (handlers : string → option H)
    (p : gmap string (list patHandler)) : result error (gmap string (list patHandler)) :=
  match routes with
  | [] => Ok p
  | route :: routes' =>
      match handlers (Name route) with
      | None => Err (OtherError ("missing handler " +:+ Name route))
      | Some handler =>
          if bool_decide (Method route ∈ methods)
          then NewRouter_loop routes' handlers (Add (Method route) (RoutePath route) handler p)
          else Err (OtherError ("invalid verb: " +:+ Method route))
      end
  end.

Definition NewRouter (routes : list Route) (handlers : string → option H) :
    result error (gmap string (list patHandler)) :=
  NewRouter_loop routes handlers ∅.

(** What the multiplexer does with a request: a handler is called, with the
    query it then sees; or pat answers by itself. *)
Inductive served :=
| Calls (h : H) (query : bytes)
| Redirects
| NotAllowed
| NotFound.

Fixpoint first_match (hs : list patHandler) (path : bytes) :
    option (patHandler * gmap string (list string)) :=
  match hs with
  | [] => None
  | ph :: hs' =>
      match try_pat (ph_pat ph) path with
      | Some params => Some (ph, params)
      | None => first_match hs' path
      end
  end.

Definition ServeHTTP (p : gmap string (list patHandler)) (method : string) (u : URL) : served :=
  match first_match (default [] (p !! method)) (EscapedPath u) with
  | Some (mk_patHandler _ (Some h), params) =>
      Calls h (if decide (params = ∅) then RawQuery u else Values_Encode params ++ chr 38 :: RawQuery u)
  | Some (mk_patHandler _ None, _) => Redirects
  | None =>
      if existsb (λ mh, negb (bool_decide (mh.1 = method)) &&
                        existsb (λ ph, bool_decide (is_Some (try_pat (ph_pat ph) (EscapedPath u)))) mh.2)
           (map_to_list p)
      then NotAllowed else NotFound
  end.
End mux.

(** ** Patterns by segment *)
Inductive seg :=
| SLit (w : bytes)
| SCap (name : bytes).

Definition seg_of (c : bytes) : seg :=
  match c with
  | a :: n => if bool_decide (a = colon) then SCap n else SLit c
  | [] => SLit []
  end.

(** The segments of a pattern, after its first slash. *)
Definition segs (r : Route) : list seg :=
  seg_of <$> tail (split_bytes slash (to_bytes (RoutePath r))).

(** The tokens of a list of segments: a capture at the end is followed by
    nothing. *)
Fixpoint seg_tokens (ps : list seg) : list token :=
  match ps with
  | [] => []
  | SLit w :: ps' => Lit slash :: (Lit <$> w) ++ seg_tokens ps'
  | SCap n :: ps' => Lit slash :: Cap n (match ps' with [] => chr 0 | _ => slash end) :: seg_tokens ps'
  end.

Fixpoint path_of (ws : list bytes) : bytes :=
  match ws with [] => [] | w :: ws' => slash :: w ++ path_of ws' end.

(** A pattern against the segments of a path. *)
Fixpoint seg_match (ps : list seg) (ws : list bytes) : option (list (bytes * bytes)) :=
  match ps, ws with
  | [], [] => Some []
  | SLit l :: ps', w :: ws' => if decide (l = w) then seg_match ps' ws' else None
  | SCap n :: ps', w :: ws' => cons (n, w) <$> seg_match ps' ws'
  | _, _ => None
  end.

(** A segment of a path: not empty, and within its bounds. *)
Definition seg_ok (w : bytes) : bool :=
  bool_decide (w ≠ []) && forallb (λ a, negb (bool_decide (a = slash) || bool_decide (a = chr 0))) w.

Definition lit_ok (s : seg) : bool := match s with SLit w => seg_ok w | SCap _ => true end.

Fixpoint capture (l : list (bytes * bytes)) (p : gmap string (list string)) :
    option (gmap string (list string)) :=
  match l with
  | [] => Some p
  | (n, w) :: l' => v ← QueryUnescape w; capture l' (add_value p (":" +:+ of_bytes n, v))
  end.

Lemma seg_ok_spec w : (seg_ok w = true) ↔ (w ≠ [] ∧ (slash ∉ w) ∧ (chr 0 ∉ w)).
Proof.
  unfold seg_ok. rewrite andb_true_iff, bool_decide_eq_true, forallb_forall. split.
  - intros [Hne Hf]. split_and!; [done|..]; intros Hin%list_elem_of_In%Hf;
      apply negb_true_iff, orb_false_elim in Hin as [H1 H2]; apply bool_decide_eq_false in H1, H2; done.
  - intros (Hne & Hs & Hz). split; [done|]. intros a Ha%list_elem_of_In. apply negb_true_iff, orb_false_iff.
    split; apply bool_decide_eq_false; by intros ->.
Qed.

Lemma span_part_all c w rest :
  seg_ok w = true → (c = slash ∨ c = chr 0) → (rest = [] ∨ ∃ r, rest = slash :: r) →
  span_part c (w ++ rest) = (w, rest).
Proof.
  intros (_ & Hs & Hz)%seg_ok_spec Hc Hr. induction w as [|a w IH].
  - destruct Hr as [->|[r ->]]; [done|]. cbn. by rewrite (bool_decide_true (slash = slash)), orb_true_r.
  - apply not_elem_of_cons in Hs as [Hsa Hs], Hz as [Hza Hz]. cbn.
    rewrite !bool_decide_false; [|done|by destruct Hc as [->| ->]]. cbn. by rewrite IH.
Qed.

Lemma try_lits es l ts path p :
  try_tokens es ((Lit <$> l) ++ ts) (l ++ path) p = try_tokens es ts path p.
Proof. induction l as [|a l IH]; [done|]. cbn. by rewrite bool_decide_true. Qed.

Lemma try_lits_ne l w ts path p :
  l ≠ w → slash ∉ l → slash ∉ w →
  (ts = [] ∨ ∃ ts', ts = Lit slash :: ts') → (path = [] ∨ ∃ r, path = slash :: r) →
  try_tokens false ((Lit <$> l) ++ ts) (w ++ path) p = None.
Proof.
  intros Hne Hl Hw Ht Hp. revert w Hne Hw. induction l as [|a l IH]; intros [|b w] Hne Hw; [done|..].
  - apply not_elem_of_cons in Hw as [Hb _]. destruct Ht as [->|[ts' ->]]; [done|]. cbn.
    by rewrite bool_decide_false.
  - apply not_elem_of_cons in Hl as [Ha _]. destruct Hp as [->|[r ->]]; [done|]. cbn.
    by rewrite bool_decide_false.
  - apply not_elem_of_cons in Hl as [Ha Hl], Hw as [Hb Hw]. cbn.
    case_bool_decide as Hab; [|done]. subst b. apply IH; [done| |done]. congruence.
Qed.

Lemma seg_tokens_head ps : seg_tokens ps = [] ∨ ∃ ts, seg_tokens ps = Lit slash :: ts.
Proof. destruct ps as [|[] ps]; [by left|right; by eexists..]. Qed.

Lemma path_of_head ws : path_of ws = [] ∨ ∃ r, path_of ws = slash :: r.
Proof. destruct ws; [by left|right; by eexists]. Qed.

(** Matching a path is matching its segments. *)
Lemma try_segs ps ws p :
  forallb lit_ok ps = true → forallb seg_ok ws = true →
  try_tokens false (seg_tokens ps) (path_of ws) p = seg_match ps ws ≫= λ l, capture l p.
Proof.
  revert ws p. induction ps as [|s ps IH]; intros [|w ws] p; [done..| |].
  { by destruct s. }
  cbn [forallb]. intros [Hs Hps]%andb_true_iff [Hw Hws]%andb_true_iff.
  pose proof (proj1 (seg_ok_spec _) Hw) as (Hwne & Hwsl & _).
  destruct s as [l|n]; cbn [seg_tokens path_of].
  - cbn [try_tokens seg_match]. rewrite bool_decide_true by done.
    destruct (decide (l = w)) as [->|Hne]; [rewrite try_lits; by apply IH|].
    apply seg_ok_spec in Hs as (_ & Hsl & _).
    apply try_lits_ne; [done..|apply seg_tokens_head|apply path_of_head].
  - set (c := match ps with [] => chr 0 | _ => slash end).
    assert (c = slash ∨ c = chr 0) as Hc by (destruct ps; [by right|by left]).
    change (try_tokens false (Lit slash :: Cap n c :: seg_tokens ps) (slash :: w ++ path_of ws) p)
      with (if bool_decide (slash = slash) then try_tokens false (Cap n c :: seg_tokens ps) (w ++ path_of ws) p else None).
    rewrite bool_decide_true by done.
    destruct (w ++ path_of ws) as [|a r] eqn:Ha; [by apply app_nil in Ha as [-> _]|].
    cbn [try_tokens]. rewrite <-Ha, (span_part_all c w _ Hw Hc (path_of_head ws)).
    cbn [seg_match]. destruct (seg_match ps ws) as [l|] eqn:Hm; cbn [fmap option_fmap option_map mbind option_bind capture].
    + destruct (QueryUnescape w) as [v|]; cbn; [|done]. by rewrite IH, Hm.
    + destruct (QueryUnescape w) as [v|]; cbn; [|done]. by rewrite IH, Hm.
Qed.

(** ** Routes that cannot be confused *)
Definition differ (s s' : seg) : bool :=
  match s, s' with SLit w, SLit w' => negb (bool_decide (w = w')) | _, _ => false end.

Fixpoint apart (ps ps' : list seg) : bool :=
  match ps, ps' with
  | [], [] => false
  | s :: ps, s' :: ps' => differ s s' || apart ps ps'
  | _, _ => true
  end.

(** The segments of a path made from a pattern: its captures replaced. *)
Fixpoint instance (f : bytes → bytes) (ps : list seg) : list bytes :=
  match ps with
  | [] => []
  | SLit w :: ps' => w :: instance f ps'
  | SCap n :: ps' => f n :: instance f ps'
  end.

Lemma apart_no_match ps ps' f : apart ps ps' = true → seg_match ps (instance f ps') = None.
Proof.
  revert ps'. induction ps as [|s ps IH]; intros [|s' ps']; cbn; try done.
  - by destruct s'.
  - by destruct s.
  - intros [Hd|Ha]%orb_true_iff.
    + destruct s as [w|n], s' as [w'|n']; try done. cbn in *.
      apply negb_true_iff, bool_decide_eq_false in Hd. by rewrite decide_False.
    + apply IH in Ha. destruct s, s'; cbn; rewrite Ha; try done; by destruct (decide _).
Qed.

Definition captures (ps : list seg) : list bytes :=
  omap (λ s, match s with SCap n => Some n | SLit _ => None end) ps.

Lemma instance_match f ps : seg_match ps (instance f ps) = Some ((λ n, (n, f n)) <$> captures ps).
Proof.
  induction ps as [|[w|n] ps IH]; [done|..]; cbn.
  - by rewrite decide_True.
  - by rewrite IH.
Qed.

Lemma tokens_segs : Forall (λ r,
  tokens (to_bytes (RoutePath r)) None = seg_tokens (segs r) ∧
  ends_in_slash (to_bytes (RoutePath r)) = false ∧ forallb lit_ok (segs r) = true) Routes.
Proof. by repeat constructor. Qed.

(** ** Paths of plain values *)

(** A byte that a path segment carries through: not a control character, and
    none of [/], [?], [#], [%] and [+]. *)
Definition plain_char (a : Ascii.ascii) : bool :=
  negb (is_ctl a) && negb (one_of [47; 63; 35; 37; 43]%N a).

Definition plain (v : string) : bool :=
  bool_decide (v ≠ "") && forallb plain_char (to_bytes v).

(** As [plain_char], and slashes. *)
Definition path_char (a : Ascii.ascii) : bool :=
  negb (is_ctl a) && negb (one_of [63; 35; 37]%N a).

Lemma path_char_spec s a :
  forallb path_char s = true → a ∈ s → is_ctl a = false ∧ one_of [63; 35; 37]%N a = false.
Proof.
  rewrite forallb_forall. intros H Ha%list_elem_of_In%H. unfold path_char in Ha.
  apply andb_true_iff in Ha as [H1%negb_true_iff H2%negb_true_iff]. done.
Qed.

Lemma path_char_not s x : forallb path_char s = true → one_of [63; 35; 37]%N x = true → x ∉ s.
Proof. intros H Hx Hin. destruct (path_char_spec _ _ H Hin). congruence. Qed.

Lemma no_ctl s : (∀ a, a ∈ s → is_ctl a = false) → existsb is_ctl s = false.
Proof.
  intros H. apply not_true_iff_false. rewrite existsb_exists. intros (a & Ha%list_elem_of_In & Hc).
  apply H in Ha. congruence.
Qed.

Lemma unescape_path_id s : percent ∉ s → unescape encodePath s = Some s.
Proof.
  induction s as [|a s IH]; [done|]. rewrite not_elem_of_cons. intros [Ha Hs]. cbn.
  rewrite bool_decide_false by done. rewrite IH by done. cbn. by rewrite andb_false_r.
Qed.

(** How a path is written in a request. *)
Definition written (s : bytes) : bytes :=
  if decide (escape encodePath s = s) then s else if validEncoded s then s else escape encodePath s.

Lemma Parse_text s q p raw :
  existsb is_ctl (s ++ match q with [] => [] | x :: q' => chr 63 :: x :: q' end) = false →
  chr 35 ∉ s → chr 35 ∉ q → chr 63 ∉ s → set_path s = Some (p, raw) →
  Parse (s ++ match q with [] => [] | x :: q' => chr 63 :: x :: q' end) = Some (mk_URL p raw q).
Proof.
  intros Hc H35 Hq H63 Hp. unfold Parse. rewrite Hc.
  rewrite cut_none; [|rewrite not_elem_of_app; split; [done|]; destruct q; [apply not_elem_of_nil|];
    rewrite not_elem_of_cons; by split].
  cbn [default mbind option_bind unescape]. destruct q as [|x q].
  - rewrite app_nil_r, cut_none by done. change (id ?x) with x. by rewrite Hp.
  - rewrite cut_app by done. change (id ?x) with x. by rewrite Hp.
Qed.

Lemma escape_path_char a x :
  path_char a = true → x ∈ escape_char encodePath a → is_ctl x = false ∧ one_of [63; 35]%N x = false.
Proof.
  destruct a as [[] [] [] [] [] [] [] []]; cbn; intros Ha Hx; try done;
    repeat (apply elem_of_cons in Hx as [->|Hx]); try done; by apply elem_of_nil in Hx.
Qed.

Lemma written_chars s x :
  forallb path_char s = true → x ∈ written s → is_ctl x = false ∧ one_of [63; 35]%N x = false.
Proof.
  intros Hs. unfold written.
  assert (x ∈ s → is_ctl x = false ∧ one_of [63; 35]%N x = false) as Hin.
  { intros Hx. destruct (path_char_spec _ _ Hs Hx) as [H1 H2]. split; [done|].
    unfold one_of in *. cbn in *. apply orb_false_iff in H2 as [-> H2]. apply orb_false_iff in H2 as [-> _]. done. }
  destruct (decide _); [done|]. destruct (validEncoded s); [done|].
  unfold escape. rewrite list_elem_of_bind. intros (a & Hx & Ha).
  eapply escape_path_char; [|done]. apply list_elem_of_In in Ha. by apply (proj1 (forallb_forall _ _) Hs).
Qed.

(** However often it is parsed and printed, the path of a URL made from [s] is
    written the same way. *)
Lemma set_path_plain s :
  forallb path_char s = true → s ≠ [chr 42] →
  ∃ raw, set_path s = Some (s, raw) ∧ ∀ q, EscapedPath (mk_URL s raw q) = written s.
Proof.
  intros Hs Hstar. assert (unescape encodePath s = Some s) as Hu.
  { apply unescape_path_id. by eapply path_char_not. }
  unfold set_path. rewrite Hu. cbn. eexists. split; [done|]. intros q.
  unfold EscapedPath, written. cbn [RawPath Path].
  destruct (decide (escape encodePath s = s)) as [He|Hne].
  - rewrite bool_decide_false by (intros Hn; by apply Hn). cbn. by rewrite decide_False, He.
  - assert (s ≠ []) by (by intros ->). rewrite (bool_decide_true (s ≠ [])) by done. rewrite Hu.
    rewrite (bool_decide_true (Some s = Some s)) by done. cbn. rewrite andb_true_r.
    destruct (validEncoded s); [done|]. by rewrite decide_False.
Qed.

Lemma set_path_written s :
  forallb path_char s = true → s ≠ [chr 42] →
  ∃ raw, set_path (written s) = Some (s, raw) ∧ ∀ q, EscapedPath (mk_URL s raw q) = written s.
Proof.
  intros Hs Hstar. destruct (set_path_plain s Hs Hstar) as (raw & Hp & He).
  unfold written. destruct (decide (escape encodePath s = s)) as [Heq|Hne].
  { exists raw. split; [done|]. intros q. rewrite He. unfold written. by rewrite decide_True. }
  destruct (validEncoded s) eqn:Hv.
  { exists raw. split; [done|]. intros q. rewrite He. unfold written. by rewrite decide_False, Hv. }
  unfold set_path. rewrite unescape_escape. cbn. rewrite decide_True by done. exists []. split; [done|].
  intros q. unfold EscapedPath. cbn. by rewrite decide_False.
Qed.

(** ** From a route and its parameters to the path *)
Lemma join_slash_path ws : ws ≠ [] → join_slash ([] :: ws) = path_of ws.
Proof.
  assert (∀ w ws, join_slash (w :: ws) = w ++ path_of ws) as H.
  { intros w l. revert w. induction l as [|x l IH]; intros w; [cbn; by rewrite app_nil_r|].
    change (join_slash (w :: x :: l)) with (w ++ slash :: join_slash (x :: l)). by rewrite IH. }
  intros _. apply H.
Qed.

Definition value (params : gmap string string) (n : bytes) : bytes :=
  to_bytes (default "" (params !! of_bytes n)).

Lemma fill_instance params cs :
  Forall (λ n, is_Some (params !! of_bytes n)) (captures (seg_of <$> cs)) →
  fill params cs = Ok (instance (value params) (seg_of <$> cs)).
Proof.
  unfold captures. induction cs as [|c cs IH]; [done|].
  destruct c as [|a n]; cbn [fmap list_fmap omap list_omap seg_of fill instance]; [intros Hf; by rewrite IH|].
  destruct (bool_decide (a = colon)); cbn [instance rbind].
  - intros [[v Hv] Hf]%Forall_cons. rewrite IH by done. unfold value. by rewrite Hv.
  - intros Hf. by rewrite IH.
Qed.

Lemma escape_path_of ws : escape encodePath (path_of ws) = path_of (escape encodePath <$> ws).
Proof.
  assert (∀ a b, escape encodePath (a ++ b) = escape encodePath a ++ escape encodePath b) as Happ.
  { intros. apply bind_app. }
  induction ws as [|w ws IH]; [done|]. cbn [path_of fmap list_fmap].
  change (slash :: w ++ path_of ws) with ([slash] ++ (w ++ path_of ws)). rewrite !Happ, IH. done.
Qed.

(** The literals of the table are the same escaped. *)
Definition lit_plain (s : seg) : bool :=
  match s with SLit w => forallb (λ a, negb (shouldEscape encodePath a)) w && forallb plain_char w | SCap _ => true end.

Lemma escape_id w : forallb (λ a, negb (shouldEscape encodePath a)) w = true → escape encodePath w = w.
Proof.
  induction w as [|a w IH]; [done|]. cbn. intros [Ha%negb_true_iff Hw]%andb_true_iff.
  unfold escape in *. cbn [mbind list_bind]. rewrite IH by done. unfold escape_char. by rewrite Ha.
Qed.

Lemma escape_instance f ps :
  forallb lit_plain ps = true →
  escape encodePath <$> instance f ps = instance (λ n, escape encodePath (f n)) ps.
Proof.
  induction ps as [|[w|n] ps IH]; [done|..]; cbn [forallb instance fmap list_fmap].
  - intros [[Hw _]%andb_true_iff Hps]%andb_true_iff. by rewrite IH, escape_id.
  - intros [_ Hps]%andb_true_iff. by rewrite IH.
Qed.

Lemma written_instance f ps :
  forallb lit_plain ps = true →
  ∃ b : bool, written (path_of (instance f ps)) =
    path_of (instance (λ n, if b then f n else escape encodePath (f n)) ps).
Proof.
  intros Hps. unfold written. destruct (decide _); [by exists true|].
  destruct (validEncoded _); [by exists true|]. exists false. by rewrite escape_path_of, escape_instance.
Qed.

Lemma plain_char_path a : plain_char a = true → path_char a = true.
Proof. destruct a as [[] [] [] [] [] [] [] []]; done. Qed.

Lemma path_of_chars f ps :
  forallb lit_plain ps = true → Forall (λ n, forallb plain_char (f n) = true) (captures ps) →
  forallb path_char (path_of (instance f ps)) = true.
Proof.
  assert (∀ w, forallb plain_char w = true → forallb path_char w = true) as Hpp.
  { intros w. rewrite !forallb_forall. intros H a Ha. by apply plain_char_path, H. }
  induction ps as [|[w|n] ps IH]; [done|..]; cbn [forallb instance path_of captures omap list_omap].
  - intros [[_ Hw]%andb_true_iff Hps]%andb_true_iff Hf. rewrite forallb_app, IH, Hpp by done. done.
  - intros [_ Hps]%andb_true_iff [Hn Hf]%Forall_cons. rewrite forallb_app, IH, Hpp by done. done.
Qed.

(** A plain value reads back from its segment, escaped or not. *)
Lemma plain_unescape (b : bool) v :
  plain v = true →
  QueryUnescape (if b then to_bytes v else escape encodePath (to_bytes v)) = Some v.
Proof.
  unfold plain. intros [_ Hv]%andb_true_iff. unfold QueryUnescape.
  assert (unescape encodeQueryComponent (if b then to_bytes v else escape encodePath (to_bytes v)) = Some (to_bytes v)) as ->;
    [|cbn; by rewrite of_to_bytes].
  induction (to_bytes v) as [|a l IH]; [by destruct b|]. cbn [forallb] in Hv. apply andb_true_iff in Hv as [Ha Hl].
  specialize (IH Hl). destruct b.
  - cbn. unfold plain_char in Ha. apply andb_true_iff in Ha as [_ Ha%negb_true_iff].
    rewrite !bool_decide_false; [by cbn; rewrite IH|by intros ->..].
  - unfold escape in *. cbn [mbind list_bind].
    assert (∀ s, unescape encodeQueryComponent (escape_char encodePath a ++ s) = cons a <$> unescape encodeQueryComponent s) as ->.
    { intros s. destruct a as [[] [] [] [] [] [] [] []]; (reflexivity || done). }
    by rewrite IH.
Qed.

Lemma plain_seg_ok (b : bool) v :
  plain v = true → seg_ok (if b then to_bytes v else escape encodePath (to_bytes v)) = true.
Proof.
  unfold plain. intros [Hne%bool_decide_eq_true Hv]%andb_true_iff.
  assert (to_bytes v ≠ []) as Hnil by (by rewrite to_bytes_nil).
  assert (∀ a, a ∈ to_bytes v → plain_char a = true) as Hc.
  { intros a Ha%list_elem_of_In. by apply (proj1 (forallb_forall _ _) Hv). }
  apply seg_ok_spec. destruct b; [split_and!; [done|by intros ?%Hc..]|].
  assert (∀ x, x ∈ escape encodePath (to_bytes v) → x ≠ slash ∧ x ≠ chr 0) as Hx.
  { intros x. unfold escape. rewrite list_elem_of_bind. intros (a & Hx & Ha%Hc). clear -Hx Ha.
    destruct a as [[] [] [] [] [] [] [] []]; cbn in Hx; try done;
      repeat (apply elem_of_cons in Hx as [->|Hx]); try done; by apply elem_of_nil in Hx. }
  split_and!; [|by intros [? ?]%Hx..].
  destruct (to_bytes v) as [|a l]; [done|]. unfold escape. cbn [mbind list_bind].
  intros [He _]%app_nil. clear -He. destruct a as [[] [] [] [] [] [] [] []]; done.
Qed.

(** ** The multiplexer of the table *)
Section dispatch.
Context {H : Type} (h : string → H) (handlers : string → option H).

Definition handler_of (r : Route) : patHandler := mk_patHandler (RoutePath r) (Some (h (Name r))).

Lemma Add_fresh meth pat (x : H) p :
  last (to_bytes pat) ≠ Some slash →
  Forall (λ p1 : patHandler, ph_pat p1 ≠ pat) (default [] (p !! meth)) →
  Add meth pat x p = <[meth := default [] (p !! meth) ++ [mk_patHandler pat (Some x)]]> p.
Proof.
  intros Hl Hf.
  assert (existsb (λ p1 : patHandler, bool_decide (ph_pat p1 = pat)) (default [] (p !! meth)) = false) as Hex.
  { apply not_true_iff_false. rewrite existsb_exists. intros (p1 & Hp1%list_elem_of_In & Heq%bool_decide_eq_true).
    by eapply (proj1 (Forall_forall _ _) Hf). }
  unfold Add. destruct (reverse (to_bytes pat)) as [|a r] eqn:Hr;
    cbn [add_rev]; rewrite <-Hr, reverse_involutive, of_to_bytes, Hex; [done|].
  rewrite bool_decide_false; [done|]. intros ->. apply Hl.
  rewrite <-(reverse_involutive (to_bytes pat)), Hr, reverse_cons. apply last_snoc.
Qed.

(** The patterns of each method, in the order of the table. *)
Lemma NewRouter_loop_ok rs p :
  Forall (λ r, handlers (Name r) = Some (h (Name r)) ∧ Method r ∈ methods ∧
    last (to_bytes (RoutePath r)) ≠ Some slash) rs →
  NoDup ((λ r, (Method r, RoutePath r)) <$> rs) →
  Forall (λ r, Forall (λ p1 : patHandler, ph_pat p1 ≠ RoutePath r) (default [] (p !! Method r))) rs →
  ∃ p', NewRouter_loop rs handlers p = Ok p' ∧
    ∀ m, default [] (p' !! m) = default [] (p !! m) ++ (handler_of <$> filter (λ r, Method r = m) rs).
Proof.
  intros Hrs. revert p. induction Hrs as [|r rs (Hh & Hm & Hl) Hrs IH]; intros p Hnd Hf.
  { exists p. split; [done|]. intros m. by rewrite app_nil_r. }
  apply NoDup_cons in Hnd as [Hr Hnd]. apply Forall_cons in Hf as [Hf Hfs].
  cbn [NewRouter_loop]. rewrite Hh, bool_decide_true by done. rewrite Add_fresh by done.
  destruct (IH (<[Method r := default [] (p !! Method r) ++ [handler_of r]]> p) Hnd) as (p' & Hp' & Hall).
  - apply Forall_forall. intros r' Hr'. destruct (decide (Method r' = Method r)) as [Heq|Hne].
    + rewrite Heq, lookup_insert_eq. cbn. apply Forall_app. split.
      * rewrite <-Heq. by apply (proj1 (Forall_forall _ _) Hfs).
      * constructor; [|done]. cbn. intros Hp. apply Hr.
        apply list_elem_of_fmap. exists r'. by rewrite Heq, Hp.
    + rewrite lookup_insert_ne by done. by apply (proj1 (Forall_forall _ _) Hfs).
  - exists p'. split; [done|]. intros m. rewrite Hall, filter_cons.
    destruct (decide (Method r = m)) as [<-|Hne].
    + rewrite lookup_insert_eq. cbn. by rewrite <-app_assoc.
    + by rewrite lookup_insert_ne.
Qed.

Lemma first_match_unique (rs : list Route) r path params :
  r ∈ rs → try_pat (RoutePath r) path = Some params →
  Forall (λ r', r' = r ∨ try_pat (RoutePath r') path = None) rs →
  first_match (handler_of <$> rs) path = Some (handler_of r, params).
Proof.
  intros Hin Hr Hall. induction Hall as [|r' rs Hr' Hall IH]; [by apply elem_of_nil in Hin|].
  cbn [fmap list_fmap first_match]. change (ph_pat (handler_of ?x)) with (RoutePath x).
  destruct Hr' as [->|Hr']; [by rewrite Hr|]. rewrite Hr'.
  apply elem_of_cons in Hin as [<-|Hin]; [congruence|]. by apply IH.
Qed.
End dispatch.

#[export] Instance Route_eq_dec : EqDecision Route.
Proof. solve_decision. Defined.

(** No two routes of a method can match the same path. *)
Lemma Routes_apart r r' :
  r ∈ Routes → r' ∈ Routes → Method r' = Method r → r' = r ∨ apart (segs r') (segs r) = true.
Proof.
  assert (forallb (λ r, forallb (λ r', bool_decide (r' = r) || negb (bool_decide (Method r' = Method r))
    || apart (segs r') (segs r)) Routes) Routes = true) as Hall by (by vm_compute).
  intros Hr%list_elem_of_In Hr'%list_elem_of_In Hm.
  apply (proj1 (forallb_forall _ _) Hall) in Hr. apply (proj1 (forallb_forall _ _) Hr) in Hr'.
  rewrite Hm, (bool_decide_true (Method r = Method r)) in Hr' by done. cbn in Hr'.
  rewrite orb_false_r in Hr'. apply orb_true_iff in Hr' as [?%bool_decide_eq_true|]; [by left|by right].
Qed.

#[export] Instance token_eq_dec : EqDecision token.
Proof. solve_decision. Defined.

(** What holds of every route of the table. *)
Record route_facts (r : Route) : Prop := {
  rf_method : Method r ∈ methods;
  rf_last : last (to_bytes (RoutePath r)) ≠ Some slash;
  rf_lit_plain : forallb lit_plain (segs r) = true;
  rf_lit_ok : forallb lit_ok (segs r) = true;
  rf_tokens : tokens (to_bytes (RoutePath r)) None = seg_tokens (segs r);
  rf_ends : ends_in_slash (to_bytes (RoutePath r)) = false;
  rf_split : split_bytes slash (to_bytes (RoutePath r)) = [] :: tail (split_bytes slash (to_bytes (RoutePath r)));
  rf_head : ∃ w ps, segs r = SLit w :: ps ∧ seg_ok w = true;
  rf_captures : NoDup (captures (segs r));
  rf_find : FindRouteByName Routes (Name r) = Some r;
}.

Definition check_route (r : Route) : bool :=
  bool_decide (Method r ∈ methods) && bool_decide (last (to_bytes (RoutePath r)) ≠ Some slash) &&
  forallb lit_plain (segs r) && forallb lit_ok (segs r) &&
  bool_decide (tokens (to_bytes (RoutePath r)) None = seg_tokens (segs r)) &&
  negb (ends_in_slash (to_bytes (RoutePath r))) &&
  bool_decide (split_bytes slash (to_bytes (RoutePath r)) = [] :: tail (split_bytes slash (to_bytes (RoutePath r)))) &&
  match segs r with SLit w :: _ => seg_ok w | _ => false end &&
  bool_decide (NoDup (captures (segs r))) && bool_decide (FindRouteByName Routes (Name r) = Some r).

Lemma Routes_facts r : r ∈ Routes → route_facts r.
Proof.
  assert (forallb check_route Routes = true) as Hall by (by vm_compute).
  intros Hr%list_elem_of_In. apply (proj1 (forallb_forall _ _) Hall) in Hr.
  unfold check_route in Hr. repeat (apply andb_true_iff in Hr as [Hr ?]).
  repeat match goal with H : bool_decide _ = true |- _ => apply bool_decide_eq_true in H end.
  split; try done; [by apply negb_true_iff|].
  destruct (segs r) as [|[w|n] ps]; try done. by exists w, ps.
Qed.

(** The parameters of a path, as the handler finds them in the query. *)
Definition path_values (params : gmap string string) (r : Route) : gmap string (list string) :=
  foldl add_value ∅ ((λ n, (":" +:+ of_bytes n, default "" (params !! of_bytes n))) <$> captures (segs r)).

Definition params_ok (params : gmap string string) (r : Route) : bool :=
  forallb (λ n, match params !! of_bytes n with Some v => plain v | None => false end) (captures (segs r)).

Lemma capture_values params (b : bool) l p :
  Forall (λ n, ∃ v, params !! of_bytes n = Some v ∧ plain v = true) l →
  capture ((λ n, (n, if b then value params n else escape encodePath (value params n))) <$> l) p =
  Some (foldl add_value p ((λ n, (":" +:+ of_bytes n, default "" (params !! of_bytes n))) <$> l)).
Proof.
  intros Hl. revert p. induction Hl as [|n l (v & Hv & Hp) Hl IH]; intros p; [done|].
  cbn [fmap list_fmap capture foldl]. assert (value params n = to_bytes v) as -> by (unfold value; by rewrite Hv).
  rewrite plain_unescape by done. cbn [mbind option_bind]. rewrite IH, Hv. done.
Qed.

Definition with_query (u : URL) (q : bytes) : URL := mk_URL (Path u) (RawPath u) q.

(** The request for a route, and what the server's multiplexer makes of it. *)
Lemma request_path params r :
  r ∈ Routes → params_ok params r = true →
  ∃ (b : bool) raw raw', let s := path_of (instance (value params) (segs r)) in
    let f n := if b then value params n else escape encodePath (value params n) in
    CreateRequest (Name r) params = Ok (Method r, mk_URL s raw []) ∧
    written s = path_of (instance f (segs r)) ∧ forallb path_char s = true ∧
    set_path (written s) = Some (s, raw') ∧
    (∀ q, EscapedPath (mk_URL s raw q) = written s) ∧ (∀ q, EscapedPath (mk_URL s raw' q) = written s).
Proof.
  intros Hr Hp. destruct (Routes_facts r Hr) as [_ _ Hlp _ _ _ Hsp (w & ps & Hseg & Hw) _ Hf].
  set (s := path_of (instance (value params) (segs r))).
  assert (Forall (λ n, ∃ v, params !! of_bytes n = Some v ∧ plain v = true) (captures (segs r))) as Hc.
  { apply Forall_forall. intros n Hn%list_elem_of_In. apply (proj1 (forallb_forall _ _) Hp) in Hn.
    destruct (params !! of_bytes n) as [v|]; [by exists v|done]. }
  assert (forallb path_char s = true) as Hs.
  { apply path_of_chars; [done|]. eapply Forall_impl; [done|]. intros n (v & Hv & Hpl). cbn.
    unfold value. rewrite Hv. cbn. by apply andb_true_iff in Hpl as [_ ?]. }
  assert (s ≠ [chr 42]) as Hstar by (unfold s; rewrite Hseg; done).
  destruct (written_instance (value params) (segs r) Hlp) as [b Hb]. fold s in Hb.
  destruct (set_path_plain s Hs Hstar) as (raw0 & Hp0 & He0).
  destruct (set_path_written s Hs Hstar) as (raw & Hp1 & He1).
  exists b, raw, raw. split_and!; [|done..]. unfold CreateRequest. rewrite Hf. unfold CreatePath.
  rewrite Hsp, fill_instance.
  2: { cbn. eapply Forall_impl; [exact Hc|]. intros n (v & Hv & _). by exists v. }
  cbn [rbind fmap list_fmap seg_of instance]. fold (segs r). rewrite join_slash_path by (by rewrite Hseg).
  fold s. assert (Parse s = Some (mk_URL s raw0 [])) as ->.
  { rewrite <-(app_nil_r s) at 1. apply (Parse_text s []); [|..|done]; [rewrite app_nil_r; apply no_ctl; intros; by eapply path_char_spec|by eapply path_char_not|apply not_elem_of_nil|by eapply path_char_not]. }
  unfold URL_String. cbn [RawQuery]. rewrite He0, app_nil_r. cbn [rbind].
  assert (slash :: trim_slashes (written s) = written s) as ->.
  { rewrite Hb, Hseg. cbn [instance path_of]. apply seg_ok_spec in Hw as (Hne & Hsl & _).
    destruct w as [|a w]; [done|]. apply not_elem_of_cons in Hsl as [Hsl _]. cbn [app trim_slashes].
    by rewrite (bool_decide_true (slash = slash)), bool_decide_false. }
  assert (Parse (written s) = Some (mk_URL s raw [])) as ->; [|done].
  rewrite <-(app_nil_r (written s)). apply (Parse_text (written s) []); [rewrite app_nil_r; apply no_ctl|..|done].
  - intros a Ha. by eapply written_chars.
  - intros Ha. by apply written_chars in Ha as [_ ?].
  - apply not_elem_of_nil.
  - intros Ha. by apply written_chars in Ha as [_ ?].
Qed.

Lemma instance_seg_ok f ps :
  forallb lit_ok ps = true → Forall (λ n, seg_ok (f n) = true) (captures ps) →
  forallb seg_ok (instance f ps) = true.
Proof.
  induction ps as [|[w|n] ps IH]; [done|..]; cbn [forallb instance captures omap list_omap lit_ok].
  - intros [-> Hps]%andb_true_iff Hf. by apply IH.
  - intros [_ Hps]%andb_true_iff [-> Hf]%Forall_cons. by apply IH.
Qed.

Lemma captures_plain params r :
  params_ok params r = true →
  Forall (λ n, ∃ v, params !! of_bytes n = Some v ∧ plain v = true) (captures (segs r)).
Proof.
  intros Hp. apply Forall_forall. intros n Hn%list_elem_of_In. apply (proj1 (forallb_forall _ _) Hp) in Hn.
  destruct (params !! of_bytes n) as [v|]; [by exists v|done].
Qed.

(** Of the patterns of the table, the path made from a route matches its own
    only, and gives its parameters back. *)
Lemma try_own params r (b : bool) :
  let f n := if b then value params n else escape encodePath (value params n) in
  r ∈ Routes → params_ok params r = true →
  try_pat (RoutePath r) (path_of (instance f (segs r))) = Some (path_values params r).
Proof.
  intros f Hr Hp. destruct (Routes_facts r Hr) as [_ _ _ Hlo Ht He _ _ _ _].
  unfold try_pat. rewrite He, Ht, try_segs; [|done|].
  - rewrite instance_match. cbn [mbind option_bind]. by apply capture_values, captures_plain.
  - apply instance_seg_ok; [done|]. eapply Forall_impl; [by apply captures_plain|].
    intros n (v & Hv & Hpl). unfold f, value. rewrite Hv. by apply (plain_seg_ok b).
Qed.

Lemma try_other params r r' (b : bool) :
  let f n := if b then value params n else escape encodePath (value params n) in
  r ∈ Routes → params_ok params r = true → r' ∈ Routes → Method r' = Method r → r' ≠ r →
  try_pat (RoutePath r') (path_of (instance f (segs r))) = None.
Proof.
  intros f Hr Hp Hr' Hm Hne. destruct (Routes_facts r Hr) as [_ _ _ Hlo _ _ _ _ _ _].
  destruct (Routes_facts r' Hr') as [_ _ _ Hlo' Ht He _ _ _ _].
  unfold try_pat. rewrite He, Ht, try_segs; [|done|].
  - destruct (Routes_apart r r' Hr Hr' Hm) as [?|Ha]; [done|]. by rewrite apart_no_match.
  - apply instance_seg_ok; [done|]. eapply Forall_impl; [by apply captures_plain|].
    intros n (v & Hv & Hpl). unfold f, value. rewrite Hv. by apply (plain_seg_ok b).
Qed.

Lemma Routes_mux {H} (h : string → H) handlers :
  (∀ r, r ∈ Routes → handlers (Name r) = Some (h (Name r))) →
  ∃ p, NewRouter Routes handlers = Ok p ∧
    ∀ m, default [] (p !! m) = handler_of h <$> filter (λ r, Method r = m) Routes.
Proof.
  intros Hh. destruct (NewRouter_loop_ok h handlers Routes ∅) as (p & Hp & Hm).
  - apply Forall_forall. intros r Hr. destruct (Routes_facts r Hr). by split_and!; [apply Hh|..].
  - apply (bool_decide_unpack _). by vm_compute.
  - apply Forall_true. intros r. rewrite lookup_empty. constructor.
  - exists p. split; [done|]. intros m. by rewrite Hm, lookup_empty.
Qed.

Lemma route_delivers {H} (h : string → H) handlers r params query p :
  (∀ m, default [] (p !! m) = handler_of h <$> filter (λ r, Method r = m) Routes) →
  r ∈ Routes → params_ok params r = true → map_Forall (λ _ vs, vs ≠ []) query →
  NewRouter Routes handlers = Ok p →
  ∃ u u' q, CreateRequest (Name r) params = Ok (Method r, u) ∧ RawQuery u = [] ∧
    Parse (URL_String (with_query u (Values_Encode query))) = Some u' ∧
    ServeHTTP p (Method r) u' = Calls (h (Name r)) q ∧
    ParseQuery q = foldl add_value (path_values params r) (pairs query).
Proof.
  intros Hmux Hr Hp Hq _. destruct (request_path params r Hr Hp) as (b & raw & raw' & Hc & Hw & Hpc & Hsp & He & He').
  set (s := path_of (instance (value params) (segs r))) in *. set (q := Values_Encode query).
  exists (mk_URL s raw []), (mk_URL s raw' q).
  eexists. split_and!; [exact Hc|done|..].
  - unfold URL_String, with_query. cbn [Path RawPath RawQuery]. rewrite He.
    apply Parse_text; [|..|done].
    + apply no_ctl. intros a [Ha|Ha]%elem_of_app; [by eapply written_chars|].
      destruct q as [|x q'] eqn:Heq; [by apply elem_of_nil in Ha|].
      apply elem_of_cons in Ha as [->|Ha]; [done|]. rewrite <-Heq in Ha. by apply Values_Encode_chars in Ha as [? _].
    + intros Ha. by apply written_chars in Ha as [_ ?].
    + intros Ha. by apply Values_Encode_chars in Ha as [_ ?].
    + intros Ha. by apply written_chars in Ha as [_ ?].
  - unfold ServeHTTP. rewrite He', Hw, Hmux.
    rewrite (first_match_unique h _ r _ (path_values params r)); [done|by apply list_elem_of_filter|by apply try_own|].
    apply Forall_forall. intros r' [Hm Hr']%list_elem_of_filter.
    destruct (decide (r' = r)); [by left|right]. by apply try_other.
  - cbn [RawQuery]. destruct (decide (path_values params r = ∅)) as [->|Hne].
    + unfold q. by rewrite <-add_pairs_Encode.
    + rewrite ParseQuery_Encode; [apply add_pairs_Encode|]. by apply add_values_ne.
Qed.



(** What a path does with the handle a client was asked to destroy. *)
Definition destroyed_handle (handle : string) : option string :=
  match NewRouter Routes (λ n, Some n), CreateRequest Destroy {["handle" := handle]} with
  | Ok p, Ok (method, u) =>
      u' ← Parse (URL_String u);
      match ServeHTTP p method u' with
      | Calls name q =>
          if decide (name = Destroy)
          then Some (match ParseQuery q !! ":handle" with Some (v :: _) => v | _ => "" end) else None
      | _ => None
      end
  | _, _ => None
  end.

(** A handle is put into the path as it is: destroying the container [a?b],
    or the container [a#b], sends a request that destroys the container [a], and
    a plus sign in a handle arrives as a space. *)
Lemma unescaped_handles_name_others :
  destroyed_handle "a?b" = Some "a" ∧ destroyed_handle "a#b" = Some "a" ∧
  destroyed_handle "a+b" = Some "a b" ∧ destroyed_handle "a%41" = Some "aA".
Proof. by vm_compute. Qed.
End Routes.
