(* ===== verification/Backend.v ===== *)
(** * The backend (interfaces Backend, Client, Container and Process)

    What the server calls: the methods of [garden.Backend] (backend.go,
    client.go) and of the containers and processes it hands out (container.go),
    as the operations of an abstract state machine.  The server is verified
    against this interface; a backend is an instance. *)
From S2P Require Import Prelude Types GoJson Errors Codec.

Module Backend.
Import Errors Codec.

(** [garden.ProcessIO]: references to the reader and the writers; nil is
    [None]. *)
Record ProcessIO := mk_ProcessIO {
  io_Stdin : option nat;
  io_Stdout : option nat;
  io_Stderr : option nat;
}.

(** An [io.ReadCloser] as what it yields until the end or an error. *)
Record reader := mk_reader {
  rd_data : bytes;
  rd_err : option error;
}.

(** A method and the type of what it returns; a result that is only an [error]
    is an option.  [C] and [P] are the backend's containers and processes. *)
Inductive backend_op (C P : Type) : Type → Type :=
| Ping : backend_op C P (option error)
| GetCapacity : backend_op C P (result error Capacity)
| Create (spec : ContainerSpec) : backend_op C P (result error C)
| Destroy (handle : string) : backend_op C P (option error)
| Containers (properties : Properties) : backend_op C P (result error (list C))
| BulkInfo (handles : slice string) : backend_op C P (result error (gomap ContainerInfoEntry))
| BulkMetrics (handles : slice string) : backend_op C P (result error (gomap ContainerMetricsEntry))
| Lookup (handle : string) : backend_op C P (result error C)
| Start : backend_op C P (option error)
| StopBackend : backend_op C P (option error)
| Stop (c : C) (kill : bool) : backend_op C P (option error)
| Info (c : C) : backend_op C P (result error ContainerInfo)
| StreamIn (c : C) (spec : StreamInSpec) : backend_op C P (option error)
| StreamOut (c : C) (spec : StreamOutSpec) : backend_op C P (result error reader)
| CloseReader (r : reader) : backend_op C P (option error)
| CurrentBandwidthLimits (c : C) : backend_op C P (result error BandwidthLimits)
| CurrentCPULimits (c : C) : backend_op C P (result error CPULimits)
| CurrentDiskLimits (c : C) : backend_op C P (result error DiskLimits)
| CurrentMemoryLimits (c : C) : backend_op C P (result error MemoryLimits)
| NetInOp (c : C) (hostPort containerPort : Z) : backend_op C P (result error (Z * Z))
| NetOut (c : C) (rule : NetOutRule) : backend_op C P (option error)
| BulkNetOut (c : C) (rules : slice NetOutRule) : backend_op C P (option error)
| Run (c : C) (spec : ProcessSpec) (io : ProcessIO) : backend_op C P (result error P)
| Attach (c : C) (processID : string) (io : ProcessIO) : backend_op C P (result error P)
| GetMetrics (c : C) : backend_op C P (result error Metrics)
| SetGraceTime (c : C) (graceTime : Duration) : backend_op C P (option error)
| GetProperties (c : C) : backend_op C P (result error Properties)
| Property (c : C) (name : string) : backend_op C P (result error string)
| SetProperty (c : C) (name value : string) : backend_op C P (option error)
| RemoveProperty (c : C) (name : string) : backend_op C P (option error)
| SetTTY (p : P) (tty : TTYSpec) : backend_op C P (option error)
| Signal (p : P) (signal : Z) : backend_op C P (option error).
Arguments Ping {C P}.
Arguments GetCapacity {C P}.
Arguments Create {C P} _.
Arguments Destroy {C P} _.
Arguments Containers {C P} _.
Arguments BulkInfo {C P} _.
Arguments BulkMetrics {C P} _.
Arguments Lookup {C P} _.
Arguments Start {C P}.
Arguments StopBackend {C P}.
Arguments Stop {C P} _ _.
Arguments Info {C P} _.
Arguments StreamIn {C P} _ _.
Arguments StreamOut {C P} _ _.
Arguments CloseReader {C P} _.
Arguments CurrentBandwidthLimits {C P} _.
Arguments CurrentCPULimits {C P} _.
Arguments CurrentDiskLimits {C P} _.
Arguments CurrentMemoryLimits {C P} _.
Arguments NetInOp {C P} _ _ _.
Arguments NetOut {C P} _ _.
Arguments BulkNetOut {C P} _ _.
Arguments Run {C P} _ _ _.
Arguments Attach {C P} _ _ _.
Arguments GetMetrics {C P} _.
Arguments SetGraceTime {C P} _ _.
Arguments GetProperties {C P} _.
Arguments Property {C P} _ _.
Arguments SetProperty {C P} _ _ _.
Arguments RemoveProperty {C P} _ _.
Arguments SetTTY {C P} _ _.
Arguments Signal {C P} _ _.

(** A backend: the handle of a container and the id of a process, which do not
    change, the grace time of a container, and the effect of each operation on
    the backend's state [B]. *)
Class Backend (C P B : Type) := {
  Handle : C → string;
  ProcessID : P → string;
  GraceTime : B → C → Duration;
  exec : ∀ {R}, backend_op C P R → B → R * B;
}.
End Backend.
