(* ===== verification/Sample.v ===== *)
(** * A small backend

    An in-memory backend whose containers have a grace time and properties, on
    which the statements about the server are evaluated.  It stands for no code
    of the repository. *)
From S2P Require Import Prelude Types GoJson Errors Codec Backend.

Module Sample.
Import GoJson Errors Codec Backend.

#[local] Instance sample_text : JsonText := λ _, "invalid json".

(** A container is its handle. *)
Abbreviation store := (gmap string (Duration * gmap string string)).

Definition not_found (h : string) : error := ContainerNotFoundError h.

(** An update of the properties of a container. *)
Definition on_properties (h : string) (f : gmap string string → gmap string string) (b : store)
  : option error * store :=
  match b !! h with
  | Some (g, ps) => (None, <[h := (g, f ps)]> b)
  | None => (Some (not_found h), b)
  end.

Definition entry_of (b : store) (h : string) : ContainerInfoEntry :=
  mk_ContainerInfoEntry (c_zero ContainerInfo_codec)
    (match b !! h with Some _ => None | None => Some (mk_Error (Some (not_found h))) end).

Definition sample_exec {R} (op : backend_op string string R) (b : store) : R * store :=
  match op in backend_op _ _ R return R * store with
  | Ping => (None, b)
  | GetCapacity => (Ok (mk_Capacity 1024 2048 2048 10), b)
  | Create spec =>
      let h := spec_Handle spec in
      match b !! h with
      | Some _ => (Err (OtherError "handle already exists"), b)
      | None => (Ok h, <[h := (spec_GraceTime spec, default ∅ (spec_Properties spec))]> b)
      end
  | Destroy h => match b !! h with Some _ => (None, delete h b) | None => (Some (not_found h), b) end
  | Containers _ => (Ok (map_to_list b).*1, b)
  | BulkInfo hs => (Ok (Some (list_to_map ((λ h, (h, entry_of b h)) <$> default [] hs))), b)
  | BulkMetrics _ => (Ok (Some ∅), b)
  | Lookup h => match b !! h with Some _ => (Ok h, b) | None => (Err (not_found h), b) end
  | Start | StopBackend | Stop _ _ | StreamIn _ _ | CloseReader _ | NetOut _ _ | BulkNetOut _ _ => (None, b)
  | Info _ => (Ok (c_zero ContainerInfo_codec), b)
  | StreamOut _ spec =>
      (Ok (if decide (so_Path spec = "/broken") then mk_reader (to_bytes "part") (Some (OtherError "read error"))
           else mk_reader (to_bytes "archive") None), b)
  | CurrentBandwidthLimits _ => (Ok (c_zero BandwidthLimits_codec), b)
  | CurrentCPULimits _ => (Ok (c_zero CPULimits_codec), b)
  | CurrentDiskLimits _ => (Ok (c_zero DiskLimits_codec), b)
  | CurrentMemoryLimits _ => (Ok (mk_MemoryLimits 64), b)
  | NetInOp _ hp cp => (Ok (hp, cp), b)
  | Run _ spec _ => (Ok (p_ID spec), b)
  | Attach _ id _ => if decide (id = "gone") then (Err (ProcessNotFoundError id), b) else (Ok id, b)
  | GetMetrics _ => (Ok (c_zero Metrics_codec), b)
  | SetGraceTime h g =>
      if (g <? 0)%Z then (Some (OtherError "invalid grace time"), b) else
      match b !! h with
      | Some (_, ps) => (None, <[h := (g, ps)]> b)
      | None => (Some (not_found h), b)
      end
  | GetProperties h => (Ok (snd <$> b !! h), b)
  | Property h n =>
      match b !! h ≫= λ c, c.2 !! n with
      | Some v => (Ok v, b)
      | None => (Err (OtherError ("cannot Get: property does not exist: " +:+ n)), b)
      end
  | SetProperty h n v => on_properties h (<[n := v]>) b
  | RemoveProperty h n => on_properties h (delete n) b
  | SetTTY _ _ | Signal _ _ => (None, b)
  end.

Definition sample_backend : Backend string string store := {|
  Handle := λ h, h;
  ProcessID := λ p, p;
  GraceTime := λ b h, from_option fst 0%Z (b !! h);
  exec := @sample_exec;
|}.
End Sample.
