(* ===== verification/Prog.v ===== *)
(** * Server goroutines

    A handler of the server is a program over the actions it performs on what
    it shares with the others (the backend, the bomberman, the streamer, the
    destroys map and its lock) and on its own request (response, connection).
    Each action is atomic; [run] executes a program alone, and [System.v]
    interleaves the actions of several.  [pdefer] is Go's [defer]: it runs on
    every way out, panics included. *)
From S2P Require Import Prelude Types Utf8 Json GoJson Errors Codec Backend Bomberman Streamer.

Module Prog.
Import Errors Codec Backend.

(** ** Programs over a set of actions *)
Section prog.
Context {E : Type → Type}.

Inductive prog (A : Type) : Type :=
| Ret (a : A)
| Panic
| Act {R : Type} (e : E R) (k : R → prog A).

Fixpoint pbind {A B} (f : A → prog B) (p : prog A) : prog B :=
  match p with
  | Ret _ a => f a
  | Panic _ => Panic B
  | Act _ e k => Act B e (λ r, pbind f (k r))
  end.

(** [defer d] in front of the rest [p] of a function. *)
Fixpoint pdefer {A} (d : prog unit) (p : prog A) : prog A :=
  match p with
  | Ret _ a => pbind (λ _, Ret A a) d
  | Panic _ => pbind (λ _, Panic A) d
  | Act _ e k => Act A e (λ r, pdefer d (k r))
  end.

(** ** Protocols

    A protocol is a state that a program's actions move along: what an action
    requires, where it leads, and which results it can have.  [wp t p Q]: from
    [t] the program respects the protocol whatever its actions answer, and [Q]
    holds at its end, of its result ([None] for a panic) and of the state. *)
Context {T : Type} (allow : ∀ R, E R → T → Prop) (possible : ∀ R, E R → R → Prop)
  (next : ∀ R, E R → R → T → T).

Fixpoint wp {A} (t : T) (p : prog A) (Q : option A → T → Prop) : Prop :=
  match p with
  | Ret _ a => Q (Some a) t
  | Panic _ => Q None t
  | Act _ e k => allow _ e t ∧ ∀ r, possible _ e r → wp (next _ e r t) (k r) Q
  end.

Lemma wp_mono {A} t (p : prog A) (Q Q' : option A → T → Prop) :
  (∀ o t', Q o t' → Q' o t') → wp t p Q → wp t p Q'.
Proof.
  intros HQ. revert t. induction p as [a| |R e k IH]; intros t; cbn; [apply HQ..|].
  intros [Ha Hk]. split; [done|]. intros r Hr. by apply IH, Hk.
Qed.

Lemma wp_bind {A B} t (p : prog A) (f : A → prog B) Q :
  wp t p (λ o t', match o with Some a => wp t' (f a) Q | None => Q None t' end) →
  wp t (pbind f p) Q.
Proof.
  revert t. induction p as [a| |R e k IH]; intros t; cbn; [done..|].
  intros [Ha Hk]. split; [done|]. intros r Hr. by apply IH, Hk.
Qed.

Lemma wp_defer {A} t (d : prog unit) (p : prog A) Q :
  wp t p (λ o t', wp t' d (λ o' t'', match o' with Some _ => Q o t'' | None => Q None t'' end)) →
  wp t (pdefer d p) Q.
Proof.
  revert t. induction p as [a| |R e k IH]; intros t; cbn.
  - intros Hd. by apply wp_bind.
  - intros Hd. apply wp_bind. eapply wp_mono; [|exact Hd]. by intros [] h'.
  - intros [Ha Hk]. split; [done|]. intros r Hr. by apply IH, Hk.
Qed.
End prog.
Arguments prog E A : clear implicits.
Arguments Ret {E A} a.
Arguments Panic {E A}.
Arguments Act {E A R} e k.

#[export] Instance prog_ret {E} : MRet (prog E) := @Ret E.
#[export] Instance prog_bind {E} : MBind (prog E) := @pbind E.

Definition act {E R} (e : E R) : prog E R := Act e Ret.

(** ** The server's state *)

(** The request of a handler: the values of the URL's query, with the
    parameters of the path under their names ([:handle] and the like), and the
    body. *)
Record request := mk_request {
  r_query : gmap string (list string);
  r_body : bytes;
}.

(** [url.Values.Get] and [r.FormValue]; the requests of this protocol carry no
    form in their body. *)
Definition query_get (r : request) (key : string) : string :=
  match r_query r !! key with Some (v :: _) => v | _ => "" end.
Definition FormValue (r : request) (key : string) : string := query_get r key.

(** What the handler's own [http.ResponseWriter] and connection hold: the
    headers set so far and those sent, the body, and after a hijack what was
    written to the connection. *)
Record response := mk_response {
  rs_content_type : string;
  rs_status : option Z;
  rs_body : bytes;
  rs_hijacked : bool;
  rs_conn : bytes;
  rs_closed : bool;
}.

Definition new_response : response := mk_response "" None [] false [] false.

(** Headers are taken at the first [WriteHeader]; a second one is ignored. *)
Definition set_content_type (ct : string) (w : response) : response :=
  match rs_status w with
  | Some _ => w
  | None => mk_response ct None (rs_body w) (rs_hijacked w) (rs_conn w) (rs_closed w)
  end.

Definition write_header (status : Z) (w : response) : response :=
  match rs_status w, rs_hijacked w with
  | None, false =>
      mk_response (rs_content_type w) (Some status) (rs_body w) false (rs_conn w) (rs_closed w)
  | _, _ => w
  end.

Definition write_body (b : bytes) (w : response) : response :=
  if rs_hijacked w then w
  else
    let w' := write_header 200 w in
    mk_response (rs_content_type w') (rs_status w') (rs_body w' ++ b) false (rs_conn w') (rs_closed w').

Definition hijack (w : response) : response :=
  mk_response (rs_content_type w) (rs_status w) (rs_body w) true (rs_conn w) (rs_closed w).

Definition conn_write (b : bytes) (w : response) : response :=
  mk_response (rs_content_type w) (rs_status w) (rs_body w) (rs_hijacked w) (rs_conn w ++ b) (rs_closed w).

Definition conn_close (w : response) : response :=
  mk_response (rs_content_type w) (rs_status w) (rs_body w) (rs_hijacked w) (rs_conn w) true.

Section server.
Context {C P B : Type} `{Backend C P B}.

(** The fields of [GardenServer] (server.go) that its goroutines share, and the
    clock.  The bomberman is nil until [SetupBomberman]; a lock is whether it is
    held; [stopping] is whether that channel is closed; [handling] is the
    counter of the wait group; listeners and connections are references. *)
Record GardenServer := mk_GardenServer {
  listenNetwork : string;
  listenAddr : string;
  containerGraceTime : Duration;
  backend : B;
  bomberman : option (Bomberman.Bomberman (C := C));
  streamer : Streamer.Streamer;
  destroys : gset string;
  destroysL : bool;
  listener : option nat;
  started : bool;
  stopping : bool;
  conns : gset nat;
  handling : Z;
  now : Z;
}.

(** [New]; output streams outlive their process by [time.Minute]. *)
Definition New (listenNetwork listenAddr : string) (containerGraceTime : Duration) (backend : B) : GardenServer :=
  mk_GardenServer listenNetwork listenAddr containerGraceTime backend None (Streamer.New 60000000000)
    ∅ false None false false ∅ 0 0.

Definition set_backend (b : B) (s : GardenServer) : GardenServer :=
  mk_GardenServer (listenNetwork s) (listenAddr s) (containerGraceTime s) b (bomberman s) (streamer s)
    (destroys s) (destroysL s) (listener s) (started s) (stopping s) (conns s) (handling s) (now s).
Definition set_bomberman b (s : GardenServer) : GardenServer :=
  mk_GardenServer (listenNetwork s) (listenAddr s) (containerGraceTime s) (backend s) b (streamer s)
    (destroys s) (destroysL s) (listener s) (started s) (stopping s) (conns s) (handling s) (now s).
Definition set_streamer m (s : GardenServer) : GardenServer :=
  mk_GardenServer (listenNetwork s) (listenAddr s) (containerGraceTime s) (backend s) (bomberman s) m
    (destroys s) (destroysL s) (listener s) (started s) (stopping s) (conns s) (handling s) (now s).
Definition set_destroys d (s : GardenServer) : GardenServer :=
  mk_GardenServer (listenNetwork s) (listenAddr s) (containerGraceTime s) (backend s) (bomberman s)
    (streamer s) d (destroysL s) (listener s) (started s) (stopping s) (conns s) (handling s) (now s).
Definition set_destroysL l (s : GardenServer) : GardenServer :=
  mk_GardenServer (listenNetwork s) (listenAddr s) (containerGraceTime s) (backend s) (bomberman s)
    (streamer s) (destroys s) l (listener s) (started s) (stopping s) (conns s) (handling s) (now s).
Definition set_listener l (s : GardenServer) : GardenServer :=
  mk_GardenServer (listenNetwork s) (listenAddr s) (containerGraceTime s) (backend s) (bomberman s)
    (streamer s) (destroys s) (destroysL s) l (started s) (stopping s) (conns s) (handling s) (now s).
Definition set_started b (s : GardenServer) : GardenServer :=
  mk_GardenServer (listenNetwork s) (listenAddr s) (containerGraceTime s) (backend s) (bomberman s)
    (streamer s) (destroys s) (destroysL s) (listener s) b (stopping s) (conns s) (handling s) (now s).
Definition set_stopping b (s : GardenServer) : GardenServer :=
  mk_GardenServer (listenNetwork s) (listenAddr s) (containerGraceTime s) (backend s) (bomberman s)
    (streamer s) (destroys s) (destroysL s) (listener s) (started s) b (conns s) (handling s) (now s).
Definition set_conns c (s : GardenServer) : GardenServer :=
  mk_GardenServer (listenNetwork s) (listenAddr s) (containerGraceTime s) (backend s) (bomberman s)
    (streamer s) (destroys s) (destroysL s) (listener s) (started s) (stopping s) c (handling s) (now s).
Definition set_handling n (s : GardenServer) : GardenServer :=
  mk_GardenServer (listenNetwork s) (listenAddr s) (containerGraceTime s) (backend s) (bomberman s)
    (streamer s) (destroys s) (destroysL s) (listener s) (started s) (stopping s) (conns s) n (now s).

Definition set_now n (s : GardenServer) : GardenServer :=
  mk_GardenServer (listenNetwork s) (listenAddr s) (containerGraceTime s) (backend s) (bomberman s)
    (streamer s) (destroys s) (destroysL s) (listener s) (started s) (stopping s) (conns s) (handling s) n.

(** ** Actions *)

(** Which case of [streamProcess]'s select is taken, and with what. *)
Inductive wait_case :=
| Exited (status : Z)
| WaitFailed (err : error)
| Stopping
| ConnClosed.

Inductive eff : Type → Type :=
(** a call of the backend *)
| Call {R} (op : backend_op C P R) : eff R
(** a method of the bomberman; whether it could be called *)
| Bomb (m : Bomberman.message (C := C)) : eff bool
(** [s.destroysL] and [s.destroys] *)
| Lock : eff unit
| Unlock : eff unit
| Destroying (handle : string) : eff bool
| SetDestroying (handle : string) : eff unit
| UnsetDestroying (handle : string) : eff unit
(** the response *)
| SetContentType (ct : string) : eff unit
| WriteHeader (status : Z) : eff unit
| WriteBody (b : bytes) : eff unit
(** the channels of a process's output, its stdin pipe, its stream *)
| MakeChan (cap : nat) : eff nat
| Pipe : eff nat
| ClosePipe (p : nat) : eff unit
| StreamStart (stdout stderr : nat) : eff string
| StreamStop (id : string) : eff bool
| ServeStream (stdout : bool) (id : string) : eff unit
(** the hijacked connection *)
| Hijack : eff (option error)
| ConnWrite (b : bytes) : eff unit
| ConnClose : eff unit
(** the goroutine that copies the connection to the process, and waiting for
    the process *)
| GoStreamInput (pipe : nat) (p : P) : eff unit
| Await (p : P) : eff wait_case.

(** What the handler cannot decide: whether the connection can be hijacked, how
    waiting for a process ends. *)
Record env := mk_env {
  env_hijack : option error;
  env_await : P → wait_case;
  env_pipe : nat;
}.

(** An action happens, has to wait, or is a fatal error of the runtime. *)
Inductive performed (R : Type) :=
| Done (r : R) (s : GardenServer) (w : response)
| Blocks
| Fatal.
#[global] Arguments Done {R} r s w.
#[global] Arguments Blocks {R}.
#[global] Arguments Fatal {R}.

Definition on_streamer {R} (o : Streamer.outcome) (f : list Streamer.obs → R) (panic : performed R)
    (s : GardenServer) (w : response) : performed R :=
  match o with
  | Streamer.Next m obs => Done (f obs) (set_streamer m s) w
  | Streamer.Blocked => Blocks
  | Streamer.Panic => panic
  end.

Definition returned_id (o : list Streamer.obs) : string :=
  match o with [Streamer.Returns id] => id | _ => "" end.

(** One action.  The bomberman serves a message before the sender goes on.  A
    call that panics ([Bomb] on a nil bomberman, [StreamStop] of a stream already
    stopped) says so in its result. *)
Definition perform (x : env) {R} (e : eff R) (s : GardenServer) (w : response) : performed R :=
  match e in eff R return performed R with
  | Call op => let (r, b) := exec op (backend s) in Done r (set_backend b s) w
  | Bomb m =>
      match bomberman s with
      | Some bm => Done true (set_bomberman (Some (Bomberman.manageBombs Handle (now s) (GraceTime (backend s)) m bm)) s) w
      | None => Done false s w
      end
  | Lock => if destroysL s then Blocks else Done () (set_destroysL true s) w
  | Unlock => if destroysL s then Done () (set_destroysL false s) w else Fatal
  | Destroying h => Done (bool_decide (h ∈ destroys s)) s w
  | SetDestroying h => Done () (set_destroys ({[h]} ∪ destroys s) s) w
  | UnsetDestroying h => Done () (set_destroys (destroys s ∖ {[h]}) s) w
  | SetContentType ct => Done () s (set_content_type ct w)
  | WriteHeader status => Done () s (write_header status w)
  | WriteBody b => Done () s (write_body b w)
  | MakeChan cap =>
      on_streamer (Streamer.make_chan cap (streamer s)) (λ _, length (Streamer.chans (streamer s))) Fatal s w
  | Pipe => Done (env_pipe x) s w
  | ClosePipe _ => Done () s w
  | StreamStart o e => on_streamer (Streamer.Stream o e (streamer s)) returned_id Fatal s w
  | StreamStop id => on_streamer (Streamer.Stop id (streamer s)) (λ _, true) (Done false s w) s w
  | ServeStream out id =>
      on_streamer ((if out then Streamer.ServeStdout else Streamer.ServeStderr) id (streamer s))
        (λ _, ()) Fatal s w
  | Hijack => Done (env_hijack x) s (match env_hijack x with None => hijack w | Some _ => w end)
  | ConnWrite b => Done () s (conn_write b w)
  | ConnClose => Done () s (conn_close w)
  | GoStreamInput _ _ => Done () s w
  | Await p => Done (env_await x p) s w
  end.

(** ** Execution *)

(** How a program that runs by itself ends. *)
Inductive ran (A : Type) :=
| Returns (a : A) (s : GardenServer) (w : response)
| Panics (s : GardenServer) (w : response)
| Blocked
| Crashes.
#[global] Arguments Returns {A} a s w.
#[global] Arguments Panics {A} s w.
#[global] Arguments Blocked {A}.
#[global] Arguments Crashes {A}.

Fixpoint run {A} (x : env) (p : prog eff A) (s : GardenServer) (w : response) : ran A :=
  match p with
  | Ret a => Returns a s w
  | Panic => Panics s w
  | Act e k =>
      match perform x e s w with
      | Done r s' w' => run x (k r) s' w'
      | Blocks => Blocked
      | Fatal => Crashes
      end
  end.

Lemma run_bind {A A'} x (p : prog eff A) (f : A → prog eff A') s w :
  run x (pbind f p) s w =
  match run x p s w with
  | Returns a s' w' => run x (f a) s' w'
  | Panics s' w' => Panics s' w'
  | Blocked => Blocked
  | Crashes => Crashes
  end.
Proof.
  revert s w. induction p as [a| |R e k IH]; intros s w; [done..|]. cbn.
  destruct (perform x e s w); [apply IH|done..].
Qed.

(** A deferred call runs after the rest, however that ends. *)
Lemma run_defer {A} x (d : prog eff unit) (p : prog eff A) s w :
  run x (pdefer d p) s w =
  match run x p s w with
  | Returns a s' w' =>
      match run x d s' w' with
      | Returns _ s'' w'' => Returns a s'' w''
      | Panics s'' w'' => Panics s'' w''
      | Blocked => Blocked
      | Crashes => Crashes
      end
  | Panics s' w' =>
      match run x d s' w' with
      | Returns _ s'' w'' | Panics s'' w'' => Panics s'' w''
      | Blocked => Blocked
      | Crashes => Crashes
      end
  | Blocked => Blocked
  | Crashes => Crashes
  end.
Proof.
  revert s w. induction p as [a| |R e k IH]; intros s w.
  - cbn. by rewrite run_bind.
  - cbn. by rewrite run_bind.
  - cbn. destruct (perform x e s w); [apply IH|done..].
Qed.

(** A goroutine: what it has left to do, and its response so far. *)
Definition thread : Type := prog eff unit * response.
End server.
Arguments GardenServer : clear implicits.
Arguments GardenServer C B : rename.
Arguments env : clear implicits.
Arguments env P : rename.
End Prog.
