(* ===== verification/Handlers.v ===== *)
(** * The request handlers (server/request_handling.go)

    Every handler of the server, as a program over the actions of [Prog.v];
    logging is left out.  The goroutine that reads the input of a process, which
    [handleRun] and [handleAttach] start, is in [ServerStream.v]. *)
From S2P Require Import Prelude Types Utf8 Json GoJson Errors Codec Backend Bomberman Streamer Prog.

Module Handlers.
Import Utf8 Json GoJson Errors Codec Backend Prog.

(** ** Messages without a name in the source *)
Definition empty_codec : codec unit := struct_codec "struct {}" "" FNil (λ _, ()) (λ _, ()).

Definition Kill_codec : codec bool :=
  struct_codec "struct { Kill bool }" "" (FCons "kill" false bool_codec FNil)
    (λ b, (b, ())) (λ '(b, ()), b).

Definition Value_codec : codec string :=
  struct_codec "struct { Value string }" "" (FCons "value" false string_codec FNil)
    (λ v, (v, ())) (λ '(v, ()), v).

Definition Handle_codec : codec string :=
  struct_codec "struct { Handle string }" "" (FCons "Handle" false string_codec FNil)
    (λ h, (h, ())) (λ '(h, ()), h).

Definition Handles_codec : codec (slice string) :=
  struct_codec "struct { Handles []string }" ""
    (FCons "Handles" false (slice_codec "[]string" string_codec) FNil)
    (λ hs, (hs, ())) (λ '(hs, ()), hs).

Definition Duration_codec : codec Duration := int64_codec "time.Duration".
Definition NetOutRules_codec : codec (slice NetOutRule) := slice_codec "[]garden.NetOutRule" NetOutRule_codec.
Definition string_map_codec : codec (gomap string) := map_codec "map[string]string" string_codec.

Definition splitHandles (queryHandles : string) : slice string :=
  if decide (queryHandles = "") then Some []
  else Some (of_bytes <$> split_bytes (chr 44) (to_bytes queryHandles)).

Section handlers.
Context {C P B : Type} `{Backend C P B} `{JsonText}.

Abbreviation handler := (prog (eff (C := C) (P := P)) unit).

(** ** Calls that may panic *)
Definition bomb (m : Bomberman.message (C := C)) : handler :=
  ok ← act (Bomb m); if ok : bool then Ret () else Panic.

Definition stream_stop (id : string) : handler :=
  ok ← act (StreamStop id); if ok : bool then Ret () else Panic.

(** ** Responses *)
Definition writeError (err : error) : handler :=
  act (SetContentType "application/json");;
  let merr := mk_Error (Some err) in
  act (WriteHeader (StatusCode merr));;
  match Encode Error_codec merr with Ok b => act (WriteBody b) | Err _ => Ret () end.

(** An encoding error is ignored; a nil dereference in an entry's error is a
    panic. *)
Definition writeResponse {A} (c : codec A) (msg : A) : handler :=
  act (SetContentType "application/json");;
  match Encode c msg with
  | Ok b => act (WriteBody b)
  | Err e => if decide (e = NilDereference) then Panic else Ret ()
  end.

Definition writeSuccess : handler := writeResponse empty_codec ().

(** [if !s.readRequest(&msg, w, r) { return }] *)
Definition readRequest {A} (c : codec A) (r : request) (k : A → handler) : handler :=
  match Decode c (r_body r) (c_zero c) with
  | (msg, None, _) => k msg
  | (_, Some e, _) => writeError (JsonError e)
  end.

(** [v, err := call; if err != nil { s.writeError(w, err, hLog); return }] *)
Definition checked {A} (call : backend_op C P (result error A)) (k : A → handler) : handler :=
  r ← act (Call call);
  match r with Ok a => k a | Err err => writeError err end.

Definition checked_err (call : backend_op C P (option error)) (k : handler) : handler :=
  r ← act (Call call);
  match r with None => k | Some err => writeError err end.

(** [s.bomberman.Pause(h); defer s.bomberman.Unpause(h)] *)
Definition paused (h : string) (k : handler) : handler :=
  bomb (Bomberman.Pause h);;
  pdefer (bomb (Bomberman.Unpause h)) k.

(** The common opening: look the container up, hold it. *)
Definition with_container (handle : string) (k : C → handler) : handler :=
  checked (Lookup handle) (λ container, paused (Handle container) (k container)).

(** ** Server *)
Definition handlePing (r : request) : handler :=
  checked_err Ping writeSuccess.

Definition handleCapacity (r : request) : handler :=
  checked GetCapacity (λ capacity, writeResponse Capacity_codec capacity).

(** ** Containers *)
Definition set_grace_time (g : Duration) (spec : ContainerSpec) : ContainerSpec :=
  mk_ContainerSpec (spec_Handle spec) g (spec_RootFSPath spec) (spec_Image spec) (spec_BindMounts spec)
    (spec_Network spec) (spec_Properties spec) (spec_Env spec) (spec_Privileged spec) (spec_Limits spec)
    (spec_NetOut spec) (spec_NetIn spec).

Definition handleCreate (containerGraceTime : Duration) (r : request) : handler :=
  readRequest ContainerSpec_codec r (λ spec,
    let spec := if (spec_GraceTime spec =? 0)%Z then set_grace_time containerGraceTime spec else spec in
    checked (Create spec) (λ container,
      bomb (Bomberman.Strap container);;
      writeResponse Handle_codec (Handle container))).

Definition handleList (r : request) : handler :=
  let properties := omap (λ vals : list string, head vals) (r_query r) in
  checked (Containers (Some properties)) (λ containers,
    writeResponse Handles_codec (Some (Handle <$> containers))).

Definition ErrConcurrentDestroy : error := OtherError "container already being destroyed".

(** The test and the mark are under one lock. *)
Definition begin_destroy (handle : string) : prog (eff (C := C) (P := P)) bool :=
  act Lock;;
  alreadyDestroying ← act (Destroying handle);
  (if alreadyDestroying : bool then Ret () else act (SetDestroying handle));;
  act Unlock;;
  Ret alreadyDestroying.

Definition end_destroy (handle : string) : handler :=
  act Lock;; act (UnsetDestroying handle);; act Unlock.

Definition handleDestroy (r : request) : handler :=
  let handle := FormValue r ":handle" in
  alreadyDestroying ← begin_destroy handle;
  if alreadyDestroying : bool then writeError ErrConcurrentDestroy
  else
    err ← act (Call (Destroy handle));
    (if negb alreadyDestroying then end_destroy handle else Ret ());;
    match err with
    | Some err => writeError err
    | None => bomb (Bomberman.Defuse handle);; writeSuccess
    end.

Definition handleStop (r : request) : handler :=
  let handle := FormValue r ":handle" in
  readRequest Kill_codec r (λ kill,
    with_container handle (λ container,
      checked_err (Stop container kill) writeSuccess)).

Definition handleInfo (r : request) : handler :=
  with_container (FormValue r ":handle") (λ container,
    checked (Info container) (writeResponse ContainerInfo_codec)).

(** [r.URL.Query()["handles"][0]] *)
Definition query_handles (r : request) (k : slice string → handler) : handler :=
  match r_query r !! "handles" with
  | Some (v :: _) => k (splitHandles v)
  | _ => Panic
  end.

Definition handleBulkInfo (r : request) : handler :=
  query_handles r (λ handles,
    checked (BulkInfo handles)
      (writeResponse (map_codec "map[string]garden.ContainerInfoEntry" ContainerInfoEntry_codec))).

Definition handleBulkMetrics (r : request) : handler :=
  query_handles r (λ handles,
    checked (BulkMetrics handles)
      (writeResponse (map_codec "map[string]garden.ContainerMetricsEntry" ContainerMetricsEntry_codec))).

(** ** Files *)
Definition handleStreamIn (r : request) : handler :=
  let handle := FormValue r ":handle" in
  let user := query_get r "user" in
  let dstPath := query_get r "destination" in
  with_container handle (λ container,
    checked_err (StreamIn container (mk_StreamInSpec dstPath user (r_body r))) writeSuccess).

(** [io.Copy(w, reader)]: nothing is written for an empty reader. *)
Definition copy (rd : reader) : handler :=
  match rd_data rd with [] => Ret () | b => act (WriteBody b) end.

Definition handleStreamOut (r : request) : handler :=
  let handle := FormValue r ":handle" in
  let user := query_get r "user" in
  let srcPath := query_get r "source" in
  with_container handle (λ container,
    checked (StreamOut container (mk_StreamOutSpec srcPath user)) (λ rd,
      copy rd;;
      match rd_err rd with
      | Some err =>
          act (Call (CloseReader rd));;
          if bool_decide (length (rd_data rd) = 0%nat) then writeError err else Ret ()
      | None => Ret ()
      end)).

(** ** Limits *)
Definition handleCurrentBandwidthLimits (r : request) : handler :=
  with_container (FormValue r ":handle") (λ container,
    checked (CurrentBandwidthLimits container) (writeResponse BandwidthLimits_codec)).

Definition handleCurrentMemoryLimits (r : request) : handler :=
  with_container (FormValue r ":handle") (λ container,
    checked (CurrentMemoryLimits container) (writeResponse MemoryLimits_codec)).

Definition handleCurrentDiskLimits (r : request) : handler :=
  with_container (FormValue r ":handle") (λ container,
    checked (CurrentDiskLimits container) (writeResponse DiskLimits_codec)).

Definition handleCurrentCPULimits (r : request) : handler :=
  with_container (FormValue r ":handle") (λ container,
    checked (CurrentCPULimits container) (writeResponse CPULimits_codec)).

(** ** Networking *)
Definition handleNetIn (r : request) : handler :=
  let handle := FormValue r ":handle" in
  readRequest NetInRequest_codec r (λ request,
    let hostPort := nir_HostPort request in
    let containerPort := nir_ContainerPort request in
    with_container handle (λ container,
      checked (NetInOp container hostPort containerPort) (λ '(hostPort, containerPort),
        writeResponse NetInResponse_codec (mk_NetInResponse hostPort containerPort)))).

Definition handleNetOut (r : request) : handler :=
  let handle := FormValue r ":handle" in
  readRequest NetOutRule_codec r (λ rule,
    with_container handle (λ container,
      checked_err (NetOut container rule) writeSuccess)).

Definition handleBulkNetOut (r : request) : handler :=
  let handle := FormValue r ":handle" in
  readRequest NetOutRules_codec r (λ rules,
    with_container handle (λ container,
      checked_err (BulkNetOut container rules) writeSuccess)).

(** ** Metrics and properties *)
Definition handleMetrics (r : request) : handler :=
  with_container (FormValue r ":handle") (λ container,
    checked (GetMetrics container) (writeResponse Metrics_codec)).

Definition handleProperties (r : request) : handler :=
  with_container (FormValue r ":handle") (λ container,
    checked (GetProperties container) (writeResponse Properties_codec)).

Definition handleProperty (r : request) : handler :=
  let key := FormValue r ":key" in
  with_container (FormValue r ":handle") (λ container,
    checked (Property container key) (λ value,
      writeResponse string_map_codec (Some {["value" := value]}))).

Definition handleSetProperty (r : request) : handler :=
  let handle := FormValue r ":handle" in
  let key := FormValue r ":key" in
  readRequest Value_codec r (λ value,
    with_container handle (λ container,
      checked_err (SetProperty container key value) writeSuccess)).

Definition handleRemoveProperty (r : request) : handler :=
  let key := FormValue r ":key" in
  with_container (FormValue r ":handle") (λ container,
    checked_err (RemoveProperty container key) writeSuccess).

(** The container is not held here, and an error of [SetGraceTime] is only
    logged. *)
Definition handleSetGraceTime (r : request) : handler :=
  let handle := FormValue r ":handle" in
  readRequest Duration_codec r (λ graceTime,
    checked (Lookup handle) (λ container,
      act (Call (SetGraceTime container graceTime));;
      bomb (Bomberman.Reset container);;
      writeSuccess)).

(** ** Processes *)
Definition StatusOK : Z := 200.
Definition StatusCreated : Z := 201.

Definition conn_message (p : ProcessPayload) : handler :=
  match Encode ProcessPayload_codec p with Ok b => act (ConnWrite b) | Err _ => Ret () end.

(** [streamProcess]: the outcome of the wait is sent to the client, and the
    process's stdin closed; nothing is sent when the server is stopping or the
    client has gone. *)
Definition streamProcess (process : P) (stdinPipe : nat) : handler :=
  c ← act (Await process);
  match c with
  | Exited status =>
      conn_message (mk_ProcessPayload (ProcessID process) "" None None (Some status) None None None);;
      act (ClosePipe stdinPipe)
  | WaitFailed err =>
      conn_message (mk_ProcessPayload (ProcessID process) "" None None None (Some (error_text err)) None None);;
      act (ClosePipe stdinPipe)
  | Stopping | ConnClosed => Ret ()
  end.

(** The end of [handleRun] and [handleAttach], which is the same code but for
    the status. *)
Definition serve_process (status : Z) (process : P) (stdout stderr stdinW : nat) : handler :=
  streamID ← act (StreamStart stdout stderr);
  pdefer (stream_stop streamID) (
    act (SetContentType "application/json");;
    act (WriteHeader status);;
    err ← act Hijack;
    match err with
    | Some err => writeError err;; act (ClosePipe stdinW)
    | None =>
        pdefer (act ConnClose) (
          conn_message (mk_ProcessPayload (ProcessID process) streamID None None None None None None);;
          act (GoStreamInput stdinW process);;
          streamProcess process stdinW)
    end).

Definition handleRun (r : request) : handler :=
  let handle := FormValue r ":handle" in
  readRequest ProcessSpec_codec r (λ request,
    with_container handle (λ container,
      stdout ← act (MakeChan 4000);
      stderr ← act (MakeChan 4000);
      stdin ← act Pipe;
      process ← act (Call (Run container request (mk_ProcessIO (Some stdin) (Some stdout) (Some stderr))));
      match process with
      | Err err => writeError err;; act (ClosePipe stdin)
      | Ok process => serve_process StatusCreated process stdout stderr stdin
      end)).

Definition handleAttach (r : request) : handler :=
  let handle := FormValue r ":handle" in
  let processID := FormValue r ":pid" in
  with_container handle (λ container,
    stdout ← act (MakeChan 4000);
    stderr ← act (MakeChan 4000);
    stdin ← act Pipe;
    process ← act (Call (Attach container processID (mk_ProcessIO (Some stdin) (Some stdout) (Some stderr))));
    match process with
    | Err err => writeError err;; act (ClosePipe stdin)
    | Ok process => serve_process StatusOK process stdout stderr stdin
    end).

(** ** Output streams (server/streamer/http_handling.go) *)

(** [HandlerFunc.ServeHTTP]; the goroutine that then serves the stream is in
    [Streamer.v]. *)
Definition HandlerFunc_ServeHTTP (stdout : bool) (r : request) : handler :=
  let id := FormValue r ":streamid" in
  act (WriteHeader StatusOK);;
  err ← act Hijack;
  match err with
  | Some _ => act (WriteHeader StatusInternalServerError)
  | None => pdefer (act ConnClose) (act (ServeStream stdout id))
  end.
End handlers.
End Handlers.
