(* ===== verification/Server.v ===== *)
(** * The server (server/server.go)

    What a reaped container goes through ([reapContainer] and the callback of
    its bomb), and the map of [New] from routes to handlers.  The rest of
    server.go, starting and stopping, is in [Lifecycle.v]. *)
From S2P Require Import Prelude Types Utf8 Json GoJson Errors Codec Backend Bomberman Streamer Routes Prog Handlers.

Module Server.
Import Errors Backend Prog Handlers.

Section server.
Context {C P B : Type} `{Backend C P B} `{JsonText}.

(** ** Reaping *)

(** The callback of a bomb: skip when a request is already destroying the
    container. *)
Definition reapContainer (container : C) : prog (eff (C := C) (P := P)) unit :=
  alreadyDestroying ← begin_destroy (Handle container);
  if alreadyDestroying : bool then Ret ()
  else
    act (Call (Destroy (Handle container)));;
    end_destroy (Handle container).

(** The goroutine of a timer that has gone off (bomberman.go): detonate, then
    have the handle forgotten. *)
Definition detonated (container : C) : prog (eff (C := C) (P := P)) unit :=
  reapContainer container;; bomb (Bomberman.MCleanup (Handle container)).

(** ** Routing *)

(** The map from routes to handlers of [New]. *)
Definition handlers (containerGraceTime : Duration) (name : string) :
    option (request → prog (eff (C := C) (P := P)) unit) :=
  if decide (name = Routes.Ping) then Some handlePing
  else if decide (name = Routes.Capacity) then Some handleCapacity
  else if decide (name = Routes.Create) then Some (handleCreate containerGraceTime)
  else if decide (name = Routes.Destroy) then Some handleDestroy
  else if decide (name = Routes.List) then Some handleList
  else if decide (name = Routes.Stop) then Some handleStop
  else if decide (name = Routes.StreamIn) then Some handleStreamIn
  else if decide (name = Routes.StreamOut) then Some handleStreamOut
  else if decide (name = Routes.CurrentBandwidthLimits) then Some handleCurrentBandwidthLimits
  else if decide (name = Routes.CurrentCPULimits) then Some handleCurrentCPULimits
  else if decide (name = Routes.CurrentDiskLimits) then Some handleCurrentDiskLimits
  else if decide (name = Routes.CurrentMemoryLimits) then Some handleCurrentMemoryLimits
  else if decide (name = Routes.NetIn) then Some handleNetIn
  else if decide (name = Routes.NetOut) then Some handleNetOut
  else if decide (name = Routes.BulkNetOut) then Some handleBulkNetOut
  else if decide (name = Routes.Info) then Some handleInfo
  else if decide (name = Routes.BulkInfo) then Some handleBulkInfo
  else if decide (name = Routes.BulkMetrics) then Some handleBulkMetrics
  else if decide (name = Routes.Run) then Some handleRun
  else if decide (name = Routes.Stdout) then Some (HandlerFunc_ServeHTTP true)
  else if decide (name = Routes.Stderr) then Some (HandlerFunc_ServeHTTP false)
  else if decide (name = Routes.Attach) then Some handleAttach
  else if decide (name = Routes.Metrics) then Some handleMetrics
  else if decide (name = Routes.Properties) then Some handleProperties
  else if decide (name = Routes.Property) then Some handleProperty
  else if decide (name = Routes.SetProperty) then Some handleSetProperty
  else if decide (name = Routes.RemoveProperty) then Some handleRemoveProperty
  else if decide (name = Routes.SetGraceTime) then Some handleSetGraceTime
  else None.
End server.
End Server.
