(* ===== verification/System.v ===== *)
(** * Requests, timers and the bomberman together

    The whole server as one transition system: handlers run concurrently, time
    passes, timers go off and start reaping goroutines.  The protocol that every
    handler follows towards the bomberman ([follows]) is checked once, program
    by program, and gives the system-wide properties: a container that a request
    is working on is not reaped, and no container is destroyed twice at once. *)
From S2P Require Import Prelude Types Utf8 Json GoJson Errors Codec Backend Timebomb Bomberman Streamer Routes Sample Prog Handlers Server.

Module System.
Import GoJson Errors Codec Backend Sample Prog Handlers Server.

Section system.
Context {C P B : Type} `{Backend C P B} `{JsonText}.
Abbreviation program := (prog (eff (C := C) (P := P)) unit).

(** ** The protocol of the handlers *)

(** The container an operation works on.  Setting the grace time is not work on
    the container: it is how its time to live is changed. *)
Definition works_on {R} (op : backend_op C P R) : option C :=
  match op with
  | Stop c _ | Info c | StreamIn c _ | StreamOut c _ | CurrentBandwidthLimits c
  | CurrentCPULimits c | CurrentDiskLimits c | CurrentMemoryLimits c | NetInOp c _ _
  | NetOut c _ | BulkNetOut c _ | Run c _ _ | Attach c _ _ | GetMetrics c
  | GetProperties c | Property c _ | SetProperty c _ _ | RemoveProperty c _ => Some c
  | _ => None
  end.

(** Where a goroutine is: the handle it holds; whether it has the lock of the
    destroys map; a handle it knows not to be marked there; and the handle it has
    marked. *)
Record tstate := mk_tstate {
  t_held : option string;
  t_lock : bool;
  t_free : option string;
  t_mark : option string;
}.

Definition idle : tstate := mk_tstate None false None None.
Definition holds (h : string) : tstate := mk_tstate (Some h) false None None.

(** What an action requires: a container is worked on only while it is held, one
    container is held at a time, and messages other than an unpause are sent with
    nothing held; the destroys map is used under its lock, a handle is marked
    only when it is not, and destroyed only by who marked it. *)
Definition allow {R} (e : eff (C := C) (P := P) R) (t : tstate) : Prop :=
  match e with
  | Call op => (∀ c, works_on op = Some c → t_held t = Some (Handle c)) ∧
      match op with Destroy h => t_mark t = Some h | _ => True end
  | Bomb (Bomberman.MUnpause h) => t_held t = Some h
  | Bomb _ => t_held t = None
  | Lock => t_lock t = false
  | Unlock => t_lock t = true
  | Destroying h => t_lock t = true
  | SetDestroying h => t_lock t = true ∧ t_free t = Some h ∧ t_mark t = None
  | UnsetDestroying h => t_lock t = true ∧ t_mark t = Some h
  | _ => True
  end.

(** The bomberman is there. *)
Definition possible {R} (e : eff (C := C) (P := P) R) (r : R) : Prop :=
  match e in eff R return R → Prop with Bomb _ => λ r, r = true | _ => λ _, True end r.

Definition next {R} (e : eff (C := C) (P := P) R) (r : R) (t : tstate) : tstate :=
  match e in eff R return R → tstate with
  | Bomb (Bomberman.MPause h) => λ _, mk_tstate (Some h) (t_lock t) (t_free t) (t_mark t)
  | Bomb (Bomberman.MUnpause _) => λ _, mk_tstate None (t_lock t) (t_free t) (t_mark t)
  | Lock => λ _, mk_tstate (t_held t) true None (t_mark t)
  | Unlock => λ _, mk_tstate (t_held t) false None (t_mark t)
  | Destroying h => λ r : bool, mk_tstate (t_held t) (t_lock t) (if r then None else Some h) (t_mark t)
  | SetDestroying h => λ _, mk_tstate (t_held t) (t_lock t) None (Some h)
  | UnsetDestroying _ => λ _, mk_tstate (t_held t) (t_lock t) None None
  | _ => λ _, t
  end r.

Abbreviation wp := (Prog.wp (@allow) (@possible) (@next)).

(** A program that follows the protocol gives back what it holds on every way
    out. *)
Definition follows (t : tstate) (p : program) : Prop := wp t p (λ _ t', t' = idle).

(** ** Every handler follows it *)
Definition plain_act {R} (e : eff (C := C) (P := P) R) : bool :=
  match e with
  | Call _ | Bomb _ | Lock | Unlock | Destroying _ | SetDestroying _ | UnsetDestroying _ => false
  | _ => true
  end.

Lemma wp_act {R} t (e : eff R) (Q : option R → tstate → Prop) :
  plain_act e = true → (∀ r, Q (Some r) t) → wp t (act e) Q.
Proof. intros He HQ. destruct e; try done; (split; [done|]; intros r _; apply HQ). Qed.

(** An operation that destroys nothing. *)
Definition not_destroy {R} (op : backend_op C P R) : bool :=
  match op with Destroy _ => false | _ => true end.

Lemma wp_call {R} t (op : backend_op C P R) (Q : option R → tstate → Prop) :
  (∀ c, works_on op = Some c → t_held t = Some (Handle c)) → not_destroy op = true →
  (∀ r, Q (Some r) t) → wp t (act (Call op)) Q.
Proof. intros Hw Hd HQ. split; [split; [done|by destruct op]|]. intros r _. apply HQ. Qed.

(** Any other message than a pause or an unpause is sent with nothing held. *)
Definition plain_message (m : Bomberman.message (C := C)) : bool :=
  match m with Bomberman.MPause _ | Bomberman.MUnpause _ => false | _ => true end.

Lemma wp_bomb t (m : Bomberman.message (C := C)) (Q : option unit → tstate → Prop) :
  plain_message m = true → t_held t = None → Q (Some ()) t → wp t (bomb m) Q.
Proof. intros Hm Ht HQ. apply wp_bind. destruct m; try done; (split; [done|]; by intros ? ->). Qed.

(** Steps through a program whose actions do not concern the protocol. *)
Ltac wp_go :=
  repeat first [ apply wp_bind | apply wp_act; [reflexivity|intros ?] ].

Lemma wp_writeError t err (Q : option unit → tstate → Prop) :
  Q (Some ()) t → wp t (writeError err) Q.
Proof.
  intros HQ. apply wp_bind, wp_act; [done|intros _]. apply wp_bind, wp_act; [done|intros _].
  destruct (Encode _ _); [|done]. apply wp_act; [done|]. by intros [].
Qed.

Lemma wp_writeResponse {A} t (c : codec A) msg Q :
  Q (Some ()) t → Q None t → wp t (writeResponse c msg) Q.
Proof.
  intros HQ HQ'. apply wp_bind, wp_act; [done|intros _]. destruct (Encode _ _).
  - apply wp_act; [done|]. by intros [].
  - by destruct (decide _).
Qed.

Lemma wp_readRequest {A} t (c : codec A) r k Q :
  (∀ a, wp t (k a) Q) → Q (Some ()) t → wp t (readRequest c r k) Q.
Proof.
  intros Hk HQ. unfold readRequest. destruct (Decode _ _ _) as [[msg [e|]] rest]; [|apply Hk].
  by apply wp_writeError.
Qed.

Lemma wp_checked {A} t (op : backend_op C P (result error A)) k Q :
  (∀ c, works_on op = Some c → t_held t = Some (Handle c)) → not_destroy op = true →
  (∀ a, wp t (k a) Q) → Q (Some ()) t → wp t (checked op k) Q.
Proof.
  intros Hw Hd Hk HQ. apply wp_bind, wp_call; [done..|]. intros [x|e]; [apply Hk|by apply wp_writeError].
Qed.

Lemma wp_checked_err t (op : backend_op C P (option error)) k Q :
  (∀ c, works_on op = Some c → t_held t = Some (Handle c)) → not_destroy op = true →
  wp t k Q → Q (Some ()) t → wp t (checked_err op k) Q.
Proof.
  intros Hw Hd Hk HQ. apply wp_bind, wp_call; [done..|]. intros [e|]; [by apply wp_writeError|done].
Qed.

(** Holding a container around work that ends with it still held. *)
Lemma wp_with_container handle k (Q : option unit → tstate → Prop) :
  (∀ c, wp (holds (Handle c)) (k c) (λ _ t, t = holds (Handle c))) →
  (∀ o, Q o idle) → wp idle (with_container handle k) Q.
Proof.
  intros Hk HQ. apply wp_checked; [done|done| |by apply HQ]. intros c. apply wp_bind. split; [done|].
  intros ? ->. apply wp_defer. eapply wp_mono; [|apply Hk]. intros o t ->. split; [done|].
  intros ? ->. apply HQ.
Qed.

(** The common shape of the handlers of a container. *)
Lemma wp_write_held {A} (c : codec A) t (msg : A) : wp t (writeResponse c msg) (λ _ t', t' = t).
Proof. by apply wp_writeResponse. Qed.

Lemma wp_op_held {A} (op : backend_op C P (result error A)) (cont : C) k :
  (∀ c, works_on op = Some c → c = cont) → not_destroy op = true →
  (∀ a, wp (holds (Handle cont)) (k a) (λ _ t, t = holds (Handle cont))) →
  wp (holds (Handle cont)) (checked op k) (λ _ t, t = holds (Handle cont)).
Proof. intros Hw Hd Hk. apply wp_checked; [by intros c ->%Hw|done..]. Qed.

Lemma wp_err_held (op : backend_op C P (option error)) (cont : C) k :
  (∀ c, works_on op = Some c → c = cont) → not_destroy op = true →
  wp (holds (Handle cont)) k (λ _ t, t = holds (Handle cont)) →
  wp (holds (Handle cont)) (checked_err op k) (λ _ t, t = holds (Handle cont)).
Proof. intros Hw Hd Hk. apply wp_checked_err; [by intros c ->%Hw|done..]. Qed.

Lemma wp_conn_message t p (Q : option unit → tstate → Prop) :
  Q (Some ()) t → wp t (conn_message p) Q.
Proof.
  intros HQ. unfold conn_message. destruct (Encode _ _); [|done]. apply wp_act; [done|]. by intros [].
Qed.

Lemma wp_streamProcess t process stdin (Q : option unit → tstate → Prop) :
  Q (Some ()) t → wp t (streamProcess process stdin) Q.
Proof.
  intros HQ. unfold streamProcess. wp_go. destruct r as [st|e| |]; [| |done..].
  - apply wp_bind, wp_conn_message, wp_act; [done|]. by intros [].
  - apply wp_bind, wp_conn_message, wp_act; [done|]. by intros [].
Qed.

Lemma wp_serve_process t status process o e i (Q : option unit → tstate → Prop) :
  (∀ o', Q o' t) → wp t (serve_process status process o e i) Q.
Proof.
  intros HQ. unfold serve_process. wp_go. apply wp_defer.
  assert (∀ o', wp t (stream_stop r) (λ o'' h', match o'' with Some _ => Q o' h' | None => Q None h' end)) as Hd.
  { intros o'. unfold stream_stop. wp_go. destruct r0; apply HQ. }
  wp_go. destruct r2 as [err|].
  - apply wp_bind, wp_writeError, wp_act; [done|]. intros x. apply Hd.
  - apply wp_defer, wp_bind, wp_conn_message, wp_bind, wp_act; [done|]. intros _. apply wp_streamProcess.
    apply wp_act; [done|]. intros x. apply Hd.
Qed.

(** Entering and leaving the destroys map. *)
Definition marks (h : string) : tstate := mk_tstate None false None (Some h).

Lemma wp_begin_destroy handle (Q : option bool → tstate → Prop) :
  Q (Some true) idle → Q (Some false) (marks handle) → wp idle (begin_destroy handle) Q.
Proof.
  intros HQ HQ'. unfold begin_destroy. apply wp_bind. split; [done|]. intros [] _.
  apply wp_bind. split; [done|]. intros b _. apply wp_bind. destruct b.
  - apply wp_bind. split; [done|]. by intros [] _.
  - split; [done|]. intros [] _. apply wp_bind. split; [done|]. by intros [] _.
Qed.

Lemma wp_end_destroy handle (Q : option unit → tstate → Prop) :
  Q (Some ()) idle → wp (marks handle) (end_destroy handle) Q.
Proof.
  intros HQ. unfold end_destroy. apply wp_bind. split; [done|]. intros [] _. apply wp_bind. split; [done|].
  intros [] _. split; [done|]. by intros [] _.
Qed.

Lemma wp_destroy handle (Q : option (option error) → tstate → Prop) :
  (∀ r, Q (Some r) (marks handle)) → wp (marks handle) (act (Call (Destroy handle))) Q.
Proof. intros HQ. split; [done|]. intros r _. apply HQ. Qed.

Ltac container_handler :=
  repeat first
    [ apply wp_readRequest; [intros ?|done]
    | apply wp_with_container; [intros ?|done]
    | apply wp_op_held; [by intros ? [= <-]|reflexivity|intros ?]
    | apply wp_err_held; [by intros ? [= <-]|reflexivity|]
    | apply wp_write_held ].

Lemma follows_Run r : follows idle (handleRun r).
Proof.
  unfold handleRun. apply wp_readRequest; [intros spec|done]. apply wp_with_container; [intros c|done].
  wp_go. apply wp_call; [by intros ? [= ->]|done|]. intros [p|err]; [by apply wp_serve_process|].
  apply wp_bind, wp_writeError, wp_act; done.
Qed.

Lemma follows_Attach r : follows idle (handleAttach r).
Proof.
  unfold handleAttach. apply wp_with_container; [intros c|done].
  wp_go. apply wp_call; [by intros ? [= ->]|done|]. intros [p|err]; [by apply wp_serve_process|].
  apply wp_bind, wp_writeError, wp_act; done.
Qed.

Lemma follows_StreamOut r : follows idle (handleStreamOut r).
Proof.
  unfold handleStreamOut. apply wp_with_container; [intros c|done].
  apply wp_op_held; [by intros ? [= <-]|done|]. intros rd. apply wp_bind.
  assert (∀ Q : option unit → tstate → Prop, Q (Some ()) (holds (Handle c)) → wp (holds (Handle c)) (copy rd) Q) as Hc.
  { intros Q HQ. unfold copy. destruct (rd_data rd); [done|]. apply wp_act; [done|]. by intros []. }
  apply Hc. destruct (rd_err rd) as [err|]; [|done]. apply wp_bind, wp_call; [done|done|]. intros _.
  destruct (bool_decide _); [by apply wp_writeError|done].
Qed.

Lemma follows_Destroy r : follows idle (handleDestroy r).
Proof.
  unfold handleDestroy. apply wp_bind, wp_begin_destroy; [by apply wp_writeError|].
  apply wp_bind, wp_destroy. intros err. apply wp_bind, wp_end_destroy.
  destruct err; [by apply wp_writeError|]. apply wp_bind, wp_bomb; [done|done|]. by apply wp_writeResponse.
Qed.

Lemma follows_Create g r : follows idle (handleCreate g r).
Proof.
  unfold handleCreate. apply wp_readRequest; [intros spec|done]. apply wp_checked; [done|done| |done].
  intros c. apply wp_bind, wp_bomb; [done|done|]. by apply wp_writeResponse.
Qed.

Lemma follows_SetGraceTime r : follows idle (handleSetGraceTime r).
Proof.
  unfold handleSetGraceTime. apply wp_readRequest; [intros g|done]. apply wp_checked; [done|done| |done].
  intros c. apply wp_bind, wp_call; [done|done|]. intros _. apply wp_bind, wp_bomb; [done|done|].
  by apply wp_writeResponse.
Qed.

Lemma follows_ServeHTTP b r : follows idle (HandlerFunc_ServeHTTP b r).
Proof.
  unfold HandlerFunc_ServeHTTP. apply wp_bind, wp_act; [done|]. intros _.
  apply wp_bind, wp_act; [done|]. intros [err|]; [by apply wp_act|]. apply wp_defer, wp_act; [done|].
  intros _. by apply wp_act.
Qed.

Lemma follows_query_handles r (k : slice string → program) :
  (∀ hs, follows idle (k hs)) → follows idle (query_handles r k).
Proof.
  intros Hk. unfold query_handles. destruct (_ !! _) as [[|v vs]|]; [done| |done]. apply Hk.
Qed.

Lemma follows_Ping r : follows idle (handlePing r).
Proof. apply wp_checked_err; [done|done| |done]. by apply wp_writeResponse. Qed.
Lemma follows_Capacity r : follows idle (handleCapacity r).
Proof. apply wp_checked; [done|done| |done]. intros ?. by apply wp_writeResponse. Qed.
Lemma follows_List r : follows idle (handleList r).
Proof. apply wp_checked; [done|done| |done]. intros ?. by apply wp_writeResponse. Qed.
Lemma follows_NetIn r : follows idle (handleNetIn r).
Proof.
  unfold handleNetIn. apply wp_readRequest; [intros q|done]. apply wp_with_container; [intros c|done].
  apply wp_op_held; [by intros ? [= <-]|done|]. intros [hp cp]. apply wp_write_held.
Qed.
Lemma follows_BulkInfo r : follows idle (handleBulkInfo r).
Proof.
  apply follows_query_handles. intros hs. apply wp_checked; [done|done| |done]. intros ?. by apply wp_writeResponse.
Qed.
Lemma follows_BulkMetrics r : follows idle (handleBulkMetrics r).
Proof.
  apply follows_query_handles. intros hs. apply wp_checked; [done|done| |done]. intros ?. by apply wp_writeResponse.
Qed.
Lemma follows_Stop r : follows idle (handleStop r).
Proof. unfold follows, handleStop. container_handler. Qed.
Lemma follows_Info r : follows idle (handleInfo r).
Proof. unfold follows, handleInfo. container_handler. Qed.
Lemma follows_StreamIn r : follows idle (handleStreamIn r).
Proof. unfold follows, handleStreamIn. container_handler. Qed.
Lemma follows_CurrentBandwidthLimits r : follows idle (handleCurrentBandwidthLimits r).
Proof. unfold follows, handleCurrentBandwidthLimits. container_handler. Qed.
Lemma follows_CurrentCPULimits r : follows idle (handleCurrentCPULimits r).
Proof. unfold follows, handleCurrentCPULimits. container_handler. Qed.
Lemma follows_CurrentDiskLimits r : follows idle (handleCurrentDiskLimits r).
Proof. unfold follows, handleCurrentDiskLimits. container_handler. Qed.
Lemma follows_CurrentMemoryLimits r : follows idle (handleCurrentMemoryLimits r).
Proof. unfold follows, handleCurrentMemoryLimits. container_handler. Qed.
Lemma follows_NetOut r : follows idle (handleNetOut r).
Proof. unfold follows, handleNetOut. container_handler. Qed.
Lemma follows_BulkNetOut r : follows idle (handleBulkNetOut r).
Proof. unfold follows, handleBulkNetOut. container_handler. Qed.
Lemma follows_Metrics r : follows idle (handleMetrics r).
Proof. unfold follows, handleMetrics. container_handler. Qed.
Lemma follows_Properties r : follows idle (handleProperties r).
Proof. unfold follows, handleProperties. container_handler. Qed.
Lemma follows_Property r : follows idle (handleProperty r).
Proof. unfold follows, handleProperty. container_handler. Qed.
Lemma follows_SetProperty r : follows idle (handleSetProperty r).
Proof. unfold follows, handleSetProperty. container_handler. Qed.
Lemma follows_RemoveProperty r : follows idle (handleRemoveProperty r).
Proof. unfold follows, handleRemoveProperty. container_handler. Qed.

Lemma handlers_follow g name h r : handlers g name = Some h → follows idle (h r).
Proof.
  unfold handlers. intros Hh.
  destruct (decide _); [injection Hh as <-; exact (follows_Ping r)|].
  destruct (decide _); [injection Hh as <-; exact (follows_Capacity r)|].
  destruct (decide _); [injection Hh as <-; exact (follows_Create g r)|].
  destruct (decide _); [injection Hh as <-; exact (follows_Destroy r)|].
  destruct (decide _); [injection Hh as <-; exact (follows_List r)|].
  destruct (decide _); [injection Hh as <-; exact (follows_Stop r)|].
  destruct (decide _); [injection Hh as <-; exact (follows_StreamIn r)|].
  destruct (decide _); [injection Hh as <-; exact (follows_StreamOut r)|].
  destruct (decide _); [injection Hh as <-; exact (follows_CurrentBandwidthLimits r)|].
  destruct (decide _); [injection Hh as <-; exact (follows_CurrentCPULimits r)|].
  destruct (decide _); [injection Hh as <-; exact (follows_CurrentDiskLimits r)|].
  destruct (decide _); [injection Hh as <-; exact (follows_CurrentMemoryLimits r)|].
  destruct (decide _); [injection Hh as <-; exact (follows_NetIn r)|].
  destruct (decide _); [injection Hh as <-; exact (follows_NetOut r)|].
  destruct (decide _); [injection Hh as <-; exact (follows_BulkNetOut r)|].
  destruct (decide _); [injection Hh as <-; exact (follows_Info r)|].
  destruct (decide _); [injection Hh as <-; exact (follows_BulkInfo r)|].
  destruct (decide _); [injection Hh as <-; exact (follows_BulkMetrics r)|].
  destruct (decide _); [injection Hh as <-; exact (follows_Run r)|].
  destruct (decide _); [injection Hh as <-; exact (follows_ServeHTTP _ r)|].
  destruct (decide _); [injection Hh as <-; exact (follows_ServeHTTP _ r)|].
  destruct (decide _); [injection Hh as <-; exact (follows_Attach r)|].
  destruct (decide _); [injection Hh as <-; exact (follows_Metrics r)|].
  destruct (decide _); [injection Hh as <-; exact (follows_Properties r)|].
  destruct (decide _); [injection Hh as <-; exact (follows_Property r)|].
  destruct (decide _); [injection Hh as <-; exact (follows_SetProperty r)|].
  destruct (decide _); [injection Hh as <-; exact (follows_RemoveProperty r)|].
  destruct (decide _); [injection Hh as <-; exact (follows_SetGraceTime r)|].
  done.
Qed.

Lemma follows_detonated c : follows idle (detonated c).
Proof.
  unfold detonated, reapContainer. apply wp_bind, wp_bind, wp_begin_destroy; [by apply wp_bomb|].
  apply wp_bind, wp_destroy. intros _. apply wp_end_destroy. by apply wp_bomb.
Qed.

(** ** The system *)

(** The message an action sends to the bomberman. *)
Definition message_of {R} (e : eff (C := C) (P := P) R) : option (Bomberman.message (C := C)) :=
  match e with Bomb m => Some m | _ => None end.

Abbreviation state := (GardenServer C B * list (thread (C := C) (P := P)))%type.

(** One step, with the message the bomberman served in it: a goroutine acts, a
    request arrives and is given to its handler, time passes, or the runtime
    runs the callback of a timer in a goroutine of its own. *)
Inductive sys_step : state → option (Bomberman.message (C := C)) → state → Prop :=
| step_act (x : env P) s ts i R (e : eff R) k w r s' w' :
    ts !! i = Some (Act e k, w) → perform x e s w = Done r s' w' →
    sys_step (s, ts) (message_of e) (s', <[i := (k r, w')]> ts)
| step_request s ts name h r :
    handlers (containerGraceTime s) name = Some h →
    sys_step (s, ts) None (s, ts ++ [(h r, new_response)])
| step_time s ts d : (0 ≤ d)%Z → sys_step (s, ts) None (set_now (now s + d) s, ts)
| step_explode s ts b p i c b' :
    bomberman s = Some b → Bomberman.explode (now s) p i b = Some (c, b') →
    sys_step (s, ts) None (set_bomberman (Some b') s, ts ++ [(detonated c, new_response)]).

(** A run, with the messages served in it, and its number of steps. *)
Inductive sys_run : nat → state → list (Bomberman.message (C := C)) → state → Prop :=
| run_nil st : sys_run 0 st [] st
| run_step n st m st' ms st'' :
    sys_step st m st' → sys_run n st' ms st'' → sys_run (S n) st (option_list m ++ ms) st''.

(** ** Holding a container *)
Definition holding (hd : string) : list (option string) → nat := count (λ h, bool_decide (h = Some hd)).

Lemma holding_insert hd helds i held held' :
  helds !! i = Some held →
  (holding hd (<[i := held']> helds) + (if decide (held = Some hd) then 1 else 0) =
   holding hd helds + (if decide (held' = Some hd) then 1 else 0))%nat.
Proof.
  intros Hi. pose proof (count_insert (λ h, bool_decide (h = Some hd)) helds i held held' Hi) as Hc. cbn beta in Hc.
  rewrite !bool_decide_decide in Hc. unfold holding. destruct (decide (held = _)), (decide (held' = _)); done.
Qed.

Lemma holding_new hd l : holding hd (l ++ [None]) = holding hd l.
Proof. unfold holding. rewrite count_snoc, bool_decide_false by done. lia. Qed.

Lemma holding_pos hd helds i : helds !! i = Some (Some hd) → (0 < holding hd helds)%nat.
Proof. intros Hi. apply (count_pos _ _ i (Some hd) Hi). by apply bool_decide_true. Qed.

(** The goroutines follow the protocol, each from its own state. *)
Abbreviation all_follow := (Forall2 (λ (th : thread (C := C) (P := P)) t, follows t th.1)).

(** In a state with [n] events behind it the bomberman counts, for the handle
    [hd], the goroutines that hold it. *)
Definition counted (hd : string) (n : Z) (st : state) : Prop :=
  ∃ b t tts, bomberman st.1 = Some b ∧ Bomberman.wf Handle n b ∧ Bomberman.reaches Handle hd b ∧
    Bomberman.abs b !! hd = Some t ∧ Bomberman.tr_holds t = Z.of_nat (holding hd (t_held <$> tts)) ∧
    all_follow st.2 tts.

Lemma perform_bomberman x {R} (e : eff R) s w r s' w' :
  perform x e s w = Done r s' w' →
  bomberman s' = match e with
                 | Bomb m => Bomberman.manageBombs Handle (now s) (GraceTime (backend s)) m <$> bomberman s
                 | _ => bomberman s
                 end.
Proof.
  unfold perform, on_streamer. destruct e; intros Hp; repeat case_hyp Hp; simplify_eq; done.
Qed.

(** What following the protocol says of the next action. *)
Lemma follows_act x {R} (e : eff R) (k : R → program) t s w r s' w' :
  follows t (Act e k) → perform x e s w = Done r s' w' → is_Some (bomberman s) →
  allow e t ∧ follows (next e r t) (k r).
Proof.
  intros [Ha Hf] Hp [bm Hb]. split; [done|]. apply Hf. destruct e; try done.
  cbn in *. rewrite Hb in Hp. by injection Hp.
Qed.

Lemma holds_step hd n now gt m b t (k : nat) :
  Bomberman.wf Handle n b → (0 ≤ n < maxint64)%Z → Bomberman.gentle Handle hd m →
  Bomberman.abs b !! hd = Some t → Bomberman.tr_holds t = Z.of_nat k →
  (m = Bomberman.MUnpause hd → (0 < k)%nat) →
  ∃ t', Bomberman.abs (Bomberman.manageBombs Handle now gt m b) !! hd = Some t' ∧
    Bomberman.tr_holds t' = match m with
      | Bomberman.MPause h => if decide (h = hd) then Z.of_nat k + 1 else Z.of_nat k
      | Bomberman.MUnpause h => if decide (h = hd) then Z.of_nat k - 1 else Z.of_nat k
      | _ => Z.of_nat k
      end%Z.
Proof.
  intros Hwf Hn Hg Ht Hk Hpos. rewrite (Bomberman.manageBombs_abs _ n) by done.
  assert (Z.of_nat k ≤ n)%Z as Hle.
  { rewrite Bomberman.abs_lookup in Ht. destruct (Bomberman.timeBombs b !! hd) as [p|]; [|done].
    cbn in Ht. destruct (Bomberman.heap b !! p) as [c|] eqn:Hc; [|done]. injection Ht as <-.
    destruct (Bomberman.wf_cell _ _ _ Hwf _ _ Hc) as [Hinv _]. pose proof (Timebomb.inv_pauses _ _ Hinv).
    cbn in Hk. lia. }
  destruct m as [[c|h|c]|h|h|h]; cbn in *.
  - rewrite lookup_insert_ne by done. eauto.
  - rewrite lookup_delete_ne by done. eauto.
  - destruct (decide (Handle c = hd)) as [->|Hne]; [|rewrite lookup_alter_ne by done; eauto].
    rewrite lookup_alter_eq, Ht. eexists. split; [done|]. by destruct (_ || _).
  - destruct (decide (h = hd)) as [->|Hne]; [|rewrite lookup_alter_ne by done; eauto].
    rewrite lookup_alter_eq, Ht. eexists. split; [done|]. cbn. rewrite Hk, wraps_small; [done|].
    unfold minint64, maxint64 in *. lia.
  - destruct (decide (h = hd)) as [->|Hne]; [|rewrite lookup_alter_ne by done; eauto].
    rewrite lookup_alter_eq, Ht. eexists. split; [done|]. specialize (Hpos eq_refl).
    assert (wraps 64 (Bomberman.tr_holds t - 1) = (Z.of_nat k - 1)%Z) as Hw.
    { rewrite Hk, wraps_small; [done|]. unfold minint64, maxint64 in *. lia. }
    cbn. by destruct (_ && _).
  - rewrite lookup_delete_ne by done. eauto.
Qed.

Lemma counted_act hd n x s ts i {R} (e : eff R) (k : R → program) w r s' w' :
  counted hd n (s, ts) → (0 ≤ n < maxint64)%Z →
  ts !! i = Some (Act e k, w) → perform x e s w = Done r s' w' →
  (∀ m, message_of e = Some m → Bomberman.gentle Handle hd m) →
  counted hd (n + 1) (s', <[i := (k r, w')]> ts).
Proof.
  intros (b & t & tts & Hb & Hwf & Hr & Ht & Hk & Hth) Hn Hi Hp Hg. cbn [fst snd] in *.
  destruct (Forall2_lookup_l _ _ _ _ _ Hth Hi) as (tt & Htt & Hf). cbn in Hf.
  destruct (follows_act x e k tt s w r s' w' Hf Hp ltac:(by eexists)) as (Ha & Hf').
  pose proof (perform_bomberman _ _ _ _ _ _ _ Hp) as Hb'.
  assert ((t_held <$> tts) !! i = Some (t_held tt)) as Hheld by (by rewrite list_lookup_fmap, Htt).
  pose proof (holding_insert hd (t_held <$> tts) i _ (t_held (next e r tt)) Hheld) as Hcount.
  rewrite <- list_fmap_insert in Hcount.
  assert (all_follow (<[i := (k r, w')]> ts) (<[i := next e r tt]> tts)) as Hth' by (by apply Forall2_insert).
  destruct (message_of e) as [m|] eqn:Hme.
  - destruct e; try done. injection Hme as ->. rewrite Hb in Hb'. cbn in Hb'.
    destruct (holds_step hd n (now s) (GraceTime (backend s)) m b t (holding hd (t_held <$> tts))) as (t' & Ht' & Hk');
      [done..|by apply Hg|done|done| |].
    { intros ->. cbn in Ha. eapply holding_pos. by rewrite Hheld, Ha. }
    exists (Bomberman.manageBombs Handle (now s) (GraceTime (backend s)) m b), t', (<[i := next (Bomb m) r tt]> tts).
    split_and!; [done|by apply Bomberman.manageBombs_wf|by eapply Bomberman.manageBombs_reaches, Hr; [|apply Hg]|done| |done].
    rewrite Hk'. destruct m as [| | |]; cbn in *; rewrite ?Ha in Hcount; repeat case_decide; simplify_eq; lia.
  - exists b, t, (<[i := next e r tt]> tts).
    assert (t_held (next e r tt) = t_held tt) as Hsame by (by destruct e).
    split_and!; [|by apply (Bomberman.wf_mono _ n); [lia|]|done|done| |done].
    + cbn [fst]. rewrite Hb'. by destruct e.
    + rewrite Hk. rewrite Hsame in Hcount. lia.
Qed.

(** An explosion leaves the count of every handle. *)
Lemma explode_holds n now p i b c b' hd t :
  Bomberman.wf Handle n b → Bomberman.explode now p i b = Some (c, b') →
  Bomberman.abs b !! hd = Some t →
  ∃ t', Bomberman.abs b' !! hd = Some t' ∧ Bomberman.tr_holds t' = Bomberman.tr_holds t.
Proof.
  intros Hwf (tb & ts & tm & Hp & Hi & Ha & _ & -> & ->)%Bomberman.explode_Some.
  rewrite !Bomberman.abs_lookup. cbn. destruct (Bomberman.timeBombs b !! hd) as [q|] eqn:Hq; [|done]. cbn.
  destruct (decide (q = p)) as [->|Hne]; [|rewrite list_lookup_insert_ne by done; eauto].
  rewrite Hp, list_lookup_insert_eq by (by eapply lookup_lt_Some). cbn. intros [= <-]. by eexists.
Qed.

Lemma counted_step hd n st m st' :
  counted hd n st → (0 ≤ n < maxint64)%Z → sys_step st m st' →
  (∀ m', m = Some m' → Bomberman.gentle Handle hd m') → counted hd (n + 1) st'.
Proof.
  intros Hc Hn Hs Hg. destruct Hs as [x s ts i R e k w r s' w' Hi Hp|s ts name h r Hh|s ts d Hd|s ts b p i c b' Hb He].
  - by eapply counted_act.
  - destruct Hc as (b & t & tts & Hb & Hwf & Hr & Ht & Hk & Hth). exists b, t, (tts ++ [idle]).
    split_and!; [done|by apply (Bomberman.wf_mono _ n); [lia|]|done|done| |].
    + rewrite fmap_app. cbn [fmap list_fmap t_held idle]. rewrite holding_new. lia.
    + apply Forall2_app; [done|]. constructor; [|done]. by eapply handlers_follow.
  - destruct Hc as (b & t & tts & Hb & Hwf & Hr & Ht & Hk & Hth). exists b, t, tts.
    split_and!; [done|by apply (Bomberman.wf_mono _ n); [lia|]|done..].
  - destruct Hc as (b0 & t & tts & Hb0 & Hwf & Hr & Ht & Hk & Hth). cbn in Hb0. simplify_eq.
    destruct (explode_holds n _ _ _ _ _ _ hd t Hwf He Ht) as (t' & Ht' & Hk').
    exists b', t', (tts ++ [idle]). split_and!; [done| | |done| |].
    + apply (Bomberman.wf_mono _ n); [lia|]. by eapply Bomberman.explode_wf.
    + by eapply Bomberman.explode_reaches.
    + rewrite fmap_app. cbn [fmap list_fmap t_held idle]. rewrite holding_new. lia.
    + apply Forall2_app; [done|]. constructor; [|done]. apply follows_detonated.
Qed.

Lemma counted_run hd n k st ms st' :
  counted hd n st → (0 ≤ n)%Z → (n + Z.of_nat k ≤ maxint64)%Z → sys_run k st ms st' →
  Forall (Bomberman.gentle Handle hd) ms → counted hd (n + Z.of_nat k) st'.
Proof.
  intros Hc Hn Hle Hrun Hg. revert n Hc Hn Hle. induction Hrun as [st|k st m st1 ms st2 Hs Hrun IH]; intros n Hc Hn Hle.
  { by rewrite Z.add_0_r. }
  apply Forall_app in Hg as [Hg1 Hg2].
  replace (n + Z.of_nat (S k))%Z with (n + 1 + Z.of_nat k)%Z by lia. apply IH; [done| |lia|lia].
  eapply counted_step; [done|lia|done|]. intros m' ->. by apply Forall_cons in Hg1 as [? _].
Qed.

(** ** Destroying a container *)
Lemma holding_unique hd l i j :
  (holding hd l ≤ 1)%nat → l !! i = Some (Some hd) → l !! j = Some (Some hd) → i = j.
Proof.
  intros Hle Hi Hj. eapply (count_unique (λ h, bool_decide (h = Some hd)) l i j (Some hd) (Some hd)); try done;
    by apply bool_decide_true.
Qed.

Lemma holding_zero hd l : (∀ x, x ∈ l → x = None) → holding hd l = 0%nat.
Proof. intros Hl. apply count_zero. by intros x ->%Hl. Qed.

(** Who has the lock of the destroys map. *)
Definition lock_token (t : tstate) : option string := if t_lock t then Some "" else None.

(** The lock and the marks of the destroys map are those of the goroutines, and
    what a goroutine with the lock has seen not to be marked is not. *)
Record exclusive (s : GardenServer C B) (tts : list tstate) : Prop := {
  ex_bomberman : is_Some (bomberman s);
  ex_lock : holding "" (lock_token <$> tts) = if destroysL s then 1%nat else 0%nat;
  ex_mark h : holding h (t_mark <$> tts) = if decide (h ∈ destroys s) then 1%nat else 0%nat;
  ex_free i t h : tts !! i = Some t → t_free t = Some h → t_lock t = true ∧ h ∉ destroys s;
}.

(** The other goroutines do not have the lock when this one has it. *)
Lemma exclusive_alone s tts i j t t1 h :
  exclusive s tts → tts !! i = Some t → t_lock t = true →
  tts !! j = Some t1 → t_free t1 = Some h → j = i.
Proof.
  intros [_ Hl _ Hf] Hi Ht Hj Hfree. destruct (Hf _ _ _ Hj Hfree) as [Hlk _].
  apply (holding_unique "" (lock_token <$> tts)).
  - rewrite Hl. by destruct (destroysL s); lia.
  - rewrite list_lookup_fmap, Hj. cbn. unfold lock_token. by rewrite Hlk.
  - rewrite list_lookup_fmap, Hi. cbn. unfold lock_token. by rewrite Ht.
Qed.

Lemma exclusive_locked s tts i t :
  exclusive s tts → tts !! i = Some t → t_lock t = true → destroysL s = true.
Proof.
  intros [_ Hl _ _] Hi Ht. assert ((lock_token <$> tts) !! i = Some (Some "")) as Hp%holding_pos.
  { rewrite list_lookup_fmap, Hi. cbn. unfold lock_token. by rewrite Ht. }
  destruct (destroysL s); [done|lia].
Qed.

Lemma lock_token_count t : (if decide (lock_token t = Some "") then 1 else 0)%nat = Nat.b2n (t_lock t).
Proof. destruct t as [? [] ? ?]; by case_decide. Qed.

(** One goroutine moves. *)
Lemma exclusive_move s s' tts i t t' :
  exclusive s tts → tts !! i = Some t → is_Some (bomberman s') →
  (Nat.b2n (destroysL s') + Nat.b2n (t_lock t) = Nat.b2n (destroysL s) + Nat.b2n (t_lock t'))%nat →
  (∀ h, (if decide (h ∈ destroys s') then 1 else 0) + (if decide (t_mark t = Some h) then 1 else 0) =
        (if decide (h ∈ destroys s) then 1 else 0) + (if decide (t_mark t' = Some h) then 1 else 0))%nat →
  (∀ h, t_free t' = Some h → t_lock t' = true ∧ h ∉ destroys s') →
  (t_lock t = true ∨ destroys s' = destroys s) →
  exclusive s' (<[i := t']> tts).
Proof.
  intros Hex Hi Hb' HL HD Hfree Hor. pose proof Hex as [Hb Hl Hm Hf].
  assert (∀ {f : tstate → option string}, (f <$> tts) !! i = Some (f t)) as Hfi
    by (intros f; by rewrite list_lookup_fmap, Hi).
  split; [done|..].
  - pose proof (holding_insert "" _ i _ (lock_token t') (Hfi lock_token)) as Hc.
    rewrite <- list_fmap_insert, Hl, !lock_token_count in Hc.
    destruct (destroysL s), (destroysL s'); cbn in *; lia.
  - intros h. pose proof (holding_insert h _ i _ (t_mark t') (Hfi t_mark)) as Hc.
    rewrite <- list_fmap_insert, Hm in Hc. specialize (HD h). lia.
  - intros j t1 h Hj Ht1. destruct (decide (i = j)) as [<-|Hne].
    + rewrite list_lookup_insert_eq in Hj by (by eapply lookup_lt_Some). simplify_eq. by apply Hfree.
    + rewrite list_lookup_insert_ne in Hj by done. destruct Hor as [Hlk| ->]; [|by eapply Hf].
      by destruct (Hne (eq_sym (exclusive_alone _ _ _ _ _ _ _ Hex Hi Hlk Hj Ht1))).
Qed.

(** An action that concerns neither the lock nor the marks. *)
Lemma exclusive_same s s' tts i t t' :
  exclusive s tts → tts !! i = Some t → is_Some (bomberman s') →
  destroysL s' = destroysL s → destroys s' = destroys s →
  t_lock t' = t_lock t → t_free t' = t_free t → t_mark t' = t_mark t →
  exclusive s' (<[i := t']> tts).
Proof.
  intros Hex Hi Hb' HL HD Htl Htf Htm. eapply exclusive_move; [done..| | | |by right].
  - by rewrite HL, Htl.
  - intros h. by rewrite HD, Htm.
  - intros h. rewrite Htf, Htl, HD. intros Hh. by eapply ex_free.
Qed.

Lemma union_other (x y : string) (X : gset string) : x ≠ y → x ∈ {[y]} ∪ X ↔ x ∈ X.
Proof. rewrite elem_of_union, elem_of_singleton. tauto. Qed.

Lemma difference_other (x y : string) (X : gset string) : x ≠ y → x ∈ X ∖ {[y]} ↔ x ∈ X.
Proof. rewrite elem_of_difference, elem_of_singleton. tauto. Qed.

Lemma exclusive_act x s tts i t {R} (e : eff R) w r s' w' :
  exclusive s tts → tts !! i = Some t → allow e t → perform x e s w = Done r s' w' →
  exclusive s' (<[i := next e r t]> tts).
Proof.
  intros Hex Hi Ha Hp. pose proof (perform_bomberman _ _ _ _ _ _ _ Hp) as Hb'.
  assert (is_Some (bomberman s')) as Hb.
  { rewrite Hb'. destruct e; try apply Hex. by apply fmap_is_Some, Hex. }
  clear Hb'. unfold perform, on_streamer in Hp.
  destruct e as [? ?|m| | |hd|hd|hd| | | | | | | | | | | | | |]; try (repeat case_hyp Hp; simplify_eq; by eapply exclusive_same); cbn in Ha.
  - repeat case_hyp Hp; simplify_eq; by destruct m; eapply exclusive_same.
  - destruct (destroysL s) eqn:HL; simplify_eq. eapply exclusive_move; [done..| | | |by right]; cbn.
    + by rewrite HL, Ha.
    + done.
    + done.
  - destruct (destroysL s) eqn:HL; simplify_eq. eapply exclusive_move; [done..| | | |by right]; cbn.
    + by rewrite HL, Ha.
    + done.
    + done.
  - simplify_eq. eapply exclusive_move; [done..| | | |by right]; cbn; [done..|].
    intros h'. case_bool_decide; intros [= <-]; by rewrite Ha.
  - destruct Ha as (Hlk & Hfr & Hmk). injection Hp as <- <- <-. eapply exclusive_move; [done..| | | |by left]; cbn; [done| |done].
    destruct (ex_free _ _ Hex _ _ _ Hi Hfr) as [_ Hnot].
    intros h'. rewrite Hmk. destruct (decide (h' = hd)) as [->|Hne].
    + rewrite decide_True, decide_False, decide_False, decide_True by (done || set_solver); done.
    + rewrite (decide_ext _ _ _ _ (union_other h' hd (destroys s) Hne)).
      by rewrite (decide_False (P := Some hd = Some h')) by congruence.
  - destruct Ha as (Hlk & Hmk). injection Hp as <- <- <-. eapply exclusive_move; [done..| | | |by left]; cbn; [done| |done].
    assert (hd ∈ destroys s) as Hin.
    { assert ((t_mark <$> tts) !! i = Some (Some hd)) as Hpos%holding_pos by (by rewrite list_lookup_fmap, Hi; cbn; rewrite Hmk).
      rewrite (ex_mark _ _ Hex) in Hpos. by case_decide; [|lia]. }
    intros h'. rewrite Hmk. destruct (decide (h' = hd)) as [->|Hne].
    + rewrite decide_False by (rewrite elem_of_difference, elem_of_singleton; tauto).
      by rewrite decide_True, decide_True, decide_False by done.
    + rewrite (decide_ext _ _ _ _ (difference_other h' hd (destroys s) Hne)).
      by rewrite (decide_False (P := Some hd = Some h')) by congruence.
Qed.

(** A new goroutine has nothing. *)
Lemma exclusive_new s tts : exclusive s tts → exclusive s (tts ++ [idle]).
Proof.
  intros [Hb Hl Hm Hf]. split; [done|..].
  - by rewrite fmap_app; cbn [fmap list_fmap lock_token t_lock idle]; rewrite holding_new.
  - intros h. by rewrite fmap_app; cbn [fmap list_fmap t_mark idle]; rewrite holding_new.
  - intros i t h [Hi|[_ Hi]]%lookup_app_Some; [by eapply Hf|].
    apply list_lookup_singleton_Some in Hi as [_ <-]. done.
Qed.

Lemma exclusive_server s s' tts :
  exclusive s tts → is_Some (bomberman s') → destroysL s' = destroysL s → destroys s' = destroys s →
  exclusive s' tts.
Proof. intros [Hb Hl Hm Hf] Hb' HL HD. by split; rewrite ?HL, ?HD. Qed.

Definition mutex (st : state) : Prop := ∃ tts, exclusive st.1 tts ∧ all_follow st.2 tts.

Lemma mutex_step st m st' : mutex st → sys_step st m st' → mutex st'.
Proof.
  intros (tts & Hex & Hth) Hs.
  destruct Hs as [x s ts i R e k w r s' w' Hi Hp|s ts name h r Hh|s ts d Hd|s ts b p i c b' Hb He]; cbn [fst snd] in *.
  - destruct (Forall2_lookup_l _ _ _ _ _ Hth Hi) as (t & Ht & Hf).
    destruct (follows_act x e k t s w r s' w' Hf Hp (ex_bomberman _ _ Hex)) as (Ha & Hf').
    exists (<[i := next e r t]> tts). split; [by eapply exclusive_act|]. by apply Forall2_insert.
  - exists (tts ++ [idle]). split; [by apply exclusive_new|]. apply Forall2_app; [done|].
    constructor; [|done]. by eapply handlers_follow.
  - exists tts. split; [|done]. eapply exclusive_server; [done|apply Hex|done..].
  - exists (tts ++ [idle]). split.
    + apply exclusive_new. by eapply exclusive_server.
    + apply Forall2_app; [done|]. constructor; [|done]. apply follows_detonated.
Qed.

Lemma mutex_run k st ms st' : mutex st → sys_run k st ms st' → mutex st'.
Proof. intros Hm Hrun. induction Hrun; [done|]. eauto using mutex_step. Qed.

Lemma mutex_initial s : is_Some (bomberman s) → destroysL s = false → destroys s = ∅ → mutex (s, []).
Proof.
  intros Hb HL HD. exists []. split; [|constructor]. split; cbn [fst]; [done|by rewrite HL| |done].
  intros h. by rewrite HD, decide_False by set_solver.
Qed.

(** C7 At most one goroutine destroys a container at a time, whether it serves a
    destroy request or reaps an expired container: from a server with nothing
    being destroyed, after any run in which any number of requests and expired
    timers interleave, two goroutines about to call [Destroy] with the same
    handle are the same goroutine. *)
Theorem destroy_exclusive (k : nat) (s0 s : GardenServer C B) (ts : list thread)
    (ms : list (Bomberman.message (C := C))) (hd : string) (i j : nat)
    (ki kj : option error → program) (wi wj : response)
    (Hb0 : is_Some (bomberman s0)) (HL0 : destroysL s0 = false) (HD0 : destroys s0 = ∅)
    (Hrun : sys_run k (s0, []) ms (s, ts))
    (Hi : ts !! i = Some (Act (Call (Destroy hd)) ki, wi))
    (Hj : ts !! j = Some (Act (Call (Destroy hd)) kj, wj)) :
  i = j.
Proof.
  destruct (mutex_run _ _ _ _ (mutex_initial s0 Hb0 HL0 HD0) Hrun) as (tts & Hex & Hth). cbn in *.
  destruct (Forall2_lookup_l _ _ _ _ _ Hth Hi) as (ti & Hti & [[_ Hmi] _]).
  destruct (Forall2_lookup_l _ _ _ _ _ Hth Hj) as (tj & Htj & [[_ Hmj] _]). cbn in *.
  apply (holding_unique hd (t_mark <$> tts)).
  - rewrite (ex_mark _ _ Hex). by case_decide; lia.
  - by rewrite list_lookup_fmap, Hti; cbn; rewrite Hmi.
  - by rewrite list_lookup_fmap, Htj; cbn; rewrite Hmj.
Qed.

(** A goroutine that has returned or panicked. *)
Definition ended (th : thread (C := C) (P := P)) : bool :=
  match th.1 with Act _ _ => false | _ => true end.

(** C17 The handlers leave nothing behind: in whatever order any number of
    requests and reaped containers interleave, once every goroutine has returned
    (or panicked) the lock of the destroys map is free and no handle is marked
    in it, so that every container can be destroyed again after a failure. *)
Theorem destroys_released (k : nat) (s0 s : GardenServer C B) (ts : list thread)
    (ms : list (Bomberman.message (C := C)))
    (Hb0 : is_Some (bomberman s0)) (HL0 : destroysL s0 = false) (HD0 : destroys s0 = ∅)
    (Hrun : sys_run k (s0, []) ms (s, ts)) (Hended : forallb ended ts = true) :
  destroysL s = false ∧ destroys s = ∅.
Proof.
  destruct (mutex_run _ _ _ _ (mutex_initial s0 Hb0 HL0 HD0) Hrun) as (tts & Hex & Hth). cbn in *.
  assert (∀ t, t ∈ tts → t = idle) as Hidle.
  { intros t [i Hi]%list_elem_of_lookup. destruct (Forall2_lookup_r _ _ _ _ _ Hth Hi) as ([p w] & Hp & Hf).
    rewrite forallb_forall in Hended. specialize (Hended _ (proj1 (list_elem_of_In _ _) (list_elem_of_lookup_2 _ _ _ Hp))).
    by destruct p. }
  assert (∀ (f : tstate → option string) h, f idle = None → holding h (f <$> tts) = 0%nat) as Hz.
  { intros f h Hf. apply holding_zero. intros x (t & -> & ->%Hidle)%list_elem_of_fmap. done. }
  split.
  - pose proof (ex_lock _ _ Hex) as Hl. rewrite Hz in Hl by done. by destruct (destroysL s).
  - apply set_eq. intros h. pose proof (ex_mark _ _ Hex h) as Hm. rewrite Hz in Hm by done.
    case_decide; [done|]. set_solver.
Qed.

(** ** Schedules

    A run given by its choices, executable. *)
Inductive choice :=
| CAct (i : nat)
| CRequest (name : string) (r : request)
| CSleep (d : Z)
| CExplode (p i : nat).

Definition choose (x : env P) (c : choice) (st : state) : option (option (Bomberman.message (C := C)) * state) :=
  let (s, ts) := st in
  match c with
  | CAct i =>
      match ts !! i with
      | Some (Act e k, w) =>
          match perform x e s w with
          | Done r s' w' => Some (message_of e, (s', <[i := (k r, w')]> ts))
          | _ => None
          end
      | _ => None
      end
  | CRequest name r =>
      h ← handlers (containerGraceTime s) name;
      Some (None, (s, ts ++ [(h r, new_response)]))
  | CSleep d => if Z.leb 0 d then Some (None, (set_now (now s + d) s, ts)) else None
  | CExplode p i =>
      b ← bomberman s;
      '(c, b') ← Bomberman.explode (now s) p i b;
      Some (None, (set_bomberman (Some b') s, ts ++ [(detonated c, new_response)]))
  end.

Fixpoint schedule (x : env P) (cs : list choice) (st : state) : option (list (Bomberman.message (C := C)) * state) :=
  match cs with
  | [] => Some ([], st)
  | c :: cs' =>
      '(m, st') ← choose x c st;
      '(ms, st'') ← schedule x cs' st';
      Some (option_list m ++ ms, st'')
  end.

Lemma choose_act x s ts i {R} (e : eff R) k w r s' w' :
  ts !! i = Some (Act e k, w) → perform x e s w = Done r s' w' →
  choose x (CAct i) (s, ts) = Some (message_of e, (s', <[i := (k r, w')]> ts)).
Proof.
  intros Hi Hp. unfold choose.
  match goal with |- context [@lookup ?a ?b ?c ?d i ts] =>
    replace (@lookup a b c d i ts) with (Some (Act e k, w)) by (symmetry; exact Hi) end.
  by rewrite Hp.
Qed.

Lemma choose_step x c st m st' : choose x c st = Some (m, st') → sys_step st m st'.
Proof.
  destruct st as [s ts]. destruct c as [i|name r|d|p i]; cbn.
  - destruct (ts !! i) as [[[]w]|] eqn:Hi; try done. destruct (perform x e s w) eqn:Hp; try done.
    intros [= <- <-]. by eapply step_act.
  - intros (h & Hh & [= <- <-])%bind_Some. by eapply step_request.
  - destruct (Z.leb_spec 0 d); [|done]. intros [= <- <-]. by apply step_time.
  - intros (b & Hb & ([c b'] & He & [= <- <-])%bind_Some)%bind_Some. by eapply step_explode.
Qed.

Lemma schedule_run x cs st ms st' : schedule x cs st = Some (ms, st') → sys_run (length cs) st ms st'.
Proof.
  revert st ms. induction cs as [|c cs IH]; intros st ms; cbn; [intros [= <- <-]; constructor|].
  intros ([m st1] & Hc & ([ms' st2] & Hs & [= <- <-])%bind_Some)%bind_Some.
  econstructor; [by eapply choose_step|by apply IH].
Qed.

End system.

(** ** Witnesses: two requests on the sample backend, which has one container *)
Section witnesses.
#[local] Existing Instance Sample.sample_backend.
#[local] Existing Instance Sample.sample_text.

Definition history : list (Z * (string → Duration) * Bomberman.event) :=
  [(0%Z, λ _, 100%Z, Bomberman.EMessage (Bomberman.Strap "a"))].

Definition server0 : GardenServer string Sample.store :=
  set_started true (set_bomberman (Some (Bomberman.run_events Handle history Bomberman.New))
    (New "tcp" ":7777" 100%Z {["a" := (100%Z, ∅)]})).

Definition env0 : env string := mk_env None (λ _, Exited 0) 0.

Definition request0 : request := mk_request {[":handle" := ["a"]]} (to_bytes "{}").

(** A stop request looks the container up and pauses its bomb; the clock moves
    past its grace time. *)
Definition busy_schedule : list choice :=
  [CRequest "Stop" request0; CSleep 10; CAct 0; CAct 0; CSleep 200].

(** A destroy request marks its container while another waits for the lock; the
    other finds the mark. *)
Definition destroy_schedule : list choice :=
  [CRequest "Destroy" request0; CRequest "Destroy" request0; CAct 0; CAct 0; CAct 0; CAct 0; CAct 1; CAct 1].

(** The destroy request completes and the other is turned away. *)
Definition complete_schedule : list choice :=
  destroy_schedule ++ (CAct <$> [1; 1; 1; 1; 0; 0; 0; 0; 0; 0; 0]%nat).

Definition ends (cs : list choice) : list (Bomberman.message (C := string)) * (GardenServer string Sample.store * list thread) :=
  default ([], (server0, [])) (schedule env0 cs (server0, [])).

(** The handle a goroutine is about to destroy. *)
Definition about_to_destroy (th : thread (C := string) (P := string)) : option string :=
  match th.1 with
  | Act e _ => match e with Call op => match op with Destroy h => Some h | _ => None end | _ => None end
  | _ => None
  end.


Lemma destroy_exclusive_witness :
  about_to_destroy <$> (ends destroy_schedule).2.2 = [Some "a"; None] ∧ 0%nat = 0%nat.
Proof.
  split; [by vm_compute|].
  eapply (destroy_exclusive 8 server0 (ends destroy_schedule).2.1 (ends destroy_schedule).2.2
    (ends destroy_schedule).1 "a" 0 0); try reflexivity; try done.
  apply (schedule_run env0 destroy_schedule). reflexivity.
Defined.

Lemma destroys_released_witness :
  backend (ends complete_schedule).2.1 = ∅ ∧
  destroysL (ends complete_schedule).2.1 = false ∧ destroys (ends complete_schedule).2.1 = ∅.
Proof.
  split; [by vm_compute|].
  apply (destroys_released 19 server0 _ (ends complete_schedule).2.2 (ends complete_schedule).1); [done..| |by vm_compute].
  apply (schedule_run env0 complete_schedule). vm_compute. reflexivity.
Defined.
End witnesses.
End System.
