(* ===== verification/Progress.v ===== *)
(** * Nothing gets stuck

    What the server of [System.v] always manages to do: whatever has happened,
    the goroutines that are there can all run to their end, and a container that
    nobody uses is reaped when its time has come. *)
From S2P Require Import Prelude Types Utf8 Json GoJson Errors Codec Backend Timebomb Bomberman Streamer Sample Prog Handlers Server System.

Module Progress.
Import Errors Codec Backend Prog Handlers Server System.

Section progress.
Context {C P B : Type} `{Backend C P B} `{JsonText}.
Abbreviation program := (prog (eff (C := C) (P := P)) unit).
Abbreviation state := (GardenServer C B * list (thread (C := C) (P := P)))%type.
Abbreviation all_follow := (Forall2 (λ (th : thread (C := C) (P := P)) t, follows t th.1)).

(** A run in which the goroutines [ids] act, one after the other, in the
    environment [x]. *)
Definition acts (x : env P) (ids : list nat) : state → option (list (Bomberman.message (C := C)) * state) :=
  schedule x (CAct <$> ids).

Lemma acts_cons x i ids st m st1 ms st2 :
  choose x (CAct i) st = Some (m, st1) → acts x ids st1 = Some (ms, st2) →
  acts x (i :: ids) st = Some (option_list m ++ ms, st2).
Proof. unfold acts. intros Hc Hs. cbn [fmap list_fmap schedule]. rewrite Hc. cbn. by rewrite Hs. Qed.

Lemma acts_app x ids1 ids2 st1 st2 st3 ms1 ms2 :
  acts x ids1 st1 = Some (ms1, st2) → acts x ids2 st2 = Some (ms2, st3) → acts x (ids1 ++ ids2) st1 = Some (ms1 ++ ms2, st3).
Proof.
  unfold acts. intros H1 H2. revert st1 ms1 H1. induction ids1 as [|i ids1 IH]; intros st1 ms1 H1.
  { by injection H1 as <- <-. }
  apply bind_Some in H1 as ([m st'] & Hc & ([ms' st''] & Hs & [= <- ->])%bind_Some).
  rewrite <-app_assoc. eapply acts_cons; [exact Hc|]. by apply IH.
Qed.

(** ** Every goroutine can end *)

(** Nobody but the goroutine [i] has the lock of the destroys map. *)
Definition lock_left_to (i : nat) (tts : list tstate) : Prop :=
  ∀ j t, j ≠ i → tts !! j = Some t → t_lock t = false.

Lemma lock_is_free s tts :
  exclusive (C := C) s tts → (∀ j t, tts !! j = Some t → t_lock t = false) → destroysL (B := B) s = false.
Proof.
  intros Hex Hall. pose proof (ex_lock _ _ Hex) as Hl. rewrite holding_zero in Hl; [by destruct (destroysL s)|].
  intros y (t & -> & [j Hj]%list_elem_of_lookup)%list_elem_of_fmap. unfold lock_token. by rewrite (Hall j t Hj).
Qed.

(** Only taking a lock that is held blocks, and only giving back one that is not
    held is fatal. *)
Lemma perform_enabled x s tts i t {R} (e : eff (C := C) (P := P) R) w :
  exclusive s tts → tts !! i = Some t → lock_left_to i tts → allow e t →
  ∃ r s' w', perform (B := B) x e s w = Done r s' w'.
Proof.
  intros Hex Hi Hleft Ha. unfold perform.
  destruct e; try by (repeat eexists). all: cbn in Ha.
  - destruct (exec op (backend s)). by repeat eexists.
  - destruct (bomberman s); by repeat eexists.
  - rewrite (lock_is_free s tts Hex); [by repeat eexists|]. intros j t' Hj.
    destruct (decide (j = i)) as [->|Hne]; [by simplify_eq|by eapply Hleft].
  - rewrite (exclusive_locked s tts i t) by done. by repeat eexists.
  - cbn. unfold Streamer.Stop. destruct (Streamer.loadStream id (streamer s)) as [[l st]|]; [|by repeat eexists].
    destruct (Streamer.done st); by repeat eexists.
  - unfold Streamer.ServeStdout, Streamer.ServeStderr, Streamer.start_serve.
    destruct stdout; destruct (Streamer.loadStream id (streamer s)) as [[l st]|]; by repeat eexists.
Qed.

(** A goroutine that may take the lock runs to its end without the others. *)
Lemma runs_to_end (x : env P) (p : program) : ∀ (s : GardenServer C B) ts tts i w t,
  exclusive s tts → all_follow ts tts → ts !! i = Some (p, w) → tts !! i = Some t → lock_left_to i tts →
  ∃ ids ms s' p' w', acts x ids (s, ts) = Some (ms, (s', <[i := (p', w')]> ts)) ∧ ended (p', w') = true ∧
    exclusive s' (<[i := idle]> tts) ∧ all_follow (<[i := (p', w')]> ts) (<[i := idle]> tts).
Proof.
  induction p as [a| |R e k IH]; intros s ts tts i w t Hex Hth Hi Ht Hleft;
    pose proof (Forall2_lookup_lr _ _ _ _ _ _ Hth Hi Ht) as Hf.
  1,2: cbn in Hf; subst t; eexists [], [], s, _, w; rewrite !list_insert_id by done; by split_and!.
  destruct (perform_enabled x s tts i t e w Hex Ht Hleft (proj1 Hf)) as (r & s1 & w1 & Hp).
  destruct (follows_act x e k t s w r s1 w1 Hf Hp (ex_bomberman _ _ Hex)) as (Ha & Hf').
  destruct (IH r s1 (<[i := (k r, w1)]> ts) (<[i := next e r t]> tts) i w1 (next e r t))
    as (n & ms & s' & p' & w' & Hrun & Hend & Hex' & Hth').
  - by eapply exclusive_act.
  - by apply Forall2_insert.
  - apply list_lookup_insert_eq. by eapply lookup_lt_Some.
  - apply list_lookup_insert_eq. by eapply lookup_lt_Some.
  - intros j t' Hne. rewrite list_lookup_insert_ne by done. by apply Hleft.
  - rewrite !list_insert_insert_eq in *. exists (i :: n), (option_list (message_of e) ++ ms), s', p', w'.
    split_and!; [|done..]. eapply acts_cons; [|exact Hrun]. by apply (choose_act x s ts i e k w r s1 w1).
Qed.

(** A server whose lock nobody has. *)
Record settled (st : state) (tts : list tstate) : Prop := mk_settled {
  settled_exclusive : exclusive st.1 tts;
  settled_follow : all_follow st.2 tts;
  settled_lock i t : tts !! i = Some t → t_lock t = false;
}.

(** One goroutine after the other runs to its end. *)
Lemma settled_run_one (x : env P) st tts i :
  settled st tts → (i < length st.2)%nat →
  ∃ ids ms st' tts' th, acts x ids st = Some (ms, st') ∧ settled st' tts' ∧ ended th = true ∧ st'.2 = <[i := th]> st.2.
Proof.
  destruct st as [s ts]. intros [Hex Hth Hl] [[p w] Hi]%lookup_lt_is_Some. cbn [fst snd] in *.
  destruct (Forall2_lookup_l _ _ _ _ _ Hth Hi) as (t & Ht & _).
  destruct (runs_to_end x p s ts tts i w t) as (k & ms & s' & p' & w' & Hrun & He & Hex' & Hth'); [done..| |].
  { intros j t' _. apply Hl. }
  exists k, ms, (s', <[i := (p', w')]> ts), (<[i := idle]> tts), (p', w'). split_and!; [done| |done|done].
  split; [done..|]. intros j t' Hj. destruct (decide (i = j)) as [<-|Hne].
  - rewrite list_lookup_insert_eq in Hj by (by eapply lookup_lt_Some). by injection Hj as <-.
  - rewrite list_lookup_insert_ne in Hj by done. by eapply Hl.
Qed.

Lemma settled_run_all (x : env P) st tts n :
  settled st tts → (n ≤ length st.2)%nat →
  ∃ ids ms st' tts', acts x ids st = Some (ms, st') ∧ settled st' tts' ∧ length st'.2 = length st.2 ∧
    ∀ i th, (i < n)%nat → st'.2 !! i = Some th → ended th = true.
Proof.
  intros Hst. induction n as [|n IH]; intros Hn.
  { exists [], [], st, tts. split_and!; [done..|lia]. }
  destruct IH as (k & ms & st1 & tts1 & Hrun & Hst1 & Hlen & Hend); [lia|].
  destruct (settled_run_one x st1 tts1 n Hst1) as (k' & ms' & st2 & tts2 & th & Hrun' & Hst2 & He & Heq); [lia|].
  exists (k ++ k'), (ms ++ ms'), st2, tts2. split_and!; [by eapply acts_app|done|by rewrite Heq, length_insert|].
  intros i th' Hi. rewrite Heq. destruct (decide (i = n)) as [->|Hne].
  - rewrite list_lookup_insert_eq by lia. by intros [= <-].
  - rewrite list_lookup_insert_ne by done. apply Hend. lia.
Qed.

(** The holder of the lock, if there is one, runs first. *)
Lemma settle (x : env P) st : mutex st → ∃ ids ms st' tts', acts x ids st = Some (ms, st') ∧ settled st' tts' ∧ length st'.2 = length st.2.
Proof.
  destruct st as [s ts]. intros (tts & Hex & Hth). cbn [fst snd] in *.
  destruct (decide (Exists (λ t, t_lock t = true) tts)) as [[t [[i Hi]%list_elem_of_lookup Hl]]%Exists_exists|Hno].
  - destruct (Forall2_lookup_r _ _ _ _ _ Hth Hi) as ([p w] & Hp & _).
    assert (lock_left_to i tts) as Hleft.
    { intros j t' Hne Hj. destruct (t_lock t') eqn:Hl'; [|done]. destruct Hne.
      apply (holding_unique "" (lock_token <$> tts)).
      - rewrite (ex_lock _ _ Hex). destruct (destroysL s); lia.
      - rewrite list_lookup_fmap, Hj. cbn. unfold lock_token. by rewrite Hl'.
      - rewrite list_lookup_fmap, Hi. cbn. unfold lock_token. by rewrite Hl. }
    destruct (runs_to_end x p s ts tts i w t) as (k & ms & s' & p' & w' & Hrun & _ & Hex' & Hth'); [done..|].
    exists k, ms, (s', <[i := (p', w')]> ts), (<[i := idle]> tts). split_and!; [done| |apply length_insert].
    split; [done..|]. intros j t' Hj. destruct (decide (i = j)) as [<-|Hne].
    + rewrite list_lookup_insert_eq in Hj by (by eapply lookup_lt_Some). by injection Hj as <-.
    + rewrite list_lookup_insert_ne in Hj by done. by eapply Hleft.
  - exists [], [], (s, ts), tts. split_and!; [done| |done]. split; [done..|]. intros i t Hi.
    destruct (t_lock t) eqn:Hl; [|done]. destruct Hno. apply Exists_exists. exists t.
    split; [by eapply list_elem_of_lookup_2|done].
Qed.


(** ** An idle container is reaped *)

(** A program that returns when it runs alone does so as a goroutine. *)
Lemma run_acts x (p : program) : ∀ (s : GardenServer C B) ts i w a s' w',
  ts !! i = Some (p, w) → run x p s w = Returns a s' w' →
  ∃ ids ms, acts x ids (s, ts) = Some (ms, (s', <[i := (Ret a, w')]> ts)).
Proof.
  induction p as [a0| |R e k IH]; intros s ts i w a s' w' Hi Hr; [|done|].
  { injection Hr as -> -> ->. exists [], []. by rewrite list_insert_id. }
  cbn [run] in Hr. destruct (perform x e s w) as [r s1 w1| |] eqn:Hp; [|done..].
  destruct (IH r s1 (<[i := (k r, w1)]> ts) i w1 a s' w') as (ids & ms & Hacts); [|done|].
  { apply list_lookup_insert_eq. by eapply lookup_lt_Some. }
  rewrite list_insert_insert_eq in Hacts. exists (i :: ids), (option_list (message_of e) ++ ms).
  eapply acts_cons; [|exact Hacts]. by apply (choose_act x s ts i e k w r s1 w1).
Qed.

(** An alarm that is due goes off. *)
Lemma due_explodes n now (b : Bomberman.Bomberman (C := C)) hd t due :
  Bomberman.wf Handle n b → Bomberman.abs b !! hd = Some t →
  Bomberman.tr_alarm t = Some (due, Timer.Active) → (due ≤ now)%Z →
  ∃ p i c b', Bomberman.explode now p i b = Some (c, b') ∧ Handle c = hd ∧
    Bomberman.timeBombs b' = Bomberman.timeBombs b.
Proof.
  intros Hwf Ht Ha Hdue. rewrite Bomberman.abs_lookup in Ht.
  destruct (Bomberman.timeBombs b !! hd) as [p|] eqn:Hp; [|done]. cbn in Ht.
  destruct (Bomberman.wf_ptr _ _ _ Hwf _ _ Hp) as ([tb ts] & Hc & Hh & _).
  destruct (Bomberman.wf_cell _ _ _ Hwf _ _ Hc) as [Hinv _]. rewrite Hc in Ht. injection Ht as <-.
  cbn [Bomberman.tr_alarm Bomberman.track_of fst snd] in Ha.
  apply bind_Some in Ha as (i & Hi & (tm & Htm & [= Hw Hs])%bind_Some). cbn [snd] in Htm.
  exists p, i. unfold Bomberman.explode, Timer.fire. rewrite Hc, Htm. unfold Timer.is_active.
  rewrite Hs, bool_decide_true, (proj2 (Z.leb_le _ _)) by (done || lia). cbn.
  eexists _, _. split; [done|]. split; [|done]. by rewrite (Timebomb.inv_func _ _ Hinv i tm Htm).
Qed.

(** What the goroutine of an expired timer does. *)
Lemma run_detonated x c (s : GardenServer C B) b w :
  bomberman s = Some b → destroysL s = false → Handle c ∉ destroys s →
  ∃ s' b', run x (detonated c) s w = Returns () s' w ∧
    backend s' = (exec (Destroy (Handle c)) (backend s)).2 ∧ now s' = now s ∧
    bomberman s' = Some b' ∧ Bomberman.timeBombs b' = delete (Handle c) (Bomberman.timeBombs b) ∧
    destroysL s' = false ∧ destroys s' = destroys s.
Proof.
  intros Hb HL HD. unfold detonated, reapContainer, begin_destroy, end_destroy, bomb.
  cbn -[exec]. rewrite HL. cbn -[exec]. rewrite bool_decide_false by done. cbn -[exec].
  destruct (exec (Destroy (Handle c)) (backend s)) as [r b1]. cbn. rewrite Hb. cbn.
  eexists _, _. split; [reflexivity|]. cbn. split_and!; try done.
  apply set_eq. intros h. rewrite elem_of_difference, elem_of_union, !elem_of_singleton.
  destruct (decide (h = Handle c)) as [->|]; tauto.
Qed.

Lemma insert_last {A} (l : list A) y z : <[length l := z]> (l ++ [y]) = l ++ [z].
Proof. by rewrite insert_app_r_alt, Nat.sub_diag by done. Qed.

(** From [s] to [s'], the container of this handle was destroyed, its alarm
    forgotten, and no mark left behind. *)
Definition reaped (hd : string) (s s' : GardenServer C B) : Prop :=
  backend s' = (exec (Destroy hd) (backend s)).2 ∧
  (∃ b', bomberman s' = Some b' ∧ Bomberman.abs b' !! hd = None) ∧
  destroysL s' = false ∧ destroys s' = destroys s.

(** C13 A container that nobody uses is reaped: whatever the history of the
    bomberman, when the alarm of a handle is set and its container is not being
    destroyed already, then once the alarm's time has come, which passing time
    brings about, the timer goes off and its goroutine calls the backend to
    destroy the container, forgets the handle and leaves no mark behind, next to
    any number of other goroutines. *)
Theorem idle_container_reaped (x : env P) (h0 : list (Z * (C → Duration) * Bomberman.event))
    (s : GardenServer C B) (ts : list thread) (hd : string) (t : Bomberman.track) (due : Z)
    (Hb : bomberman s = Some (Bomberman.run_events Handle h0 Bomberman.New))
    (Hlen : (Z.of_nat (length h0) ≤ maxint64)%Z)
    (Ht : Bomberman.abs (Bomberman.run_events Handle h0 Bomberman.New) !! hd = Some t)
    (Halarm : Bomberman.tr_alarm t = Some (due, Timer.Active))
    (HL : destroysL s = false) (HD : hd ∉ destroys s) :
  ∃ k ms s' w, sys_run k (s, ts) ms (s', ts ++ [(Ret (), w)]) ∧ now s' = Z.max due (now s) ∧ reaped hd s s'.
Proof.
  pose proof (Bomberman.run_events_New_wf Handle h0 Hlen) as Hwf.
  set (b := Bomberman.run_events Handle h0 Bomberman.New) in *.
  set (d := Z.max 0 (due - now s)). assert (0 ≤ d)%Z as Hd by lia.
  destruct (due_explodes (Z.of_nat (length h0)) (now s + d) b hd t due) as (p & i & c & b1 & He & <- & Hmap); [done..|lia|].
  set (s1 := set_bomberman (Some b1) (set_now (now s + d) s)).
  destruct (run_detonated x c s1 b1 new_response eq_refl HL HD) as (s' & b' & Hrun & Hbk & Hnow & Hb' & Hm & HL' & HD').
  destruct (run_acts x (detonated c) s1 (ts ++ [(detonated c, new_response)]) (length ts) new_response () s' new_response)
    as (ids & ms & Hacts); [by apply list_lookup_middle|done|].
  exists (S (S (length (CAct <$> ids)))), ms, s', new_response.
  split_and!; [|rewrite Hnow; cbn; lia|split_and!; [done|exists b'; split; [done|]|done..]].
  - apply (run_step _ _ None _ ms _ (step_time s ts d Hd)).
    apply (run_step _ _ None _ ms _ (step_explode (set_now (now s + d) s) ts b p i c b1 Hb He)).
    rewrite insert_last in Hacts. apply (schedule_run x _ _ _ _ Hacts).
  - rewrite Bomberman.abs_lookup, Hm, lookup_delete_eq. done.
Qed.
End progress.

(** ** Witnesses *)
Section witnesses.
#[local] Existing Instance Sample.sample_backend.
#[local] Existing Instance Sample.sample_text.


Lemma idle_container_reaped_witness :
  (exec (Destroy "a") (backend server0)).2 = ∅ ∧
  ∃ k ms s' w, sys_run k (server0, []) ms (s', [] ++ [(Ret (), w)]) ∧ now s' = 100%Z ∧ reaped "a" server0 s'.
Proof.
  split; [by vm_compute|].
  apply (idle_container_reaped env0 history server0 [] "a" (Bomberman.mk_track "a" 100 0 (Some (100%Z, Timer.Active))) 100%Z);
    [done..|]. apply not_elem_of_empty.
Defined.
End witnesses.
End Progress.
