(* ===== verification/Panics.v ===== *)
(** * Which requests can panic

    The calls of a handler that can panic are a method of a bomberman that is
    not there, stopping a stream that is already stopped, encoding an entry
    whose error is nil and indexing a query value that is missing.  The first
    two never happen, whatever the handlers, the timers and the goroutines of
    the streamer do at the same time; the others are in the two bulk requests
    only. *)
From S2P Require Import Prelude Types Utf8 Json GoJson Errors Codec Backend Timebomb Bomberman Streamer Routes Sample Prog Handlers Server System.

Module Panics.
Import Json GoJson Errors Codec Backend Sample Prog Handlers Server System.

(** ** Messages that can always be encoded *)
Definition encodes {A} (c : codec A) : Prop := ∀ v, ∃ j, c_enc c v = Ok j.

Lemma encodes_bool : encodes bool_codec.
Proof. intros v. by eexists. Qed.
Lemma encodes_string : encodes string_codec.
Proof. intros v. by eexists. Qed.
Lemma encodes_int sg lo hi ty : encodes (int_codec sg lo hi ty).
Proof. intros v. by eexists. Qed.

Lemma encodes_ptr {A} (c : codec A) : encodes c → encodes (ptr_codec c).
Proof. intros Hc [v|]; [apply Hc|by eexists]. Qed.

Lemma encodes_slice {A} ty (c : codec A) : encodes c → encodes (slice_codec ty c).
Proof.
  intros Hc [l|]; [|by eexists]. cbn. enough (∃ js, enc_list c l = Ok js) as [js ->] by (by eexists).
  induction l as [|x l [js IH]]; [by eexists|]. cbn. destruct (Hc x) as [j ->]. rewrite IH. by eexists.
Qed.

Lemma encodes_map {A} ty (c : codec A) : encodes c → encodes (map_codec ty c).
Proof.
  intros Hc [m|]; [|by eexists]. cbn.
  enough (∃ js, enc_entries c (sorted_entries m) = Ok js) as [js ->] by (by eexists).
  induction (sorted_entries m) as [|[k x] l [js IH]]; [by eexists|]. cbn. destruct (Hc x) as [j ->]. rewrite IH. by eexists.
Qed.

Fixpoint all_encode {X} (fs : fields X) : Prop :=
  match fs with FNil => True | FCons _ _ c fs' => encodes c ∧ all_encode fs' end.

Lemma encodes_fields {X} (fs : fields X) : all_encode fs → ∀ x, ∃ l, enc_fields fs x = Ok l.
Proof.
  induction fs as [|A X name omit c fs IH]; intros Hfs x; [by eexists|]. destruct Hfs as [Hc Hfs]. cbn.
  destruct (IH Hfs x.2) as [l ->], (Hc x.1) as [j ->]. destruct (omit && _); by eexists.
Qed.

Lemma encodes_struct {T X} ty name (fs : fields X) (to : T → X) from :
  all_encode fs → encodes (struct_codec ty name fs to from).
Proof. intros Hfs t. cbn. destruct (encodes_fields fs Hfs (to t)) as [l ->]. by eexists. Qed.

Ltac encodes_step :=
  match goal with
  | |- encodes (slice_codec _ _) => apply encodes_slice
  | |- encodes (map_codec _ _) => apply encodes_map
  | |- encodes (struct_codec _ _ _ _ _) => apply encodes_struct; cbn [all_encode]
  | |- encodes (ptr_codec _) => apply encodes_ptr
  | |- encodes (int64_codec _) => apply encodes_int
  | |- encodes (uint8_codec _) => apply encodes_int
  | |- encodes (int_codec _ _ _ _) => apply encodes_int
  | |- encodes bool_codec => apply encodes_bool
  | |- encodes string_codec => apply encodes_string
  | |- encodes ?c => unfold c
  | |- _ ∧ _ => split
  | |- True => exact I
  end.
Ltac encodes_message := repeat encodes_step.

(** ** The protocol of streams *)
Section panics.
Context {C P B : Type} `{Backend C P B} `{JsonText}.
Abbreviation program := (prog (eff (C := C) (P := P)) unit).
Abbreviation state := (GardenServer C B * list (thread (C := C) (P := P)))%type.

(** A goroutine runs one stream at a time, and stops only the stream it
    started; its state is the stream it has to stop. *)
Definition may {R} (e : eff (C := C) (P := P) R) (t : option string) : Prop :=
  match e with
  | StreamStart _ _ => t = None
  | StreamStop id => t = Some id
  | _ => True
  end.

(** The bomberman is there, and nobody else stops the stream. *)
Definition answers {R} (e : eff (C := C) (P := P) R) (r : R) : Prop :=
  match e in eff R return R → Prop with
  | Bomb _ | StreamStop _ => λ r, r = true
  | _ => λ _, True
  end r.

Definition runs {R} (e : eff (C := C) (P := P) R) (r : R) (t : option string) : option string :=
  match e in eff R return R → option string with
  | StreamStart _ _ => λ id, Some id
  | StreamStop _ => λ _, None
  | _ => λ _, t
  end r.

Abbreviation wp := (Prog.wp (@may) (@answers) (@runs)).

(** From [t] the program does not panic, and leaves the stream that runs. *)
Definition clean {A} (t : option string) (p : prog eff A) : Prop :=
  ∀ Q : option A → option string → Prop, (∀ a, Q (Some a) t) → wp t p Q.

Lemma clean_ret {A} t (a : A) : clean t (Ret a).
Proof. intros Q HQ. apply HQ. Qed.

Definition no_stream {R} (e : eff (C := C) (P := P) R) : bool :=
  match e with StreamStart _ _ | StreamStop _ => false | _ => true end.

Lemma clean_act {R} t (e : eff R) : no_stream e = true → clean t (act e).
Proof. intros He Q HQ. destruct e; try done; (split; [done|]; intros r _; apply HQ). Qed.

Lemma clean_bind {A A'} t (p : prog eff A) (f : A → prog eff A') :
  clean t p → (∀ a, clean t (f a)) → clean t (pbind f p).
Proof. intros Hp Hf Q HQ. apply wp_bind, Hp. intros a. by apply Hf. Qed.

Lemma clean_defer {A} t d (p : prog eff A) : clean t d → clean t p → clean t (pdefer d p).
Proof. intros Hd Hp Q HQ. apply wp_defer, Hp. intros a. apply Hd. intros []. apply HQ. Qed.

Lemma clean_bomb t m : clean t (bomb m).
Proof. intros Q HQ. apply wp_bind. split; [done|]. intros r ->. apply HQ. Qed.

Lemma clean_writeError t err : clean t (writeError err).
Proof.
  apply clean_bind; [by apply clean_act|intros _]. apply clean_bind; [by apply clean_act|intros _].
  destruct (Encode _ _); [by apply clean_act|apply clean_ret].
Qed.

Lemma clean_writeResponse {A} t (c : codec A) msg : encodes c → clean t (writeResponse c msg).
Proof.
  intros Hc. apply clean_bind; [by apply clean_act|intros _]. unfold Encode. destruct (Hc msg) as [j ->].
  by apply clean_act.
Qed.

Lemma clean_readRequest {A} t (c : codec A) r k : (∀ a, clean t (k a)) → clean t (readRequest c r k).
Proof. intros Hk. unfold readRequest. destruct (Decode _ _ _) as [[msg [e|]] rest]; [apply clean_writeError|apply Hk]. Qed.

Lemma clean_checked {A} t (op : backend_op C P (result error A)) k :
  (∀ a, clean t (k a)) → clean t (checked op k).
Proof. intros Hk. apply clean_bind; [by apply clean_act|]. intros [a|err]; [apply Hk|apply clean_writeError]. Qed.

Lemma clean_checked_err t (op : backend_op C P (option error)) k : clean t k → clean t (checked_err op k).
Proof. intros Hk. apply clean_bind; [by apply clean_act|]. intros [err|]; [apply clean_writeError|done]. Qed.

Lemma clean_with_container t handle k : (∀ c, clean t (k c)) → clean t (with_container handle k).
Proof.
  intros Hk. apply clean_checked. intros c. apply clean_bind; [apply clean_bomb|intros _].
  apply clean_defer; [apply clean_bomb|apply Hk].
Qed.

Lemma clean_begin_destroy t h : clean t (begin_destroy h).
Proof. repeat (apply clean_bind; [|intros ?]); try (by apply clean_act); [|apply clean_ret]. by destruct a0; [apply clean_ret|apply clean_act]. Qed.

Lemma clean_end_destroy t h : clean t (end_destroy h).
Proof. repeat (apply clean_bind; [|intros ?]); by apply clean_act. Qed.

Lemma clean_conn_message t p : clean t (conn_message p).
Proof. unfold conn_message. destruct (Encode _ _); [by apply clean_act|apply clean_ret]. Qed.

Lemma clean_copy t rd : clean t (copy rd).
Proof. unfold copy. destruct (rd_data rd); [apply clean_ret|by apply clean_act]. Qed.

Ltac clean_step :=
  match goal with
  | |- clean _ (act _) => apply clean_act; reflexivity
  | |- clean _ (Ret _) => apply clean_ret
  | |- clean _ (bomb _) => apply clean_bomb
  | |- clean _ (writeError _) => apply clean_writeError
  | |- clean _ writeSuccess => apply clean_writeResponse; encodes_message
  | |- clean _ (writeResponse _ _) => apply clean_writeResponse; encodes_message
  | |- clean _ (readRequest _ _ _) => apply clean_readRequest; intros ?
  | |- clean _ (checked _ _) => apply clean_checked; intros ?
  | |- clean _ (checked_err _ _) => apply clean_checked_err
  | |- clean _ (with_container _ _) => apply clean_with_container; intros ?
  | |- clean _ (begin_destroy _) => apply clean_begin_destroy
  | |- clean _ (end_destroy _) => apply clean_end_destroy
  | |- clean _ (conn_message _) => apply clean_conn_message
  | |- clean _ (copy _) => apply clean_copy
  | |- clean _ (pdefer _ _) => apply clean_defer
  | |- clean _ (mbind _ _) => apply clean_bind; [|intros ?]
  | |- clean _ (match ?r with _ => _ end) => destruct r
  end.
Ltac clean_program := repeat clean_step.

Lemma clean_streamProcess t process stdin : clean t (streamProcess process stdin).
Proof. unfold streamProcess. clean_program. Qed.

(** The stream of a process is stopped on every way out, once. *)
Lemma clean_serve_process status process o e i : clean None (serve_process status process o e i).
Proof.
  intros Q HQ. apply wp_bind. split; [done|]. intros id _. cbn [runs]. apply wp_defer.
  match goal with |- Prog.wp _ _ _ _ ?p _ => assert (clean (Some id) p) as Hp end.
  { clean_program. apply clean_streamProcess. }
  apply Hp. intros []. apply wp_bind. split; [done|]. intros r ->. apply HQ.
Qed.

(** The requests whose handlers index the query and encode entries with
    errors. *)
Definition bulk (name : string) : bool := bool_decide (name = Routes.BulkInfo ∨ name = Routes.BulkMetrics).

Lemma clean_Run r : clean None (handleRun r).
Proof. unfold handleRun. clean_program. apply clean_serve_process. Qed.
Lemma clean_Attach r : clean None (handleAttach r).
Proof. unfold handleAttach. clean_program. apply clean_serve_process. Qed.

Lemma handlers_clean g name h r : handlers g name = Some h → bulk name = false → clean None (h r).
Proof.
  unfold handlers. intros Hh Hb.
  repeat (destruct (decide _) as [->|_];
    [first [discriminate Hb | injection Hh as <-;
       first [exact (clean_Run r) | exact (clean_Attach r) |
              cbv beta zeta delta [handlePing handleCapacity handleCreate handleDestroy handleList handleStop handleStreamIn
                handleStreamOut handleCurrentBandwidthLimits handleCurrentCPULimits handleCurrentDiskLimits
                handleCurrentMemoryLimits handleNetIn handleNetOut handleBulkNetOut handleInfo HandlerFunc_ServeHTTP
                handleMetrics handleProperties handleProperty handleSetProperty handleRemoveProperty handleSetGraceTime];
              clean_program]]|]).
  done.
Qed.

Lemma clean_detonated c : clean None (detonated c).
Proof. unfold detonated, reapContainer. clean_program. Qed.

(** ** The server with the goroutines of the streamer *)

(** Who started a goroutine. *)
Inductive origin :=
| ByRequest (name : string)
| ByTimer.

(** Only a bulk request may panic. *)
Definition fragile (o : origin) : bool := match o with ByRequest name => bulk name | ByTimer => false end.

(** The events of the streamer that no action of a handler is: the backend
    writes output, the goroutines that serve it go on, a stopped stream is
    deleted, its clock moves. *)
Definition internal (e : Streamer.event) : bool :=
  match e with
  | Streamer.EWrite _ _ | Streamer.ERecv _ _ | Streamer.EDone _ | Streamer.EDefault _
  | Streamer.ESleep _ | Streamer.EDelete _ => true
  | _ => false
  end.

(** The steps of [System.v], with who started each goroutine, and the events of
    the streamer. *)
Inductive full_step : state * list origin → state * list origin → Prop :=
| full_act (x : env P) s ts os i R (e : eff R) k w r s' w' :
    ts !! i = Some (Act e k, w) → perform x e s w = Done r s' w' →
    full_step (s, ts, os) (s', <[i := (k r, w')]> ts, os)
| full_request s ts os name h r :
    handlers (containerGraceTime s) name = Some h →
    full_step (s, ts, os) (s, ts ++ [(h r, new_response)], os ++ [ByRequest name])
| full_time s ts os d : (0 ≤ d)%Z → full_step (s, ts, os) (set_now (now s + d) s, ts, os)
| full_explode s ts os b p i c b' :
    bomberman s = Some b → Bomberman.explode (now s) p i b = Some (c, b') →
    full_step (s, ts, os) (set_bomberman (Some b') s, ts ++ [(detonated c, new_response)], os ++ [ByTimer])
| full_stream s ts os e m o :
    internal e = true → Streamer.step e (streamer s) = Streamer.Next m o →
    full_step (s, ts, os) (set_streamer m s, ts, os).

Inductive full_run : nat → state * list origin → state * list origin → Prop :=
| full_nil x : full_run 0 x x
| full_cons n x y z : full_step x y → full_run n y z → full_run (S n) x z.

(** ** The invariant *)
Definition ends (o : origin) (t : option string) (p : program) : Prop :=
  wp t p (λ r t', t' = None ∧ (r = None → fragile o = true)).

Lemma clean_ends o p : clean None p → ends o None p.
Proof. intros Hp. by apply Hp. Qed.

Lemma bulk_ends name g h r : handlers g name = Some h → ends (ByRequest name) None (h r).
Proof.
  intros Hh. destruct (bulk name) eqn:Hb; [|by eapply clean_ends, handlers_clean].
  assert (∀ A (c : codec A) msg, ends (ByRequest name) None (writeResponse c msg)) as Hw.
  { intros A c msg. apply wp_bind, clean_act; [done|]. intros _. destruct (Encode c msg).
    - by apply clean_act.
    - destruct (decide _); done. }
  assert (∀ A (op : backend_op C P (result error A)) (c : codec A),
    ends (ByRequest name) None (checked op (writeResponse c))) as Hc.
  { intros A op c. apply wp_bind, clean_act; [done|]. intros [a|err]; [apply Hw|by apply clean_writeError]. }
  unfold bulk in Hb. apply bool_decide_eq_true in Hb as [->| ->]; injection Hh as <-;
    unfold handleBulkInfo, handleBulkMetrics, query_handles; destruct (_ !! _) as [[|v vs]|]; try done; apply Hc.
Qed.

(** A stream that has been started. *)
Definition known (m : Streamer.Streamer) (id : string) : Prop :=
  ∃ l, id = Streamer.stream_id l ∧ (l < length (Streamer.heap m))%nat.

(** Each stream that a goroutine has to stop is its own, and has not been
    stopped. *)
Record owned (m : Streamer.Streamer) (gs : list (option string)) (stopped : list string) : Prop := {
  owned_life : Streamer.life m stopped;
  owned_stopped id : id ∈ stopped → known m id;
  owned_running i id : gs !! i = Some (Some id) → known m id ∧ (id ∉ stopped);
  owned_once i j id : gs !! i = Some (Some id) → gs !! j = Some (Some id) → i = j;
}.

Lemma known_mono m m' id : (length (Streamer.heap m) ≤ length (Streamer.heap m'))%nat → known m id → known m' id.
Proof. intros Hle (l & -> & Hl). exists l. split; [done|lia]. Qed.

Lemma known_new m : ¬ known m (Streamer.stream_id (length (Streamer.heap m))).
Proof. intros (l & Hl%Streamer.stream_id_inj & Hlt). lia. Qed.

(** Starting nothing and stopping nothing. *)
Lemma owned_event e m m' o gs stopped :
  owned m gs stopped → Streamer.closes e = false → Streamer.stream_count [e] = 0%nat → Streamer.stops [e] = [] →
  (Z.of_nat (length (Streamer.heap m)) < 2 ^ 64)%Z → Streamer.step e m = Streamer.Next m' o →
  owned m' gs stopped ∧ length (Streamer.heap m') = length (Streamer.heap m).
Proof.
  intros [Hl Hst Hr Ho] Hc Hn Hs Hlt He.
  destruct (Streamer.life_step e m m' o stopped Hl Hc ltac:(rewrite Hn; lia) He) as (Hl' & Hlen & _).
  rewrite Hs in Hl'. rewrite Hn, Nat.add_0_r in Hlen. split; [|done].
  assert (∀ id, known m id → known m' id) as Hk by (intros id; apply known_mono; lia).
  split; [done|by eauto| |done]. intros i id [??]%Hr. by eauto.
Qed.

Lemma owned_start i so se m m' o gs stopped :
  owned m gs stopped → gs !! i = Some None → (Z.of_nat (length (Streamer.heap m)) + 1 < 2 ^ 64)%Z →
  Streamer.Stream so se m = Streamer.Next m' o →
  owned m' (<[i := Some (returned_id o)]> gs) stopped ∧ length (Streamer.heap m') = S (length (Streamer.heap m)).
Proof.
  intros [Hl Hst Hr Ho] Hi Hlt Hs. destruct (Streamer.life_Stream _ _ _ _ _ _ Hl Hlt Hs) as (Hl' & -> & Hlen).
  cbn [returned_id]. split; [|done]. pose proof (known_new m) as Hnew.
  assert (∀ id, known m id → known m' id) as Hk by (intros id; apply known_mono; lia).
  split; [done|by eauto| |].
  - intros j id [(<- & [= <-] & _)|[_ [??]%Hr]]%list_lookup_insert_Some; [|by eauto].
    split; [eexists; split; [done|lia]|]. by intros ?%Hst.
  - intros j j' id [(<- & [= <-] & _)|[Hj Hj1]]%list_lookup_insert_Some [(<- & E & _)|[Hj' Hj2]]%list_lookup_insert_Some;
      simplify_eq; try done; [..|by eapply Ho]; exfalso; apply Hnew; by eapply Hr.
Qed.

Lemma owned_stop i id m gs stopped :
  owned m gs stopped → gs !! i = Some (Some id) →
  ∃ m' o, Streamer.Stop id m = Streamer.Next m' o ∧ owned m' (<[i := None]> gs) (id :: stopped) ∧
    length (Streamer.heap m') = length (Streamer.heap m).
Proof.
  intros [Hl Hst Hr Ho] Hi. destruct (Hr _ _ Hi) as [Hk Hn].
  destruct (Streamer.Stop id m) as [m' o| |] eqn:Hs.
  - destruct (Streamer.life_Stop _ _ _ _ _ Hl Hs) as (Hl' & -> & Hlen).
    assert (∀ id, known m id → known m' id) as Hk' by (intros id'; apply known_mono; lia).
    eexists m', _. split_and!; [done| |done]. split; [done| | |].
    + intros id' [->|?%Hst]%elem_of_cons; by eauto.
    + intros j id' [(<- & [=] & _)|[Hne Hj]]%list_lookup_insert_Some. destruct (Hr _ _ Hj) as [Hkj Hnj].
      split; [by eauto|]. intros [->|?]%elem_of_cons; [|done]. by apply Hne, (Ho i j id).
    + intros j j' id' [(<- & [=] & _)|[_ Hj]]%list_lookup_insert_Some [(<- & [=] & _)|[_ Hj']]%list_lookup_insert_Some.
      by eapply Ho.
  - unfold Streamer.Stop in Hs. by destruct (Streamer.loadStream id m) as [[? []]|]; simplify_eq; repeat case_match.
  - exfalso. eapply (Streamer.step_no_panic (Streamer.EStop id) m stopped Hl); [done| |exact Hs]. by intros ? [= <-].
Qed.

(** The invariant of the whole server: [gs] says of each goroutine who started
    it and which stream it has to stop; at most [n] streams have been started. *)
Record tidy (n : nat) (x : state * list origin) (gs : list (origin * option string)) : Prop := {
  tidy_bomberman : is_Some (bomberman x.1.1);
  tidy_origins : gs.*1 = x.2;
  tidy_ends : Forall2 (λ (th : thread (C := C) (P := P)) g, ends g.1 g.2 th.1) x.1.2 gs;
  tidy_owned : ∃ stopped, owned (streamer x.1.1) gs.*2 stopped;
  tidy_size : (length (Streamer.heap (streamer x.1.1)) ≤ n)%nat;
}.

(** The event of the streamer that an action is. *)
Definition event_of {R} (e : eff (C := C) (P := P) R) : option Streamer.event :=
  match e with
  | MakeChan cap => Some (Streamer.EMake cap)
  | StreamStart o e => Some (Streamer.EStream o e)
  | StreamStop id => Some (Streamer.EStop id)
  | ServeStream true id => Some (Streamer.EServeStdout id)
  | ServeStream false id => Some (Streamer.EServeStderr id)
  | _ => None
  end.

Lemma perform_streamer x {R} (e : eff R) (s : GardenServer C B) w r s' w' :
  perform x e s w = Done r s' w' → no_stream e = true →
  match event_of e with
  | Some ev => ∃ o, Streamer.step ev (streamer s) = Streamer.Next (streamer s') o
  | None => streamer s' = streamer s
  end.
Proof.
  unfold perform, on_streamer. destruct e; intros Hp Hn; try done; cbn [event_of];
    try (destruct stdout; cbn [Streamer.step]); repeat case_hyp Hp; simplify_eq; try done; by eexists.
Qed.

(** An action of a goroutine keeps the streams owned, and answers as the
    protocol says. *)
Lemma owned_act x i {R} (e : eff R) (s : GardenServer C B) w r s' w' gs t stopped :
  owned (streamer s) gs stopped → is_Some (bomberman s) → gs !! i = Some t → may e t →
  (Z.of_nat (length (Streamer.heap (streamer s))) + 1 < 2 ^ 64)%Z → perform x e s w = Done r s' w' →
  answers e r ∧ (∃ stopped', owned (streamer s') (<[i := runs e r t]> gs) stopped') ∧
  (length (Streamer.heap (streamer s')) ≤ S (length (Streamer.heap (streamer s))))%nat.
Proof.
  intros Ho [b Hb] Hi Hm Hlt Hp. destruct (no_stream e) eqn:Hn.
  - assert (answers e r) as Ha by (destruct e; try done; cbn in *; rewrite Hb in Hp; by simplify_eq).
    assert (runs e r t = t) as -> by (by destruct e). rewrite (list_insert_id gs i t Hi). split; [done|].
    pose proof (perform_streamer x e s w r s' w' Hp Hn) as Hs. destruct (event_of e) as [ev|] eqn:Hev.
    + destruct Hs as [o Hs]. assert (Streamer.closes ev = false ∧ Streamer.stream_count [ev] = 0%nat ∧ Streamer.stops [ev] = [])
        as (? & ? & ?) by (destruct e; try done; try destruct stdout; cbn in Hev; simplify_eq; done).
      destruct (owned_event ev (streamer s) (streamer s') o gs stopped) as [? ->]; [done..|lia|done|]. split; [by eexists|lia].
    + rewrite Hs. split; [by eexists|lia].
  - destruct e; try done; cbn in Hm; subst t; cbn [perform on_streamer] in Hp.
    + destruct (Streamer.Stream stdout stderr (streamer s)) as [m o| |] eqn:Hs; cbn in Hp; simplify_eq. cbn [streamer set_streamer].
      destruct (owned_start i stdout stderr (streamer s) m o gs stopped) as [Ho' Hlen]; [done..|].
      split_and!; [done|exists stopped; exact Ho'|cbn; lia].
    + destruct (owned_stop i id (streamer s) gs stopped Ho Hi) as (m & o & Hs & Ho' & Hlen).
      rewrite Hs in Hp. cbn in Hp. simplify_eq. cbn [streamer set_streamer]. split_and!; [done|by eexists|lia].
Qed.

Lemma tidy_spawn n s ts os gs o p :
  tidy n (s, ts, os) gs → ends o None p → tidy (S n) (s, ts ++ [(p, new_response)], os ++ [o]) (gs ++ [(o, None)]).
Proof.
  intros [Hb Ho Hth [st [Hl Hst Hr Hon]] Hsz] Hp. cbn in *. split; cbn; [done| | | |lia].
  - rewrite fmap_app. by f_equal.
  - apply Forall2_app; [done|]. by constructor.
  - exists st. rewrite fmap_app. cbn. split; [done|done| |].
    + intros i id [Hi|[_ [_ [=]]%list_lookup_singleton_Some]]%lookup_app_Some. by eapply Hr.
    + intros i j id [Hi|[_ [_ [=]]%list_lookup_singleton_Some]]%lookup_app_Some
        [Hj|[_ [_ [=]]%list_lookup_singleton_Some]]%lookup_app_Some. by eapply Hon.
Qed.

Lemma tidy_step n x gs y :
  tidy n x gs → (Z.of_nat n + 1 < 2 ^ 64)%Z → full_step x y → ∃ gs', tidy (S n) y gs'.
Proof.
  intros Ht Hn Hs. destruct Hs as [x0 s ts os i R e k w r s' w' Hi Hp|s ts os name h r Hh|s ts os d Hd|s ts os b p i c b' Hb He|s ts os e m o Hint He].
  - destruct Ht as [Hb Ho Hth [st How] Hsz]. cbn in *.
    destruct (Forall2_lookup_l _ _ _ _ _ Hth Hi) as ([og t] & Hg & [Hm Hk]). cbn [fst snd] in *.
    assert (gs.*2 !! i = Some t) as Hgt by (by rewrite list_lookup_fmap, Hg).
    destruct (owned_act x0 i e s w r s' w' gs.*2 t st) as (Ha & How' & Hsz'); [done..|lia|done|].
    exists (<[i := (og, runs e r t)]> gs). split; cbn; [| | | |lia].
    + rewrite (perform_bomberman x0 e s w r s' w' Hp). destruct e; try done. by destruct Hb as [b ->].
    + rewrite list_fmap_insert. cbn. rewrite <- Ho. apply list_insert_id. by rewrite list_lookup_fmap, Hg.
    + apply Forall2_insert; [done|]. by apply Hk.
    + by rewrite list_fmap_insert.
  - exists (gs ++ [(ByRequest name, None)]). apply tidy_spawn; [done|]. by eapply bulk_ends.
  - exists gs. destruct Ht as [Hb Ho Hth How Hsz]. split; cbn in *; [done..|lia].
  - exists (gs ++ [(ByTimer, None)]). apply tidy_spawn; [|apply clean_ends, clean_detonated].
    destruct Ht as [_ Ho Hth How Hsz]. split; cbn in *; [by eexists|done..].
  - destruct Ht as [Hb Ho Hth [st How] Hsz]. exists gs. cbn in *.
    destruct (owned_event e (streamer s) m o gs.*2 st) as [How' Hlen]; [done|by destruct e..|lia|done|].
    split; cbn; [done..|by eexists|lia].
Qed.

Lemma tidy_run k : ∀ n x gs y,
  tidy n x gs → (Z.of_nat (n + k) < 2 ^ 64)%Z → full_run k x y → ∃ gs', tidy (n + k) y gs'.
Proof.
  induction k as [|k IH]; intros n x gs y Ht Hn Hrun; inversion Hrun as [|k' ? z ? Hs Hr]; subst.
  { rewrite Nat.add_0_r. by eexists. }
  destruct (tidy_step n x gs z Ht ltac:(lia) Hs) as [gs' Ht']. replace (n + S k)%nat with (S n + k)%nat by lia.
  eapply IH; [exact Ht'|lia|done].
Qed.

(** C8 Only the two bulk requests can panic: from a server that has just been
    started, however requests, timers, the backend's output, the goroutines that
    serve it and the deletions of old streams interleave, a goroutine that has
    panicked was started by a BulkInfo or BulkMetrics request, none of the
    timers' goroutines has, and no further event of the streamer panics either. *)
Theorem only_bulk_requests_panic (g : Duration) (k : nat) (s0 s : GardenServer C B) (ts : list thread)
    (os : list origin) (i : nat) (o : origin) (w : response)
    (Hb : is_Some (bomberman s0)) (Hs : streamer s0 = Streamer.New g)
    (Hk : (Z.of_nat k < 2 ^ 64)%Z)
    (Hrun : full_run k (s0, [], []) (s, ts, os)) :
  (ts !! i = Some (Panic, w) → os !! i = Some o → ∃ name, o = ByRequest name ∧ bulk name = true) ∧
  (∀ e, internal e = true → Streamer.step e (streamer s) ≠ Streamer.Panic).
Proof.
  assert (tidy 0 (s0, [], []) []) as Ht0.
  { split; cbn; [done..| |by rewrite Hs]. exists []. rewrite Hs. split; [apply Streamer.life_New|..]; intros ??; set_solver. }
  destruct (tidy_run k 0 _ [] _ Ht0 Hk Hrun) as (gs & [_ Ho Hth [st How] _]). cbn in *. split.
  - intros Hi Hoi. destruct (Forall2_lookup_l _ _ _ _ _ Hth Hi) as ([og t] & Hg & [_ Hf]). cbn in Hf.
    assert (og = o) as -> by (rewrite <- Ho, list_lookup_fmap, Hg in Hoi; by injection Hoi).
    specialize (Hf eq_refl). destruct o as [name|]; [by exists name|done].
  - intros e He. apply (Streamer.step_no_panic e (streamer s) st (owned_life _ _ _ How)); [by destruct e|by intros id ->].
Qed.
End panics.

Section witnesses.
#[local] Existing Instance Sample.sample_backend.
#[local] Existing Instance Sample.sample_text.

(** A BulkInfo request without handles panics, while a process is started. *)
Definition no_query : request := mk_request ∅ [].

Definition two_requests : list (thread (C := string) (P := string)) :=
  [(handleRun no_query, new_response); (handleBulkInfo no_query, new_response)].

Lemma only_bulk_requests_panic_witness :
  two_requests !! 1%nat = Some (Panic, new_response) ∧
  (∃ name, ByRequest "BulkInfo" = ByRequest name ∧ bulk name = true) ∧
  Streamer.step (Streamer.ESleep 5) (streamer server0) ≠ Streamer.Panic.
Proof.
  split; [reflexivity|].
  destruct (only_bulk_requests_panic 60000000000 2 server0 server0 two_requests [ByRequest "Run"; ByRequest "BulkInfo"]
    1 (ByRequest "BulkInfo") new_response) as [H1 H2]; [by eexists|done|lia| |].
  - eapply full_cons; [by apply (full_request server0 [] [] "Run" handleRun no_query)|].
    eapply full_cons; [|apply full_nil].
    by apply (full_request server0 [(handleRun no_query, new_response)] [ByRequest "Run"] "BulkInfo" handleBulkInfo no_query).
  - split; [by apply H1|by apply H2].
Defined.
End witnesses.
End Panics.
