(* ===== verification/Counterfeiter.v ===== *)
(** * Generated fakes

    The fakes of gardenfakes/ and client/connection/connectionfakes/ are written
    by a generator, each method after the same pattern; this is the pattern, as
    programs over the locks and fields of a fake, so that several goroutines of
    a test can run at once.  [FakeProcess.v] and its siblings are its instances. *)
From S2P Require Import Prelude Types Prog.

Module Counterfeiter.
Import Prog.

(** A value of type [interface{}]. *)
Record any := Any { any_type : Type; any_value : any_type }.
Arguments Any {any_type} any_value.

(** ** The struct of a fake *)

(** A method of the interface: its name, the types of its arguments and results
    (as tuples), its arguments as a list, and the zero value of its results. *)
Record entry := mk_entry {
  e_name : string;
  e_args : Type;
  e_results : Type;
  e_list : e_args → list any;
  e_zero : e_results;
}.
Arguments mk_entry _ {_ _} _ _.

Section counterfeiter.
(** What a test keeps besides the fake; its stubs may change it. *)
Context {W : Type}.

Definition stub (e : entry) : Type := e_args e → W → e_results e * W.

(** The fields of a method: a stub (nil when absent), the arguments of the calls
    so far, what to return, and what to return on a certain call. *)
Record method (e : entry) := mk_method {
  Stub : option (stub e);
  argsForCall : list (e_args e);
  returns : e_results e;
  returnsOnCall : option (gmap Z (e_results e));
}.
#[global] Arguments mk_method {e} _ _ _ _.
#[global] Arguments Stub {e} _.
#[global] Arguments argsForCall {e} _.
#[global] Arguments returns {e} _.
#[global] Arguments returnsOnCall {e} _.

Definition new_method (e : entry) : method e := mk_method None [] (e_zero e) None.

Definition set_stub {e} s (m : method e) : method e := mk_method s (argsForCall m) (returns m) (returnsOnCall m).
Definition set_args {e} l (m : method e) : method e := mk_method (Stub m) l (returns m) (returnsOnCall m).
Definition set_returns {e} r (m : method e) : method e := mk_method (Stub m) (argsForCall m) r (returnsOnCall m).
Definition set_onCall {e} r (m : method e) : method e := mk_method (Stub m) (argsForCall m) (returns m) r.

(** The methods of an interface, and one of them. *)
Fixpoint methods (sg : list entry) : Type :=
  match sg with [] => unit | e :: sg' => (method e * methods sg')%type end.

Fixpoint new_methods (sg : list entry) : methods sg :=
  match sg with [] => () | e :: sg' => (new_method e, new_methods sg') end.

Record fake (sg : list entry) := mk_fake {
  fk_methods : methods sg;
  invocations : gomap (slice (list any));
}.
End counterfeiter.

Inductive field : list entry → entry → Type :=
| Here {e sg} : field (e :: sg) e
| There {e e' sg} (f : field sg e) : field (e' :: sg) e.

(** The [n]-th method. *)
Fixpoint field_at (sg : list entry) (n : nat) : match sg !! n with Some e => field sg e | None => unit end :=
  match sg, n with
  | [], _ => ()
  | e :: sg', 0%nat => Here
  | e :: sg', S n' =>
      match sg' !! n' as o
        return match o with Some e' => field sg' e' | None => unit end →
               match o with Some e' => field (e :: sg') e' | None => unit end
      with Some e' => There | None => λ _, () end (field_at sg' n')
  end.

Fixpoint position {sg e} (f : field sg e) : nat :=
  match f with Here => 0%nat | There f' => S (position f') end.

(** The locks of a fake: the [invocationsMutex], and a mutex per method. *)
Definition mutex : Type := option nat.
Definition invocationsMutex : mutex := None.
Definition mutex_of {sg e} (f : field sg e) : mutex := Some (position f).

(** A [sync.RWMutex]; the zero value is free. *)
Inductive rw :=
| Readers (n : nat)
| Writer.

Section machine.
Context {W : Type} {sg : list entry}.

Fixpoint get {sg' e} (f : field sg' e) : methods (W := W) sg' → method e :=
  match f with Here => fst | There f' => λ ms, get f' ms.2 end.

Fixpoint put {sg' e} (f : field sg' e) : method e → methods (W := W) sg' → methods sg' :=
  match f with Here => λ m ms, (m, ms.2) | There f' => λ m ms, (ms.1, put f' m ms.2) end.

(** A fake with the state of its locks, and the rest of the test. *)
Record machine := mk_machine {
  the_fake : fake (W := W) sg;
  locks : gmap mutex rw;
  world : W;
}.

Definition new_fake (w : W) : machine := mk_machine (mk_fake sg (new_methods sg) None) ∅ w.

Definition method_of {e} (f : field sg e) (m : machine) : method e := get f (fk_methods _ (the_fake m)).
Definition update {e} (f : field sg e) (g : method e → method e) (m : machine) : machine :=
  mk_machine (mk_fake sg (put f (g (method_of f m)) (fk_methods _ (the_fake m))) (invocations _ (the_fake m)))
    (locks m) (world m).
Definition set_invocations v (m : machine) : machine :=
  mk_machine (mk_fake sg (fk_methods _ (the_fake m)) v) (locks m) (world m).
Definition set_lock x l (m : machine) : machine := mk_machine (the_fake m) (<[x := l]> (locks m)) (world m).
Definition set_world w (m : machine) : machine := mk_machine (the_fake m) (locks m) w.

Definition lock_state (m : machine) (x : mutex) : rw := default (Readers 0) (locks m !! x).

(** ** Actions: locking, and the accesses to the fields *)
Inductive eff : Type → Type :=
| Lock (x : mutex) : eff unit
| Unlock (x : mutex) : eff unit
| RLock (x : mutex) : eff unit
| RUnlock (x : mutex) : eff unit
| LenArgs {e} (f : field sg e) : eff nat
| GetArgs {e} (f : field sg e) (i : Z) : eff (option (e_args e))
| AppendArgs {e} (f : field sg e) (a : e_args e) : eff unit
| GetStub {e} (f : field sg e) : eff (option (stub (W := W) e))
| SetStub {e} (f : field sg e) (s : option (stub (W := W) e)) : eff unit
| RunStub {e} (s : stub (W := W) e) (a : e_args e) : eff (e_results e)
| GetReturns {e} (f : field sg e) : eff (e_results e)
| SetReturns {e} (f : field sg e) (r : e_results e) : eff unit
| GetOnCall {e} (f : field sg e) (n : nat) : eff (option (e_results e))
| NilOnCall {e} (f : field sg e) : eff bool
| MakeOnCall {e} (f : field sg e) : eff unit
| SetOnCall {e} (f : field sg e) (i : Z) (r : e_results e) : eff unit
| Record_ (key : string) (args : list any) : eff unit
| CopyInvocations : eff (gmap string (slice (list any))).

(** [append(fake.invocations[key], args)], with the maps and slices made when
    they are nil. *)
Definition record (key : string) (args : list any) (v : gomap (slice (list any))) : gomap (slice (list any)) :=
  let m := default ∅ v in
  let m := match m !! key with Some (Some _) => m | _ => <[key := Some []]> m end in
  Some (<[key := Some (slice_elems (default None (m !! key)) ++ [args])]> m).

(** An action happens, waits for a lock, or is a fatal error of the runtime. *)
Inductive outcome (R : Type) :=
| Done (r : R) (m : machine)
| Waits
| Fatal.
#[global] Arguments Done {R} r m.
#[global] Arguments Waits {R}.
#[global] Arguments Fatal {R}.

(** A nil map has no entries, and cannot be written. *)
Definition perform {R} (a : eff R) (m : machine) : outcome R :=
  match a in eff R return outcome R with
  | Lock x => match lock_state m x with Readers 0 => Done () (set_lock x Writer m) | _ => Waits end
  | Unlock x => match lock_state m x with Writer => Done () (set_lock x (Readers 0) m) | _ => Fatal end
  | RLock x => match lock_state m x with Readers n => Done () (set_lock x (Readers (S n)) m) | Writer => Waits end
  | RUnlock x => match lock_state m x with Readers (S n) => Done () (set_lock x (Readers n) m) | _ => Fatal end
  | LenArgs f => Done (length (argsForCall (method_of f m))) m
  | GetArgs f i => Done (if (i <? 0)%Z then None else argsForCall (method_of f m) !! Z.to_nat i) m
  | AppendArgs f a => Done () (update f (λ x, set_args (argsForCall x ++ [a]) x) m)
  | GetStub f => Done (Stub (method_of f m)) m
  | SetStub f s => Done () (update f (set_stub s) m)
  | RunStub s a => let (r, w) := s a (world m) in Done r (set_world w m)
  | GetReturns f => Done (returns (method_of f m)) m
  | SetReturns f r => Done () (update f (set_returns r) m)
  | GetOnCall f n => Done (returnsOnCall (method_of f m) ≫= λ rs, rs !! Z.of_nat n) m
  | NilOnCall f => Done (match returnsOnCall (method_of f m) with None => true | Some _ => false end) m
  | MakeOnCall f => Done () (update f (set_onCall (Some ∅)) m)
  | SetOnCall f i r =>
      match returnsOnCall (method_of f m) with
      | Some rs => Done () (update f (set_onCall (Some (<[i := r]> rs))) m)
      | None => Fatal
      end
  | Record_ key args => Done () (set_invocations (record key args (invocations _ (the_fake m))) m)
  | CopyInvocations => Done (default ∅ (invocations _ (the_fake m))) m
  end.

Abbreviation code := (prog eff).

(** ** The functions of a method *)
Definition recordInvocation (key : string) (args : list any) : code unit :=
  act (Lock invocationsMutex);;
  pdefer (act (Unlock invocationsMutex)) (act (Record_ key args)).

(** The method itself.  The stub is read twice: once to see whether it is nil,
    once to call it. *)
Definition Call {e} (f : field sg e) (a : e_args e) : code (e_results e) :=
  act (Lock (mutex_of f));;
  n ← act (LenArgs f);
  specificReturn ← act (GetOnCall f n);
  act (AppendArgs f a);;
  recordInvocation (e_name e) (e_list e a);;
  act (Unlock (mutex_of f));;
  s ← act (GetStub f);
  match s with
  | Some _ =>
      s ← act (GetStub f);
      match s with Some s => act (RunStub s a) | None => Panic end
  | None =>
      match specificReturn with
      | Some ret => Ret ret
      | None => act (GetReturns f)
      end
  end.

Definition locked {A} (x : mutex) (p : code A) : code A :=
  act (Lock x);; pdefer (act (Unlock x)) p.
Definition rlocked {A} (x : mutex) (p : code A) : code A :=
  act (RLock x);; pdefer (act (RUnlock x)) p.

Definition CallCount {e} (f : field sg e) : code nat := rlocked (mutex_of f) (act (LenArgs f)).

Definition Calls {e} (f : field sg e) (s : option (stub (W := W) e)) : code unit :=
  locked (mutex_of f) (act (SetStub f s)).

Definition ArgsForCall {e} (f : field sg e) (i : Z) : code (e_args e) :=
  rlocked (mutex_of f) (a ← act (GetArgs f i); match a with Some a => Ret a | None => Panic end).

(** Of the two generations of the generator, the older one has no [Calls], and
    its setters do not lock. *)
Inductive generation := Older | Newer.

Definition guarded (g : generation) (x : mutex) (p : code unit) : code unit :=
  match g with Newer => locked x p | Older => p end.

Definition Returns (g : generation) {e} (f : field sg e) (r : e_results e) : code unit :=
  guarded g (mutex_of f) (act (SetStub f None);; act (SetReturns f r)).

Definition ReturnsOnCall (g : generation) {e} (f : field sg e) (i : Z) (r : e_results e) : code unit :=
  guarded g (mutex_of f) (
    act (SetStub f None);;
    isNil ← act (NilOnCall f);
    (if isNil : bool then act (MakeOnCall f) else Ret ());;
    act (SetOnCall f i r)).

(** [Invocations]: under all the locks. *)
Fixpoint rlocked_all {A} (xs : list mutex) (p : code A) : code A :=
  match xs with [] => p | x :: xs' => rlocked x (rlocked_all xs' p) end.

Definition Invocations : code (gmap string (slice (list any))) :=
  rlocked_all (invocationsMutex :: (Some <$> seq 0 (length sg))) (act CopyInvocations).

(** The functions generated for a method; one without arguments has no
    [ArgsForCall]. *)
Record functions (A R : Type) := mk_functions {
  call : A → code R;
  callCount : code nat;
  calls : option (option (A → W → R * W) → code unit);
  args_for_call : option (Z → code A);
  returns_ : R → code unit;
  returns_on_call : Z → R → code unit;
}.

#[global] Arguments mk_functions {A R} _ _ _ _ _ _.
#[global] Arguments call {A R} _ _.
#[global] Arguments callCount {A R} _.
#[global] Arguments calls {A R} _.
#[global] Arguments args_for_call {A R} _.
#[global] Arguments returns_ {A R} _ _.
#[global] Arguments returns_on_call {A R} _ _ _.

Definition with_args (g : generation) {e} (f : field sg e) : functions (e_args e) (e_results e) :=
  mk_functions (Call f) (CallCount f) (match g with Newer => Some (Calls f) | Older => None end)
    (Some (ArgsForCall f)) (Returns g f) (ReturnsOnCall g f).

Definition without_args (g : generation) {e} (f : field sg e) : functions (e_args e) (e_results e) :=
  mk_functions (Call f) (CallCount f) (match g with Newer => Some (Calls f) | Older => None end)
    None (Returns g f) (ReturnsOnCall g f).

(** ** One goroutine *)

(** How a function that nobody interferes with ends. *)
Inductive ran (A : Type) :=
| Ended (a : A) (m : machine)
| Panicked (m : machine)
| Stuck
| Crashed.
#[global] Arguments Ended {A} a m.
#[global] Arguments Panicked {A} m.
#[global] Arguments Stuck {A}.
#[global] Arguments Crashed {A}.

Fixpoint run {A} (p : code A) (m : machine) : ran A :=
  match p with
  | Ret a => Ended a m
  | Panic => Panicked m
  | Act e k =>
      match perform e m with
      | Done r m' => run (k r) m'
      | Waits => Stuck
      | Fatal => Crashed
      end
  end.
End machine.

(** ** Fields *)
Section fields.
Context {W : Type}.

Lemma get_put {sg e} (f : field sg e) m (ms : methods (W := W) sg) : get f (put f m ms) = m.
Proof. induction f; cbn; [done|apply IHf]. Qed.

Lemma put_put {sg e} (f : field sg e) m m' (ms : methods (W := W) sg) : put f m (put f m' ms) = put f m ms.
Proof. induction f; cbn; [done|by rewrite IHf]. Qed.

Lemma put_get {sg e} (f : field sg e) (ms : methods (W := W) sg) : put f (get f ms) ms = ms.
Proof. induction f; destruct ms; cbn; [done|by rewrite IHf]. Qed.

(** Writing a method leaves the ones elsewhere. *)
Lemma get_put_ne {sg e e'} (f : field sg e) (f' : field sg e') m (ms : methods (W := W) sg) :
  position f ≠ position f' → get f' (put f m ms) = get f' ms.
Proof.
  revert e' f'. induction f as [e sg|e e0 sg f IH]; intros e' f' Hne.
  - revert m ms Hne. refine (match f' in field sg' e'' return
      match sg' return field sg' e'' → Prop with
      | [] => λ _, True
      | e1 :: sg1 => λ f', ∀ (m : method e1) (ms : methods (e1 :: sg1)), position (Here (e := e1) (sg := sg1)) ≠ position f' →
          get f' (put Here m ms) = get f' ms
      end f' with Here => _ | There f'' => _ end); cbn; [done|]. done.
  - revert f IH ms Hne. refine (match f' in field sg' e'' return
      match sg' return field sg' e'' → Prop with
      | [] => λ _, True
      | e1 :: sg1 => λ f', ∀ (f : field sg1 e)
          (IH : ∀ m ms e2 (f2 : field sg1 e2), position f ≠ position f2 → get f2 (put f m ms) = get f2 ms)
          (ms : methods (e1 :: sg1)),
          position (There (e' := e1) f) ≠ position f' → get f' (put (There f) m ms) = get f' ms
      end f' with Here => _ | There f'' => _ end); cbn; [done|].
    intros f IH ms Hne. apply IH. congruence.
Qed.
End fields.

(** ** What a method promises, from the history of the test *)
Section promise.
Context {W : Type} {e : entry}.

(** What a test did with the method so far, the latest first. *)
Inductive op :=
| OCall (a : e_args e)
| OCalls (s : option (stub (W := W) e))
| OReturns (r : e_results e)
| OReturnsOnCall (i : Z) (r : e_results e).

(** The latest word on the stub; setting results takes it away. *)
Fixpoint stub_now (past : list op) : option (stub (W := W) e) :=
  match past with
  | [] => None
  | OCall _ :: past' => stub_now past'
  | OCalls s :: _ => s
  | OReturns _ :: _ | OReturnsOnCall _ _ :: _ => None
  end.

Fixpoint returns_now (past : list op) : e_results e :=
  match past with
  | [] => e_zero e
  | OReturns r :: _ => r
  | _ :: past' => returns_now past'
  end.

Fixpoint on_call_now (n : Z) (past : list op) : option (e_results e) :=
  match past with
  | [] => None
  | OReturnsOnCall i r :: past' => if decide (i = n) then Some r else on_call_now n past'
  | _ :: past' => on_call_now n past'
  end.

Fixpoint calls_now (past : list op) : list (e_args e) :=
  match past with
  | [] => []
  | OCall a :: past' => calls_now past' ++ [a]
  | _ :: past' => calls_now past'
  end.

(** What a call gives: the stub's answer, or what was set for this very call, or
    what was set for all. *)
Definition answer (past : list op) (a : e_args e) (w : W) : e_results e * W :=
  match stub_now past with
  | Some s => s a w
  | None => (default (returns_now past) (on_call_now (Z.of_nat (length (calls_now past))) past), w)
  end.

(** The answers to the calls of a history, given its past. *)
Fixpoint answers (past : list op) (h : list op) (w : W) : list (e_results e) * W :=
  match h with
  | [] => ([], w)
  | OCall a :: h' =>
      let (r, w1) := answer past a w in
      let (rs, w2) := answers (OCall a :: past) h' w1 in (r :: rs, w2)
  | o :: h' => answers (o :: past) h' w
  end.
End promise.
Arguments op : clear implicits.
Arguments op W e : rename.

Section sequential.
Context {W : Type} {sg : list entry}.
Abbreviation machine := (machine (W := W) (sg := sg)).
Abbreviation code := (prog (eff (W := W) (sg := sg))).

(** The same, with the functions of the fake. *)
Fixpoint test (g : generation) {e} (f : field sg e) (h : list (op W e)) : code (list (e_results e)) :=
  match h with
  | [] => Ret []
  | OCall a :: h' => r ← Call f a; rs ← test g f h'; Ret (r :: rs)
  | OCalls s :: h' => Calls f s;; test g f h'
  | OReturns r :: h' => Returns g f r;; test g f h'
  | OReturnsOnCall i r :: h' => ReturnsOnCall g f i r;; test g f h'
  end.

(** Nobody has a lock. *)
Definition free (m : machine) : Prop := ∀ x, lock_state m x = Readers 0.

Lemma lock_state_set (m : machine) x l y :
  lock_state (set_lock x l m) y = if decide (x = y) then l else lock_state m y.
Proof.
  unfold lock_state. cbn. destruct (decide (x = y)) as [->|Hne]; [by rewrite lookup_insert_eq|by rewrite lookup_insert_ne].
Qed.

Lemma ran_bind {A A'} (p : code A) (k : A → code A') (m : machine) :
  run (pbind k p) m =
  match run p m with
  | Ended a m' => run (k a) m'
  | Panicked m' => Panicked m'
  | Stuck => Stuck
  | Crashed => Crashed
  end.
Proof.
  revert m. induction p as [a| |R e0 k' IH]; intros m; [done..|]. cbn. destruct (perform e0 m); [apply IH|done..].
Qed.

Lemma run_defer_act {A} (d : eff unit) (p : code A) (m m' m'' : machine) a :
  run p m = Ended a m' → perform d m' = Done () m'' → run (pdefer (act d) p) m = Ended a m''.
Proof.
  revert m. induction p as [a'| |R e0 k IH]; intros m Hp Hd; cbn in *; [|done|].
  - injection Hp as -> ->. by rewrite Hd.
  - destruct (perform e0 m); [by eapply IH|done..].
Qed.

Lemma run_defer_act_panic {A} (d : eff unit) (p : code A) (m m' m'' : machine) :
  run p m = Panicked m' → perform d m' = Done () m'' → run (pdefer (act d) p) m = Panicked m''.
Proof.
  revert m. induction p as [a'| |R e0 k IH]; intros m Hp Hd; cbn in *; [done| |].
  - injection Hp as ->. by rewrite Hd.
  - destruct (perform e0 m); [by eapply IH|done..].
Qed.

(** ** The functions keep the promise *)

(** Running [p] alone ends with [a], no lock held, and the rest as told. *)
Definition does {A} (p : code A) (m : machine) (a : A) (F : fake sg) (w : W) : Prop :=
  ∃ m', run p m = Ended a m' ∧ the_fake m' = F ∧ world m' = w ∧ free m'.

Lemma does_bind {A A'} (p : code A) (k : A → code A') m a F w a' F' w' :
  does p m a F w → (∀ m', the_fake m' = F → world m' = w → free m' → does (k a) m' a' F' w') →
  does (pbind k p) m a' F' w'.
Proof.
  intros (m1 & Hr & HF & Hw & Hf) Hk. destruct (Hk m1 HF Hw Hf) as (m2 & Hr2 & ? & ? & ?). exists m2.
  by rewrite ran_bind, Hr.
Qed.

(** The locks left as they were. *)
Lemma free_relock (m : machine) x l : free m → free (set_lock x (Readers 0) (set_lock x l m)).
Proof. intros Hf y. rewrite !lock_state_set. by destruct (decide (x = y)). Qed.

Definition with_method {e} (f : field sg e) (g : method e → method e) (F : fake (W := W) sg) : fake sg :=
  mk_fake sg (put f (g (get f (fk_methods _ F))) (fk_methods _ F)) (invocations _ F).

Lemma method_of_update {e} (f : field sg e) g (m : machine) : method_of f (update f g m) = g (method_of f m).
Proof. unfold method_of, update. cbn. by rewrite get_put. Qed.

Lemma update_update {e} (f : field sg e) g g' (m : machine) : update f g (update f g' m) = update f (λ x, g (g' x)) m.
Proof. unfold update, method_of. cbn. by rewrite get_put, put_put. Qed.

Lemma the_fake_update {e} (f : field sg e) g (m : machine) : the_fake (update f g m) = with_method f g (the_fake m).
Proof. done. Qed.

(** A program that only writes fields, between the locking and the unlocking. *)
Lemma does_locked {A} x (p : code A) (m m1 : machine) a F w :
  free m → run p (set_lock x Writer m) = Ended a m1 → locks m1 = locks (set_lock x Writer m) →
  the_fake m1 = F → world m1 = w → does (locked x p) m a F w.
Proof.
  intros Hf Hp Hl HF Hw. exists (set_lock x (Readers 0) m1). split_and!; [|done|done|].
  - unfold locked. cbn. rewrite Hf. eapply run_defer_act; [done|]. cbn. unfold lock_state. rewrite Hl. cbn.
    by rewrite lookup_insert_eq.
  - intros y. rewrite lock_state_set. destruct (decide (x = y)) as [->|Hne]; [done|]. unfold lock_state. rewrite Hl.
    change (lock_state (set_lock x Writer m) y = Readers 0). rewrite lock_state_set. by rewrite decide_False.
Qed.

Lemma does_guarded g x (p : code unit) (m : machine) (t : machine → machine) F :
  free m → (∀ m, run p m = Ended () (t m)) → (∀ m, locks (t m) = locks m ∧ world (t m) = world m) →
  (∀ x l, the_fake (t (set_lock x l m)) = F) → the_fake (t m) = F →
  does (guarded g x p) m () F (world m).
Proof.
  intros Hf Hp Ht HF HF'. destruct g.
  - exists (t m). destruct (Ht m) as [Hl Hw]. split_and!; [apply Hp|done|done|]. intros y. unfold lock_state. rewrite Hl. apply Hf.
  - destruct (Ht (set_lock x Writer m)) as [Hl Hw]. eapply does_locked; [done|apply Hp|done|apply HF|done].
Qed.

Lemma does_Calls {e} (f : field sg e) s m :
  free m → does (Calls f s) m () (with_method f (set_stub s) (the_fake m)) (world m).
Proof. intros Hf. by eapply does_locked. Qed.

Lemma does_Returns g {e} (f : field sg e) r m :
  free m →
  does (Returns g f r) m () (with_method f (λ x, set_returns r (set_stub None x)) (the_fake m)) (world m).
Proof.
  intros Hf. apply (does_guarded g _ _ m (update f (λ x, set_returns r (set_stub None x)))); [done| |done..].
  intros m'. cbn. by rewrite update_update.
Qed.

Lemma does_ReturnsOnCall g {e} (f : field sg e) (i : Z) r m :
  free m →
  does (ReturnsOnCall g f i r) m ()
    (with_method f (λ x, set_onCall (Some (<[i := r]> (default ∅ (returnsOnCall x)))) (set_stub None x)) (the_fake m)) (world m).
Proof.
  intros Hf.
  apply (does_guarded g _ _ m (update f (λ x, set_onCall (Some (<[i := r]> (default ∅ (returnsOnCall x)))) (set_stub None x))));
    [done| |done..].
  intros m'. cbn. rewrite method_of_update. cbn. destruct (returnsOnCall (method_of f m')) as [rs|] eqn:Hrs; cbn.
  - rewrite method_of_update. cbn. rewrite Hrs, update_update. unfold update. by rewrite Hrs.
  - rewrite !method_of_update. cbn. rewrite !update_update. unfold update. by rewrite Hrs.
Qed.

(** Reading under the read lock. *)
Lemma run_rlocked {A} x (p : code A) (m : machine) a :
  lock_state m x = Readers 0 → (∀ m', the_fake m' = the_fake m → run p m' = Ended a m') →
  run (rlocked x p) m = Ended a (set_lock x (Readers 0) (set_lock x (Readers 1) m)).
Proof.
  intros Hf Hp. unfold rlocked. cbn. rewrite Hf. eapply run_defer_act; [by apply Hp|]. cbn.
  by rewrite lock_state_set, decide_True.
Qed.

Lemma does_CallCount {e} (f : field sg e) m :
  free m → does (CallCount f) m (length (argsForCall (get f (fk_methods _ (the_fake m))))) (the_fake m) (world m).
Proof.
  intros Hf. eexists. split_and!; [eapply run_rlocked; [apply Hf|]|done|done|by apply free_relock].
  intros m' Hm. cbn. unfold method_of. by rewrite Hm.
Qed.

(** The entry of an index, and a panic without one, which gives the lock back. *)
Lemma does_ArgsForCall {e} (f : field sg e) (i : nat) a m :
  free m → argsForCall (get f (fk_methods _ (the_fake m))) !! i = Some a →
  does (ArgsForCall f (Z.of_nat i)) m a (the_fake m) (world m).
Proof.
  intros Hf Ha. eexists. split_and!; [eapply run_rlocked; [apply Hf|]|done|done|by apply free_relock].
  intros m' Hm. cbn -[Z.ltb]. unfold method_of. rewrite Hm, (proj2 (Z.ltb_ge _ _)) by lia.
  by rewrite Nat2Z.id, Ha.
Qed.

Lemma ArgsForCall_panics {e} (f : field sg e) (i : Z) m :
  free m → (i < 0 ∨ Z.of_nat (length (argsForCall (get f (fk_methods _ (the_fake m))))) ≤ i)%Z →
  ∃ m', run (ArgsForCall f i) m = Panicked m' ∧ free m' ∧ the_fake m' = the_fake m.
Proof.
  intros Hf Hi. eexists. split_and!; [|by apply free_relock|done]. unfold ArgsForCall, rlocked. cbn. rewrite Hf.
  apply (run_defer_act_panic _ _ _ (set_lock (mutex_of f) (Readers 1) m)); [|cbn; by rewrite lock_state_set, decide_True].
  cbn -[Z.ltb].
  change (method_of f (set_lock (mutex_of f) (Readers 1) m)) with (get f (fk_methods _ (the_fake m))).
  destruct (i <? 0)%Z eqn:?; [done|]. rewrite lookup_ge_None_2; [done|lia].
Qed.

Lemma does_Invocations m :
  free m → does Invocations m (default ∅ (invocations _ (the_fake m))) (the_fake m) (world m).
Proof.
  intros Hf. unfold Invocations. generalize (invocationsMutex :: (Some <$> seq 0 (length sg))) as xs.
  assert (∀ xs (m : machine), (∀ x n, lock_state m x = n → n ≠ Writer) →
    ∃ m', run (rlocked_all xs (act CopyInvocations)) m = Ended (default ∅ (invocations sg (the_fake m))) m' ∧
      the_fake m' = the_fake m ∧ world m' = world m ∧ ∀ x, lock_state m' x = lock_state m x) as Hall.
  { clear m Hf. induction xs as [|x xs IH]; intros m Hm; [by exists m|]. cbn [rlocked_all]. unfold rlocked. cbn.
    destruct (lock_state m x) as [n|] eqn:Hx; [|by destruct (Hm x Writer)].
    destruct (IH (set_lock x (Readers (S n)) m)) as (m' & Hr & HF & Hw & Hl).
    { intros y n' <-. rewrite lock_state_set. destruct (decide _); [done|by eapply Hm]. }
    exists (set_lock x (Readers n) m'). split_and!; [|done|done|].
    - eapply run_defer_act; [exact Hr|]. cbn. by rewrite Hl, lock_state_set, decide_True.
    - intros y. rewrite lock_state_set. destruct (decide (x = y)) as [->|Hne]; [done|].
      by rewrite Hl, lock_state_set, decide_False. }
  intros xs. destruct (Hall xs m) as (m' & Hr & HF & Hw & Hl); [by intros x n; rewrite Hf; intros <-|].
  exists m'. split_and!; [done..|]. intros x. by rewrite Hl.
Qed.

(** What a call leaves behind. *)
Definition called {e} (f : field sg e) (a : e_args e) (F : fake (W := W) sg) : fake sg :=
  mk_fake sg (fk_methods _ (with_method f (λ x, set_args (argsForCall x ++ [a]) x) F))
    (record (e_name e) (e_list e a) (invocations _ F)).

Lemma run_recordInvocation key args (m : machine) :
  lock_state m invocationsMutex = Readers 0 →
  run (recordInvocation key args) m =
  Ended () (set_lock invocationsMutex (Readers 0)
    (set_invocations (record key args (invocations _ (the_fake m))) (set_lock invocationsMutex Writer m))).
Proof.
  intros Hx. unfold recordInvocation. cbn. rewrite Hx. cbn.
  change (lock_state (set_invocations _ _) _) with (lock_state (set_lock invocationsMutex Writer m) invocationsMutex).
  by rewrite lock_state_set, decide_True.
Qed.

Lemma run_act {A R} (a : eff R) (k : R → code A) (m m' : machine) r :
  perform a m = Done r m' → run (pbind k (act a)) m = run (k r) m'.
Proof. intros Hp. cbn. by rewrite Hp. Qed.

(** A call up to the release of its mutex. *)
Lemma run_Call {e} (f : field sg e) a m :
  free m → ∃ m', free m' ∧ the_fake m' = called f a (the_fake m) ∧ world m' = world m ∧
  run (Call f a) m =
  run (s ← act (GetStub f);
       match s with
       | Some _ => s ← act (GetStub f); match s with Some s => act (RunStub s a) | None => Panic end
       | None =>
           match returnsOnCall (method_of f m) ≫= λ rs, rs !! Z.of_nat (length (argsForCall (method_of f m))) with
           | Some ret => Ret ret
           | None => act (GetReturns f)
           end
       end) m'.
Proof.
  intros Hf. eexists. split_and!; cycle 3.
  - unfold Call, mbind, prog_bind. erewrite run_act by (cbn; by rewrite Hf).
    erewrite run_act by done. erewrite run_act by done. erewrite run_act by done.
    rewrite ran_bind, run_recordInvocation by
      (change (lock_state (set_lock (mutex_of f) Writer m) None = Readers 0); rewrite lock_state_set; apply Hf).
    erewrite run_act; [done|]. cbn. rewrite !lock_state_set, decide_False by done. unfold lock_state. cbn.
    rewrite lookup_insert_ne, lookup_insert_eq by done. done.
  - intros y. rewrite lock_state_set. destruct (decide _); [done|]. rewrite lock_state_set. destruct (decide _); [done|].
    unfold lock_state. cbn. rewrite !lookup_insert_ne by done. apply Hf.
  - done.
  - done.
Qed.

Definition reply {e} (x : method e) (a : e_args e) (w : W) : e_results e * W :=
  match Stub x with
  | Some s => s a w
  | None => (default (returns x) (returnsOnCall x ≫= λ rs, rs !! Z.of_nat (length (argsForCall x))), w)
  end.

Lemma does_Call {e} (f : field sg e) a m :
  free m → let o := reply (get f (fk_methods _ (the_fake m))) a (world m) in
  does (Call f a) m o.1 (called f a (the_fake m)) o.2.
Proof.
  set (x := get f (fk_methods _ (the_fake m))). intros Hf o. destruct (run_Call f a m Hf) as (m' & Hf' & HF & Hw & Hr). unfold does. rewrite Hr.
  change (method_of f m) with x. clear Hr. cbn.
  assert (method_of f m' = set_args (argsForCall x ++ [a]) x) as Hx.
  { unfold method_of. rewrite HF. cbn. by rewrite get_put. }
  rewrite Hx. subst o. unfold reply. cbn. destruct (Stub x) as [s|] eqn:Hs; cbn.
  - rewrite Hx. cbn. rewrite Hs. cbn. rewrite Hw. destruct (s a (world m)) as [r w]. by exists (set_world w m').
  - destruct (returnsOnCall x ≫= _) as [r|]; exists m'; [done|]. cbn. by rewrite Hx.
Qed.

(** The fields of a method hold what the history says. *)
Record matches {e} (past : list (op W e)) (x : method e) : Prop := {
  match_stub : Stub x = stub_now past;
  match_args : argsForCall x = calls_now past;
  match_returns : returns x = returns_now past;
  match_on_call n : (returnsOnCall x ≫= λ rs, rs !! n) = on_call_now n past;
}.

Lemma answer_reply {e} past (x : method e) a w : matches past x → answer past a w = reply x a w.
Proof. intros [Hs Ha Hr Ho]. unfold answer, reply. by rewrite Hs, Hr, Ho, Ha. Qed.

(** What [Invocations] has of a method with these calls. *)
Definition invoked {e} (l : list (e_args e)) : gmap string (slice (list any)) :=
  match l with [] => ∅ | _ => {[e_name e := Some (e_list e <$> l)]} end.

Lemma record_invoked {e} (l : list (e_args e)) a v :
  default ∅ v = invoked l → default ∅ (record (e_name e) (e_list e a) v) = invoked (l ++ [a]).
Proof.
  intros Hv. unfold record. rewrite Hv. cbn. destruct l as [|a0 l]; cbn.
  - by rewrite lookup_empty, insert_insert_eq, lookup_insert_eq.
  - rewrite !lookup_singleton_eq, insert_singleton_eq. cbn. by rewrite fmap_app.
Qed.

(** A fake of which only the method [f] has been used, in this way. *)
Record used {e} (f : field sg e) (past : list (op W e)) (F : fake (W := W) sg) : Prop := {
  used_matches : matches past (get f (fk_methods _ F));
  used_invocations : default ∅ (invocations _ F) = invoked (calls_now past);
}.

Lemma used_with {e} (f : field sg e) past o g F :
  used f past F → calls_now (o :: past) = calls_now past →
  (∀ x, matches past x → matches (o :: past) (g x)) → used f (o :: past) (with_method f g F).
Proof. intros [Hm Hi] Hc Hg. split; [cbn; rewrite get_put; by apply Hg|by rewrite Hc]. Qed.

Lemma used_Call {e} (f : field sg e) past a F : used f past F → used f (OCall a :: past) (called f a F).
Proof.
  intros [[] Hi]. split; cbn.
  - rewrite get_put. split; cbn; [done|by f_equal|done..].
  - by apply record_invoked.
Qed.

Lemma new_used {e} (f : field sg e) w : used f [] (the_fake (new_fake (sg := sg) (W := W) w)).
Proof.
  split; [|done]. cbn. assert (get f (new_methods (W := W) sg) = new_method e) as ->.
  { induction f; cbn; [done|apply IHf]. }
  by split.
Qed.

Lemma does_test g {e} (f : field sg e) h : ∀ past m w,
  free m → used f past (the_fake m) → world m = w → ∃ m', 
  run (test g f h) m = Ended (answers past h w).1 m' ∧ world m' = (answers past h w).2 ∧ free m' ∧
  used f (rev h ++ past) (the_fake m').
Proof.
  induction h as [|o h IH]; intros past m w Hf Hu <-; [by exists m|].
  destruct o as [a|s|r|i r]; cbn [test answers rev]; unfold mbind, prog_bind; rewrite ran_bind, <- app_assoc.
  - destruct (does_Call f a m Hf) as (m1 & Hr & HF & Hw & Hf1). rewrite Hr, ran_bind. clear Hr.
    rewrite <- (answer_reply past) in Hw |- * by apply Hu.
    destruct (IH (OCall a :: past) m1 (answer past a (world m)).2) as (m2 & Hr2 & Hw2 & Hf2 & Hu2);
      [done|rewrite HF; by apply used_Call|done|].
    exists m2. rewrite Hr2. destruct (answer past a (world m)) as [r w1]. cbn in *. by destruct (answers _ h w1) as [rs w2].
  - destruct (does_Calls f s m Hf) as (m1 & -> & HF & Hw & Hf1). apply IH; [done| |done].
    rewrite HF. apply used_with; [done..|]. intros x []. by split.
  - destruct (does_Returns g f r m Hf) as (m1 & -> & HF & Hw & Hf1). apply IH; [done| |done].
    rewrite HF. apply used_with; [done..|]. intros x []. by split.
  - destruct (does_ReturnsOnCall g f i r m Hf) as (m1 & -> & HF & Hw & Hf1). apply IH; [done| |done].
    rewrite HF. apply used_with; [done..|]. intros x [? ? ? Ho]. split; [done..|]. intros n. cbn. rewrite lookup_insert.
    destruct (decide (i = n)); [done|]. rewrite <- Ho. by destruct (returnsOnCall x); cbn; rewrite ?lookup_empty.
Qed.

(** C29 A generated method does what a test expects of it, whatever the test did
    with it before: a call goes to the stub set last, or returns what was set for
    that very call, or what was set for all calls; setting results takes a stub
    away; the calls are counted, their arguments kept in order, and an index
    beyond them is a panic; and Invocations shows them too.  Nothing blocks. *)
Theorem fake_keeps_its_promise (g : generation) (e : entry) (f : field sg e) (h : list (op W e)) (w : W) :
  ∃ m, run (test g f h) (new_fake w) = Ended (answers [] h w).1 m ∧ world m = (answers [] h w).2 ∧
    (∃ m', run (CallCount f) m = Ended (length (calls_now (rev h))) m') ∧
    (∀ i a, calls_now (rev h) !! i = Some a → ∃ m', run (ArgsForCall f (Z.of_nat i)) m = Ended a m') ∧
    (∀ i, (i < 0 ∨ Z.of_nat (length (calls_now (rev h))) ≤ i)%Z → ∃ m', run (ArgsForCall f i) m = Panicked m') ∧
    (∃ m', run Invocations m = Ended (invoked (calls_now (rev h))) m').
Proof.
  destruct (does_test g f h [] (new_fake w) w) as (m & Hr & Hw & Hf & [[_ Ha _ _] Hi]);
    [by intros x; unfold lock_state; cbn; rewrite lookup_empty|apply new_used|done|].
  rewrite app_nil_r in Ha, Hi. exists m. rewrite <- Hi, <- Ha. split_and!; [done|done|..].
  - destruct (does_CallCount f m Hf) as (m' & Hr' & _). by exists m'.
  - intros i a Hia. destruct (does_ArgsForCall f i a m Hf Hia) as (m' & Hr' & _). by exists m'.
  - intros i Hia. destruct (ArgsForCall_panics f i m Hf Hia) as (m' & Hr' & _). by exists m'.
  - destruct (does_Invocations m Hf) as (m' & Hr' & _). by exists m'.
Qed.
End sequential.
End Counterfeiter.
