(* ===== verification/FakeProcess.v ===== *)
(** * FakeProcess (gardenfakes/fake_process.go)

    The fake of the interface [Process], after the pattern of [Counterfeiter.v]. *)
From S2P Require Import Prelude Types GoJson Errors Codec Backend Prog Counterfeiter.

Module FakeProcess.
Import GoJson Errors Codec Backend Prog Counterfeiter.

Section fake.
Context {W : Type}.

(** The methods: their arguments and the zero values of their results. *)
Definition sig : list entry := [
  mk_entry "ID" (λ _ : unit, []) ("" : string);
  mk_entry "SetTTY" (λ arg1 : TTYSpec, [Any arg1]) (None : option error);
  mk_entry "Signal" (λ arg1 : Z, [Any arg1]) (None : option error);
  mk_entry "Wait" (λ _ : unit, []) ((0%Z, None) : Z * option error)
].

(** The struct. *)
Definition FakeProcess : Type := fake (W := W) sig.

(** The functions of each method. *)
Abbreviation functions := (functions (W := W) (sg := sig)).
Definition ID : functions unit string := without_args Newer (field_at sig 0).
Definition SetTTY : functions TTYSpec (option error) := with_args Newer (field_at sig 1).
Definition Signal : functions Z (option error) := with_args Newer (field_at sig 2).
Definition Wait : functions unit (Z * option error)%type := without_args Newer (field_at sig 3).

(** Over all methods. *)
Definition recordInvocation : string → list any → prog eff unit := Counterfeiter.recordInvocation (W := W) (sg := sig).
Definition Invocations : prog eff (gmap string (slice (list any))) := Counterfeiter.Invocations (W := W) (sg := sig).

Lemma FakeProcess_names : NoDup (e_name <$> sig).
Proof. apply (bool_decide_unpack _). by vm_compute. Qed.
End fake.
End FakeProcess.
