(* ===== verification/FakeThreads.v ===== *)
(** * Generated fakes under concurrent use

    A test may call a fake from several goroutines.  Their calls are recorded
    one by one, with distinct indices and the answers that belong to them, and
    nobody waits for ever, as long as [Invocations] is not called meanwhile: it
    takes the locks in the opposite order.  And since the stub is read without
    the lock, taking a stub away while a call is under way can make the call
    panic. *)
From S2P Require Import Prelude Types Errors Prog Counterfeiter FakeProcess.

Module FakeThreads.
Import Errors Prog Counterfeiter.

(** ** What an action changes *)
Section facts.
Context {W : Type} {sg : list entry}.
Abbreviation machine := (machine (W := W) (sg := sg)).
Abbreviation code := (prog (eff (W := W) (sg := sg))).

(** A position determines the method. *)
Lemma position_field {sg' e e'} (f : field sg' e) (f' : field sg' e') (Q : ∀ e, field sg' e → Prop) :
  position f = position f' → Q e f → Q e' f'.
Proof.
  revert e' f' Q. induction f as [e sg'|e e0 sg' f IH]; intros e' f'.
  - refine (match f' in field sg1 e'' return
      match sg1 return field sg1 e'' → Prop with
      | [] => λ _, True
      | e1 :: sg2 => λ f', ∀ Q : ∀ e, field (e1 :: sg2) e → Prop, position (Here (e := e1) (sg := sg2)) = position f' → Q e1 Here → Q e'' f'
      end f' with Here => _ | There f'' => _ end); cbn; [done|]. done.
  - revert f IH. refine (match f' in field sg1 e'' return
      match sg1 return field sg1 e'' → Prop with
      | [] => λ _, True
      | e1 :: sg2 => λ f', ∀ (f : field sg2 e)
          (IH : ∀ e2 (f2 : field sg2 e2) (Q : ∀ e, field sg2 e → Prop), position f = position f2 → Q e f → Q e2 f2)
          (Q : ∀ e, field (e1 :: sg2) e → Prop),
          position (There (e' := e1) f) = position f' → Q e (There f) → Q e'' f'
      end f' with Here => _ | There f'' => _ end); cbn; [done|].
    intros f IH Q Hp. apply (IH _ f'' (λ e f, Q e (There f))). congruence.
Qed.

Lemma position_name {sg' e} (f : field sg' e) : (e_name <$> sg') !! position f = Some (e_name e).
Proof. induction f; cbn; [done|apply IHf]. Qed.

(** The arguments of the calls of a method, and what [Invocations] has of it. *)
Definition boxed {e} (f : field sg e) (m : machine) : list (list any) := e_list e <$> argsForCall (method_of f m).
Definition seen (name : string) (m : machine) : list (list any) :=
  slice_elems (default None (default ∅ (invocations _ (the_fake m)) !! name)).

Lemma method_of_update_ne {e e'} (f : field sg e) (f' : field sg e') g (m : machine) :
  position f ≠ position f' → method_of f' (update f g m) = method_of f' m.
Proof. intros Hne. unfold method_of, update. cbn. by rewrite get_put_ne. Qed.

Lemma boxed_update {e e'} (f : field sg e) (f' : field sg e') g (m : machine) :
  (∀ x, argsForCall (g x) = argsForCall x) → boxed f' (update f g m) = boxed f' m.
Proof.
  intros Hg. destruct (decide (position f = position f')) as [Hp|Hne].
  - apply (position_field f f' (λ e f', boxed f' (update f g m) = boxed f' m) Hp).
    unfold boxed. by rewrite method_of_update, Hg.
  - unfold boxed. by rewrite method_of_update_ne.
Qed.

Lemma perform_boxed {R} (a : eff R) (m : machine) r m' e (f : field sg e) :
  perform a m = Done r m' →
  boxed f m' = boxed f m ++
    match a with AppendArgs g v => if decide (position g = position f) then [e_list _ v] else [] | _ => [] end.
Proof.
  destruct a; cbn; intros Hp; repeat case_hyp Hp; simplify_eq; rewrite ?app_nil_r; try done; try by apply boxed_update.
  destruct (decide (position f0 = position f)) as [Hpos|Hne].
  - apply (position_field f0 f (λ e f, boxed f (update f0 _ m) = boxed f m ++ [e_list _ a]) Hpos).
    unfold boxed. rewrite method_of_update. cbn. by rewrite fmap_app.
  - rewrite app_nil_r. unfold boxed. by rewrite method_of_update_ne.
Qed.

Lemma seen_record key v name (m : machine) :
  seen name (set_invocations (record key v (invocations _ (the_fake m))) m) =
  seen name m ++ if decide (key = name) then [v] else [].
Proof.
  unfold seen. cbn. unfold record. set (inv := default ∅ (invocations sg (the_fake m))). cbn.
  destruct (decide (key = name)) as [->|Hne].
  - rewrite lookup_insert_eq. cbn. destruct (inv !! name) as [[l|]|] eqn:Hl; cbn; by rewrite ?lookup_insert_eq, ?Hl.
  - rewrite lookup_insert_ne, app_nil_r by done. destruct (inv !! key) as [[l|]|]; by rewrite ?lookup_insert_ne.
Qed.

Lemma perform_seen {R} (a : eff R) (m : machine) r m' name :
  perform a m = Done r m' →
  seen name m' = seen name m ++
    match a with Record_ key v => if decide (key = name) then [v] else [] | _ => [] end.
Proof.
  destruct a; cbn; intros Hp; repeat case_hyp Hp; simplify_eq; rewrite ?app_nil_r; try done. apply seen_record.
Qed.

(** The lock an action concerns. *)
Definition lock_of {R} (a : eff (W := W) (sg := sg) R) : option mutex :=
  match a with Lock x | Unlock x | RLock x | RUnlock x => Some x | _ => None end.

Lemma perform_lock {R} (a : eff R) (m : machine) r m' x :
  perform a m = Done r m' → lock_of a ≠ Some x → lock_state m' x = lock_state m x.
Proof.
  destruct a; cbn; intros Hp Hx; repeat case_hyp Hp; simplify_eq; try done; rewrite lock_state_set; by rewrite decide_False by congruence.
Qed.
End facts.

(** ** The protocol of the generated functions *)

(** A goroutine inside a function: the method whose mutex it has, for writing or
    reading; the number of calls it has read; the call it has stored but not yet
    recorded; and whether it has the [invocationsMutex]. *)
Record held := mk_held {
  h_at : nat;
  h_write : bool;
  h_len : option nat;
  h_new : option (string * list any);
  h_inv : bool;
}.

(** A goroutine: where it is, the method whose map of results it knows to be
    made, and the calls it has made, with their method and index. *)
Record tstate := mk_tstate {
  t_held : option held;
  t_made : option nat;
  t_log : list (nat * nat * list any);
}.

Definition idle : tstate := mk_tstate None None [].

Section protocol.
Context {W : Type} {sg : list entry}.
Abbreviation machine := (machine (W := W) (sg := sg)).
Abbreviation code := (prog (eff (W := W) (sg := sg))).

(** The configuration that stays as it is, for tests that only call. *)
Context (frozen : option (methods (W := W) sg)).

Definition holds (t : tstate) (Q : held → Prop) : Prop := ∃ h, t_held t = Some h ∧ Q h.

Definition allow {R} (a : eff (W := W) (sg := sg) R) (t : tstate) : Prop :=
  match a with
  | Lock (Some _) | RLock (Some _) => t_held t = None
  | Lock None => holds t (λ h, h_write h = true ∧ h_inv h = false)
  | Unlock None => holds t (λ h, h_inv h = true)
  | Unlock (Some i) => holds t (λ h, h_at h = i ∧ h_write h = true ∧ h_inv h = false ∧ h_new h = None)
  | RUnlock (Some i) => holds t (λ h, h_at h = i ∧ h_write h = false ∧ h_inv h = false ∧ h_new h = None)
  | RLock None | RUnlock None | CopyInvocations => False
  | AppendArgs f _ => holds t (λ h, h_at h = position f ∧ h_write h = true ∧ is_Some (h_len h) ∧ h_new h = None)
  | Record_ key args => holds t (λ h, h_inv h = true ∧ h_new h = Some (key, args))
  | SetOnCall f _ _ => t_made t = Some (position f) ∧ frozen = None
  | SetStub _ _ | SetReturns _ _ | MakeOnCall _ => frozen = None
  | _ => True
  end.

Definition possible {R} (a : eff (W := W) (sg := sg) R) (r : R) : Prop :=
  match frozen with
  | Some ms =>
      match a in eff R return R → Prop with
      | GetStub f => λ r, r = Stub (get f ms)
      | GetReturns f => λ r, r = returns (get f ms)
      | GetOnCall f n => λ r, r = returnsOnCall (get f ms) ≫= λ rs, rs !! Z.of_nat n
      | _ => λ _, True
      end r
  | None => True
  end.

Definition on_held (g : held → held) (t : tstate) : tstate := mk_tstate (g <$> t_held t) (t_made t) (t_log t).
Definition set_held (h : option held) (t : tstate) : tstate := mk_tstate h (t_made t) (t_log t).

Definition next {R} (a : eff (W := W) (sg := sg) R) (r : R) (t : tstate) : tstate :=
  match a in eff R return R → tstate with
  | Lock (Some i) => λ _, set_held (Some (mk_held i true None None false)) t
  | RLock (Some i) => λ _, set_held (Some (mk_held i false None None false)) t
  | Unlock (Some _) | RUnlock (Some _) => λ _, set_held None t
  | Lock None => λ _, on_held (λ h, mk_held (h_at h) (h_write h) (h_len h) (h_new h) true) t
  | Unlock None => λ _, on_held (λ h, mk_held (h_at h) (h_write h) (h_len h) (h_new h) false) t
  | LenArgs f => λ n, on_held (λ h, if decide (h_at h = position f)
      then mk_held (h_at h) (h_write h) (Some n) (h_new h) (h_inv h) else h) t
  | @AppendArgs _ _ e f a => λ _,
      mk_tstate ((λ h, mk_held (h_at h) (h_write h) None (Some (e_name e, e_list e a)) (h_inv h)) <$> t_held t) (t_made t)
        (t_log t ++ [(position f, default 0%nat (t_held t ≫= h_len), e_list e a)])
  | Record_ _ _ => λ _, on_held (λ h, mk_held (h_at h) (h_write h) (h_len h) None (h_inv h)) t
  | NilOnCall f => λ isNil : bool, mk_tstate (t_held t) (if isNil then t_made t else Some (position f)) (t_log t)
  | MakeOnCall f => λ _, mk_tstate (t_held t) (Some (position f)) (t_log t)
  | _ => λ _, t
  end r.

Abbreviation wp := (Prog.wp (@allow) (@possible) (@next)).

Lemma wp_access {R} t (a : eff R) (Q : option R → tstate → Prop) :
  allow a t → (∀ r, possible a r → Q (Some r) (next a r t)) → wp t (act a) Q.
Proof. intros Ha HQ. by split. Qed.

Ltac simpl_state :=
  cbn [next]; unfold on_held, set_held; cbn [fmap option_fmap option_map mbind option_bind option_list default from_option id
    t_held t_made t_log h_at h_write h_len h_new h_inv].
Ltac wp_step := apply wp_bind, wp_access.

(** The functions, called by a goroutine that holds nothing. *)
Lemma wp_Call {e} (f : field sg e) a t (Q : option (e_results e) → tstate → Prop) :
  t_held t = None →
  (∀ n o, (∀ ms, frozen = Some ms → Stub (get f ms) = None →
        o = Some (default (returns (get f ms)) (returnsOnCall (get f ms) ≫= λ rs, rs !! Z.of_nat n))) →
      Q o (mk_tstate None (t_made t) (t_log t ++ [(position f, n, e_list e a)]))) →
  wp t (Call f a) Q.
Proof.
  intros Ht HQ. unfold Call, recordInvocation, mutex_of, invocationsMutex.
  wp_step; [done|intros [] _]. wp_step; [done|intros n _]. simpl_state. rewrite decide_True by done.
  wp_step; [done|intros sr Hsr]. wp_step; [by eexists|intros [] _].
  apply wp_bind. wp_step; [by eexists|intros [] _].
  apply wp_defer, wp_access; [by eexists|intros [] _]. apply wp_access; [by eexists|intros [] _].
  wp_step; [by eexists|intros [] _]. simpl_state.
  apply wp_bind, wp_access; [done|intros s Hs]. unfold possible in *. destruct s as [s|].
  - apply wp_bind, wp_access; [done|intros s' Hs']. destruct s' as [s'|].
    + apply wp_access; [done|]. intros r _. apply HQ. intros ms -> Hno. by rewrite <- Hs in Hno.
    + apply HQ. intros ms -> Hno. by rewrite <- Hs in Hno.
  - destruct sr as [r|].
    + apply HQ. intros ms -> _. by rewrite <- Hsr.
    + apply wp_access; [done|]. intros r Hr. apply HQ. unfold possible in Hr. intros ms -> _. by rewrite <- Hsr, Hr.
Qed.

(** A function that holds nothing before and after. *)
Definition balanced {A} (p : code A) : Prop :=
  ∀ t (Q : option A → tstate → Prop), t_held t = None → (∀ o t', t_held t' = None → Q o t') → wp t p Q.

Lemma balanced_Call {e} (f : field sg e) a : balanced (Call f a).
Proof. intros t Q Ht HQ. apply wp_Call; [done|]. intros n o _. by apply HQ. Qed.

Lemma balanced_CallCount {e} (f : field sg e) : balanced (CallCount f).
Proof.
  intros t Q Ht HQ. unfold CallCount, rlocked, mutex_of. wp_step; [done|intros [] _].
  apply wp_defer, wp_access; [done|intros n _]. simpl_state. rewrite decide_True by done.
  apply wp_access; [by eexists|]. intros [] _. by apply HQ.
Qed.

Lemma balanced_ArgsForCall {e} (f : field sg e) i : balanced (ArgsForCall f i).
Proof.
  intros t Q Ht HQ. unfold ArgsForCall, rlocked, mutex_of. wp_step; [done|intros [] _].
  apply wp_defer. wp_step; [done|intros a _]. simpl_state.
  destruct a as [a|]; (apply wp_access; [by eexists|]; intros [] _; by apply HQ).
Qed.

(** Code that writes fields only, with the mutex of the method or without. *)
Lemma balanced_guarded g x (p : code unit) :
  (∀ t (Q : option unit → tstate → Prop), (∀ o t', t_held t' = t_held t → Q o t') → wp t p Q) →
  balanced (guarded g (Some x) p).
Proof.
  intros Hp t Q Ht HQ. destruct g; unfold guarded, locked.
  - apply Hp. intros o t' Ht'. apply HQ. congruence.
  - wp_step; [done|intros [] _]. apply wp_defer, Hp. intros o t' Ht'. apply wp_access; [by eexists; split; [exact Ht'|]|]. intros [] _.
    destruct o; by apply HQ.
Qed.

Lemma balanced_Calls {e} (f : field sg e) s : frozen = None → balanced (Calls f s).
Proof. intros Hfr. apply (balanced_guarded Newer). intros t Q HQ. apply wp_access; [done|]. intros [] _. by apply HQ. Qed.

Lemma balanced_Returns g {e} (f : field sg e) r : frozen = None → balanced (Returns g f r).
Proof.
  intros Hfr. apply balanced_guarded. intros t Q HQ. wp_step; [done|intros [] _].
  apply wp_access; [done|]. intros [] _. by apply HQ.
Qed.

Lemma balanced_ReturnsOnCall g {e} (f : field sg e) i r : frozen = None → balanced (ReturnsOnCall g f i r).
Proof.
  intros Hfr. apply balanced_guarded. intros t Q HQ. wp_step; [done|intros [] _]. wp_step; [done|intros b _].
  apply wp_bind. destruct b.
  - apply wp_access; [done|intros [] _]. apply wp_access; [done|]. intros [] _. by apply HQ.
  - apply wp_access; [done|]. intros [] _. by apply HQ.
Qed.
End protocol.

(** ** Tests *)
Section tests.
Context {W : Type} {sg : list entry}.
Abbreviation machine := (machine (W := W) (sg := sg)).
Abbreviation code := (prog (eff (W := W) (sg := sg))).

(** The functions a fake has, apart from [Invocations]. *)
Inductive generated : ∀ {R}, code R → Prop :=
| gen_Call {e} (f : field sg e) a : generated (Call f a)
| gen_CallCount {e} (f : field sg e) : generated (CallCount f)
| gen_ArgsForCall {e} (f : field sg e) i : generated (ArgsForCall f i)
| gen_Calls {e} (f : field sg e) s : generated (Calls f s)
| gen_Returns g {e} (f : field sg e) r : generated (Returns g f r)
| gen_ReturnsOnCall g {e} (f : field sg e) i r : generated (ReturnsOnCall g f i r).

(** A goroutine of a test: it calls these functions, depending on what they
    return. *)
Inductive test_code : code unit → Prop :=
| test_end : test_code (Ret ())
| test_then {R} (p : code R) k : generated p → (∀ r, test_code (k r)) → test_code (pbind k p).

Lemma generated_balanced {R} (p : code R) : generated p → balanced None p.
Proof.
  intros []; [apply balanced_Call|apply balanced_CallCount|apply balanced_ArgsForCall|by apply balanced_Calls|
    by apply balanced_Returns|by apply balanced_ReturnsOnCall].
Qed.

Lemma test_balanced p : test_code p → balanced None p.
Proof.
  intros Hp. induction Hp as [|R p k Hg Hk IH]; intros t Q Ht HQ; [by apply HQ|].
  apply wp_bind, (generated_balanced p Hg t); [done|]. intros [r|] t' Ht'; [by apply IH|by apply HQ].
Qed.

(** ** Several goroutines *)
Inductive fstep {A} : machine * list (code A) → machine * list (code A) → Prop :=
| fstep_act m ts i R (a : eff R) k r m' :
    ts !! i = Some (Act a k) → perform a m = Done r m' → fstep (m, ts) (m', <[i := k r]> ts).

Definition ended {A} (p : code A) : bool := match p with Act _ _ => false | _ => true end.

(** One that can act, executably. *)
Definition move {A} (i : nat) (st : machine * list (code A)) : option (machine * list (code A)) :=
  match st.2 !! i with
  | Some (Act a k) => match perform a st.1 with Done r m' => Some (m', <[i := k r]> st.2) | _ => None end
  | _ => None
  end.

Lemma move_step {A} i (st st' : machine * list (code A)) : move i st = Some st' → fstep st st'.
Proof.
  destruct st as [m ts]. unfold move. cbn. destruct (ts !! i) as [[a| |R a k]|] eqn:Hi; try done.
  destruct (perform a m) eqn:Hp; [|done..]. intros [= <-]. by eapply fstep_act.
Qed.

Lemma step_move {A} (st st' : machine * list (code A)) : fstep st st' → ∃ i, move i st = Some st'.
Proof.
  intros [m ts i R a k r m' Hi Hp]. exists i. unfold move. cbn.
  match goal with |- context [?l !! i] => replace (l !! i) with (Some (Act a k)) by (symmetry; exact Hi) end. by rewrite Hp.
Qed.

Fixpoint moves {A} (l : list nat) (st : machine * list (code A)) : option (machine * list (code A)) :=
  match l with [] => Some st | i :: l' => move i st ≫= moves l' end.

Lemma moves_run {A} l (st st' : machine * list (code A)) : moves l st = Some st' → rtc fstep st st'.
Proof.
  revert st. induction l as [|i l IH]; intros st; cbn; [by intros [= ->]|].
  destruct (move i st) as [st1|] eqn:H1; [|done]. intros H2. eapply rtc_l; [by eapply move_step|by apply IH].
Qed.
End tests.

(** ** The locks *)
Definition writes (i : nat) (t : tstate) : bool :=
  match t_held t with Some h => h_write h && (h_at h =? i)%nat | None => false end.
Definition reads (i : nat) (t : tstate) : bool :=
  match t_held t with Some h => negb (h_write h) && (h_at h =? i)%nat | None => false end.
Definition records (t : tstate) : bool := match t_held t with Some h => h_inv h | None => false end.

Arguments writes i !t /.
Arguments reads i !t /.
Arguments records !t /.

Section invariants.
Context {W : Type} {sg : list entry}.
Abbreviation machine := (machine (W := W) (sg := sg)).
Abbreviation code := (prog (eff (W := W) (sg := sg))).
Context (frozen : option (methods (W := W) sg)).
Abbreviation allow := (allow frozen).
Abbreviation possible := (possible frozen).
Abbreviation wp := (Prog.wp (@FakeThreads.allow W sg frozen) (@FakeThreads.possible W sg frozen) (@next W sg)).

(** The locks are those that the goroutines have. *)
Record locks_ok (m : machine) (tts : list tstate) : Prop := {
  locks_method i : match lock_state m (Some i) with
                   | Writer => count (writes i) tts = 1%nat ∧ count (reads i) tts = 0%nat
                   | Readers n => count (writes i) tts = 0%nat ∧ count (reads i) tts = n
                   end;
  locks_invocations : match lock_state m None with
                      | Writer => count records tts = 1%nat
                      | Readers n => n = 0%nat ∧ count records tts = 0%nat
                      end;
}.

(** Where nothing is locked or unlocked. *)
Lemma next_flags {R} (a : eff (W := W) (sg := sg) R) r t i :
  lock_of a = None → writes i (next a r t) = writes i t ∧ reads i (next a r t) = reads i t ∧ records (next a r t) = records t.
Proof.
  destruct a; try done; intros _; unfold writes, reads, records; cbn; destruct (t_held t) as [h|]; try done; cbn;
    by destruct (decide _).
Qed.

Lemma count_same {A} (b : A → bool) l i x y : l !! i = Some x → b y = b x → count b (<[i := y]> l) = count b l.
Proof. intros Hi Hb. pose proof (count_insert b l i x y Hi). rewrite Hb in *. destruct (b x); lia. Qed.

(** The case of an action on a lock: what becomes of the lock, and of the
    goroutine. *)
Lemma locks_insert m x l tts j t t' :
  locks_ok m tts → tts !! j = Some t →
  (∀ i, x ≠ Some i → writes i t' = writes i t ∧ reads i t' = reads i t) →
  (∀ i n n', x = Some i →
     (n + (if writes i t then 1 else 0) = count (writes i) tts + (if writes i t' then 1 else 0))%nat →
     (n' + (if reads i t then 1 else 0) = count (reads i) tts + (if reads i t' then 1 else 0))%nat →
     match l with Writer => n = 1%nat ∧ n' = 0%nat | Readers k => n = 0%nat ∧ n' = k end) →
  (x ≠ None → records t' = records t) →
  (∀ n, x = None → (n + (if records t then 1 else 0) = count records tts + (if records t' then 1 else 0))%nat →
     match l with Writer => n = 1%nat | Readers k => k = 0%nat ∧ n = 0%nat end) →
  locks_ok (set_lock x l m) (<[j := t']> tts).
Proof.
  intros [Hm Hn] Hj Hother Hx Hrec Hinv. split.
  - intros i. rewrite lock_state_set. case_decide as Hne; [subst x|].
    + by apply (Hx i); [|apply count_insert..].
    + destruct (Hother i Hne). rewrite (count_same (writes i) tts j t), (count_same (reads i) tts j t) by done. apply Hm.
  - rewrite lock_state_set. case_decide as Hne; [subst x|].
    + by apply Hinv; [|apply count_insert].
    + rewrite (count_same records tts j t) by auto. apply Hn.
Qed.

Lemma locks_step {R} (a : eff R) m r m' tts j t :
  locks_ok m tts → tts !! j = Some t → allow a t → perform a m = Done r m' →
  locks_ok m' (<[j := next a r t]> tts).
Proof.
  intros Hok Hj Ha Hp. destruct (lock_of a) as [x|] eqn:Hl; cycle 1.
  { assert (∀ x, lock_state m' x = lock_state m x) as Hs by (intros x; eapply perform_lock; [done|by rewrite Hl]).
    split; [intros i; destruct (next_flags a r t i Hl) as (H1 & H2 & _)|destruct (next_flags a r t 0 Hl) as (_ & _ & H3)]; rewrite Hs.
    - rewrite (count_same (writes i) tts j t), (count_same (reads i) tts j t) by done. apply Hok.
    - rewrite (count_same records tts j t) by done. apply Hok. }
  pose proof (locks_method _ _ Hok) as Hm. pose proof (locks_invocations _ _ Hok) as Hn.
  destruct t as [th mk lg]. destruct a; try done; injection Hl as ->; destruct x as [i0|]; cbn in Ha, Hp; try done;
    try (destruct Ha as (h & E & Ha); cbn in E); subst; try (destruct h as [at0 wr ln nw iv]; cbn in Ha); destruct_and?;
    repeat case_hyp Hp; simplify_eq; cbn [next on_held set_held fmap option_fmap option_map t_held t_made t_log h_at h_write h_len h_new h_inv].
  all: eapply locks_insert; [done|done|..]; cbn.
  all: try (intros i Hi; try (rewrite (proj2 (Nat.eqb_neq _ _)) by congruence); by rewrite ?andb_false_r).
  all: try (intros i k k' Hi; simplify_eq; rewrite ?Nat.eqb_refl; cbn; specialize (Hm i);
     match goal with H : lock_state _ (Some i) = _ |- _ => rewrite H in Hm end; lia).
  all: try done.
  all: intros n _ Hc; lia.
Qed.

(** One goroutine at a time is writing a method. *)
Lemma writer_unique m tts i j k t t' :
  locks_ok m tts → tts !! j = Some t → tts !! k = Some t' → writes i t = true → writes i t' = true → j = k.
Proof.
  intros Hok Hj Hk Ht Ht'. apply (count_unique (writes i) tts j k t t'); try done.
  pose proof (locks_method _ _ Hok i). destruct (lock_state m (Some i)); lia.
Qed.

(** ** The records *)

(** The call of method [i] that a goroutine has stored and not yet recorded. *)
Definition pending (i : nat) (t : tstate) : option (list any) :=
  h ← t_held t; if decide (h_at h = i) then snd <$> h_new h else None.

Lemma omap_others {A B} (g : A → option B) (l : list A) (j : nat) x :
  l !! j = Some x → (∀ k y, l !! k = Some y → k ≠ j → g y = None) → omap g l = option_list (g x).
Proof.
  revert j. induction l as [|z l IH]; intros [|j] Hj Ho; try done; cbn.
  - injection Hj as ->. enough (omap g l = []) as ->; [by destruct (g x)|].
    assert (∀ y, y ∈ l → g y = None) as Hn.
    { intros y [k Hk]%list_elem_of_lookup. by apply (Ho (S k)). }
    clear -Hn. induction l as [|y l IH]; cbn; [done|]. rewrite (Hn y) by (by left). apply IH. intros z Hz. apply Hn. by right.
  - rewrite (Ho 0%nat z) by done. apply (IH j Hj). intros k y Hk Hne. apply (Ho (S k)); [done|congruence].
Qed.

Lemma omap_others_insert {A B} (g : A → option B) (l : list A) (j : nat) x y :
  l !! j = Some x → (∀ k y, l !! k = Some y → k ≠ j → g y = None) → omap g (<[j := y]> l) = option_list (g y).
Proof.
  intros Hj Ho. apply (omap_others g _ j); [apply list_lookup_insert_eq; by eapply lookup_lt_Some|].
  intros k z Hk Hne. rewrite list_lookup_insert_ne in Hk by done. by eapply Ho.
Qed.

Lemma omap_insert_same {A B} (g : A → option B) (l : list A) (j : nat) x y : l !! j = Some x → g y = g x → omap g (<[j := y]> l) = omap g l.
Proof.
  revert j. induction l as [|z l IH]; intros [|j] Hj Hg; try done; cbn.
  - injection Hj as ->. by rewrite Hg.
  - by rewrite IH.
Qed.

(** The state of the fake is that of its goroutines: a length that was read under
    the mutex is still right, and what [Invocations] lacks is pending. *)
Record sane (m : machine) (tts : list tstate) : Prop := {
  sane_locks : locks_ok m tts;
  sane_len j t h n e (f : field sg e) : tts !! j = Some t → t_held t = Some h → h_write h = true →
    h_len h = Some n → position f = h_at h → n = length (boxed f m);
  sane_new j t h key v : tts !! j = Some t → t_held t = Some h → h_new h = Some (key, v) →
    h_write h = true ∧ (e_name <$> sg) !! h_at h = Some key;
  sane_agree e (f : field sg e) : boxed f m = seen (e_name e) m ++ omap (pending (position f)) tts;
  sane_made j t e (f : field sg e) : tts !! j = Some t → t_made t = Some (position f) →
    is_Some (returnsOnCall (method_of f m));
  sane_frozen ms e (f : field sg e) : frozen = Some ms →
    set_args [] (method_of f m) = set_args [] (get f ms);
}.

Lemma writes_held i t h : t_held t = Some h → writes i t = h_write h && (h_at h =? i)%nat.
Proof. intros Ht. unfold writes. by rewrite Ht. Qed.

(** Nobody else has a pending call of the method that a goroutine is writing. *)
Lemma pending_writer m tts j t h :
  sane m tts → tts !! j = Some t → t_held t = Some h → h_write h = true →
  ∀ k t', tts !! k = Some t' → k ≠ j → pending (h_at h) t' = None.
Proof.
  intros Hs Hj Hh Hw k t' Hk Hne. unfold pending. destruct (t_held t') as [h'|] eqn:Hh'; [|done]. cbn.
  destruct (decide (h_at h' = h_at h)) as [He|]; [|done]. destruct (h_new h') as [[key v]|] eqn:Hn; [|done].
  destruct (sane_new _ _ Hs k t' h' key v Hk Hh' Hn) as [Hw' _]. exfalso. apply Hne.
  eapply (writer_unique m tts (h_at h) k j); [apply Hs|done..| |].
  - by rewrite (writes_held _ _ _ Hh'), Hw', He, Nat.eqb_refl.
  - by rewrite (writes_held _ _ _ Hh), Hw, Nat.eqb_refl.
Qed.

Lemma pending_same {R} (a : eff R) r t i :
  allow a t → match a with AppendArgs _ _ | Record_ _ _ => false | _ => true end = true →
  pending i (next a r t) = pending i t.
Proof.
  destruct t as [th mk lg]. intros Ha He. unfold pending.
  destruct a; try done; cbn in Ha; try (by destruct th; cbn; repeat case_decide).
  all: destruct x as [x|]; cbn in Ha; try done; try (destruct Ha as (h & E & Ha); cbn in E); subst; cbn; destruct_and?; try done;
    repeat case_decide; try done.
  all: match goal with H : h_new _ = None |- _ => by rewrite H end.
Qed.

Lemma sane_agree_step (Hnd : NoDup (e_name <$> sg)) {R} (a : eff R) m r m' tts j t e (f : field sg e) :
  sane m tts → tts !! j = Some t → allow a t → perform a m = Done r m' →
  boxed f m' = seen (e_name e) m' ++ omap (pending (position f)) (<[j := next a r t]> tts).
Proof.
  intros Hs Hj Ha Hp. rewrite (perform_boxed a m r m' e f Hp), (perform_seen a m r m' _ Hp), (sane_agree _ _ Hs e f).
  destruct a as [x|x|x|x|e0 g|e0 g i|e0 g v|e0 g|e0 g s|e0 s v|e0 g|e0 g v|e0 g n|e0 g|e0 g|e0 g i v|key v|];
    try (rewrite !app_nil_r, (omap_insert_same _ tts j t) by (done || by apply pending_same); done).
  - destruct Ha as (h & Hh & Hat & Hw & _ & Hnew). rewrite app_nil_r.
    destruct (decide (position g = position f)) as [Heq|Hne].
    + pose proof (pending_writer m tts j t h Hs Hj Hh Hw) as Ho. rewrite Hat, Heq in Ho.
      rewrite (omap_others _ tts j t Hj Ho), (omap_others_insert _ tts j t _ Hj Ho).
      unfold pending. cbn. rewrite Hh. cbn. rewrite !decide_True by congruence. rewrite Hnew. cbn. by rewrite app_nil_r.
    + rewrite app_nil_r, (omap_insert_same _ tts j t); [done..|]. unfold pending. cbn. rewrite Hh. cbn.
      by rewrite !decide_False by congruence.
  - destruct Ha as (h & Hh & Hinv & Hnew). rewrite app_nil_r, <- app_assoc. f_equal.
    destruct (sane_new _ _ Hs j t h key v Hj Hh Hnew) as [Hw Hkey].
    destruct (decide (key = e_name e)) as [->|Hne].
    + assert (position f = h_at h) as Heq by (by eapply NoDup_lookup; [exact Hnd|apply position_name|]).
      pose proof (pending_writer m tts j t h Hs Hj Hh Hw) as Ho. rewrite <- Heq in Ho.
      rewrite (omap_others _ tts j t Hj Ho), (omap_others_insert _ tts j t _ Hj Ho).
      unfold pending. cbn. rewrite Hh. cbn. rewrite !decide_True by done. by rewrite Hnew.
    + cbn. rewrite (omap_insert_same _ tts j t); [done..|]. unfold pending. cbn. rewrite Hh. cbn.
      assert (h_at h ≠ position f) as Hpos.
      { intros Heq. rewrite Heq, position_name in Hkey. congruence. }
      by rewrite !decide_False.
Qed.

Lemma length_boxed_same {e e'} (f : field sg e) (f' : field sg e') (m : machine) :
  position f = position f' → length (boxed f m) = length (boxed f' m).
Proof. intros Hp. by apply (position_field f f' (λ e f', length (boxed f m) = length (boxed f' m)) Hp). Qed.

(** What a goroutine holds after its step, by what it held before. *)
Lemma next_held {R} (a : eff (W := W) (sg := sg) R) r t h' :
  t_held (next a r t) = Some h' → h_write h' = true → h_len h' ≠ None →
  ∃ h, t_held t = Some h ∧ h_write h = true ∧ h_at h = h_at h' ∧
    (h_len h = h_len h' ∧ match a with AppendArgs _ _ => false | _ => true end = true ∨
     ∃ e (f : field sg e), h_at h = position f ∧ ∃ n, h_len h' = Some n ∧
       ∀ m m' : machine, perform a m = Done r m' → n = length (boxed f m) ∧ m' = m).
Proof.
  destruct t as [[h|] mk lg]; destruct a as [[x|]|[x|]|[x|]|[x|]|e0 f| | | | | | | | | | | | |]; cbn; try (intros [= <-]; cbn); try done;
    try (intros Hw Hl; exists h; split_and!; [done..|]; by left); intros Hw Hl; cbn in *.
  - destruct (decide _) as [Heq|]; cbn in *.
    + exists h. split_and!; [done..|]. right. exists e0, f. split; [done|]. exists r. split; [done|].
      intros m m' [= <- <-]. split; [|done]. unfold boxed. by rewrite length_fmap.
    + exists h. split_and!; [done..|]. by left.
Qed.

Lemma sane_len_step {R} (a : eff R) m r m' tts j t k t' h n e (f : field sg e) :
  sane m tts → tts !! j = Some t → allow a t → perform a m = Done r m' →
  <[j := next a r t]> tts !! k = Some t' → t_held t' = Some h → h_write h = true → h_len h = Some n →
  position f = h_at h → n = length (boxed f m').
Proof.
  intros Hs Hj Ha Hp Hk Hh Hw Hn Hpos. rewrite (perform_boxed a m r m' e f Hp).
  apply list_lookup_insert_Some in Hk as [(<- & <- & _)|[Hne Hk]].
  - destruct (next_held a r t h Hh Hw) as (h0 & Hh0 & Hw0 & Hat & [[Hl Hap]|(e' & f' & Hf' & n' & Hn' & Hperf)]); [congruence|..].
    + destruct a; try done; rewrite app_nil_r; eapply (sane_len _ _ Hs j t h0); congruence.
    + destruct (Hperf m m' Hp) as [Hlen ->]. rewrite Hn in Hn'. injection Hn' as <-. rewrite Hlen.
      rewrite (length_boxed_same f' f m) by congruence. destruct a; try (by rewrite app_nil_r).
      exfalso. cbn in Hh. destruct (t_held t); [|done]. by injection Hh as <-.
  - rewrite (sane_len _ _ Hs k t' h n e f Hk Hh Hw Hn Hpos).
    destruct a as [| | | | | |e0 g v| | | | | | | | | | |]; rewrite ?app_nil_r; try done.
    destruct (decide (position g = position f)) as [Heq|]; [|by rewrite app_nil_r]. exfalso.
    destruct Ha as (h0 & Hh0 & Hat & Hw0 & _). apply Hne.
    eapply (writer_unique m tts (h_at h) j k); [apply Hs|done..| |].
    + rewrite (writes_held _ _ _ Hh0), Hw0, Hat, Heq, Hpos. by rewrite Nat.eqb_refl.
    + by rewrite (writes_held _ _ _ Hh), Hw, Nat.eqb_refl.
Qed.

Lemma sane_new_step {R} (a : eff R) m r m' tts j t k t' h key v :
  sane m tts → tts !! j = Some t → allow a t → perform a m = Done r m' →
  <[j := next a r t]> tts !! k = Some t' → t_held t' = Some h → h_new h = Some (key, v) →
  h_write h = true ∧ (e_name <$> sg) !! h_at h = Some key.
Proof.
  intros Hs Hj Ha Hp Hk Hh Hn. apply list_lookup_insert_Some in Hk as [(<- & <- & _)|[Hne Hk]]; [|by eapply (sane_new _ _ Hs k t')].
  pose proof (λ h0 (Hh0 : t_held t = Some h0), sane_new _ _ Hs j t h0 key v Hj Hh0) as Hold.
  destruct t as [[h0|] mk lg]; destruct a as [[x|]|[x|]|[x|]|[x|]|e0 f| |e0 f a| | | | | | | | | | |]; cbn in Hh; try done;
    injection Hh as <-; cbn in *; try done; try (by apply Hold).
  - destruct (decide _); by apply (Hold h0).
  - destruct Ha as (h1 & [= <-] & Hat & Hw & _). injection Hn as <- <-. split; [done|]. rewrite Hat. apply position_name.
Qed.

(** A property of a method, through a write to some method. *)
Lemma method_update {e e'} (g : field sg e') (f : field sg e) u (m : machine) (Q : ∀ e, method (W := W) e → Prop) :
  (Q e' (method_of g m) → Q e' (u (method_of g m))) → Q e (method_of f m) → Q e (method_of f (update g u m)).
Proof.
  intros Hu. destruct (decide (position g = position f)) as [Hp|Hne]; [|by rewrite method_of_update_ne].
  apply (position_field g f (λ e f, Q e (method_of f m) → Q e (method_of f (update g u m))) Hp).
  rewrite method_of_update. apply Hu.
Qed.

Lemma perform_made {R} (a : eff R) (m : machine) r m' e (f : field sg e) :
  perform a m = Done r m' → is_Some (returnsOnCall (method_of f m)) → is_Some (returnsOnCall (method_of f m')).
Proof.
  destruct a; cbn; intros Hp; repeat case_hyp Hp; simplify_eq; try done;
    apply (method_update _ f _ m (λ e x, is_Some (returnsOnCall x))); cbn; try done; by eexists.
Qed.

Lemma sane_made_step {R} (a : eff R) m r m' tts j t k t' e (f : field sg e) :
  sane m tts → tts !! j = Some t → perform a m = Done r m' →
  <[j := next a r t]> tts !! k = Some t' → t_made t' = Some (position f) → is_Some (returnsOnCall (method_of f m')).
Proof.
  intros Hs Hj Hp Hk Ht. apply list_lookup_insert_Some in Hk as [(<- & <- & _)|[Hne Hk]];
    [|by eapply perform_made, (sane_made _ _ Hs k t')].
  destruct (decide (t_made t = Some (position f))) as [Hold|Hnew]; [by eapply perform_made, (sane_made _ _ Hs j t)|].
  destruct a as [[x|]|[x|]|[x|]|[x|]| | | | | | | | | |e0 g|e0 g| | |]; cbn in Ht; try done.
  - destruct r; [done|]. injection Ht as Ht. apply (position_field g f (λ e f, is_Some (returnsOnCall (method_of f m'))) Ht).
    cbn in Hp. destruct (returnsOnCall (method_of g m)) eqn:Hr; simplify_eq. by eexists.
  - injection Ht as Ht. apply (position_field g f (λ e f, is_Some (returnsOnCall (method_of f m'))) Ht).
    cbn in Hp. simplify_eq. rewrite method_of_update. by eexists.
Qed.

Lemma sane_frozen_step {R} (a : eff R) m r m' t ms e (f : field sg e) :
  set_args [] (method_of f m) = set_args [] (get f ms) → allow a t → perform a m = Done r m' → frozen = Some ms →
  set_args [] (method_of f m') = set_args [] (get f ms).
Proof.
  intros Hs Ha Hp Hf. rewrite <- Hs. clear Hs. unfold allow in Ha.
  destruct a as [| | | | | |e0 g v| | | | | | | | | | |]; cbn in Hp, Ha; try congruence; try (exfalso; apply proj2 in Ha; congruence);
    repeat case_hyp Hp; simplify_eq; try done.
  destruct (decide (position g = position f)) as [Heq|Hne]; [|by rewrite method_of_update_ne].
  apply (position_field g f (λ e f, set_args [] (method_of f (update g _ m)) = set_args [] (method_of f m)) Heq).
  by rewrite method_of_update.
Qed.

(** A configuration that stays answers as it did. *)
Lemma sane_possible {R} (a : eff R) m r m' tts : sane m tts → perform a m = Done r m' → possible a r.
Proof.
  intros Hs Hp. unfold FakeThreads.possible. destruct frozen as [ms|] eqn:Hf; [|done].
  pose proof (λ e f, sane_frozen _ _ Hs ms e f Hf) as Hsame.
  destruct a as [| | | | | | |e0 g| | |e0 g| |e0 g n| | | | |]; try done; cbn in Hp; simplify_eq; specialize (Hsame _ g);
    injection Hsame as H1 H2 H3; first [done|by rewrite H3].
Qed.

Lemma sane_step (Hnd : NoDup (e_name <$> sg)) {R} (a : eff R) m r m' tts j t :
  sane m tts → tts !! j = Some t → allow a t → perform a m = Done r m' → sane m' (<[j := next a r t]> tts).
Proof.
  intros Hs Hj Ha Hp. split; intros.
  - eapply locks_step; [apply Hs|done..].
  - by eapply sane_len_step.
  - by eapply sane_new_step.
  - by eapply sane_agree_step.
  - by eapply sane_made_step.
  - eapply sane_frozen_step; [by apply (sane_frozen _ _ Hs)|done..].
Qed.

(** The goroutines follow the protocol, and end with the mutexes given back and
    as [Q] says. *)
Definition following {A} (Q : nat → option A → tstate → Prop) (ts : list (code A)) (tts : list tstate) : Prop :=
  length tts = length ts ∧
  ∀ j p t, ts !! j = Some p → tts !! j = Some t → wp t p (λ o t', t_held t' = None ∧ Q j o t').

(** An invariant that every step keeps. *)
Definition kept (Inv : machine → list tstate → Prop) : Prop :=
  ∀ R (a : eff R) m r m' tts j t, sane m tts → Inv m tts → tts !! j = Some t → allow a t → perform a m = Done r m' →
    Inv m' (<[j := next a r t]> tts).

Lemma follow_run (Hnd : NoDup (e_name <$> sg)) {A} (Q : nat → option A → tstate → Prop) Inv (st st' : machine * list (code A)) :
  kept Inv → rtc fstep st st' → ∀ tts, sane st.1 tts → Inv st.1 tts → following Q st.2 tts →
  ∃ tts', sane st'.1 tts' ∧ Inv st'.1 tts' ∧ following Q st'.2 tts'.
Proof.
  intros Hinv. induction 1 as [st|st1 st2 st3 Hstep _ IH]; intros tts Hs HI [Hlen Hf]; [by exists tts|].
  destruct Hstep as [m ts i R a k r m' Hi Hp]. cbn in *.
  destruct (lookup_lt_is_Some_2 tts i) as [t Ht]; [rewrite Hlen; by eapply lookup_lt_Some|].
  destruct (Hf i _ t Hi Ht) as [Ha Hk]. apply (IH (<[i := next a r t]> tts)); cbn; [by eapply sane_step|by eapply Hinv|].
  split; [by rewrite !length_insert|]. intros j p tj [(<- & <- & Hlt)|[Hne Hj]]%list_lookup_insert_Some Htj.
  - rewrite list_lookup_insert_eq in Htj by (by eapply lookup_lt_Some). injection Htj as <-. apply Hk. by eapply sane_possible.
  - rewrite list_lookup_insert_ne in Htj by done. by eapply Hf.
Qed.

(** ** Nobody waits for ever *)

(** A goroutine with a lock is not waiting for a mutex of a method, and one with
    both is not waiting at all. *)
Lemma access_enabled {R} (a : eff R) m tts j t :
  sane m tts → tts !! j = Some t → allow a t →
  (∀ x, lock_of a = Some x → match a with Lock _ | RLock _ => lock_state m x = Readers 0 | _ => True end) →
  ∃ r m', perform a m = Done r m'.
Proof.
  intros Hs Hj Ha Hfree. pose proof (sane_locks _ _ Hs) as [Hm Hn].
  destruct a as [x|x|x|x|e0 g|e0 g i|e0 g v|e0 g|e0 g s|e0 s v|e0 g|e0 g v|e0 g n|e0 g|e0 g|e0 g i v|key v|]; cbn; try by repeat eexists.
  - rewrite (Hfree x eq_refl). by repeat eexists.
  - destruct x as [i|]; destruct Ha as (h & Hh & Ha).
    + destruct Ha as (Hat & Hw & _). specialize (Hm i).
      pose proof (count_pos (writes i) tts j t Hj) as Hc. rewrite (writes_held _ _ _ Hh), Hw, Hat, Nat.eqb_refl in Hc.
      specialize (Hc eq_refl). destruct (lock_state m (Some i)); [lia|by repeat eexists].
    + pose proof (count_pos records tts j t Hj) as Hc. unfold records in Hc at 1. rewrite Hh, Ha in Hc.
      specialize (Hc eq_refl). destruct (lock_state m None); [lia|by repeat eexists].
  - rewrite (Hfree x eq_refl). by repeat eexists.
  - destruct x as [i|]; [|done]. destruct Ha as (h & Hh & Hat & Hw & _). specialize (Hm i).
    pose proof (count_pos (reads i) tts j t Hj) as Hc. unfold reads in Hc at 1. rewrite Hh, Hw, Hat, Nat.eqb_refl in Hc.
    specialize (Hc eq_refl). destruct (lock_state m (Some i)) as [[|n]|]; [lia|by repeat eexists|lia].
  - destruct (s v (world m)). by repeat eexists.
  - destruct Ha as [Hmade _]. destruct (sane_made _ _ Hs j t e0 g Hj Hmade) as [rs ->]. by repeat eexists.
Qed.

(** The action of a goroutine that has a lock. *)
Lemma busy_acts {A} (Q : nat → option A → tstate → Prop) ts tts j t :
  following Q ts tts → tts !! j = Some t → is_Some (t_held t) →
  ∃ R (a : eff R) k, ts !! j = Some (Act a k) ∧ allow a t.
Proof.
  intros [Hlen Hf] Ht [h Hh]. destruct (lookup_lt_is_Some_2 ts j) as [p Hp]; [rewrite <- Hlen; by eapply lookup_lt_Some|].
  pose proof (Hf j p t Hp Ht) as Hw. destruct p as [x| |R a k]; cbn in Hw; [destruct Hw; congruence..|].
  exists R, a, k. by destruct Hw.
Qed.

Lemma no_deadlock {A} (Q : nat → option A → tstate → Prop) m (ts : list (code A)) tts :
  sane m tts → following Q ts tts → (∃ j p, ts !! j = Some p ∧ ended p = false) → ∃ st', fstep (m, ts) st'.
Proof.
  intros Hs Hf (j & p & Hj & He). pose proof (sane_locks _ _ Hs) as [Hm Hn].
  assert (∀ i t R (a : eff R) k, ts !! i = Some (Act a k) → tts !! i = Some t → allow a t →
    (∀ x, lock_of a = Some x → match a with Lock _ | RLock _ => lock_state m x = Readers 0 | _ => True end) →
    ∃ st', fstep (m, ts) st') as Hgo.
  { intros i t R a k Hi Ht Ha Hx. destruct (access_enabled a m tts i t Hs Ht Ha Hx) as (r & m' & Hp).
    eexists. by eapply fstep_act. }
  destruct (decide (Exists (λ t, records t = true) tts)) as [(t & [i Ht]%list_elem_of_lookup & Hr)%Exists_exists|Hno].
  { unfold records in Hr. destruct (t_held t) as [h|] eqn:Hh; [|done].
    destruct (busy_acts Q ts tts i t Hf Ht) as (R & a & k & Hi & Ha); [by rewrite Hh|]. apply (Hgo i t R a k Hi Ht Ha).
    intros x Hx. destruct a as [[y|]| |[y|]| | | | | | | | | | | | | | |]; try done; cbn in Ha; try congruence.
    destruct Ha as (h' & Hh' & _ & ?). congruence. }
  assert (lock_state m None = Readers 0) as Hinv.
  { destruct (lock_state m None) as [n|]; [by destruct Hn as [-> _]|]. exfalso. rewrite count_zero in Hn; [done|].
    intros t Ht. destruct (records t) eqn:Hr; [|done]. destruct Hno. apply Exists_exists. by exists t. }
  destruct (decide (Exists (λ t, is_Some (t_held t)) tts)) as [(t & [i Ht]%list_elem_of_lookup & Hh)%Exists_exists|Hidle].
  { destruct (busy_acts Q ts tts i t Hf Ht Hh) as (R & a & k & Hi & Ha). apply (Hgo i t R a k Hi Ht Ha).
    intros x Hx. destruct Hh as [h Hh].
    destruct a as [[y|]| |[y|]| | | | | | | | | | | | | | |]; try done; cbn in Ha, Hx; by simplify_eq. }
  destruct p as [x| |R a k]; try done. destruct (lookup_lt_is_Some_2 tts j) as [t Ht].
  { rewrite (proj1 Hf). by eapply lookup_lt_Some. }
  destruct (proj2 Hf j _ t Hj Ht) as [Ha _]. apply (Hgo j t R a k Hj Ht Ha). intros x Hx.
  assert (∀ t', t' ∈ tts → t_held t' = None) as Hall.
  { intros t' Ht'. destruct (t_held t') eqn:E; [|done]. destruct Hidle. apply Exists_exists. exists t'. by rewrite E. }
  destruct x as [i|]; [|by rewrite Hinv; destruct a]. specialize (Hm i).
  rewrite (count_zero (writes i)), (count_zero (reads i)) in Hm by (intros t' E%Hall; unfold writes, reads; by rewrite E).
  destruct (lock_state m (Some i)) as [n|]; [|by destruct Hm]. destruct Hm as [_ <-]. by destruct a.
Qed.
End invariants.

Lemma forallb_false {A} (b : A → bool) l : forallb b l = false → ∃ j x, l !! j = Some x ∧ b x = false.
Proof.
  induction l as [|y l IH]; cbn; [done|]. destruct (b y) eqn:Hy; [|by exists 0%nat, y].
  intros (j & x & ? & ?)%IH. by exists (S j), x.
Qed.

Section theorems.
Context {W : Type} {sg : list entry}.
Abbreviation machine := (machine (W := W) (sg := sg)).
Abbreviation code := (prog (eff (W := W) (sg := sg))).

(** Goroutines that have not started. *)
Lemma sane_start frozen (m : machine) n :
  free m → (∀ e (f : field sg e), boxed f m = seen (e_name e) m) →
  (∀ ms e (f : field sg e), frozen = Some ms → set_args [] (method_of f m) = set_args [] (get f ms)) →
  sane frozen m (replicate n idle).
Proof.
  intros Hf Hb Hfr. assert (∀ j t, replicate n idle !! j = Some t → t = idle) as Hidle by (by intros j t [? _]%lookup_replicate).
  assert (∀ b : tstate → bool, b idle = false → count b (replicate n idle) = 0%nat) as Hc.
  { intros b Hb'. apply count_zero. by intros x [-> _]%elem_of_replicate. }
  split; try (intros; match goal with H : _ !! _ = Some _ |- _ => apply Hidle in H; subst; done end).
  - split; [intros i|]; by rewrite Hf, !Hc.
  - intros e f. rewrite (Hb e f). assert (omap (pending (position f)) (replicate n idle) = []) as ->; [|by rewrite app_nil_r].
    clear. by induction n.
  - done.
Qed.

Lemma sane_seen frozen (m : machine) tts e (f : field sg e) :
  sane frozen m tts → lock_state m (mutex_of f) ≠ Writer → boxed f m = seen (e_name e) m.
Proof.
  intros Hs Hw. rewrite (sane_agree _ _ _ Hs e f). destruct (omap _ _) as [|v l] eqn:Ho; [by rewrite app_nil_r|]. exfalso.
  assert (v ∈ omap (pending (position f)) tts) as (t & [j Ht]%list_elem_of_lookup & Hp)%list_elem_of_omap by (rewrite Ho; by left).
  unfold pending in Hp. destruct (t_held t) as [h|] eqn:Hh; [|done]. cbn in Hp. case_decide as Hat; [|done].
  destruct (h_new h) as [[key v']|] eqn:Hn; [|done]. destruct (sane_new _ _ _ Hs j t h key v' Ht Hh Hn) as [Hwr _].
  pose proof (count_pos (writes (position f)) tts j t Ht) as Hc. rewrite (writes_held _ _ _ Hh), Hwr, Hat, Nat.eqb_refl in Hc.
  pose proof (locks_method _ _ (sane_locks _ _ _ Hs) (position f)) as Hl. unfold mutex_of in Hw.
  destruct (lock_state m (Some (position f))); [|done]. specialize (Hc eq_refl). lia.
Qed.

Lemma new_free w : free (new_fake (W := W) (sg := sg) w).
Proof. intros x. unfold lock_state. cbn. by rewrite lookup_empty. Qed.

Lemma new_boxed w e (f : field sg e) : boxed f (new_fake (W := W) w) = seen (e_name e) (new_fake (sg := sg) (W := W) w).
Proof.
  destruct (new_used f w) as [[_ Ha _ _] _]. unfold boxed, method_of. rewrite Ha. unfold seen. cbn. by rewrite lookup_empty.
Qed.


(** ** Who got which index *)

(** The calls of method [i] that the goroutines have made. *)
Definition logged (i : nat) (tts : list tstate) : list (nat * list any) :=
  omap (λ '(p, n, v), if decide (p = i) then Some (n, v) else None) (concat (t_log <$> tts)).

Lemma logged_insert i tts j t t' new :
  tts !! j = Some t → t_log t' = t_log t ++ new →
  logged i (<[j := t']> tts) ≡ₚ logged i tts ++ omap (λ '(p, n, v), if decide (p = i) then Some (n, v) else None) new.
Proof.
  intros Hj Hlog. unfold logged. rewrite <- omap_app. apply omap_Permutation.
  rewrite list_fmap_insert, Hlog. revert j Hj. induction tts as [|t0 tts IH]; intros [|j] Hj; try done; cbn.
  - injection Hj as ->. by rewrite <- !app_assoc, (Permutation_app_comm new).
  - rewrite <- app_assoc. by apply Permutation_app_head, IH.
Qed.

(** Since the start, when the arguments were [old], the calls are those that the
    goroutines have made. *)
Definition counted {e} (f : field sg e) (old : list (list any)) (m : machine) (tts : list tstate) : Prop :=
  ∃ new, boxed f m = old ++ new ∧ logged (position f) tts ≡ₚ imap (λ k v, (length old + k, v)%nat) new.

Lemma counted_kept frozen {e} (f : field sg e) old : kept frozen (counted f old).
Proof.
  intros R a m r m' tts j t Hs (new & Hb & Hl) Hj Ha Hp.
  pose proof (perform_boxed a m r m' e f Hp) as Hb'. rewrite Hb in Hb'.
  assert (match a with AppendArgs _ _ => true | _ => false end = false → t_log (next a r t) = t_log t ++ []) as Hsame.
  { rewrite app_nil_r. by destruct a as [[]|[]|[]|[]| | | | | | | | | | | | | |]. }
  destruct a as [x|x|x|x|e0 g|e0 g i|e0 g v|e0 g|e0 g s|e0 s v|e0 g|e0 g v|e0 g n|e0 g|e0 g|e0 g i v|key v|];
    try (exists new; rewrite app_nil_r in Hb'; split; [done|]; rewrite (logged_insert _ tts j t _ [] Hj (Hsame eq_refl)), app_nil_r; done).
  clear Hsame. destruct Ha as (h & Hh & Hat & Hw & [n Hn] & _).
  assert (t_log (next (W := W) (AppendArgs g v) r t) = t_log t ++ [(position g, n, e_list e0 v)]) as Hlog by (cbn; by rewrite Hh; cbn; rewrite Hn).
  pose proof (sane_len _ _ _ Hs j t h n e0 g Hj Hh Hw Hn (eq_sym Hat)) as Hlen.
  destruct (decide (position g = position f)) as [Heq|Hne].
  - exists (new ++ [e_list e0 v]). split; [by rewrite Hb', app_assoc|]. rewrite (logged_insert _ _ _ _ _ _ Hj Hlog), Hl. cbn.
    rewrite decide_True by done. rewrite imap_app. cbn. rewrite (length_boxed_same g f m Heq), Hb, length_app in Hlen.
    by rewrite Hlen, Nat.add_0_r.
  - exists new. rewrite app_nil_r in Hb'. split; [done|]. rewrite (logged_insert _ _ _ _ _ _ Hj Hlog), Hl. cbn.
    by rewrite decide_False, app_nil_r.
Qed.

(** What the [n]-th call returns, without a stub. *)
Definition set_result {e} (x : method (W := W) e) (n : nat) : e_results e :=
  default (returns x) (returnsOnCall x ≫= λ rs, rs !! Z.of_nat n).

Lemma imap_indices {A} n0 (l : list A) : (imap (λ k v, (n0 + k, v)%nat) l).*1 = seq n0 (length l).
Proof.
  apply list_eq. intros i. rewrite list_lookup_fmap, list_lookup_imap. destruct (l !! i) as [v|] eqn:Hi; cbn.
  - by rewrite lookup_seq_lt by (by eapply lookup_lt_Some).
  - rewrite lookup_seq_ge; [done|]. by apply lookup_ge_None.
Qed.

(** The goroutines have ended: each has made its one call. *)
Lemma logs_of_calls {e} (f : field sg e) (args : list (e_args e)) ts tts ms :
  Stub (get f ms) = None →
  following (Some ms) (λ j o t', ∃ a n, args !! j = Some a ∧ t_log t' = [(position f, n, e_list e a)] ∧ o = Some (set_result (get f ms) n)) ts tts →
  length ts = length args → Forall (λ p, ended p = true) ts →
  ∃ ns, length ns = length args ∧ logged (position f) tts = zip ns (e_list e <$> args) ∧
    ∀ (j n : nat) p, ns !! j = Some n → ts !! j = Some p → p = Ret (set_result (get f ms) n).
Proof.
  intros Hst [Hlen Hf] Hla Hend.
  revert args tts Hlen Hf Hla. induction Hend as [|p ts Hp Hend IH]; intros [|a args] [|t tts] Hlen Hf Hla; try done.
  { exists []. by split_and!. }
  destruct (IH args tts) as (ns & Hns & Hlog & Hret); [by injection Hlen| |by injection Hla|].
  { intros j p' t' Hj Ht'. apply (Hf (S j) p' t' Hj Ht'). }
  specialize (Hf 0%nat p t eq_refl eq_refl). destruct p as [r| |]; cbn in Hf; [|by destruct Hf as (_ & ? & ? & _ & _ & ?)|done].
  destruct Hf as (_ & a' & n & [= <-] & Ht & [= ->]). exists (n :: ns). split_and!.
  - cbn. by f_equal.
  - unfold logged in *. cbn. rewrite Ht. cbn. rewrite decide_True by done. by f_equal.
  - intros [|j] n' p' Hn Hp'; cbn in *; [congruence|by eapply Hret].
Qed.

(** C31 Goroutines that call a method of a fake at the same time are served as if
    one after the other, however their steps interleave: when all have returned,
    each has an index of its own, the indices are the next ones in a row, the
    arguments recorded at an index are those of its goroutine, and what the call
    returned is what was set for that index, or for all calls. *)
Theorem concurrent_calls_are_served (Hnd : NoDup (e_name <$> sg)) (e : entry) (f : field sg e)
    (m0 m : machine) (args : list (e_args e)) (ts : list (code (e_results e)))
    (Hfree : free m0) (Hok : ∀ e (f : field sg e), boxed f m0 = seen (e_name e) m0)
    (Hstub : Stub (method_of f m0) = None)
    (Hrun : rtc fstep (m0, Call f <$> args) (m, ts)) (Hend : Forall (λ p, ended p = true) ts) :
  ∃ ns, ns ≡ₚ seq (length (argsForCall (method_of f m0))) (length args) ∧
    ∀ (j n : nat) a p, ns !! j = Some n → args !! j = Some a → ts !! j = Some p →
      boxed f m !! n = Some (e_list e a) ∧ p = Ret (set_result (method_of f m0) n).
Proof.
  set (ms := fk_methods _ (the_fake m0)). change (method_of f m0) with (get f ms) in *.
  destruct (follow_run (Some ms) Hnd
      (λ j o t', ∃ a n, args !! j = Some a ∧ t_log t' = [(position f, n, e_list e a)] ∧ o = Some (set_result (get f ms) n))
      (counted f (boxed f m0)) _ _ (counted_kept (Some ms) f _) Hrun (replicate (length args) idle)) as (tts & Hs & (new & Hb & Hl) & Hf).
  { apply sane_start; [done..|]. by intros ms' e' f' [= <-]. }
  { exists []. rewrite app_nil_r. split; [done|]. cbn. unfold logged. generalize (length args) as k. by induction k. }
  { split; [cbn; by rewrite length_replicate, length_fmap|]. intros j p t Hj [-> _]%lookup_replicate.
    cbn in Hj. apply list_lookup_fmap_Some in Hj as (a & -> & Ha). apply wp_Call; [done|]. intros n o Ho. split; [done|].
    exists a, n. split_and!; [done..|]. by apply Ho. }
  assert (length ts = length args) as Hlen.
  { clear -Hrun. assert (∀ st st' : machine * list (code (e_results e)), rtc fstep st st' → length st'.2 = length st.2) as Hr.
    { induction 1 as [|? ? ? [] _ IH]; [done|]. rewrite IH. cbn. apply length_insert. }
    specialize (Hr _ _ Hrun). cbn in Hr. by rewrite length_fmap in Hr. }
  destruct (logs_of_calls f args ts tts ms Hstub Hf Hlen Hend) as (ns & Hns & Hlog & Hret). cbn in Hl, Hb.
  rewrite Hlog in Hl. set (n0 := length (boxed f m0)) in *.
  assert (ns ≡ₚ seq n0 (length args)) as Hperm.
  { assert (ns = (zip ns (e_list e <$> args)).*1) as -> by (rewrite fst_zip; [done|by rewrite length_fmap, Hns]).
    pose proof (Permutation_length Hl) as Hll. rewrite length_zip, length_fmap, Hns, Nat.min_id, length_imap in Hll.
    by rewrite Hl, Hll, imap_indices. }
  exists ns. split; [unfold n0, boxed in Hperm; by rewrite length_fmap in Hperm|]. intros j n a p Hj Ha Hp.
  split; [|by eapply Hret]. assert ((n, e_list e a) ∈ zip ns (e_list e <$> args)) as Hin.
  { apply (list_elem_of_lookup_2 _ j). rewrite lookup_zip_with_Some. exists n, (e_list e a). split_and!; [done..|].
    by rewrite list_lookup_fmap, Ha. }
  rewrite Hl in Hin. apply elem_of_lookup_imap in Hin as (k & v & [= -> ->] & Hk). rewrite Hb.
  unfold n0. rewrite lookup_app_r by lia. by replace (length (boxed f m0) + k - length (boxed f m0))%nat with k by lia.
Qed.

(** ** What goes wrong *)

(** One goroutine going on alone. *)
Inductive goes {A} : machine * code A → machine * code A → Prop :=
| goes_none x : goes x x
| goes_act m R (a : eff R) k r m' x : perform a m = Done r m' → goes (m', k r) x → goes (m, Act a k) x.

Lemma goes_defer {A} d m (p : code A) m' p' : goes (m, p) (m', p') → goes (m, pdefer d p) (m', pdefer d p').
Proof.
  remember (m, p) as x eqn:Hx. remember (m', p') as y eqn:Hy. intros Hg. revert m p Hx.
  induction Hg as [x|m0 R a k r m1 x Hp _ IH]; intros m p Hx; simplify_eq; [apply goes_none|].
  cbn. eapply goes_act; [done|]. by apply IH.
Qed.

Lemma goes_bind {A B} (g : A → code B) m (p : code A) m' p' : goes (m, p) (m', p') → goes (m, pbind g p) (m', pbind g p').
Proof.
  remember (m, p) as x eqn:Hx. remember (m', p') as y eqn:Hy. intros Hg. revert m p Hx.
  induction Hg as [x|m0 R a k r m1 x Hp _ IH]; intros m p Hx; simplify_eq; [apply goes_none|].
  cbn. eapply goes_act; [done|]. by apply IH.
Qed.

Lemma goes_run {A} m (p : code A) m' p' i ts :
  goes (m, p) (m', p') → ts !! i = Some p → rtc fstep (m, ts) (m', <[i := p']> ts).
Proof.
  remember (m, p) as x eqn:Hx. remember (m', p') as y eqn:Hy. intros Hg. revert m p ts Hx.
  induction Hg as [x|m0 R a k r m1 x Hp _ IH]; intros m p ts Hx Hi; simplify_eq.
  { by rewrite list_insert_id. }
  eapply rtc_l; [by eapply fstep_act|]. rewrite <- (list_insert_insert_eq ts i p' (k r)). apply (IH eq_refl m1 (k r)); [done|].
  apply list_lookup_insert_eq. by eapply lookup_lt_Some.
Qed.

(** Taking locks one after the other, up to one. *)
Lemma goes_rlocked {A} (p : code A) xs y ys : ∀ m,
  NoDup xs → (∀ x, x ∈ xs → lock_state m x = Readers 0) →
  ∃ m' k, goes (m, rlocked_all (xs ++ y :: ys) p) (m', Act (RLock y) k) ∧
    ∀ x, lock_state m' x = if decide (x ∈ xs) then Readers 1 else lock_state m x.
Proof.
  induction xs as [|x xs IH]; intros m Hnd Hfree.
  { eexists m, _. split; [apply goes_none|]. intros x. by rewrite decide_False by set_solver. }
  apply NoDup_cons in Hnd as [Hx Hnd].
  destruct (IH (set_lock x (Readers 1) m) Hnd) as (m' & k & Hg & Hl).
  { intros x' Hx'. rewrite lock_state_set, decide_False by set_solver. apply Hfree. set_solver. }
  eexists m', _. split.
  - cbn [rlocked_all app]. unfold rlocked. eapply goes_act; [cbn; by rewrite Hfree by set_solver|].
    exact (goes_defer (act (RUnlock x)) _ _ _ _ Hg).
  - intros x'. rewrite Hl, lock_state_set. destruct (decide (x' ∈ xs)); [by rewrite decide_True by (by right)|].
    destruct (decide (x = x')) as [->|Hne]; [by rewrite decide_True by (by left)|].
    rewrite decide_False; [done|]. by intros [->|?]%elem_of_cons.
Qed.

Lemma position_lt {sg' e} (f : field sg' e) : (position f < length sg')%nat.
Proof. induction f; cbn; lia. Qed.

(** C39 Calling Invocations while a method of the fake is being called can block
    both for ever, whichever fake and whichever method it is: the call has the
    mutex of its method and waits for the one of the invocations, and Invocations
    has that one and waits for the mutex of the method. *)
Theorem Invocations_deadlocks (e : entry) (f : field sg e) (a : e_args e) (w : W) :
  ∃ m ts, rtc fstep (new_fake w, [(_ ← Call f a; Ret ()); (_ ← Invocations; Ret ())]) (m, ts) ∧
    Forall (λ p, ended p = false) ts ∧ ∀ st', ¬ fstep (m, ts) st'.
Proof.
  pose proof (new_free w) as Hf. set (m0 := new_fake (sg := sg) w) in *.
  set (m1 := update f (λ x, set_args (argsForCall x ++ [a]) x) (set_lock (mutex_of f) Writer m0)).
  assert (∃ k, goes (m0, _ ← Call f a; Ret ()) (m1, Act (Lock invocationsMutex) k)) as [k0 Hg0].
  { eexists. eapply goes_act; [cbn; by rewrite Hf|]. eapply goes_act; [done|]. eapply goes_act; [done|].
    eapply goes_act; [done|]. apply goes_none. }
  assert (∀ x, lock_state m1 x = if decide (mutex_of f = x) then Writer else Readers 0) as Hl1.
  { intros x. change (lock_state m1 x) with (lock_state (set_lock (mutex_of f) Writer m0) x). by rewrite lock_state_set, Hf. }
  pose proof (position_lt f) as Hlt. set (i := position f) in *.
  destruct (goes_rlocked (act CopyInvocations) (None :: (Some <$> seq 0 i)) (mutex_of f) (Some <$> seq (S i) (length sg - S i)) m1)
    as (m2 & k1 & Hg1 & Hl2).
  { apply NoDup_cons. split; [intros (n & [=] & _)%list_elem_of_fmap|]. apply NoDup_fmap_2; [by intros ?? [=]|apply NoDup_seq]. }
  { intros x Hx. rewrite Hl1, decide_False; [done|]. intros <-. unfold mutex_of in Hx. fold i in Hx.
    apply elem_of_cons in Hx as [[=]|(n & [= <-] & Hn%elem_of_seq)%list_elem_of_fmap]. lia. }
  assert ((None :: (Some <$> seq 0 i)) ++ mutex_of f :: (Some <$> seq (S i) (length sg - S i)) =
    invocationsMutex :: (Some <$> seq 0 (length sg))) as Heq.
  { cbn. f_equal. replace (length sg) with (i + S (length sg - S i))%nat at 2 by lia. by rewrite seq_app, fmap_app. }
  match type of Hg1 with goes (_, ?p) _ => assert (p = Invocations) as E by (unfold Invocations; f_equal; exact Heq) end.
  rewrite E in Hg1. apply (goes_bind (λ _, Ret ())) in Hg1.
  exists m2, [Act (Lock invocationsMutex) k0; pbind (λ _, Ret ()) (Act (RLock (mutex_of f)) k1)]. split_and!.
  - etransitivity; [apply (goes_run _ _ _ _ 0 _ Hg0); done|].
    apply (goes_run _ _ _ _ 1 [Act (Lock invocationsMutex) k0; (_ ← Invocations; Ret ())] Hg1). done.
  - by repeat constructor.
  - intros st' [j Hj]%step_move. destruct j as [|[|j]]; [..|done]; unfold move in Hj; cbn in Hj.
    + by rewrite Hl2, decide_True in Hj by (by left).
    + rewrite Hl2, Hl1, decide_False, decide_True in Hj; [done|done|]. intros [[=]|(n & [= <-] & Hn%elem_of_seq)%list_elem_of_fmap]%elem_of_cons.
      lia.
Qed.

Lemma goes_of_run {A} (p : code A) m a m' : run p m = Ended a m' → goes (m, p) (m', Ret a).
Proof.
  revert m. induction p as [x| |R e k IH]; intros m Hr; cbn in Hr; [injection Hr as -> ->; apply goes_none|done|].
  destruct (perform e m) eqn:Hp; [|done..]. eapply goes_act; [done|]. by apply IH.
Qed.

(** A call that has seen a stub and is about to read it again. *)
Lemma goes_Call_stub {e} (f : field sg e) a m s :
  free m → Stub (method_of f m) = Some s →
  ∃ m', free m' ∧ goes (m, Call f a) (m', Act (GetStub f) (λ s, match s with Some s => act (RunStub s a) | None => Panic end)).
Proof.
  intros Hf Hs. eexists. split; cycle 1.
  - eapply goes_act; [cbn; by rewrite Hf|]. do 3 (eapply goes_act; [done|]).
    eapply goes_act.
    { cbn. unfold lock_state. cbn. rewrite lookup_insert_ne by done. fold (lock_state m invocationsMutex). by rewrite Hf. }
    eapply goes_act; [done|]. eapply goes_act.
    { cbn. unfold lock_state. cbn. by rewrite lookup_insert_eq. }
    eapply goes_act.
    { cbn. unfold lock_state. cbn. rewrite !lookup_insert_ne, lookup_insert_eq by done. done. }
    eapply (goes_act _ _ _ _ (Some s)); [|apply goes_none]. cbn. f_equal. unfold method_of. cbn. rewrite get_put. exact Hs.
  - intros x. unfold lock_state. cbn. rewrite !lookup_insert. repeat (case_decide; [done|]). apply Hf.
Qed.

(** C40 The stub of a method is read without the lock, twice: setting results while
    a call with a stub is under way can take the stub away between the two, and
    the call panics on a nil function, in either generation of the generator. *)
Theorem stub_race_panics (g : generation) (e : entry) (f : field sg e) (a : e_args e) (r : e_results e)
    (s : stub (W := W) e) (m0 : machine) (Hfree : free m0) (Hstub : Stub (method_of f m0) = Some s) :
  ∃ m ts, rtc fstep (m0, [(_ ← Call f a; Ret ()); Returns g f r]) (m, ts) ∧ ts = [Panic; Ret ()].
Proof.
  destruct (goes_Call_stub f a m0 s Hfree Hstub) as (m1 & Hf1 & Hg1). apply (goes_bind (λ _, Ret ())) in Hg1.
  destruct (does_Returns g f r m1 Hf1) as (m2 & Hr & HF & _). apply goes_of_run in Hr.
  assert (Stub (method_of f m2) = None) as Hnil by (unfold method_of; rewrite HF; cbn; by rewrite get_put).
  eexists m2, _. split; [|reflexivity].
  etransitivity; [apply (goes_run _ _ _ _ 0 _ Hg1); done|]. etransitivity; [apply (goes_run _ _ _ _ 1 _ Hr); done|].
  apply rtc_once, (move_step 0). unfold move. cbn. by rewrite Hnil.
Qed.
End theorems.

(** ** Witnesses: a fake process *)
Section witnesses.
Abbreviation sig := FakeProcess.sig.
Abbreviation signal := (field_at sig 2).
Abbreviation start := (new_fake (W := unit) (sg := sig) ()).

(** One goroutine sends a signal while another counts the signals. *)
Definition two_tests : list (prog (eff (W := unit) (sg := sig)) unit) :=
  [(_ ← Call signal SignalKill; Ret ()); (_ ← CallCount signal; Ret ())].
Definition counted_meanwhile := default (start, []) (moves [0; 0; 0; 0; 0; 0; 0; 0; 1; 1; 0; 1; 0]%nat (start, two_tests)).


(** Two goroutines send a signal each: the second one gets to the lock first. *)
Definition two_signals : list (prog (eff (W := unit) (sg := sig)) (option error)) :=
  Call signal <$> [SignalKill; SignalTerminate].
Definition both_sent := default (start, []) (moves [1; 1; 1; 1; 1; 1; 1; 1; 0; 0; 0; 0; 0; 0; 0; 0; 0; 0; 1; 1]%nat (start, two_signals)).

Lemma concurrent_calls_are_served_witness :
  argsForCall (method_of signal both_sent.1) = [SignalTerminate; SignalKill] ∧
  ∃ ns, ns ≡ₚ seq 0 2 ∧
    ∀ (j n : nat) (a : Z) p, ns !! j = Some n → [SignalKill; SignalTerminate] !! j = Some a → both_sent.2 !! j = Some p →
      boxed signal both_sent.1 !! n = Some [Any a] ∧ p = Ret (set_result (method_of signal start) n).
Proof.
  split; [reflexivity|].
  apply (concurrent_calls_are_served FakeProcess.FakeProcess_names _ signal start both_sent.1 [SignalKill; SignalTerminate] both_sent.2).
  - apply new_free.
  - intros e f. apply new_boxed.
  - done.
  - apply (moves_run [1; 1; 1; 1; 1; 1; 1; 1; 0; 0; 0; 0; 0; 0; 0; 0; 0; 0; 1; 1]%nat). vm_compute. reflexivity.
  - vm_compute. by repeat constructor.
Defined.

Abbreviation signal_entry := (mk_entry "Signal" (λ arg1 : Z, [Any arg1]) (None : option error)).
Definition succeeds : stub (W := unit) signal_entry := λ _ w, (None, w).
Definition with_stub : machine (W := unit) (sg := sig) := update (e := signal_entry) signal (set_stub (Some succeeds)) start.

Lemma stub_race_panics_witness :
  ∃ m ts, rtc fstep (with_stub, [(_ ← Call signal SignalKill; Ret ()); Returns Newer signal (Some (OtherError "no such process"))]) (m, ts) ∧
    ts = [Panic; Ret ()].
Proof.
  apply (stub_race_panics Newer _ signal SignalKill (Some (OtherError "no such process")) succeeds with_stub).
  - apply (new_free (sg := sig) ()).
  - done.
Defined.
End witnesses.
End FakeThreads.
