(* ===== verification/Lifecycle.v ===== *)
(** * Starting and stopping the server (server/server.go)

    [SetupBomberman], [Listen] and the calls [Serve], [Start] and [Stop], with
    the [ConnState] hook through which the server counts its connections.  The
    calls and the goroutines of the connections interleave; the connections go
    through the states of net/http. *)
From S2P Require Import Prelude Types Errors Backend Timebomb Bomberman Streamer Sample Prog.

Module Lifecycle.
Import Errors Backend Prog.

Section lifecycle.
Context {C P B : Type} `{Backend C P B}.
Abbreviation server := (GardenServer C B).

(** ** SetupBomberman *)
Definition SetupBomberman (s : server) : option error * server :=
  match exec (Containers None) (backend s) with
  | (Err err, b) => (Some err, set_backend b s)
  | (Ok containers, b) =>
      let strap bm c := Bomberman.manageBombs Handle (now s) (GraceTime b) (Bomberman.Strap c) bm in
      (None, set_bomberman (Some (foldl strap Bomberman.New containers)) (set_backend b s))
  end.

(** ** Listen *)

(** What the operating system answers: whether the socket exists, the results of
    removing it, of binding the address and of changing its mode. *)
Record os := mk_os {
  os_exists : bool;
  os_remove : option string;
  os_listen : result error nat;
  os_chmod : option error;
}.

(** The system calls made. *)
Inductive syscall := Remove (path : string) | Bind (network addr : string) | Chmod (path : string).

Definition removeExistingSocket (o : os) (s : server) : option error * list syscall :=
  if negb (bool_decide (listenNetwork s = "unix")) then (None, [])
  else if negb (os_exists o) then (None, [])
  else match os_remove o with
       | Some text => (Some (OtherError ("error deleting existing socket: " +:+ text)), [Remove (listenAddr s)])
       | None => (None, [Remove (listenAddr s)])
       end.

Definition Listen (o : os) (s : server) : result error nat * list syscall :=
  match removeExistingSocket o s with
  | (Some err, calls) => (Err err, calls)
  | (None, calls) =>
      let calls := calls ++ [Bind (listenNetwork s) (listenAddr s)] in
      match os_listen o with
      | Err err => (Err err, calls)
      | Ok l =>
          if bool_decide (listenNetwork s = "unix") then
            let calls := calls ++ [Chmod (listenAddr s)] in
            match os_chmod o with Some err => (Err err, calls) | None => (Ok l, calls) end
          else (Ok l, calls)
      end
  end.

(** ** Connections *)

(** Where a connection is: accepted by the listener but not yet announced; new;
    with a request; become idle, past the test of [stopping]; idle; closed or
    hijacked. *)
Inductive phase := Accepted | New | Active | Checking | Idle | Gone.

#[export] Instance phase_eq_dec : EqDecision phase.
Proof. solve_decision. Defined.

Record conn := mk_conn {
  c_phase : phase;
  c_closed : bool;
}.

(** Where the call of [Stop] that has [startMutex] is. *)
Inductive stop_state := NoStop | Closing | Swapped (ids : gset nat) | Waiting.

(** Where [Serve] is; [Ended] is waiting for [startMutex]. *)
Inductive serve_state := NotServing | Serving | Ended (err : error) | ServeReturned (err : option error).

Record system := mk_system {
  sy_server : server;
  sy_conns : list conn;
  sy_listening : bool;
  sy_stop : stop_state;
  sy_serve : serve_state;
  sy_results : list (option error);
}.

(** The [ConnState] hook. *)
Definition conn_new (s : server) : server := set_handling (handling s + 1) s.
Definition conn_active (i : nat) (s : server) : server := set_conns (conns s ∖ {[i]}) s.
Definition conn_idle (i : nat) (s : server) : server := set_conns ({[i]} ∪ conns s) s.
Definition conn_gone (i : nat) (s : server) : server :=
  set_handling (handling s - 1) (set_conns (conns s ∖ {[i]}) s).

(** [Stop], up to the closing of the listener. *)
Inductive stopped := NotRunning (err : error) | Stopping (s : server) | ClosesTwice.

Definition stop_begin (s : server) : stopped :=
  if negb (started s) then NotRunning (OtherError "server is not running")
  else if stopping s then ClosesTwice
  else Stopping (set_stopping true (set_started false s)).

Definition serve_begin (l : nat) (s : server) : server := set_listener (Some l) (set_started true s).

Definition serve_result (err : error) (s : server) : option error := if started s then Some err else None.

(** [ListenAndServe], up to the accepting of connections. *)
Definition ListenAndServe (o : os) (s : server) : result error server :=
  match (Listen o s).1 with Err err => Err err | Ok l => Ok (serve_begin l s) end.

(** The deprecated [Start]; the accepting goroutine it starts is [Serving]. *)
Definition Start (o : os) (s : server) : option error * server :=
  match exec Backend.Start (backend s) with
  | (Some err, b) => (Some err, set_backend b s)
  | (None, b) =>
      match SetupBomberman (set_backend b s) with
      | (Some err, s') => (Some err, s')
      | (None, s') => match (Listen o s').1 with Err err => (Some err, s') | Ok _ => (None, s') end
      end
  end.

(** ** The transition system *)

(** Who moves: the client of a connection, or the server. *)
Inductive actor := Client | Server.

Definition on_server (f : server → server) (y : system) : system :=
  mk_system (f (sy_server y)) (sy_conns y) (sy_listening y) (sy_stop y) (sy_serve y) (sy_results y).
Definition set_conn (i : nat) (c : conn) (y : system) : system :=
  mk_system (sy_server y) (<[i := c]> (sy_conns y)) (sy_listening y) (sy_stop y) (sy_serve y) (sy_results y).
Definition set_stop (p : stop_state) (y : system) : system :=
  mk_system (sy_server y) (sy_conns y) (sy_listening y) p (sy_serve y) (sy_results y).
Definition set_serve (p : serve_state) (y : system) : system :=
  mk_system (sy_server y) (sy_conns y) (sy_listening y) (sy_stop y) p (sy_results y).
Definition set_listening (b : bool) (y : system) : system :=
  mk_system (sy_server y) (sy_conns y) b (sy_stop y) (sy_serve y) (sy_results y).
Definition returns (r : option error) (y : system) : system :=
  mk_system (sy_server y) (sy_conns y) (sy_listening y) (sy_stop y) (sy_serve y) (sy_results y ++ [r]).

(** [startMutex] is held by the whole of [Stop]. *)
Inductive step : actor → system → system → Prop :=
| serve_starts y l :
    sy_stop y = NoStop → sy_serve y = NotServing ∨ (∃ r, sy_serve y = ServeReturned r) →
    step Server y (set_listening true (set_serve Serving (on_server (serve_begin l) y)))
| serve_ends y err :
    sy_serve y = Serving → sy_listening y = false → step Server y (set_serve (Ended err) y)
| serve_returns y err :
    sy_stop y = NoStop → sy_serve y = Ended err →
    step Server y (set_serve (ServeReturned (serve_result err (sy_server y))) y)
| accepts y :
    sy_serve y = Serving → sy_listening y = true →
    step Client y (mk_system (sy_server y) (sy_conns y ++ [mk_conn Accepted false]) true (sy_stop y)
      Serving (sy_results y))
(** the hook: a new connection, a request on a new or an idle one, a request that
    has been answered, and the end *)
| state_new y i closed :
    sy_conns y !! i = Some (mk_conn Accepted closed) →
    step Server y (set_conn i (mk_conn New closed) (on_server conn_new y))
| state_active y i p :
    sy_conns y !! i = Some (mk_conn p false) → p = New ∨ p = Idle →
    step Client y (set_conn i (mk_conn Active false) (on_server (conn_active i) y))
| state_idle_stopping y i closed :
    sy_conns y !! i = Some (mk_conn Active closed) → stopping (sy_server y) = true →
    step Server y (set_conn i (mk_conn Idle true) y)
| state_idle_default y i closed :
    sy_conns y !! i = Some (mk_conn Active closed) → stopping (sy_server y) = false →
    step Server y (set_conn i (mk_conn Checking closed) y)
| state_idle y i closed :
    sy_conns y !! i = Some (mk_conn Checking closed) →
    step Server y (set_conn i (mk_conn Idle closed) (on_server (conn_idle i) y))
| state_closed y i p closed :
    sy_conns y !! i = Some (mk_conn p closed) → p = Active ∨ p = New ∨ (closed = true ∧ p = Idle) →
    step Server y (set_conn i (mk_conn Gone closed) (on_server (conn_gone i) y))
| client_closes y i p closed :
    sy_conns y !! i = Some (mk_conn p closed) → p = New ∨ p = Idle →
    step Client y (set_conn i (mk_conn Gone closed) (on_server (conn_gone i) y))
(** [Stop] *)
| stop_refused y err :
    sy_stop y = NoStop → stop_begin (sy_server y) = NotRunning err →
    step Server y (returns (Some err) y)
| stop_begins y s' :
    sy_stop y = NoStop → stop_begin (sy_server y) = Stopping s' →
    step Server y (set_stop Closing (set_listening false (on_server (λ _, s') y)))
| stop_swaps y :
    sy_stop y = Closing →
    step Server y (set_stop (Swapped (conns (sy_server y))) (on_server (set_conns ∅) y))
| stop_closes y ids i p closed :
    sy_stop y = Swapped ids → i ∈ ids → sy_conns y !! i = Some (mk_conn p closed) →
    step Server y (set_stop (Swapped (ids ∖ {[i]})) (set_conn i (mk_conn p true) y))
| stop_waits y :
    sy_stop y = Swapped ∅ → step Server y (set_stop Waiting y)
| stop_returns y r b :
    sy_stop y = Waiting → handling (sy_server y) = 0%Z → exec StopBackend (backend (sy_server y)) = (r, b) →
    step Server y (returns r (set_stop NoStop (on_server (set_backend b) y))).

Definition any_step (y y' : system) : Prop := ∃ a, step a y y'.

(** A server as [New] makes it, before any call. *)
Record fresh (y : system) : Prop := mk_fresh {
  fresh_conns : sy_conns y = [];
  fresh_registered : conns (sy_server y) = ∅;
  fresh_handling : handling (sy_server y) = 0%Z;
  fresh_stop : sy_stop y = NoStop;
  fresh_serve : sy_serve y = NotServing;
  fresh_listening : sy_listening y = false;
  fresh_stopping : stopping (sy_server y) = false;
  fresh_started : started (sy_server y) = false;
}.

Lemma New_fresh listenNetwork listenAddr g b :
  fresh (mk_system (Prog.New listenNetwork listenAddr g b) [] false NoStop NotServing []).
Proof. by split. Qed.

(** ** Invariant *)
Definition counted (c : conn) : bool :=
  match c_phase c with Accepted | Gone => false | _ => true end.

Definition live (l : list conn) : nat := length (filter (λ c, counted c = true) l).

(** The connections whose closing [Stop] still has to do. *)
Definition to_close (p : stop_state) : gset nat := match p with Swapped ids => ids | _ => ∅ end.

Record lifecycle (y : system) : Prop := mk_lifecycle {
  (** the wait group counts the connections that have been announced *)
  lc_handling : handling (sy_server y) = Z.of_nat (live (sy_conns y));
  (** an idle connection that nobody has closed is registered, or [Stop] has it *)
  lc_idle i : sy_conns y !! i = Some (mk_conn Idle false) →
    i ∈ conns (sy_server y) ∨ i ∈ to_close (sy_stop y);
  (** [Stop] closes connections that exist *)
  lc_known i : i ∈ conns (sy_server y) ∨ i ∈ to_close (sy_stop y) → is_Some (sy_conns y !! i);
  (** once [Stop] has begun the channel is closed, the listener too *)
  lc_stopping : sy_stop y ≠ NoStop → stopping (sy_server y) = true ∧ started (sy_server y) = false ∧ sy_listening y = false;
}.

Lemma live_insert l i c c' :
  l !! i = Some c → (live (<[i := c']> l) + Nat.b2n (counted c) = live l + Nat.b2n (counted c'))%nat.
Proof.
  unfold live. revert i. induction l as [|x l IH]; intros [|i] Hi; try done.
  - injection Hi as ->. cbn [insert list_insert]. rewrite !filter_cons.
    destruct (counted c), (counted c'); repeat case_decide; try congruence; cbn [length Nat.b2n]; lia.
  - change (<[S i := c']> (x :: l)) with (x :: <[i := c']> l). rewrite !filter_cons.
    specialize (IH i Hi). case_decide; cbn [length]; lia.
Qed.

Lemma insert_lookup_Some (l : list conn) i j c c' :
  <[i := c']> l !! j = Some c → j = i ∧ c = c' ∨ j ≠ i ∧ l !! j = Some c.
Proof.
  intros Hj. destruct (decide (j = i)) as [->|Hne]; [left|right; by rewrite list_lookup_insert_ne in Hj].
  assert (i < length l)%nat as Hlt by (apply lookup_lt_Some in Hj; by rewrite length_insert in Hj).
  rewrite list_lookup_insert_eq in Hj by done. by simplify_eq.
Qed.

Lemma insert_known (l : list conn) i j c : is_Some (l !! j) → is_Some (<[i := c]> l !! j).
Proof. rewrite !lookup_lt_is_Some, length_insert. done. Qed.

(** A connection moves, with the server's fields: the counter follows, and a
    connection that is idle and open afterwards is registered. *)
Lemma lifecycle_move y i c c' s' :
  lifecycle y → sy_conns y !! i = Some c →
  (handling s' + Z.b2z (counted c) = handling (sy_server y) + Z.b2z (counted c'))%Z →
  (c' = mk_conn Idle false → i ∈ conns s') →
  (∀ j, j ≠ i → (j ∈ conns s' ↔ j ∈ conns (sy_server y))) →
  stopping s' = stopping (sy_server y) → started s' = started (sy_server y) →
  lifecycle (set_conn i c' (on_server (λ _, s') y)).
Proof.
  intros [Hh Hi Hk Hs] Hl Hcount Hidle Hother Hstp Hst.
  split; cbn [set_conn on_server sy_server sy_conns sy_stop sy_listening].
  - pose proof (live_insert _ _ _ c' Hl) as Hlive. rewrite Hh in Hcount.
    destruct (counted c), (counted c'); cbn [Nat.b2n Z.b2z] in *; lia.
  - intros j [[-> Hc]|[Hne Hj]]%insert_lookup_Some; [left; by apply Hidle|].
    rewrite Hother by done. by apply Hi.
  - intros j Hj. apply insert_known. destruct (decide (j = i)) as [->|Hne]; [by eexists|].
    apply Hk. rewrite Hother in Hj by done. done.
  - intros Hn. rewrite Hstp, Hst. by apply Hs.
Qed.

Lemma lifecycle_same y s' l p v r :
  lifecycle y → handling s' = handling (sy_server y) →
  (∀ i, i ∈ conns s' ∨ i ∈ to_close p ↔ i ∈ conns (sy_server y) ∨ i ∈ to_close (sy_stop y)) →
  (p ≠ NoStop → stopping s' = true ∧ started s' = false ∧ l = false) →
  lifecycle (mk_system s' (sy_conns y) l p v r).
Proof.
  intros [Hh Hi Hk Hs] Hhd Hc Hstp. split; cbn [sy_server sy_conns sy_stop sy_listening]; [congruence|..|done].
  - intros i Hl. apply Hc. by apply Hi.
  - intros i Hl%Hc. by apply Hk.
Qed.

Lemma other_difference (i j : nat) (X : gset nat) : j ≠ i → j ∈ X ∖ {[i]} ↔ j ∈ X.
Proof. rewrite elem_of_difference, elem_of_singleton. tauto. Qed.

Lemma stop_begin_Stopping s s' :
  stop_begin s = Stopping s' → started s = true ∧ stopping s = false ∧ s' = set_stopping true (set_started false s).
Proof. unfold stop_begin. destruct (started s), (stopping s); try done. by intros [= <-]. Qed.

(** A connection is accepted. *)
Lemma lifecycle_accept y v :
  lifecycle y → sy_listening y = true →
  lifecycle (mk_system (sy_server y) (sy_conns y ++ [mk_conn Accepted false]) true (sy_stop y) v (sy_results y)).
Proof.
  intros [Hh Hi Hk Hs] Hl.
  split; cbn [sy_server sy_conns sy_stop sy_listening]; [| | |intros Hn'; destruct (Hs Hn') as (_ & _ & ?); congruence].
  - rewrite Hh. unfold live. rewrite filter_app, length_app, filter_cons_False by done.
    change (filter (λ c, counted c = true) []) with (@nil conn). cbn [length]. lia.
  - intros i [Hl'|[_ Hl']]%lookup_app_Some; [by apply Hi|].
    by apply list_lookup_singleton_Some in Hl' as [_ ?].
  - intros i [c Hl']%Hk. exists c. by apply lookup_app_l_Some.
Qed.

(** [Stop] closes a connection that was idle. *)
Lemma lifecycle_close y ids i p cl :
  lifecycle y → sy_stop y = Swapped ids → sy_conns y !! i = Some (mk_conn p cl) →
  lifecycle (set_stop (Swapped (ids ∖ {[i]})) (set_conn i (mk_conn p true) y)).
Proof.
  intros [Hh Hi Hk Hs] Hp Hc. split; cbn [set_stop set_conn sy_server sy_conns sy_stop sy_listening].
  - pose proof (live_insert _ _ _ (mk_conn p true) Hc) as Hlive. rewrite Hh. unfold counted in Hlive. cbn in Hlive. lia.
  - intros j [[-> Hj]|[Hne Hj]]%insert_lookup_Some; [done|].
    destruct (Hi j Hj) as [Hr|Hr]; [by left|right]. rewrite Hp in Hr. cbn in *. by apply other_difference.
  - intros j Hj. apply insert_known, Hk. rewrite Hp. destruct Hj as [?|[? _]%elem_of_difference]; tauto.
  - intros _. apply Hs. by rewrite Hp.
Qed.

Lemma lifecycle_step a y y' : lifecycle y → step a y y' → lifecycle y'.
Proof.
  intros Hy Hstep. pose proof Hy as [Hh Hi Hk Hs].
  destruct Hstep as [y l Hn Hv|y err Hv Hl|y err Hn Hv|y Hv Hl|y i cl Hc|y i p Hc Hp|y i cl Hc Hst|y i cl Hc Hst
    |y i cl Hc|y i p cl Hc Hp|y i p cl Hc Hp|y err Hn Hb|y s' Hn Hb|y Hp|y ids i p cl Hp Hin Hc|y Hp|y r b Hp Hz He].
  - apply (lifecycle_same y); [done..|]. cbn. by rewrite Hn.
  - by apply (lifecycle_same y).
  - by apply (lifecycle_same y).
  - by apply lifecycle_accept.
  - eapply (lifecycle_move y i _ _ (conn_new (sy_server y))); [done..|cbn; lia|done|done|done|done].
  - eapply (lifecycle_move y i _ _ (conn_active i (sy_server y))); [done..| |done| |done|done].
    + destruct Hp as [-> | ->]; cbn; lia.
    + intros j Hne. apply other_difference, Hne.
  - eapply (lifecycle_move y i _ _ (sy_server y)); [done..|cbn; lia|done|done|done|done].
  - eapply (lifecycle_move y i _ _ (sy_server y)); [done..|cbn; lia|done|done|done|done].
  - eapply (lifecycle_move y i _ _ (conn_idle i (sy_server y))); [done..|cbn; lia| | |done|done].
    + intros _. cbn. by apply elem_of_union_l, elem_of_singleton.
    + intros j Hne. cbn. rewrite elem_of_union, elem_of_singleton. tauto.
  - eapply (lifecycle_move y i _ _ (conn_gone i (sy_server y))); [done..| |done| |done|done].
    + destruct Hp as [-> |[-> |[_ ->]]]; cbn; lia.
    + intros j Hne. apply other_difference, Hne.
  - eapply (lifecycle_move y i _ _ (conn_gone i (sy_server y))); [done..| |done| |done|done].
    + destruct Hp as [-> | ->]; cbn; lia.
    + intros j Hne. apply other_difference, Hne.
  - by apply (lifecycle_same y).
  - apply stop_begin_Stopping in Hb as (_ & _ & ->). apply (lifecycle_same y); [done| | |].
    + done.
    + intros i. cbn. by rewrite Hn.
    + done.
  - apply (lifecycle_same y); [done|done| |].
    + intros i. cbn. rewrite Hp. cbn. pose proof (not_elem_of_empty (C := gset nat) i). tauto.
    + intros _. apply Hs. by rewrite Hp.
  - by apply (lifecycle_close y ids i p cl).
  - apply (lifecycle_same y); [done|done| |].
    + intros i. rewrite Hp. cbn. done.
    + intros _. apply Hs. by rewrite Hp.
  - apply (lifecycle_same y); [done|done| |done]. intros i. rewrite Hp. done.
Qed.

Lemma lifecycle_fresh y : fresh y → lifecycle y.
Proof.
  intros [Hc Hr Hh Hs _ _ _ _]. split.
  - by rewrite Hh, Hc.
  - intros i. by rewrite Hc.
  - intros i. rewrite Hr, Hs. by intros [[]%not_elem_of_empty|[]%not_elem_of_empty].
  - by rewrite Hs.
Qed.

Lemma lifecycle_run y y' : fresh y → rtc any_step y y' → lifecycle y'.
Proof.
  intros Hf%lifecycle_fresh Hrun. induction Hrun as [|y y1 y2 [a Hs] _ IH]; [done|].
  by apply IH, (lifecycle_step a y).
Qed.

(** ** Stop *)
Lemma live_zero l : live l = 0%nat → Forall (λ c, counted c = false) l.
Proof.
  induction l as [|c l IH]; [constructor|]. unfold live in *. rewrite filter_cons. case_decide as Hc; [done|].
  intros Hl. constructor; [by destruct (counted c)|by apply IH].
Qed.

(** C22 [Stop] stops the backend only once no connection is being served: in every
    run of a server from its start, whenever a call of [Stop] stops the backend
    and returns its result, every connection that had been announced to the
    server has been closed or handed over. *)
Theorem stop_waits_for_connections (y0 y y' : system)
    (Hfresh : fresh y0) (Hrun : rtc any_step y0 y)
    (Hstep : any_step y y') (Hwaiting : sy_stop y = Waiting) (Hreturned : sy_stop y' = NoStop) :
  Forall (λ c, counted c = false) (sy_conns y) ∧
  sy_results y' = sy_results y ++ [(exec StopBackend (backend (sy_server y))).1].
Proof.
  pose proof (lc_handling _ (lifecycle_run _ _ Hfresh Hrun)) as Hh.
  destruct Hstep as [a Hstep]. destruct Hstep; cbn in Hreturned; try congruence.
  split; [apply live_zero; lia|]. cbn. by match goal with He : exec _ _ = _ |- _ => rewrite He end.
Qed.

(** A run during one call of [Stop]. *)
Definition stop_step (y y' : system) : Prop := any_step y y' ∧ sy_stop y' ≠ NoStop.

(** Once the channel is closed no connection passes the test any more. *)
Record draining (y : system) : Prop := mk_draining {
  dr_stopping : stopping (sy_server y) = true;
  dr_checking i closed : sy_conns y !! i ≠ Some (mk_conn Checking closed);
  dr_registered : sy_stop y = Closing ∨ conns (sy_server y) = ∅;
  dr_stop : sy_stop y ≠ NoStop;
}.

Lemma draining_move y i c s' p :
  draining y → (∀ closed, c ≠ mk_conn Checking closed) → stopping s' = true →
  (p = Closing ∨ conns s' = ∅) → p ≠ NoStop →
  draining (set_stop p (set_conn i c (on_server (λ _, s') y))).
Proof.
  intros [Hs Hc Hr Hn] Hcc Hs' Hr' Hp. split; cbn; [done| |done|done].
  intros j closed [[_ Hj]|[_ Hj]]%insert_lookup_Some; [by eapply Hcc|by eapply Hc].
Qed.

Lemma draining_step y y' : draining y → stop_step y y' → draining y'.
Proof.
  intros Hd [[a Hstep] Hn]. pose proof Hd as [Hs Hc Hr Hns].
  assert (∀ (f : server → server) i c, (∀ closed, c ≠ mk_conn Checking closed) →
    stopping (f (sy_server y)) = true → conns (f (sy_server y)) ⊆ conns (sy_server y) →
    draining (set_conn i c (on_server f y))) as Hmove.
  { intros f i c Hcc Hsf Hsub. apply (draining_move y i c (f (sy_server y)) (sy_stop y)); [done..| |done].
    destruct Hr as [Hr|Hr]; [by left|right]. apply set_eq_subseteq. rewrite Hr in Hsub. split; [done|apply empty_subseteq]. }
  destruct Hstep as [y l Hn' Hv|y err Hv Hl|y err Hn' Hv|y Hv Hl|y i cl Hi|y i p Hi Hp|y i cl Hi Hst|y i cl Hi Hst
    |y i cl Hi|y i p cl Hi Hp|y i p cl Hi Hp|y err Hn' Hb|y s' Hn' Hb|y Hp|y ids i p cl Hp Hin Hi|y Hp|y r b Hp Hz He];
    cbn in Hn; try congruence.
  - by split.
  - split; cbn; try done. intros i closed [Hl'|[_ Hl']]%lookup_app_Some; [by eapply Hc|].
    by apply list_lookup_singleton_Some in Hl' as [_ ?].
  - by apply Hmove.
  - apply Hmove; [done..|]. apply subseteq_difference_l. done.
  - by apply (Hmove id).
  - by apply Hc in Hi.
  - apply Hmove; [done..|]. apply subseteq_difference_l. done.
  - apply Hmove; [done..|]. apply subseteq_difference_l. done.
  - split; cbn; [done|done|by right|done].
  - apply (draining_move y i (mk_conn p true) (sy_server y)); [done| |done| |done].
    + intros closed [= ->]. by apply Hc in Hi.
    + destruct Hr as [Hr|Hr]; [congruence|by right].
  - split; cbn; [done|done| |done]. destruct Hr as [Hr|Hr]; [congruence|by right].
Qed.

(** C23 [Stop] does not wait for idle connections: when it begins at a moment at
    which no connection is between its test of the stopping channel and its
    registration as idle, then for as long as it waits every idle connection has
    been closed, so that it waits only for requests in progress, for new
    connections and for closed ones to go. *)
Theorem stop_closes_idle_connections (y0 y y1 y2 : system) (i : nat) (closed : bool)
    (Hfresh : fresh y0) (Hrun : rtc any_step y0 y)
    (Hsettled : ∀ j c, sy_conns y !! j ≠ Some (mk_conn Checking c))
    (Hidle : sy_stop y = NoStop) (Hbegin : any_step y y1) (Hbegun : sy_stop y1 = Closing)
    (Hstop : rtc stop_step y1 y2) (Hwaiting : sy_stop y2 = Waiting)
    (Hconn : sy_conns y2 !! i = Some (mk_conn Idle closed)) :
  closed = true.
Proof.
  assert (draining y1) as Hd1.
  { destruct Hbegin as [a Hstep]. destruct Hstep; cbn in Hbegun; try congruence.
    match goal with Hb : stop_begin _ = _ |- _ => apply stop_begin_Stopping in Hb as (_ & _ & ->) end.
    split; cbn; [done|exact Hsettled|by left|done]. }
  assert (draining y2) as [_ _ Hr _] by (clear -Hd1 Hstop; induction Hstop; eauto using draining_step).
  assert (lifecycle y2) as Hl.
  { apply (lifecycle_run y0); [done|]. etrans; [exact Hrun|]. eapply rtc_l; [exact Hbegin|].
    eapply rtc_subrel; [|exact Hstop]. by intros ?? [? _]. }
  destruct closed; [done|]. destruct (lc_idle _ Hl i Hconn) as [Hin|Hin].
  - destruct Hr as [Hr|Hr]; [congruence|]. rewrite Hr in Hin. by apply not_elem_of_empty in Hin.
  - rewrite Hwaiting in Hin. by apply not_elem_of_empty in Hin.
Qed.


(** A server can be stopped once: a call of [Stop] after one that has begun is
    refused and changes nothing, and when the server is served again after it was
    stopped, stopping it closes a channel that is closed. *)
Lemma stopped_once (s s' : server) (Hs : stop_begin s = Stopping s') :
  stop_begin s' = NotRunning (OtherError "server is not running") ∧
  ∀ l, stop_begin (serve_begin l s') = ClosesTwice.
Proof. by apply stop_begin_Stopping in Hs as (_ & _ & ->). Qed.

Lemma SetupBomberman_started s : started (SetupBomberman s).2 = started s.
Proof. unfold SetupBomberman. by destruct (exec _ _) as [[] ?]. Qed.

(** A server that was started with the deprecated [Start] cannot be stopped:
    whatever the backend and the operating system answer, [Stop] is refused. *)
Lemma Start_cannot_be_stopped (o : os) (s : server) (Hs : started s = false) :
  stop_begin (Start o s).2 = NotRunning (OtherError "server is not running").
Proof.
  assert (started (Start o s).2 = false) as Hst; [|unfold stop_begin; by rewrite Hst].
  unfold Start. destruct (exec Backend.Start (backend s)) as [[err|] b]; [done|].
  pose proof (SetupBomberman_started (set_backend b s)) as Hset.
  destruct (SetupBomberman (set_backend b s)) as [[err|] s']; cbn in *; [by rewrite Hset|].
  destruct ((Listen o s').1); cbn; by rewrite Hset.
Qed.

(** ** SetupBomberman *)

(** What a container that has just been strapped is promised. *)
Definition strapped (now : Z) (grace : Duration) (c : C) : Bomberman.track :=
  let t := Bomberman.mk_track c grace 0 None in
  if (grace =? 0)%Z then t else Bomberman.set_alarm now t.

Lemma strap_all now gt cs :
  (Z.of_nat (length cs) ≤ maxint64)%Z →
  let b := foldl (λ bm c, Bomberman.manageBombs Handle now gt (Bomberman.Strap c) bm) Bomberman.New cs in
  Bomberman.wf Handle (Z.of_nat (length cs)) b ∧
  Bomberman.abs b = foldl (λ m c, <[Handle c := strapped now (gt c) c]> m) ∅ cs.
Proof.
  induction cs as [|c cs IH] using rev_ind; intros Hlen; cbn zeta in *.
  { split; [apply Bomberman.New_wf|done]. }
  rewrite length_app in *. cbn [length] in *. rewrite !foldl_app. cbn [foldl].
  destruct IH as [Hwf Habs]; [lia|]. split.
  - replace (Z.of_nat (length cs + 1)) with (Z.of_nat (length cs) + 1)%Z by lia. apply Bomberman.manageBombs_wf; [done|lia].
  - rewrite (Bomberman.manageBombs_abs _ (Z.of_nat (length cs))) by (done || lia). rewrite Habs. done.
Qed.

Lemma find_app {A} (f : A → bool) l l' :
  find f (l ++ l') = match find f l with Some a => Some a | None => find f l' end.
Proof. induction l as [|a l IH]; cbn; [done|]. by destruct (f a). Qed.

Lemma foldl_insert_lookup {A} (f : C → A) cs h :
  NoDup (Handle <$> cs) →
  foldl (λ m c, <[Handle c := f c]> m) (∅ : gmap string A) cs !! h =
  f <$> find (λ c, bool_decide (Handle c = h)) cs.
Proof.
  induction cs as [|c cs IH] using rev_ind; intros Hnd; [done|].
  rewrite fmap_app in Hnd. apply NoDup_app in Hnd as (Hnd & Hdis & _).
  rewrite foldl_app, find_app. cbn [foldl find]. destruct (decide (Handle c = h)) as [<-|Hne].
  - rewrite lookup_insert_eq, bool_decide_true by done.
    destruct (find (λ c0, bool_decide (Handle c0 = Handle c)) cs) as [c'|] eqn:Hf; [|done].
    apply List.find_some in Hf as [Hin%list_elem_of_In Heq%bool_decide_eq_true].
    destruct (Hdis (Handle c)); [|by left]. apply list_elem_of_fmap. by exists c'.
  - rewrite lookup_insert_ne, bool_decide_false by done. rewrite IH by done.
    by destruct (find _ cs).
Qed.

(** C24 A server that starts takes up the containers that its backend already has:
    after [SetupBomberman] each of them is tracked with its grace time, held by
    nobody, and due one grace time from now unless that is zero; nothing else is
    tracked. *)
Theorem SetupBomberman_tracks_containers (s : server) (cs : list C) (b : B)
    (Hcs : exec (Containers None) (backend s) = (Ok cs, b))
    (Hnd : NoDup (Handle <$> cs)) (Hlen : (Z.of_nat (length cs) ≤ maxint64)%Z) :
  ∃ bm, SetupBomberman s = (None, set_bomberman (Some bm) (set_backend b s)) ∧
    ∀ h, Bomberman.abs bm !! h =
      (λ c, strapped (now s) (GraceTime b c) c) <$> find (λ c, bool_decide (Handle c = h)) cs.
Proof.
  eexists. unfold SetupBomberman. rewrite Hcs. split; [done|]. intros h.
  destruct (strap_all (now s) (GraceTime b) cs Hlen) as [_ ->]. by apply foldl_insert_lookup.
Qed.

(** Listening removes a stale Unix socket before it binds the address, touches
    the file system for no other network, and does not bind when the socket
    cannot be removed. *)
Lemma Listen_replaces_socket (o : os) (s : server) :
  (Listen o s).2 =
  (if bool_decide (listenNetwork s = "unix") && os_exists o then [Remove (listenAddr s)] else []) ++
  (if bool_decide (listenNetwork s = "unix") && os_exists o && bool_decide (os_remove o ≠ None) then []
   else Bind (listenNetwork s) (listenAddr s) ::
     (if bool_decide (listenNetwork s = "unix") then match os_listen o with Ok _ => [Chmod (listenAddr s)] | Err _ => [] end
      else [])).
Proof.
  unfold Listen, removeExistingSocket. destruct (bool_decide (listenNetwork s = "unix")); cbn [negb andb].
  - destruct (os_exists o); cbn [negb andb].
    + destruct (os_remove o); cbn; [done|]. destruct (os_listen o); [|done]. by destruct (os_chmod o).
    + destruct (os_listen o); [|done]. by destruct (os_chmod o).
  - by destruct (os_listen o).
Qed.

(** ** Runs given by their choices *)
Inductive choice :=
| KServe | KServeEnds | KServeReturns | KAccept
| KNew (i : nat) | KActive (i : nat) | KIdle (i : nat) | KRegister (i : nat) | KGone (i : nat) | KLeaves (i : nat)
| KStop | KSwap | KClose (i : nat) | KWait | KReturn.

Definition choose (k : choice) (y : system) : option system :=
  let s := sy_server y in
  match k with
  | KServe =>
      match sy_stop y, sy_serve y with
      | NoStop, NotServing => Some (set_listening true (set_serve Serving (on_server (serve_begin 0) y)))
      | _, _ => None
      end
  | KServeEnds =>
      match sy_serve y, sy_listening y with
      | Serving, false => Some (set_serve (Ended (OtherError "use of closed network connection")) y)
      | _, _ => None
      end
  | KServeReturns =>
      match sy_stop y, sy_serve y with
      | NoStop, Ended err => Some (set_serve (ServeReturned (serve_result err s)) y)
      | _, _ => None
      end
  | KAccept =>
      match sy_serve y, sy_listening y with
      | Serving, true =>
          Some (mk_system s (sy_conns y ++ [mk_conn Accepted false]) (sy_listening y) (sy_stop y) (sy_serve y) (sy_results y))
      | _, _ => None
      end
  | KNew i =>
      match sy_conns y !! i with
      | Some (mk_conn Accepted c) => Some (set_conn i (mk_conn New c) (on_server conn_new y))
      | _ => None
      end
  | KActive i =>
      match sy_conns y !! i with
      | Some (mk_conn (New | Idle) false) => Some (set_conn i (mk_conn Active false) (on_server (conn_active i) y))
      | _ => None
      end
  | KIdle i =>
      match sy_conns y !! i with
      | Some (mk_conn Active c) => Some (set_conn i (if stopping s then mk_conn Idle true else mk_conn Checking c) y)
      | _ => None
      end
  | KRegister i =>
      match sy_conns y !! i with
      | Some (mk_conn Checking c) => Some (set_conn i (mk_conn Idle c) (on_server (conn_idle i) y))
      | _ => None
      end
  | KGone i =>
      match sy_conns y !! i with
      | Some (mk_conn (Active | New) c) => Some (set_conn i (mk_conn Gone c) (on_server (conn_gone i) y))
      | Some (mk_conn Idle true) => Some (set_conn i (mk_conn Gone true) (on_server (conn_gone i) y))
      | _ => None
      end
  | KLeaves i =>
      match sy_conns y !! i with
      | Some (mk_conn (New | Idle) c) => Some (set_conn i (mk_conn Gone c) (on_server (conn_gone i) y))
      | _ => None
      end
  | KStop =>
      match sy_stop y, stop_begin s with
      | NoStop, NotRunning err => Some (returns (Some err) y)
      | NoStop, Stopping s' => Some (set_stop Closing (set_listening false (on_server (λ _, s') y)))
      | _, _ => None
      end
  | KSwap =>
      match sy_stop y with Closing => Some (set_stop (Swapped (conns s)) (on_server (set_conns ∅) y)) | _ => None end
  | KClose i =>
      match sy_stop y, sy_conns y !! i with
      | Swapped ids, Some (mk_conn p _) =>
          if decide (i ∈ ids) then Some (set_stop (Swapped (ids ∖ {[i]})) (set_conn i (mk_conn p true) y)) else None
      | _, _ => None
      end
  | KWait =>
      match sy_stop y with Swapped ids => if decide (ids = ∅) then Some (set_stop Waiting y) else None | _ => None end
  | KReturn =>
      match sy_stop y with
      | Waiting =>
          if (handling s =? 0)%Z then
            let (r, b) := exec StopBackend (backend s) in Some (returns r (set_stop NoStop (on_server (set_backend b) y)))
          else None
      | _ => None
      end
  end.

Fixpoint schedule (ks : list choice) (y : system) : option system :=
  match ks with [] => Some y | k :: ks' => y' ← choose k y; schedule ks' y' end.

Lemma chosen_step k y y' : choose k y = Some y' → any_step y y'.
Proof.
  destruct k; cbn [choose]; intros Hk; repeat case_hyp Hk; try done; subst; injection Hk as <-; eexists;
    first [ by eapply serve_starts; [|left] | by eapply serve_ends | by eapply serve_returns | by eapply accepts
          | by eapply state_new | by eapply state_active; eauto | by eapply state_idle_stopping
          | by eapply state_idle_default | by eapply state_idle | by eapply state_closed; eauto
          | by eapply client_closes; eauto | by eapply stop_refused | by eapply stop_begins | by eapply stop_swaps
          | by eapply stop_closes | by eapply stop_waits | by eapply stop_returns; [|apply Z.eqb_eq|] ].
Qed.

Lemma chosen_run ks y y' : schedule ks y = Some y' → rtc any_step y y'.
Proof.
  revert y. induction ks as [|k ks IH]; intros y; cbn; [intros [= ->]; apply rtc_refl|].
  intros (y1 & Hk%chosen_step & Hks%IH)%bind_Some. by eapply rtc_l.
Qed.

(** A schedule that stays within one call of [Stop]. *)
Fixpoint within (ks : list choice) (y : system) : bool :=
  match ks with
  | [] => true
  | k :: ks' =>
      match choose k y with
      | Some y' => match sy_stop y' with NoStop => false | _ => within ks' y' end
      | None => false
      end
  end.

Lemma schedule_stop ks y y' : within ks y = true → schedule ks y = Some y' → rtc stop_step y y'.
Proof.
  revert y. induction ks as [|k ks IH]; intros y; cbn; [intros _ [= ->]; apply rtc_refl|].
  destruct (choose k y) as [y1|] eqn:Hk; [|done]. cbn. intros Hw Hs. apply chosen_step in Hk.
  eapply rtc_l; [split; [exact Hk|]; by destruct (sy_stop y1)|]. apply IH; [|done]. by destruct (sy_stop y1).
Qed.
End lifecycle.

(** ** Runs on the sample backend *)
Section runs.
#[local] Existing Instance Sample.sample_backend.

Definition new_server : GardenServer string Sample.store :=
  Prog.New "unix" "/tmp/garden.sock" 100%Z {["a" := (100%Z, ∅); "b" := (0%Z, ∅)]}.

Definition new_system : system := mk_system new_server [] false NoStop NotServing [].

Lemma new_fresh : fresh new_system.
Proof. apply New_fresh. Qed.

Definition chosen (ks : list choice) : system := default new_system (schedule ks new_system).

(** One connection has been answered and has passed the test of the stopping
    channel; or has been registered as idle; or the server has been told to stop
    before that. *)
Definition to_checking : list choice := [KServe; KAccept; KNew 0; KActive 0; KIdle 0].
Definition to_idle : list choice := to_checking ++ [KRegister 0].
Definition idle_stopped : list choice := to_idle ++ [KStop; KSwap; KClose 0; KWait].
Definition drained : list choice := idle_stopped ++ [KGone 0].
Definition slipped : list choice := to_checking ++ [KStop; KSwap; KRegister 0; KWait; KServeEnds].

Lemma stop_waits_for_connections_witness :
  sy_stop (chosen drained) = Waiting ∧
  Forall (λ c, counted c = false) (sy_conns (chosen drained)) ∧
  sy_results (chosen (drained ++ [KReturn])) =
    sy_results (chosen drained) ++ [(exec StopBackend (backend (sy_server (chosen drained)))).1].
Proof.
  split; [by vm_compute|].
  apply (stop_waits_for_connections new_system (chosen drained) (chosen (drained ++ [KReturn]))).
  - apply new_fresh.
  - apply (chosen_run drained). by vm_compute.
  - apply (chosen_step KReturn). by vm_compute.
  - by vm_compute.
  - by vm_compute.
Defined.

Lemma stop_closes_idle_connections_witness :
  sy_conns (chosen idle_stopped) !! 0%nat = Some (mk_conn Idle true) ∧ true = true.
Proof.
  split; [by vm_compute|].
  apply (stop_closes_idle_connections new_system (chosen to_idle) (chosen (to_idle ++ [KStop])) (chosen idle_stopped) 0).
  - apply new_fresh.
  - apply (chosen_run to_idle). by vm_compute.
  - intros [|[|j]] c; by vm_compute.
  - by vm_compute.
  - apply (chosen_step KStop). by vm_compute.
  - by vm_compute.
  - apply (schedule_stop [KSwap; KClose 0; KWait]); by vm_compute.
  - by vm_compute.
  - by vm_compute.
Defined.

Lemma stopped_once_witness :
  stop_begin (sy_server (chosen to_idle)) = Stopping (sy_server (chosen (to_idle ++ [KStop]))) ∧
  stop_begin (sy_server (chosen (to_idle ++ [KStop]))) = NotRunning (OtherError "server is not running") ∧
  ∀ l, stop_begin (serve_begin l (sy_server (chosen (to_idle ++ [KStop])))) = ClosesTwice.
Proof. split; [by vm_compute|]. apply (stopped_once (sy_server (chosen to_idle))). by vm_compute. Defined.

Lemma Start_cannot_be_stopped_witness :
  started new_server = false ∧
  stop_begin (Start (mk_os true None (Ok 3%nat) None) new_server).2 = NotRunning (OtherError "server is not running").
Proof. split; [done|]. by apply (Start_cannot_be_stopped (mk_os true None (Ok 3%nat) None) new_server). Defined.

Lemma SetupBomberman_tracks_containers_witness :
  exec (Containers None) (backend new_server) = (Ok ["a"; "b"], backend new_server) ∧
  ∃ bm, SetupBomberman new_server = (None, set_bomberman (Some bm) (set_backend (backend new_server) new_server)) ∧
    ∀ h, Bomberman.abs bm !! h =
      (λ c, strapped 0 (GraceTime (backend new_server) c) c) <$> find (λ c, bool_decide (Handle c = h)) ["a"; "b"].
Proof.
  split; [by vm_compute|]. apply (SetupBomberman_tracks_containers new_server ["a"; "b"] (backend new_server)).
  - by vm_compute.
  - apply (bool_decide_unpack _). by vm_compute.
  - by vm_compute.
Defined.

End runs.
End Lifecycle.
