(* ===== verification/ServerStream.v ===== *)
(** * The input of a process (server/request_handling.go)

    The goroutine that [handleRun] and [handleAttach] start: it reads the
    messages of the hijacked connection and applies them to the process. *)
From S2P Require Import Prelude Types Utf8 Json GoJson Codec.

Module ServerStream.
Import Utf8 Json GoJson Codec.

(** What the goroutine does: calls of the process, which report errors that are
    only logged, and operations on the write end of the pipe and on the channel
    [connCloseCh]. *)
Inductive action :=
| SetTTY (tty : TTYSpec)
| Signal (signal : Z)
| WriteIn (data : bytes)
| CloseIn
| CloseConnCh
| CloseInWithError.

(** One message: what is done with it, and whether the loop goes on; [accepts]
    says whether the pipe takes the data (its reader may be closed). *)
Definition on_payload (accepts : bool) (payload : ProcessPayload) : list action * bool :=
  match pp_TTY payload, pp_Source payload, pp_Signal payload with
  | Some tty, _, _ => ([SetTTY tty], true)
  | None, Some _, _ =>
      match pp_Data payload with
      | None => ([CloseIn], false)
      | Some data => ([WriteIn (to_bytes data)], accepts)
      end
  | None, None, Some sig =>
      if (sig =? SignalKill)%Z || (sig =? SignalTerminate)%Z then ([Signal sig], true)
      else ([CloseIn], false)
  | None, None, None => ([CloseIn], false)
  end.

(** The loop over what the connection carries; [pipe] answers the successive
    messages.  [None] is running out of fuel. *)
Fixpoint streamInput (fuel : nat) (pipe : list bool) (b : bytes) : option (list action) :=
  match fuel with
  | O => None
  | S fuel =>
      match Decode ProcessPayload_codec b (c_zero ProcessPayload_codec) with
      | (_, Some _, _) => Some [CloseConnCh; CloseInWithError]
      | (payload, None, rest) =>
          let (done, continues) := on_payload (default true (head pipe)) payload in
          if continues : bool then app done <$> streamInput fuel (tail pipe) rest else Some done
      end
  end.

(** ** The loop ends with the connection: each message takes at least a byte *)
Lemma scan_rest l m stk v rest : scan l m stk = Done v rest → (length rest ≤ length l)%nat.
Proof.
  revert m stk. induction l as [|c l IH]; intros m stk; cbn [scan length].
  - unfold at_eof. repeat case_match; intros [= _ <-] || done; cbn; lia.
  - destruct (step c m stk) as [m' stk'|v'|]; [intros H%IH; lia|intros [= _ <-]; lia|done].
Qed.

Lemma decode_shorter b v rest : decode b = Done v rest → (length rest < length b)%nat.
Proof.
  unfold decode. destruct b as [|c l]; [done|]. cbn [scan length].
  destruct (step c MValue []) as [m' stk'|v'|]; [intros H%scan_rest; lia|intros [= _ <-]; lia|done].
Qed.

Lemma Decode_shorter {A} (c : codec A) b v a rest :
  Decode c b v = (a, None, rest) → (length rest < length b)%nat.
Proof.
  unfold Decode. destruct (decode b) as [j r| | |] eqn:Hd; try done.
  intros [= _ _ <-]. by eapply decode_shorter.
Qed.

Lemma streamInput_total (pipe : list bool) (b : bytes) :
  ∃ acts, ∀ fuel, (length b < fuel)%nat → streamInput fuel pipe b = Some acts.
Proof.
  revert pipe. induction b as [b IH] using (induction_ltof1 _ (@length _)). intros pipe.
  destruct (Decode ProcessPayload_codec b (c_zero ProcessPayload_codec)) as [[payload [e|]] rest] eqn:Hd.
  { exists [CloseConnCh; CloseInWithError]. intros [|fuel] Hf; [lia|]. cbn [streamInput]. by rewrite Hd. }
  destruct (on_payload (default true (head pipe)) payload) as [ds []] eqn:Hp.
  - apply Decode_shorter in Hd as Hlt. destruct (IH rest Hlt (tail pipe)) as (acts & Hacts).
    exists (ds ++ acts). intros [|fuel] Hf; [lia|]. cbn [streamInput]. rewrite Hd, Hp, Hacts; [done|lia].
  - exists ds. intros [|fuel] Hf; [lia|]. cbn [streamInput]. by rewrite Hd, Hp.
Qed.

(** The result of the loop. *)
Definition input (pipe : list bool) (b : bytes) : list action :=
  default [] (streamInput (S (length b)) pipe b).

Lemma input_eq pipe b :
  input pipe b =
  match Decode ProcessPayload_codec b (c_zero ProcessPayload_codec) with
  | (_, Some _, _) => [CloseConnCh; CloseInWithError]
  | (payload, None, rest) =>
      let (done, continues) := on_payload (default true (head pipe)) payload in
      if continues : bool then done ++ input (tail pipe) rest else done
  end.
Proof.
  unfold input at 1. cbn [streamInput].
  destruct (Decode ProcessPayload_codec b (c_zero ProcessPayload_codec)) as [[payload [e|]] rest] eqn:Hd; [done|].
  destruct (on_payload _ payload) as [ds []]; [|done]. apply Decode_shorter in Hd.
  destruct (streamInput_total (tail pipe) rest) as (acts & Ha).
  unfold input. rewrite !Ha by lia. done.
Qed.
(** The input loop of a process ends for every connection that ends: with as
    much fuel as the connection carries bytes, and one more, it has a result,
    whatever the bytes are and whatever the pipe answers. *)
Lemma streamInput_terminates (pipe : list bool) (b : bytes) (k : nat) :
  streamInput (S (length b + k)) pipe b = Some (input pipe b).
Proof.
  unfold input. destruct (streamInput_total pipe b) as (acts & Ha). by rewrite !Ha by lia.
Qed.
End ServerStream.
