(* ===== verification/ProcessStream.v ===== *)
(** * A process as the client sees it (client/connection)

    process.go, process_stream.go and stream_handler.go: the messages a client
    sends for a process, the goroutines that copy its streams, and the wait for
    its exit.  The server's end of the same connection is [ServerStream.v]. *)
From S2P Require Import Prelude Types Utf8 Json GoJson Errors Codec ServerStream.

Module ProcessStream.
Import Utf8 Json GoJson Errors Codec.

Section client.
Context `{JsonText}.

(** ** process.go *)
Record process := mk_process {
  p_id : string;
  p_done : bool;
  p_exitStatus : Z;
  p_exitErr : option error;
}.

Definition newProcess (id : string) : process := mk_process id false 0 None.

(** [Wait] returns once the process is done; [None] is waiting. *)
Definition Wait (p : process) : option (Z * option error) :=
  if p_done p then Some (p_exitStatus p, p_exitErr p) else None.

Definition exited (exitStatus : Z) (err : option error) (p : process) : process :=
  mk_process (p_id p) true exitStatus err.

(** ** process_stream.go *)

(** The stream and what its connection has carried to the server. *)
Record processStream := mk_processStream {
  ps_processID : string;
  ps_sent : bytes;
}.

(** How a write to the connection ends: it fails after some bytes, or not. *)
Definition write_result := option (nat * error).

Definition sendPayload (w : write_result) (payload : ProcessPayload) (s : processStream)
  : option error * processStream :=
  match Encode ProcessPayload_codec payload with
  | Err e => (Some (JsonError e), s)
  | Ok b =>
      match w with
      | Some (n, e) => (Some e, mk_processStream (ps_processID s) (ps_sent s ++ take n b))
      | None => (None, mk_processStream (ps_processID s) (ps_sent s ++ b))
      end
  end.

(** The calls of a client. *)
Inductive input_op :=
| Write (data : bytes)
| Close
| SetTTY (spec : TTYSpec)
| Signal (signal : Z).

Definition payload_of (pid : string) (op : input_op) : ProcessPayload :=
  match op with
  | Write data => mk_ProcessPayload pid "" (Some Stdin) (Some (of_bytes data)) None None None None
  | Close => mk_ProcessPayload pid "" (Some Stdin) None None None None None
  | SetTTY spec => mk_ProcessPayload pid "" None None None None (Some spec) None
  | Signal signal => mk_ProcessPayload pid "" None None None None None (Some signal)
  end.

Definition input_call (w : write_result) (op : input_op) (s : processStream) : option error * processStream :=
  sendPayload w (payload_of (ps_processID s) op) s.

(** A sequence of calls on a connection that works. *)
Fixpoint calls (ops : list input_op) (s : processStream) : list (option error) * processStream :=
  match ops with
  | [] => ([], s)
  | op :: ops' =>
      let (e, s') := input_call None op s in
      let (es, s'') := calls ops' s' in
      (e :: es, s'')
  end.

(** ** stream_handler.go: streamIn *)

(** [io.Copy] from a reader that yields these chunks and then ends or fails:
    one [Write] per chunk, until one fails. *)
Fixpoint copy_in (ws : list write_result) (chunks : list bytes) (rerr : option error) (s : processStream)
  : option error * processStream :=
  match chunks with
  | [] => (rerr, s)
  | d :: chunks' =>
      match input_call (default None (head ws)) (Write d) s with
      | (Some e, s') => (Some e, s')
      | (None, s') => copy_in (tail ws) chunks' rerr s'
      end
  end.

(** The goroutine; a nil reader starts none.  The stream is closed only after a
    copy without error. *)
Definition streamIn (ws : list write_result) (stdin : option (list bytes * option error)) (s : processStream)
  : processStream :=
  match stdin with
  | None => s
  | Some (chunks, rerr) =>
      match copy_in ws chunks rerr s with
      | (None, s') => (input_call (default None (head (drop (length chunks) ws))) Close s').2
      | (Some _, s') => s'
      end
  end.

(** ** stream_handler.go: wait *)
Fixpoint wait (fuel : nat) (b : bytes) : option (Z * option error) :=
  match fuel with
  | O => None
  | S fuel =>
      match Decode ProcessPayload_codec b (c_zero ProcessPayload_codec) with
      | (_, Some e, _) => Some (0%Z, Some (OtherError ("connection: decode failed: " +:+ json_text e)))
      | (payload, None, rest) =>
          match pp_Error payload, pp_ExitStatus payload with
          | Some e, _ => Some (0%Z, Some (OtherError ("connection: process error: " +:+ e)))
          | None, Some status => Some (status, None)
          | None, None => wait fuel rest
          end
      end
  end.

Lemma wait_total b :
  ∃ r, ∀ fuel, (length b < fuel)%nat → wait fuel b = Some r.
Proof.
  induction b as [b IH] using (induction_ltof1 _ (@length _)).
  destruct (Decode ProcessPayload_codec b (c_zero ProcessPayload_codec)) as [[payload [e|]] rest] eqn:Hd.
  { eexists. intros [|fuel] Hf; [lia|]. cbn [wait]. by rewrite Hd. }
  destruct (pp_Error payload) as [e|] eqn:He.
  { eexists. intros [|fuel] Hf; [lia|]. cbn [wait]. by rewrite Hd, He. }
  destruct (pp_ExitStatus payload) as [st|] eqn:Hs.
  { eexists. intros [|fuel] Hf; [lia|]. cbn [wait]. by rewrite Hd, He, Hs. }
  apply ServerStream.Decode_shorter in Hd as Hlt. destruct (IH rest Hlt) as (r & Hr).
  exists r. intros [|fuel] Hf; [lia|]. cbn [wait]. rewrite Hd, He, Hs, Hr; [done|lia].
Qed.

(** The result of the wait on a connection that carries these bytes. *)
Definition waited (b : bytes) : Z * option error := default (0%Z, None) (wait (S (length b)) b).

Lemma waited_eq b :
  waited b =
  match Decode ProcessPayload_codec b (c_zero ProcessPayload_codec) with
  | (_, Some e, _) => (0%Z, Some (OtherError ("connection: decode failed: " +:+ json_text e)))
  | (payload, None, rest) =>
      match pp_Error payload, pp_ExitStatus payload with
      | Some e, _ => (0%Z, Some (OtherError ("connection: process error: " +:+ e)))
      | None, Some status => (status, None)
      | None, None => waited rest
      end
  end.
Proof.
  unfold waited at 1. cbn [wait].
  destruct (Decode ProcessPayload_codec b (c_zero ProcessPayload_codec)) as [[payload [e|]] rest] eqn:Hd; [done|].
  destruct (pp_Error payload); [done|]. destruct (pp_ExitStatus payload); [done|].
  apply ServerStream.Decode_shorter in Hd. destruct (wait_total rest) as (r & Hr).
  unfold waited. by rewrite !Hr by lia.
Qed.
End client.

(** ** Input round trip *)

(** The bytes of a call. *)
Definition encoded (pid : string) (op : input_op) : bytes :=
  match Encode ProcessPayload_codec (payload_of pid op) with Ok b => b | Err _ => [] end.

(** What a call asks of the process. *)
Definition asked (op : input_op) : ServerStream.action :=
  match op with
  | Write data => ServerStream.WriteIn data
  | Close => ServerStream.CloseIn
  | SetTTY spec => ServerStream.SetTTY spec
  | Signal signal => ServerStream.Signal signal
  end.

(** Calls other than [Close] that the wire protocol can carry: data that is valid
    UTF-8, a terminal spec in range, and one of the two signals. *)
Definition carried (op : input_op) : bool :=
  match op with
  | Write data => valid_string (of_bytes data)
  | Close => false
  | SetTTY spec => c_wf (ptr_codec TTYSpec_codec) (Some spec)
  | Signal signal => (signal =? SignalKill)%Z || (signal =? SignalTerminate)%Z
  end.

Lemma calls_sent ops s :
  ps_sent (calls ops s).2 = ps_sent s ++ (ops ≫= encoded (ps_processID s)).
Proof.
  revert s. induction ops as [|op ops IH]; intros s; cbn; [by rewrite app_nil_r|].
  unfold input_call, sendPayload, encoded.
  destruct (Encode ProcessPayload_codec (payload_of (ps_processID s) op)) as [b|e].
  - specialize (IH (mk_processStream (ps_processID s) (ps_sent s ++ b))).
    destruct (calls ops _) as [es s'']. cbn in *. by rewrite IH, <-app_assoc.
  - specialize (IH s). destruct (calls ops s) as [es s'']. apply IH.
Qed.

Lemma input_ext pipe b b' : decode b = decode b' → ServerStream.input pipe b = ServerStream.input pipe b'.
Proof. intros Hd. by rewrite (ServerStream.input_eq _ b), (ServerStream.input_eq _ b'), (Decode_ext _ b b'). Qed.

Lemma signal_ok (s : Z) :
  (s =? SignalKill)%Z || (s =? SignalTerminate)%Z = true → c_wf (ptr_codec (int64_codec "garden.Signal")) (Some s) = true.
Proof. intros [->%Z.eqb_eq| ->%Z.eqb_eq]%orb_prop; by vm_compute. Qed.

Lemma string_field pid :
  valid_string pid = true →
  (if true && c_empty string_codec pid then c_is_zero string_codec pid else c_wf string_codec pid) = true.
Proof. intros Hp. cbn. by destruct (bool_decide (pid = "")). Qed.

Abbreviation field_wf c v :=
  (if true && c_empty c v then c_is_zero c v else c_wf c v).

Lemma ptr_field {A} (c : codec A) v : field_wf (ptr_codec c) (Some v) = c_wf (ptr_codec c) (Some v).
Proof. done. Qed.

Lemma nil_field {A} (c : codec A) : field_wf (ptr_codec c) None = true.
Proof. done. Qed.

Lemma payload_fields pid sid source data status err tty sig :
  valid_string pid = true → valid_string sid = true →
  c_wf ProcessPayload_codec (mk_ProcessPayload pid sid source data status err tty sig) =
  field_wf (ptr_codec (int64_codec "transport.Source")) source && field_wf (ptr_codec string_codec) data &&
  field_wf (ptr_codec (int64_codec "int")) status && field_wf (ptr_codec string_codec) err &&
  field_wf (ptr_codec TTYSpec_codec) tty && field_wf (ptr_codec (int64_codec "garden.Signal")) sig.
Proof.
  intros Hp Hs. unfold ProcessPayload_codec, struct_codec. cbn [c_wf wf_fields fst snd].
  by rewrite !string_field, !andb_true_r, !andb_assoc by done.
Qed.

Lemma payload_wf pid op :
  valid_string pid = true → carried op = true ∨ op = Close →
  c_wf ProcessPayload_codec (payload_of pid op) = true.
Proof.
  intros Hp Hop. destruct op as [d| |tty|sig]; unfold payload_of; rewrite payload_fields, !nil_field, ?ptr_field by done.
  - destruct Hop as [Hop|Hop]; [|done]. cbn in *. by rewrite Hop.
  - done.
  - destruct Hop as [Hop|Hop]; [|done]. cbn [carried] in Hop. by rewrite Hop.
  - destruct Hop as [Hop|Hop]; [|done]. by rewrite signal_ok.
Qed.

(** One message, whatever follows it. *)
Lemma input_one pid op t :
  valid_string pid = true → carried op = true →
  ServerStream.input [] (encoded pid op ++ t) = asked op :: ServerStream.input [] t.
Proof.
  intros Hp Hop.
  destruct (Decode_Encode ProcessPayload_codec (payload_of pid op) t ProcessPayload_ok) as (b & rest & He & Hd & Hr);
    [by apply payload_wf; [|left]|].
  unfold encoded. rewrite He, ServerStream.input_eq, Hd. rewrite <- (input_ext [] rest t Hr).
  destruct op as [d| |tty|sig]; cbn [payload_of carried] in *; [|done|done|].
  - cbn. by rewrite to_of_bytes.
  - cbn. by rewrite Hop.
Qed.

Lemma input_close pid t :
  valid_string pid = true → ServerStream.input [] (encoded pid Close ++ t) = [ServerStream.CloseIn].
Proof.
  intros Hp. destruct (Decode_Encode ProcessPayload_codec (payload_of pid Close) t ProcessPayload_ok)
    as (b & rest & He & Hd & _); [by apply payload_wf; [|right]|].
  unfold encoded. by rewrite He, ServerStream.input_eq, Hd.
Qed.

Lemma input_ops pid ops t :
  valid_string pid = true → forallb carried ops = true →
  ServerStream.input [] ((ops ≫= encoded pid) ++ t) = (asked <$> ops) ++ ServerStream.input [] t.
Proof.
  intros Hp. induction ops as [|op ops IH]; [done|]. cbn [forallb mbind list_bind fmap list_fmap app].
  intros [Hop Hops]%andb_prop. rewrite <- app_assoc, input_one by done. f_equal. by apply IH.
Qed.

Lemma calls_errors ops s :
  valid_string (ps_processID s) = true → Forall (λ op, carried op = true ∨ op = Close) ops →
  (calls ops s).1 = replicate (length ops) None.
Proof.
  intros Hp Hops. revert s Hp. induction Hops as [|op ops Hop _ IH]; intros s Hp; [done|]. cbn [calls length replicate].
  unfold input_call, sendPayload.
  destruct (Decode_Encode ProcessPayload_codec (payload_of (ps_processID s) op) [] ProcessPayload_ok)
    as (b & rest & -> & _); [by apply payload_wf|].
  specialize (IH (mk_processStream (ps_processID s) (ps_sent s ++ b)) Hp).
  destruct (calls ops _) as [es s'']. cbn in *. by rewrite IH.
Qed.

Lemma carried_each ops : forallb carried ops = true → Forall (λ op, carried op = true ∨ op = Close) ops.
Proof. rewrite forallb_forall. intros Hc. apply Forall_forall. intros op Ho%list_elem_of_In. left. by apply Hc. Qed.


(** C37 After the standard input has been closed the server reads nothing more
    from the connection: whatever signals and terminal changes the client sends
    from then on, each reported as sent, never reach the process. *)
Theorem calls_after_close_are_lost (pid : string) (ops later : list input_op)
    (Hpid : valid_string pid = true) (Hops : forallb carried (ops ++ later) = true) :
  (calls (ops ++ Close :: later) (mk_processStream pid [])).1 = replicate (length (ops ++ Close :: later)) None ∧
  ServerStream.input [] (ps_sent (calls (ops ++ Close :: later) (mk_processStream pid [])).2)
  = (asked <$> ops) ++ [ServerStream.CloseIn].
Proof.
  rewrite forallb_app in Hops. apply andb_prop in Hops as [Ho Hl]. split.
  - apply calls_errors; [done|]. apply Forall_app. split; [by apply carried_each|].
    constructor; [by right|by apply carried_each].
  - rewrite calls_sent. cbn [ps_sent ps_processID app]. rewrite bind_app, input_ops by done. f_equal.
    cbn [mbind list_bind]. by apply input_close.
Qed.


Lemma calls_after_close_are_lost_witness :
  (calls [Close; Signal SignalKill] (mk_processStream "42" [])).1 = [None; None] ∧
  ServerStream.input [] (ps_sent (calls [Close; Signal SignalKill] (mk_processStream "42" [])).2)
  = [ServerStream.CloseIn].
Proof. apply (calls_after_close_are_lost "42" [] [Signal SignalKill]); by vm_compute. Defined.

(** Text is not safe either: an [e] with an acute accent (C3 A9), which the
    reader of the standard input happens to yield in two parts, reaches the
    process as two replacement characters (EF BF BD each); in one part it
    arrives as it is. *)
Lemma split_character_is_corrupted :
  let sent chunks := ps_sent (streamIn [] (Some (chunks, None)) (mk_processStream "42" [])) in
  ServerStream.input [] (sent [[chr 195; chr 169]])
    = [ServerStream.WriteIn [chr 195; chr 169]; ServerStream.CloseIn] ∧
  ServerStream.input [] (sent [[chr 195]; [chr 169]])
    = [ServerStream.WriteIn [chr 239; chr 191; chr 189]; ServerStream.WriteIn [chr 239; chr 191; chr 189];
       ServerStream.CloseIn].
Proof. by vm_compute. Qed.
(** ** stream_handler.go: the output streams *)

(** A goroutine of [streamWithMutex]: what its reader has yielded and is not
    written yet, whether more may come, what it has written, whether it still
    runs, and whether its copy failed. *)
Record copier := mk_copier {
  cp_in : list bytes;
  cp_more : bool;
  cp_out : list bytes;
  cp_running : bool;
  cp_failed : bool;
}.

(** The handler of a process: its wait group and its goroutines, what the loop
    of [wait] has read, and the process. *)
Record streamHandler := mk_streamHandler {
  sh_wg : Z;
  sh_copiers : list copier;
  sh_read : option (Z * option error);
  sh_process : process;
}.

Definition newStreamHandler (p : process) : streamHandler := mk_streamHandler 0 [] None p.

(** [streamOut] and [streamErr]; a nil writer or reader starts nothing.  A reader
    is what it yields at once, and whether it may yield more. *)
Definition streamWithMutex (hasWriter : bool) (streamReader : option (list bytes * bool)) (sh : streamHandler) : streamHandler :=
  match hasWriter, streamReader with
  | true, Some (chunks, more) =>
      mk_streamHandler (sh_wg sh + 1) (sh_copiers sh ++ [mk_copier chunks more [] true false]) (sh_read sh) (sh_process sh)
  | _, _ => sh
  end.

Definition set_copier (i : nat) (c : copier) (sh : streamHandler) : streamHandler :=
  mk_streamHandler (sh_wg sh) (<[i := c]> (sh_copiers sh)) (sh_read sh) (sh_process sh).
Definition wg_done (sh : streamHandler) : streamHandler :=
  mk_streamHandler (sh_wg sh - 1) (sh_copiers sh) (sh_read sh) (sh_process sh).

Inductive handler_step `{JsonText} (b : bytes) : streamHandler → streamHandler → Prop :=
(** a goroutine writes a chunk *)
| copy_chunk sh i d left more out :
    sh_copiers sh !! i = Some (mk_copier (d :: left) more out true false) →
    handler_step b sh (set_copier i (mk_copier left more (out ++ [d]) true false) sh)
(** a copy ends: at the end of its reader, or by an error *)
| copy_end sh i out :
    sh_copiers sh !! i = Some (mk_copier [] false out true false) →
    handler_step b sh (wg_done (set_copier i (mk_copier [] false out false false) sh))
| copy_fail sh i left more out :
    sh_copiers sh !! i = Some (mk_copier left more out true false) →
    handler_step b sh (wg_done (set_copier i (mk_copier left more out false true) sh))
(** the loop of [wait] has read the end of the connection's messages *)
| wait_read sh :
    sh_read sh = None →
    handler_step b sh (mk_streamHandler (sh_wg sh) (sh_copiers sh) (Some (waited b)) (sh_process sh))
(** [sh.wg.Wait()] returns and the process has exited *)
| wait_returns sh status err :
    sh_read sh = Some (status, err) → sh_wg sh = 0%Z → p_done (sh_process sh) = false →
    handler_step b sh
      (mk_streamHandler (sh_wg sh) (sh_copiers sh) (sh_read sh) (exited status err (sh_process sh))).

(** The reader of a goroutine: it yields a chunk, or ends. *)
Definition yields (d : bytes) (c : copier) : copier :=
  mk_copier (cp_in c ++ [d]) (cp_more c) (cp_out c) (cp_running c) (cp_failed c).
Definition ends (c : copier) : copier :=
  mk_copier (cp_in c) false (cp_out c) (cp_running c) (cp_failed c).

(** The goroutines that run. *)
Definition running (l : list copier) : nat := length (filter (λ c, cp_running c = true) l).

Lemma running_pos l i c : l !! i = Some c → cp_running c = true → (0 < running l)%nat.
Proof.
  intros Hi Hc. unfold running. destruct (filter (λ c, cp_running c = true) l) eqn:E; [|cbn; lia].
  assert (c ∈ filter (λ c, cp_running c = true) l) as Hin
    by (apply list_elem_of_filter; split; [done|by eapply list_elem_of_lookup_2]).
  rewrite E in Hin. by apply elem_of_nil in Hin.
Qed.

Lemma running_none l : forallb (λ c, negb (cp_running c)) l = true → running l = 0%nat.
Proof.
  induction l as [|c l IH]; [done|]. cbn [forallb]. intros [Hc Hl]%andb_prop. unfold running in *.
  rewrite filter_cons_False; [by apply IH|]. by destruct (cp_running c).
Qed.

Lemma running_insert l i c c' :
  l !! i = Some c → cp_running c = true →
  running (<[i := c']> l) = if cp_running c' then running l else (running l - 1)%nat.
Proof.
  unfold running. revert i. induction l as [|x l IH]; intros [|i] Hi Hc; try done.
  - injection Hi as ->. cbn [insert list_insert]. rewrite !filter_cons.
    destruct (cp_running c') eqn:E; repeat case_decide; try congruence; cbn [length]; lia.
  - change (<[S i := c']> (x :: l)) with (x :: <[i := c']> l). rewrite !filter_cons.
    pose proof (running_pos l i c Hi Hc) as Hpos. unfold running in Hpos.
    specialize (IH i Hi Hc). destruct (decide (cp_running x = true)); cbn [length]; rewrite IH;
      destruct (cp_running c'); lia.
Qed.
(** What the reader of a goroutine has yielded so far. *)
Definition yielded (c : copier) : list bytes := cp_out c ++ cp_in c.

Definition readers (l : list copier) : list (list bytes * bool) := (λ c, (yielded c, cp_more c)) <$> l.

(** A goroutine runs, or has come to the end of its reader, or has failed. *)
Definition copier_ok (c : copier) : Prop :=
  cp_running c = true ∧ cp_failed c = false ∨
  cp_running c = false ∧ (cp_failed c = true ∨ cp_in c = [] ∧ cp_more c = false).

(** The copies of a handler, and how its wait depends on them. *)
Record copying `{JsonText} (b : bytes) (sh : streamHandler) : Prop := {
  copy_state c : c ∈ sh_copiers sh → copier_ok c;
  copy_wg : sh_wg sh = Z.of_nat (running (sh_copiers sh));
  copy_read r : sh_read sh = Some r → r = waited b;
  copy_exit r : Wait (sh_process sh) = Some r → r = waited b ∧ running (sh_copiers sh) = 0%nat;
}.

Lemma copying_insert `{JsonText} b sh i c c' (wg' : Z) :
  copying b sh → sh_copiers sh !! i = Some c → cp_running c = true → copier_ok c' →
  wg' = (if cp_running c' then sh_wg sh else sh_wg sh - 1)%Z →
  copying b (mk_streamHandler wg' (<[i := c']> (sh_copiers sh)) (sh_read sh) (sh_process sh)).
Proof.
  intros [Hs Hw Hr He] Hi Hrun Hst ->. split; cbn [sh_copiers sh_wg sh_read sh_process].
  - intros x [j Hj]%list_elem_of_lookup. destruct (decide (i = j)) as [<-|Hne].
    + rewrite list_lookup_insert_eq in Hj by (by eapply lookup_lt_Some). by simplify_eq.
    + rewrite list_lookup_insert_ne in Hj by done. by eapply Hs, list_elem_of_lookup_2.
  - pose proof (running_insert _ _ _ c' Hi Hrun) as Hri. pose proof (running_pos _ _ _ Hi Hrun).
    rewrite Hri, Hw. destruct (cp_running c'); lia.
  - done.
  - intros r Hwait. destruct (He r Hwait) as [_ Hz]. pose proof (running_pos _ _ _ Hi Hrun). lia.
Qed.

Lemma running_replace l i c c' :
  l !! i = Some c → cp_running c' = cp_running c → running (<[i := c']> l) = running l.
Proof.
  unfold running. revert i. induction l as [|x l IH]; intros [|i] Hi Hc; try done.
  - injection Hi as ->. cbn [insert list_insert]. rewrite !filter_cons. by rewrite Hc; case_decide.
  - change (<[S i := c']> (x :: l)) with (x :: <[i := c']> l). rewrite !filter_cons. by case_decide; cbn [length]; rewrite (IH i).
Qed.

Lemma copying_replace `{JsonText} b sh i c c' :
  copying b sh → sh_copiers sh !! i = Some c → cp_running c' = cp_running c → copier_ok c' →
  copying b (set_copier i c' sh).
Proof.
  intros [Hs Hw Hr He] Hi Hrun Hok. split; cbn [set_copier sh_copiers sh_wg sh_read sh_process];
    rewrite ?(running_replace _ _ _ _ Hi Hrun); try done.
  intros x [j Hj]%list_elem_of_lookup. destruct (decide (i = j)) as [<-|Hne].
  - rewrite list_lookup_insert_eq in Hj by (by eapply lookup_lt_Some). by simplify_eq.
  - rewrite list_lookup_insert_ne in Hj by done. by eapply Hs, list_elem_of_lookup_2.
Qed.

Lemma copying_step `{JsonText} b sh sh' : copying b sh → handler_step b sh sh' → copying b sh'.
Proof.
  intros Hc Hs. destruct Hs as [sh i d left more out Hi|sh i out Hi|sh i left more out Hi|sh Hn|sh status err Hr Hw Hd].
  - eapply copying_insert; [done..|by left|done].
  - unfold wg_done, set_copier. cbn [sh_wg sh_copiers sh_read sh_process].
    eapply copying_insert; [done..| |done]. right. split; [done|by right].
  - unfold wg_done, set_copier. cbn [sh_wg sh_copiers sh_read sh_process].
    eapply copying_insert; [done..| |done]. right. split; [done|by left].
  - destruct Hc as [Hst Hw Hr He]. split; cbn [sh_copiers sh_wg sh_read sh_process]; try done. by intros r [= <-].
  - destruct Hc as [Hst Hwg Hrd He]. split; cbn [sh_copiers sh_wg sh_read sh_process]; try done.
    intros r [= <-]. split; [by apply Hrd|lia].
Qed.

(** The steps of the handler do not change what its readers yield. *)
Lemma readers_insert l i c c' :
  l !! i = Some c → yielded c' = yielded c → cp_more c' = cp_more c → readers (<[i := c']> l) = readers l.
Proof.
  intros Hi Hy Hm. unfold readers. rewrite list_fmap_insert, Hy, Hm. apply list_insert_id. by rewrite list_lookup_fmap, Hi.
Qed.

Lemma handler_step_readers `{JsonText} b sh sh' :
  handler_step b sh sh' → readers (sh_copiers sh') = readers (sh_copiers sh).
Proof.
  intros Hs. destruct Hs as [sh i d left more out Hi|sh i out Hi|sh i left more out Hi|sh Hn|sh status err Hr Hw Hd];
    cbn [set_copier wg_done sh_copiers]; try done; eapply readers_insert; try done.
  unfold yielded. cbn. by rewrite <- app_assoc.
Qed.

Definition start_streams (streams : list (list bytes * bool)) (p : process) : streamHandler :=
  foldl (λ sh s, streamWithMutex true (Some s) sh) (newStreamHandler p) streams.

Lemma start_streams_snoc streams chunks more p :
  start_streams (streams ++ [(chunks, more)]) p =
  mk_streamHandler (sh_wg (start_streams streams p) + 1)
    (sh_copiers (start_streams streams p) ++ [mk_copier chunks more [] true false])
    (sh_read (start_streams streams p)) (sh_process (start_streams streams p)).
Proof. unfold start_streams. by rewrite foldl_app. Qed.

Lemma start_streams_eq streams p :
  start_streams streams p =
  mk_streamHandler (Z.of_nat (length streams)) ((λ s, mk_copier s.1 s.2 [] true false) <$> streams) None p.
Proof.
  induction streams as [|[chunks more] streams IH] using rev_ind; [done|].
  rewrite start_streams_snoc, IH, fmap_app, length_app. cbn. f_equal. lia.
Qed.

Lemma start_copying `{JsonText} streams b p : p_done p = false → copying b (start_streams streams p).
Proof.
  intros Hp. rewrite start_streams_eq. split; cbn [sh_copiers sh_wg sh_read sh_process]; [| |done|].
  - intros c (s & -> & _)%list_elem_of_fmap. by left.
  - f_equal. unfold running. induction streams as [|s streams IH]; [done|].
    rewrite fmap_cons, filter_cons_True by done. cbn [length]. by rewrite IH.
  - unfold Wait. by rewrite Hp.
Qed.

(** A goroutine whose reader has ended copies what it has yielded, and ends. *)
Lemma copy_finishes `{JsonText} b i left : ∀ out sh,
  sh_copiers sh !! i = Some (mk_copier left false out true false) →
  ∃ sh', rtc (handler_step b) sh sh' ∧
    sh_copiers sh' = <[i := mk_copier [] false (out ++ left) false false]> (sh_copiers sh).
Proof.
  induction left as [|d left IH]; intros out sh Hi.
  - eexists. split; [by apply rtc_once, copy_end|]. by rewrite app_nil_r.
  - destruct (IH (out ++ [d]) (set_copier i (mk_copier left false (out ++ [d]) true false) sh)) as (sh' & Hr & Hc).
    { cbn. rewrite list_lookup_insert_eq; [done|]. by eapply lookup_lt_Some. }
    exists sh'. split; [by eapply rtc_l, Hr; apply copy_chunk|]. rewrite Hc. cbn. rewrite list_insert_insert_eq.
    by rewrite <- app_assoc.
Qed.

(** Once everything was read and copied, the wait returns. *)
Lemma wait_can_return `{JsonText} b sh :
  copying b sh → sh_read sh ≠ None → forallb (λ c, negb (cp_running c)) (sh_copiers sh) = true →
  ∃ sh', rtc (handler_step b) sh sh' ∧ sh_copiers sh' = sh_copiers sh ∧ Wait (sh_process sh') = Some (waited b).
Proof.
  intros [_ Hw Hr He] Hrd Hall. destruct (sh_read sh) as [[st err]|] eqn:Hread; [|done].
  destruct (Wait (sh_process sh)) as [r|] eqn:Hwt.
  { exists sh. split_and!; [done..|]. by destruct (He r eq_refl) as [-> _]. }
  eexists. split; [apply rtc_once, (wait_returns b sh st err Hread)|].
  - rewrite Hw. by rewrite (running_none _ Hall).
  - unfold Wait in Hwt. by destruct (p_done (sh_process sh)).
  - split; [done|]. cbn. by f_equal; apply Hr.
Qed.

(** Once the wait has returned, a copy has failed or come to its reader's end. *)
Lemma exit_copied `{JsonText} b sh r i c :
  copying b sh → Wait (sh_process sh) = Some r → sh_copiers sh !! i = Some c →
  cp_failed c = true ∨ cp_in c = [] ∧ cp_more c = false.
Proof.
  intros [Hs _ _ He] Hwt Hi. destruct (He r Hwt) as [_ Hz].
  destruct (Hs c (list_elem_of_lookup_2 _ _ _ Hi)) as [[Hrn _]|[_ ?]]; [|done].
  pose proof (running_pos _ _ _ Hi Hrn). lia.
Qed.

(** [Wait] reports what the connection says, and only once the output of the
    process has been copied: whenever it returns, after any run of the copying
    goroutines, its result is what the messages of the connection give, and
    every output stream has been written in full and in order or its copy has
    failed; and it does return once the messages have been read and the copies
    have ended. *)
Lemma output_before_exit `{JsonText} (b : bytes) (streams : list (list bytes)) (p : process) (sh : streamHandler)
    (Hnew : p_done p = false) (Hrun : rtc (handler_step b) (start_streams ((., false) <$> streams) p) sh) :
  (∀ r, Wait (sh_process sh) = Some r →
    r = waited b ∧
    ∀ i s, streams !! i = Some s → ∃ c, sh_copiers sh !! i = Some c ∧ (cp_failed c = true ∨ cp_out c = s)) ∧
  (sh_read sh ≠ None → forallb (λ c, negb (cp_running c)) (sh_copiers sh) = true →
    ∃ sh', rtc (handler_step b) sh sh' ∧ Wait (sh_process sh') = Some (waited b)).
Proof.
  assert (copying b sh ∧ readers (sh_copiers sh) = (., false) <$> streams) as [Hc Hy].
  { pose proof (start_copying ((., false) <$> streams) b p Hnew) as Hc.
    assert (readers (sh_copiers (start_streams ((., false) <$> streams) p)) = (., false) <$> streams) as Hy.
    { rewrite start_streams_eq. unfold readers. cbn. rewrite <- !list_fmap_compose. by apply list_fmap_ext. }
    induction Hrun as [|x y z Hxy Hyz IH]; [done|]. apply IH; [by eapply copying_step|].
    by rewrite (handler_step_readers _ _ _ Hxy). }
  split.
  - intros r Hwt. split; [by eapply copy_exit|]. intros i s Hi.
    assert (readers (sh_copiers sh) !! i = Some (s, false)) as (c & [= -> _] & Hci)%list_lookup_fmap_Some
      by (by rewrite Hy, list_lookup_fmap, Hi).
    exists c. split; [done|].
    destruct (exit_copied b sh r i c Hc Hwt Hci) as [?|[Hin _]]; [by left|right].
    unfold yielded. by rewrite Hin, app_nil_r.
  - intros Hrd Hall. destruct (wait_can_return b sh Hc Hrd Hall) as (sh' & ? & _ & ?). by exists sh'.
Qed.

Lemma output_before_exit_witness :
  let b := encoded "42" Close in
  let sh0 := start_streams [([to_bytes "hi"], false)] (newProcess "42") in
  let c := mk_copier [] false [to_bytes "hi"] false false in
  let sh := mk_streamHandler 0 [c] (Some (waited (H := λ _, "") b)) (newProcess "42") in
  (∀ r, Wait (sh_process sh) = Some r → r = waited (H := λ _, "") b ∧
    ∀ i s, [[to_bytes "hi"]] !! i = Some s → ∃ c, sh_copiers sh !! i = Some c ∧ (cp_failed c = true ∨ cp_out c = s)) ∧
  (sh_read sh ≠ None → forallb (λ c, negb (cp_running c)) (sh_copiers sh) = true →
    ∃ sh', rtc (handler_step (H := λ _, "") b) sh sh' ∧ Wait (sh_process sh') = Some (waited (H := λ _, "") b)).
Proof.
  intros b sh0 c sh. apply (output_before_exit (H := λ _, "") b [[to_bytes "hi"]] (newProcess "42")); [done|].
  eapply rtc_l; [by apply (copy_chunk b sh0 0)|]. eapply rtc_l; [by apply (copy_end b _ 0)|].
  eapply rtc_l; [by apply wait_read|]. apply rtc_refl.
Defined.
End ProcessStream.
