(* ===== verification/Output.v ===== *)
(** * The output of a process, from its writes to the client's writers

    Server and client joined: the streamer's goroutines write the chunks of a
    process to the responses of the client's requests, the network carries their
    bytes, and the goroutines of the client's stream handler copy what arrives to
    the writers that its user gave, while another one waits for the process. *)
From S2P Require Import Prelude Types GoJson Errors Codec Streamer ProcessStream.

Module Output.
Import GoJson Errors Codec ProcessStream.

(** ** Goroutines of the streamer that have returned *)
Definition finished (m : Streamer.Streamer) (t : nat) : Prop :=
  ∃ s, Streamer.servers m !! t = Some s ∧ Streamer.s_pc s = Streamer.Returned.

Lemma finished_set_pc m t t' p :
  finished m t → (∀ s, Streamer.servers m !! t' = Some s → Streamer.s_pc s ≠ Streamer.Returned) →
  finished (Streamer.set_pc t' p m) t.
Proof.
  intros (s & Hs & Hr) Hne. exists s. split; [|done]. cbn. rewrite list_lookup_alter_ne; [done|].
  intros ->. by eapply Hne.
Qed.

(** It stays where it is, and writes nothing. *)
Lemma finished_step e m m' o t :
  Streamer.step e m = Streamer.Next m' o → finished m t → finished m' t.
Proof.
  intros H Hf. assert (∀ s', finished (Streamer.mk_Streamer (Streamer.idGen m') (Streamer.graceTime m') (Streamer.streams m')
    (Streamer.heap m') (Streamer.chans m') (Streamer.servers m ++ s') (Streamer.deletions m') (Streamer.now m')) t) as Happ.
  { intros s'. destruct Hf as (s & Hs & Hr). exists s. split; [|done]. cbn. by apply lookup_app_l_Some. }
  destruct e as [cap|c0 d|c0|so se|id|id|t0 b|t0|t0|id|d|k]; cbn [Streamer.step] in H; Streamer.rule H;
    try (apply Happ); apply finished_set_pc; try done; intros s' Hs'; cbn in Hs'; by simplify_eq.
Qed.

Lemma finished_silent e m m' o c t :
  Streamer.step e m = Streamer.Next m' o → finished m t → Streamer.delivered c t o = [].
Proof.
  intros H (s & Hs & Hr).
  destruct e as [cap|c0 d|c0|so se|id|id|t0 b|t0|t0|id|d|k]; cbn [Streamer.step] in H; Streamer.rule H;
    cbn; rewrite decide_False; try done; intros [_ ->]; by simplify_eq.
Qed.

(** ** Finishing a stopped stream *)

(** A goroutine serves this channel, which is open, for a stream that was stopped. *)
Definition stopped (m : Streamer.Streamer) (c t : nat) : Prop :=
  Streamer.is_open m c = true ∧
  ∃ l so se p, Streamer.servers m !! t = Some (Streamer.mk_server c l p) ∧
    Streamer.heap m !! l = Some (Streamer.mk_stream so se true).

(** Receiving neither opens nor closes a channel. *)
Lemma recv_is_open m c ch d ch' c' :
  Streamer.chans m !! c = Some ch → Chan.recv ch = Some (d, ch') →
  Streamer.is_open (Streamer.set_chan c ch' m) c' = Streamer.is_open m c'.
Proof.
  intros Hc Hr. unfold Streamer.is_open. rewrite Streamer.set_chan_lookup by done.
  case_decide as He; [subst c'|done]. rewrite Hc. unfold Chan.recv in Hr. destruct (Chan.ch_buf ch); [|by simplify_eq].
  destruct (Chan.ch_closed ch) eqn:E; simplify_eq. cbn. by rewrite E.
Qed.

(** One goroutine does not disturb the others. *)
Lemma server_step_stopped e m m' o t t' c' :
  Streamer.of_server t e = true → Streamer.step e m = Streamer.Next m' o → stopped m c' t' → stopped m' c' t'.
Proof.
  intros He Hs (Ho & l & so & se & p & Hv & Hh).
  assert (∀ t0 p0 m0, Streamer.is_open m0 c' = true → Streamer.servers m0 = Streamer.servers m → Streamer.heap m0 = Streamer.heap m →
    stopped (Streamer.set_pc t0 p0 m0) c' t') as Hpc.
  { intros t0 p0 m0 Ho0 Hs0 Hh0. split; [done|]. cbn. rewrite Hs0, Hh0. exists l, so, se.
    destruct (decide (t0 = t')) as [->|Hne].
    - exists p0. rewrite list_lookup_alter_eq, Hv. done.
    - exists p. by rewrite list_lookup_alter_ne. }
  assert (∀ m0, Streamer.is_open m0 c' = true → Streamer.servers m0 = Streamer.servers m → Streamer.heap m0 = Streamer.heap m →
    stopped m0 c' t') as Hch.
  { intros m0 Ho0 Hs0 Hh0. split; [done|]. rewrite Hs0, Hh0. by exists l, so, se, p. }
  destruct e as [| | | | | |t0 b|t0|t0| | |]; try done; cbn [Streamer.step] in Hs; unfold Streamer.serve_recv, Streamer.serve_done, Streamer.drain_default in Hs.
  - destruct (Streamer.servers m !! t0) as [[c1 l1 p1]|]; [|done].
    destruct (Streamer.chans m !! c1) as [ch|] eqn:Hc1; cbn in Hs; [|by destruct p1].
    destruct (Chan.recv ch) as [[d ch']|] eqn:Hr; [|by destruct p1].
    pose proof (recv_is_open m c1 ch d ch' c' Hc1 Hr) as Ho'. rewrite Ho in Ho'.
    destruct p1, b; simplify_eq; auto.
  - repeat case_match; simplify_eq; auto.
  - repeat case_match; simplify_eq; auto.
Qed.

Lemma server_run_stopped es m m' o t t' c' :
  Forall (λ e, Streamer.of_server t e = true) es → Streamer.run es m = Streamer.Next m' o →
  stopped m c' t' → stopped m' c' t'.
Proof.
  intros Hes. revert m o. induction Hes as [|e es He Hes IH]; intros m o; [by intros [= <- <-]|].
  intros (m1 & o1 & o2 & Hst & Hr & ->)%Streamer.run_cons Hm. by eapply IH, server_step_stopped.
Qed.

Lemma finished_run es m m' o t : Streamer.run es m = Streamer.Next m' o → finished m t → finished m' t.
Proof.
  revert m o. induction es as [|e es IH]; intros m o; [by intros [= <- <-]|].
  intros (m1 & o1 & o2 & Hst & Hr & ->)%Streamer.run_cons Hm. by eapply IH, finished_step.
Qed.

Lemma stopped_finishes m c t :
  stopped m c t → ∃ es m' o, Forall (λ e, Streamer.of_server t e = true) es ∧
    Streamer.run es m = Streamer.Next m' o ∧ finished m' t.
Proof.
  intros (Ho & l & so & se & p & Hs & Hh). destruct p.
  - destruct (Streamer.serve_finishes m t c l so se Hs Hh Ho) as (es & m' & o & ? & ? & ? & _).
    exists es, m', o. split_and!; [done..|]. by eexists.
  - destruct (Streamer.drain_finishes m t c l Hs Ho) as (es & m' & o & ? & ? & ? & _).
    exists es, m', o. split_and!; [done..|]. by eexists.
  - exists [], m, []. split_and!; [done..|]. by eexists.
Qed.

(** All of the goroutines serving stopped streams can finish. *)
Lemma all_finish link m :
  Forall (λ '(c, t), stopped m c t) link →
  ∃ es m' o, Streamer.run es m = Streamer.Next m' o ∧ Forall (λ '(c, t), finished m' t) link.
Proof.
  revert m. induction link as [|[c t] link IH]; intros m Hl.
  { exists [], m, []. by split. }
  apply Forall_cons in Hl as [Hst Hl].
  destruct (stopped_finishes m c t Hst) as (es1 & m1 & o1 & Hes1 & Hr1 & Hf1).
  destruct (IH m1) as (es2 & m2 & o2 & Hr2 & Hf2).
  { eapply Forall_impl; [done|]. intros [c' t'] ?. by eapply server_run_stopped. }
  exists (es1 ++ es2), m2, (o1 ++ o2). split.
  - apply Streamer.run_app. by exists m1, o1, o2.
  - constructor; [by eapply finished_run|done].
Qed.

(** ** Server, network and client *)

(** What has happened in the streamer, its state, the bytes of each response that
    are on their way, and the client's stream handler. *)
Record world := mk_world {
  w_events : list Streamer.event;
  w_obs : list Streamer.obs;
  w_streamer : Streamer.Streamer;
  w_flight : list bytes;
  w_client : streamHandler;
}.

Section output.
(** The messages of the process's connection; and, for each output that the
    client reads, the channel and the goroutine of the streamer that serve it. *)
Context `{JsonText} (b : bytes) (link : list (nat * nat)).

Definition sent (o : list Streamer.obs) : list bytes := (λ '(c, t), concat (Streamer.delivered c t o)) <$> link.

Inductive world_step : world → world → Prop :=
(** an action of the streamer; what it delivers goes out *)
| server_acts w e m' o :
    Streamer.step e (w_streamer w) = Streamer.Next m' o →
    world_step w (mk_world (w_events w ++ [e]) (w_obs w ++ o) m' (zip_with app (w_flight w) (sent o)) (w_client w))
(** some of the bytes of a response arrive *)
| bytes_arrive w i d rest cp :
    w_flight w !! i = Some (d ++ rest) → d ≠ [] → sh_copiers (w_client w) !! i = Some cp →
    world_step w (mk_world (w_events w) (w_obs w) (w_streamer w) (<[i := rest]> (w_flight w))
      (set_copier i (yields d cp) (w_client w)))
(** a response ends where the goroutine that served it has returned *)
| response_ends w i c t cp :
    link !! i = Some (c, t) → finished (w_streamer w) t → w_flight w !! i = Some [] →
    sh_copiers (w_client w) !! i = Some cp →
    world_step w (mk_world (w_events w) (w_obs w) (w_streamer w) (w_flight w) (set_copier i (ends cp) (w_client w)))
(** an action of the client *)
| client_acts w sh' :
    handler_step b (w_client w) sh' →
    world_step w (mk_world (w_events w) (w_obs w) (w_streamer w) (w_flight w) sh').

(** The client has just got its responses: the streamer has served them since
    its goroutines were started, and nothing has arrived. *)
Definition connected (es : list Streamer.event) (o : list Streamer.obs) (m : Streamer.Streamer) (p : process) : world :=
  mk_world es o m (sent o) (start_streams ((λ _, ([], true)) <$> link) p).

(** What was delivered to a response has arrived or is on its way; nothing is once
    the response has ended. *)
Definition carries (w : world) (c t : nat) (cp : copier) (fl : bytes) : Prop :=
  concat (Streamer.delivered c t (w_obs w)) = concat (yielded cp) ++ fl ∧
  (cp_more cp = false → fl = [] ∧ finished (w_streamer w) t).

Record flows (g : Duration) (w : world) : Prop := {
  fl_run : Streamer.run (w_events w) (Streamer.New g) = Streamer.Next (w_streamer w) (w_obs w);
  fl_copying : copying b (w_client w);
  fl_copiers : length (sh_copiers (w_client w)) = length link;
  fl_flight : length (w_flight w) = length link;
  fl_all i c t cp fl : link !! i = Some (c, t) → sh_copiers (w_client w) !! i = Some cp → w_flight w !! i = Some fl →
    carries w c t cp fl;
}.

Lemma delivered_app c t o o' : Streamer.delivered c t (o ++ o') = Streamer.delivered c t o ++ Streamer.delivered c t o'.
Proof. apply omap_app. Qed.

Lemma connected_flows g es o m p :
  Streamer.run es (Streamer.New g) = Streamer.Next m o → p_done p = false → flows g (connected es o m p).
Proof.
  intros Hr Hp. split; cbn [connected w_events w_obs w_streamer w_flight w_client]; [done|by apply start_copying|..].
  - rewrite start_streams_eq. cbn. by rewrite !length_fmap.
  - by unfold sent; rewrite length_fmap.
  - intros i c t cp fl Hi Hc Hf. rewrite start_streams_eq in Hc. cbn in Hc. unfold sent in Hf.
    rewrite list_lookup_fmap, Hi in Hf. rewrite !list_lookup_fmap, Hi in Hc. cbn in Hc, Hf. by simplify_eq.
Qed.

(** The copier at a place is replaced. *)
Lemma set_copier_flows g w i cp cp' fl fl' :
  flows g w → sh_copiers (w_client w) !! i = Some cp → w_flight w !! i = Some fl →
  cp_running cp' = cp_running cp → copier_ok cp' →
  (∀ c t, link !! i = Some (c, t) → carries w c t cp fl → carries w c t cp' fl') →
  flows g (mk_world (w_events w) (w_obs w) (w_streamer w) (<[i := fl']> (w_flight w)) (set_copier i cp' (w_client w))).
Proof.
  intros [Hrun Hcop Hlc Hlf Hall] Hi Hf Hrn Hok Hcar.
  split; cbn [w_events w_obs w_streamer w_flight w_client set_copier sh_copiers]; [done| |by rewrite length_insert..|].
  - by eapply copying_replace.
  - intros j c t cp1 fl1 Hj Hc1 Hf1. unfold carries. cbn [w_obs w_streamer]. destruct (decide (i = j)) as [<-|Hne].
    + rewrite list_lookup_insert_eq in Hc1 by (by eapply lookup_lt_Some).
      rewrite list_lookup_insert_eq in Hf1 by (by eapply lookup_lt_Some). simplify_eq. apply Hcar; [done|].
      by eapply Hall.
    + rewrite list_lookup_insert_ne in Hc1 by done. rewrite list_lookup_insert_ne in Hf1 by done. by eapply Hall.
Qed.

Lemma linked g w i cp :
  flows g w → sh_copiers (w_client w) !! i = Some cp →
  ∃ c t fl, link !! i = Some (c, t) ∧ w_flight w !! i = Some fl ∧ copier_ok cp ∧ carries w c t cp fl.
Proof.
  intros [_ Hcop Hlc Hlf Hall] Hc. pose proof (lookup_lt_Some _ _ _ Hc) as Hlt.
  destruct (lookup_lt_is_Some_2 link i) as [[c t] Hi]; [lia|].
  destruct (lookup_lt_is_Some_2 (w_flight w) i) as [fl Hf]; [lia|].
  exists c, t, fl. split_and!; [done..|by eapply copy_state, list_elem_of_lookup_2|by eapply Hall].
Qed.

Lemma flows_step g w w' : flows g w → world_step w w' → flows g w'.
Proof.
  intros Hw Hs. destruct Hs as [w e m' o Hs|w i d rest cp Hf Hd Hc|w i c t cp Hi Hfin Hf Hc|w sh' Hs].
  - destruct Hw as [Hrun Hcop Hlc Hlf Hall].
    split; cbn [w_events w_obs w_streamer w_flight w_client]; [|done|done| |].
    + apply Streamer.run_app. eexists _, _, _. split_and!; [done| |done]. cbn. rewrite Hs. by rewrite app_nil_r.
    + unfold sent. rewrite length_zip_with, length_fmap, Hlf. lia.
    + intros i c t cp fl Hi Hc (fl0 & d & -> & Hf0 & Hd)%lookup_zip_with_Some. unfold sent in Hd.
      rewrite list_lookup_fmap, Hi in Hd. injection Hd as <-.
      destruct (Hall i c t cp fl0 Hi Hc Hf0) as [Hsent Hend]. split; cbn [w_obs w_streamer].
      * rewrite delivered_app, concat_app, Hsent. by rewrite app_assoc.
      * intros Hm. destruct (Hend Hm) as [-> Hfin]. split; [|by eapply finished_step].
        by rewrite (finished_silent _ _ _ _ c t Hs Hfin).
  - destruct (linked g w i cp Hw Hc) as (c & t & fl & Hi & Hf' & Hok & Hcar). rewrite Hf in Hf'. injection Hf' as <-.
    eapply set_copier_flows; [done..| |].
    + destruct Hok as [[? ?]|[? [?|[? Hm]]]]; [by left|by right; split; [|left]|].
      apply Hcar in Hm as [Hnil _]. by apply app_nil in Hnil as [? _].
    + intros c' t' _ [Hsent Hend]. split; cbn.
      * rewrite Hsent. unfold yielded. cbn. rewrite !concat_app. cbn. by rewrite app_nil_r, !app_assoc.
      * intros Hm. apply Hend in Hm as [[-> ->]%app_nil ?]. done.
  - destruct (linked g w i cp Hw Hc) as (c' & t' & fl & Hi' & _ & Hok & _). simplify_eq.
    rewrite <- (list_insert_id (w_flight w) i []) by done.
    eapply set_copier_flows; [done..| |].
    + destruct Hok as [[? ?]|[? [?|[? Hm]]]]; [by left|right; split; [done|by left]..|right; split; [done|by right]].
    + intros ?? Hi' [Hsent _]. simplify_eq. split; [done|]. by intros _.
  - destruct Hw as [Hrun Hcop Hlc Hlf Hall]. pose proof (handler_step_readers _ _ _ Hs) as Hrd.
    split; cbn [w_events w_obs w_streamer w_flight w_client]; [done|by eapply copying_step| |done|].
    + apply (f_equal length) in Hrd. unfold readers in Hrd. rewrite !length_fmap in Hrd. lia.
    + intros i c t cp fl Hi Hc Hf.
      assert (readers (sh_copiers (w_client w)) !! i = Some (yielded cp, cp_more cp)) as (cp0 & [= Hy Hm] & Hc0)%list_lookup_fmap_Some
        by (rewrite <- Hrd; unfold readers; by rewrite list_lookup_fmap, Hc).
      unfold carries. cbn [w_obs w_streamer]. rewrite Hy, Hm. by eapply (Hall i c t cp0 fl).
Qed.

Lemma flows_run g w w' : flows g w → rtc world_step w w' → flows g w'.
Proof. intros Hw Hr. induction Hr; eauto using flows_step. Qed.

(** ** The run to the end *)
Definition with_client (sh : streamHandler) (w : world) : world :=
  mk_world (w_events w) (w_obs w) (w_streamer w) (w_flight w) sh.

Lemma server_run w es m' o :
  Streamer.run es (w_streamer w) = Streamer.Next m' o →
  ∃ w', rtc world_step w w' ∧ w_streamer w' = m' ∧ w_client w' = w_client w.
Proof.
  revert w o. induction es as [|e es IH]; intros w o; [intros [= <- <-]; by exists w|].
  intros (m1 & o1 & o2 & Hst & Hr & ->)%Streamer.run_cons. pose proof (server_acts w e m1 o1 Hst) as Hw.
  match type of Hw with world_step _ ?w1 => destruct (IH w1 _ Hr) as (w' & Hrun & ? & ?) end.
  exists w'. split_and!; [|done..]. by eapply rtc_l, Hrun.
Qed.

Lemma client_run w sh' : rtc (handler_step b) (w_client w) sh' → rtc world_step w (with_client sh' w).
Proof.
  intros Hr. remember (w_client w) as sh eqn:Hsh. revert w Hsh. induction Hr as [sh|x y z Hxy Hyz IH]; intros w ->.
  - by destruct w.
  - eapply rtc_l; [by apply client_acts|]. by apply (IH (with_client y w)).
Qed.

Lemma set_copier_lookup i cp cp0 sh : sh_copiers sh !! i = Some cp0 → sh_copiers (set_copier i cp sh) !! i = Some cp.
Proof. intros Hi. cbn. rewrite list_lookup_insert_eq; [done|]. by eapply lookup_lt_Some. Qed.

(** What is on its way to a copier arrives. *)
Lemma flight_arrives w i fl cp :
  w_flight w !! i = Some fl → sh_copiers (w_client w) !! i = Some cp →
  ∃ w' ins, rtc world_step w w' ∧ w_streamer w' = w_streamer w ∧ w_flight w' !! i = Some [] ∧
    sh_copiers (w_client w') = <[i := mk_copier ins (cp_more cp) (cp_out cp) (cp_running cp) (cp_failed cp)]> (sh_copiers (w_client w)).
Proof.
  intros Hf Hc. destruct (decide (fl = [])) as [->|Hne].
  { exists w, (cp_in cp). split_and!; [done..|]. rewrite list_insert_id; [done|]. by destruct cp. }
  eexists _, _. split_and!; [apply rtc_once, (bytes_arrive w i fl []); [by rewrite app_nil_r|done..]|done| |done].
  cbn. rewrite list_lookup_insert_eq; [done|]. by eapply lookup_lt_Some.
Qed.

Lemma copier_finishes g w i cp :
  flows g w → Forall (λ '(c, t), finished (w_streamer w) t) link → sh_copiers (w_client w) !! i = Some cp →
  ∃ w' cp', rtc world_step w w' ∧ w_streamer w' = w_streamer w ∧
    sh_copiers (w_client w') = <[i := cp']> (sh_copiers (w_client w)) ∧
    cp_running cp' = false ∧ cp_failed cp' = cp_failed cp.
Proof.
  intros Hw Hfin Hc. destruct (linked g w i cp Hw Hc) as (c & t & fl & Hi & Hf & [[Hrn Hnf]|[Hrn _]] & _); cycle 1.
  { exists w, cp. split_and!; [done..| |done|done]. by rewrite list_insert_id. }
  destruct (flight_arrives w i fl cp Hf Hc) as (w1 & ins & Hr1 & Hm1 & Hf1 & Hc1).
  assert (sh_copiers (w_client w1) !! i = Some (mk_copier ins (cp_more cp) (cp_out cp) true false)) as Hc1'.
  { rewrite Hc1, list_lookup_insert_eq by (by eapply lookup_lt_Some). by rewrite Hrn, Hnf. }
  assert (finished (w_streamer w1) t) as Hft.
  { rewrite Hm1. rewrite Forall_forall in Hfin. by apply (Hfin (c, t)), (list_elem_of_lookup_2 _ i). }
  pose proof (response_ends w1 i c t _ Hi Hft Hf1 Hc1') as Hr2.
  destruct (copy_finishes b i ins (cp_out cp) (set_copier i (ends (mk_copier ins (cp_more cp) (cp_out cp) true false)) (w_client w1)))
    as (sh' & Hr3 & Hc3).
  { by eapply set_copier_lookup. }
  eexists (with_client sh' w1), _. split_and!; [|done|cbn [with_client w_client]; rewrite Hc3; cbn [set_copier sh_copiers];
    by rewrite Hc1, !list_insert_insert_eq|done|done].
  etransitivity; [done|]. eapply rtc_l; [done|]. by apply (client_run (with_client _ w1)).
Qed.

Lemma copiers_finish g w n :
  flows g w → Forall (λ '(c, t), finished (w_streamer w) t) link → (n ≤ length link)%nat →
  ∃ w', rtc world_step w w' ∧ w_streamer w' = w_streamer w ∧
    length (sh_copiers (w_client w')) = length (sh_copiers (w_client w)) ∧
    ∀ i cp, sh_copiers (w_client w) !! i = Some cp →
      ∃ cp', sh_copiers (w_client w') !! i = Some cp' ∧ cp_failed cp' = cp_failed cp ∧
        ((i < n)%nat → cp_running cp' = false).
Proof.
  intros Hw Hfin. induction n as [|n IH]; intros Hn.
  { exists w. split_and!; [done..|]. intros i cp Hi. exists cp. split_and!; [done..|lia]. }
  destruct IH as (w1 & Hr1 & Hm1 & Hl1 & Hc1); [lia|].
  assert (flows g w1) as Hw1 by (by eapply flows_run).
  destruct (lookup_lt_is_Some_2 (sh_copiers (w_client w1)) n) as [cpn Hcn]; [rewrite (fl_copiers _ _ Hw1); lia|].
  destruct (copier_finishes g w1 n cpn Hw1) as (w2 & cp2 & Hr2 & Hm2 & Hc2 & Hrn & Hnf); [by rewrite Hm1|done|].
  exists w2. split_and!; [by etransitivity|congruence|by rewrite Hc2, length_insert|].
  intros i cp Hi. destruct (Hc1 i cp Hi) as (cp1 & Hi1 & Hf1 & Hlt). rewrite Hc2.
  destruct (decide (n = i)) as [<-|Hne].
  - rewrite list_lookup_insert_eq by (by eapply lookup_lt_Some). exists cp2. split_and!; [done| |done]. congruence.
  - rewrite list_lookup_insert_ne by done. exists cp1. split_and!; [done..|]. intros ?. apply Hlt. lia.
Qed.

(** Once the streams are stopped, the wait can return, and no copy need fail. *)
Lemma wait_completes g w :
  flows g w → Forall (λ '(c, t), stopped (w_streamer w) c t) link →
  ∃ w', rtc world_step w w' ∧ Wait (sh_process (w_client w')) = Some (waited b) ∧
    ∀ i cp, sh_copiers (w_client w) !! i = Some cp →
      ∃ cp', sh_copiers (w_client w') !! i = Some cp' ∧ cp_failed cp' = cp_failed cp.
Proof.
  intros Hw Hst. destruct (all_finish link (w_streamer w) Hst) as (es & m1 & o & Hrun & Hfin).
  destruct (server_run w es m1 o Hrun) as (w1 & Hr1 & <- & Hcl).
  assert (flows g w1) as Hw1 by (by eapply flows_run).
  destruct (copiers_finish g w1 (length link) Hw1 Hfin) as (w2 & Hr2 & _ & Hl2 & Hc2); [lia|].
  assert (∃ w3, rtc world_step w2 w3 ∧ sh_copiers (w_client w3) = sh_copiers (w_client w2) ∧ sh_read (w_client w3) ≠ None)
    as (w3 & Hr3 & Hc3 & Hrd).
  { destruct (sh_read (w_client w2)) as [r|] eqn:Hrd; [exists w2; split_and!; [done..|by rewrite Hrd]|].
    eexists. split; [by apply rtc_once, client_acts, wait_read|done]. }
  assert (flows g w3) as Hw3 by (do 2 (eapply flows_run; [|done]); done).
  destruct (wait_can_return b (w_client w3) (fl_copying _ _ Hw3) Hrd) as (sh' & Hr4 & Hc4 & Hwait).
  { rewrite Hc3. apply Is_true_true, forallb_True, Forall_lookup. intros i cp2 Hi. apply negb_True.
    assert (i < length (sh_copiers (w_client w1)))%nat as Hlt by (rewrite <- Hl2; by eapply lookup_lt_Some).
    destruct (lookup_lt_is_Some_2 _ _ Hlt) as [cp Hcp]. destruct (Hc2 i cp Hcp) as (cp' & Hi' & _ & Hrn).
    rewrite Hi in Hi'. injection Hi' as <-. rewrite (fl_copiers _ _ Hw1) in Hlt. rewrite (Hrn Hlt). by intros []. }
  exists (with_client sh' w3). split_and!; [|done|].
  - do 3 (etransitivity; [done|]). by apply client_run.
  - intros i cp Hi. rewrite <- Hcl in Hi. destruct (Hc2 i cp Hi) as (cp' & Hi' & Hf & _).
    exists cp'. split; [|done]. cbn. by rewrite Hc4, Hc3.
Qed.

(** What was written and is not in the channel any more was delivered. *)
Lemma written_delivered g es m o c t :
  Streamer.run es (Streamer.New g) = Streamer.Next m o → Streamer.is_open m c = true →
  Streamer.dropped c o = [] → Streamer.failed c o = [] → (∀ t', Streamer.serves m c t' → t' = t) →
  Streamer.written c es = Streamer.delivered c t o ++ Streamer.buffered m c.
Proof.
  intros Hrun Hopen Hroom Hwr Hone. destruct (Streamer.run_fifo _ _ _ _ _ Hrun Hopen) as [_ Hf].
  rewrite (Streamer.run_written _ _ _ _ _ Hrun Hroom). change (Streamer.accepted c o = Streamer.taken c o ++ Streamer.buffered m c) in Hf.
  rewrite Hf. f_equal. apply Streamer.taken_delivered; [done|]. intros t' d Hd. by eapply Hone, Streamer.run_delivered.
Qed.

End output.

(** ** An example: a client reads the standard output of a process, and waits *)
Definition example_events : list Streamer.event :=
  [Streamer.EMake 2; Streamer.EMake 2; Streamer.EStream 0 1; Streamer.EServeStdout "1"].
Definition example_server : Streamer.Streamer :=
  match Streamer.run example_events (Streamer.New 60) with Streamer.Next m _ => m | _ => Streamer.New 60 end.
Definition example_messages : bytes := encoded "42" Close.

Local Ltac next t :=
  eapply rtc_l; [t|];
  match goal with |- rtc _ ?x _ => let x' := eval vm_compute in x in change x with x' end.

Lemma example_run :
  ∃ w, rtc (world_step (H := λ _, "") example_messages [(0, 0)]%nat)
         (connected [(0, 0)]%nat example_events [Streamer.Returns "1"] example_server (newProcess "42")) w ∧
    Wait (sh_process (w_client w)) = Some (waited (H := λ _, "") example_messages) ∧
    cp_out <$> sh_copiers (w_client w) = [[to_bytes "hi"]].
Proof.
  eexists. split.
  - next ltac:(eapply (server_acts _ _ _ (Streamer.EWrite 0 (to_bytes "hi"))); vm_compute; reflexivity).
    next ltac:(eapply (server_acts _ _ _ (Streamer.ERecv 0 false)); vm_compute; reflexivity).
    next ltac:(eapply (server_acts _ _ _ (Streamer.EStop "1")); vm_compute; reflexivity).
    next ltac:(eapply (bytes_arrive _ _ _ 0 (to_bytes "hi") []); [reflexivity|discriminate|reflexivity]).
    next ltac:(eapply (server_acts _ _ _ (Streamer.EDone 0)); vm_compute; reflexivity).
    next ltac:(eapply (server_acts _ _ _ (Streamer.EDefault 0)); vm_compute; reflexivity).
    next ltac:(eapply (response_ends _ _ _ 0); [reflexivity|eexists; split; reflexivity|reflexivity..]).
    next ltac:(eapply client_acts, (copy_chunk _ _ 0); reflexivity).
    next ltac:(eapply client_acts, (copy_end _ _ 0); reflexivity).
    next ltac:(eapply client_acts, wait_read; reflexivity).
    next ltac:(eapply client_acts, wait_returns; vm_compute; reflexivity). apply rtc_refl.
  - split; vm_compute; reflexivity.
Qed.

End Output.
