(* ===== verification/Connection.v ===== *)
(** * The client's connection (client/connection)

    connection.go over the interface [HijackStreamer], and its implementation in
    connection_hijacker.go over the network. *)
From S2P Require Import Prelude Types Utf8 Json GoJson Errors Codec Url Routes Backend Prog Handlers ProcessStream.

Module Connection.
Import Utf8 Json GoJson Errors Codec Url Backend Handlers.

(** A call that changes the state of the world; [None]: it panics, or does not
    return. *)
Definition io (S A : Type) : Type := S → option (A * S).

#[export] Instance io_ret {S} : MRet (io S) := λ A a s, Some (a, s).
#[export] Instance io_bind {S} : MBind (io S) := λ A B f m s,
  match m s with Some (a, s') => f a s' | None => None end.
Definition panic {S A} : io S A := λ _, None.

(** ** Bodies *)

(** The body of a response: what it yields, and what closing it returns. *)
Record response_body := mk_body {
  bd_reader : reader;
  bd_close : option error;
}.

(** The decoder's scanner on a reader that fails after these bytes: [None] when it
    would have to read on. *)
Fixpoint scan_some (l : bytes) (m : Json.mode) (stk : list frame) : option parsed :=
  match l with
  | [] => None
  | c :: l' =>
      match step c m stk with
      | Next m' stk' => scan_some l' m' stk'
      | Finish v => Some (Done v l')
      | Fail => Some Syntax
      end
  end.

(** [json.NewDecoder(rd).Decode(&v)], and what is left. *)
Definition decode_reader {A} (c : codec A) (rd : reader) (v : A) : A * option error * bytes :=
  match rd_err rd with
  | None => let '(a, e, rest) := Decode c (rd_data rd) v in (a, JsonError <$> e, rest)
  | Some err =>
      match scan_some (rd_data rd) MValue [] with
      | None => (v, Some err, [])
      | Some (Done j rest) => let (a, e) := decoded (c_dec c j v) in (a, JsonError <$> e, rest)
      | Some _ => (v, Some (JsonError SyntaxError), [])
      end
  end.

(** ** The interface *)
Class HijackStreamer (S : Type) := {
  Stream : ∀ (handler : string) (body : option bytes) (params : gmap string string)
    (query : option (gmap string (list string))) (contentType : string), io S (option response_body * option error);
  Hijack : ∀ (handler : string) (body : option bytes) (params : gmap string string)
    (query : option (gmap string (list string))) (contentType : string), io S (option reader * option error);
}.

(** ** connection_hijacker.go *)

(** [http.Header] *)
Abbreviation Header := (gmap string (list string)).

Record http_request := mk_http_request {
  hr_method : string;
  hr_url : URL;
  hr_header : Header;
  hr_body : option bytes;
}.

Record http_response := mk_http_response {
  hs_status : Z;
  hs_body : response_body;
}.

(** [DialerFunc]; the connection it makes is part of the world. *)
Definition DialerFunc (S : Type) : Type := string → string → io S (option error).

(** What the hijacker uses of net/http and net: a request by a client that dials
    with this function, without keep-alive; a dialed connection; a request over
    it, with what the connection yields after the response. *)
Class Network (S : Type) := {
  Do : DialerFunc S → http_request → io S (result error http_response);
  DialTimeout : string → string → Duration → io S (option error);
  ClientDo : http_request → io S (result error (http_response * reader));
}.

(** The generator of requests ([rata.RequestGenerator], by its header: host and
    routes are always the same) and the dialer, which the client of [Stream]
    uses too. *)
Record hijackable (S : Type) := mk_hijackable {
  req_Header : gomap (list string);
  dialer : DialerFunc S;
}.
Arguments mk_hijackable {S} _ _.
Arguments req_Header {S} _.
Arguments dialer {S} _.

Section hijacker.
Context {S : Type} `{JsonText} `{Network S}.

Definition defaultDialerFunc (network address : string) : DialerFunc S :=
  λ _ _, DialTimeout network address (2 * 1000000000)%Z.

Definition NewHijackStreamerWithDialer (dialFunc : DialerFunc S) : hijackable S :=
  mk_hijackable (Some ∅) dialFunc.

Definition NewHijackStreamer (network address : string) : hijackable S :=
  NewHijackStreamerWithDialer (defaultDialerFunc network address).

Definition NewHijackStreamerWithHeaders (network address : string) (headers : gomap (list string)) : hijackable S :=
  mk_hijackable headers (defaultDialerFunc network address).

(** The headers of a request: a copy of the generator's, and the content type. *)
Definition request_header (headers : gomap (list string)) (contentType : string) : Header :=
  let header := default ∅ headers in
  if decide (contentType = "") then header else <["Content-Type" := [contentType]]> header.

(** [CreateRequest] and the settings of its caller. *)
Definition create (h : hijackable S) (handler : string) (body : option bytes) (params : gmap string string)
    (query : option (gmap string (list string))) (contentType : string) : result error http_request :=
  rmap (λ '(method, u),
    mk_http_request method
      (match query with Some q => Routes.with_query u (Values_Encode q) | None => u end)
      (request_header (req_Header h) contentType) body)
    (Routes.CreateRequest handler params).

Definition failed_status (status : Z) : bool := (status <? 200)%Z || (299 <? status)%Z.

(** The message of an error response that cannot be read. *)
Definition backend_error (status : Z) (b : bytes) (text : string) : error :=
  OtherError ("Backend error: Exit status: " +:+ format_int status +:+ ", Body: " +:+ of_bytes b +:+
              ", error reading response body: " +:+ text).

Definition hijackable_Hijack (h : hijackable S) (handler : string) (body : option bytes) (params : gmap string string)
    (query : option (gmap string (list string))) (contentType : string) : io S (option reader * option error) :=
  match create h handler body params query contentType with
  | Err err => mret (None, Some err)
  | Ok request =>
      derr ← dialer h "tcp" "api";
      match derr with
      | Some err => mret (None, Some err)
      | None =>
          r ← ClientDo request;
          match r with
          | Err err => mret (None, Some err)
          | Ok (httpResp, conn) =>
              if failed_status (hs_status httpResp) then
                let rd := bd_reader (hs_body httpResp) in
                match rd_err rd with
                | Some err => mret (None, Some (backend_error (hs_status httpResp) (rd_data rd) (error_text err)))
                | None =>
                    match Unmarshal Error_codec (rd_data rd) (mk_Error None) with
                    | (_, Some err) => mret (None, Some (backend_error (hs_status httpResp) (rd_data rd) (json_text err)))
                    | (result, None) => mret (None, e_Err result)
                    end
                end
              else mret (Some conn, None)
          end
      end
  end.

Definition hijackable_Stream (h : hijackable S) (handler : string) (body : option bytes) (params : gmap string string)
    (query : option (gmap string (list string))) (contentType : string) : io S (option response_body * option error) :=
  match create h handler body params query contentType with
  | Err err => mret (None, Some err)
  | Ok request =>
      r ← Do (dialer h) request;
      match r with
      | Err err => mret (None, Some err)
      | Ok httpResp =>
          if failed_status (hs_status httpResp) then
            match decode_reader Error_codec (bd_reader (hs_body httpResp)) (mk_Error None) with
            | (_, Some err, _) => mret (None, Some (OtherError ("bad response: " +:+ error_text err)))
            | (result, None, _) => mret (None, e_Err result)
            end
          else mret (Some (hs_body httpResp), None)
      end
  end.

Definition hijack_streamer (h : hijackable S) : HijackStreamer S := {|
  Stream := hijackable_Stream h;
  Hijack := hijackable_Hijack h;
|}.

(** Every request carries the headers the streamer was made with, and its content
    type if it has one. *)
Lemma create_header network address headers handler body params query contentType request :
  create (NewHijackStreamerWithHeaders network address headers) handler body params query contentType = Ok request →
  (∀ key values, default ∅ headers !! key = Some values → key ≠ "Content-Type" ∨ contentType = "" →
     hr_header request !! key = Some values) ∧
  (contentType ≠ "" → hr_header request !! "Content-Type" = Some [contentType]).
Proof.
  unfold create. destruct (Routes.CreateRequest handler params) as [[method u]|e]; [|done]. intros [= <-]. cbn.
  unfold request_header. destruct (decide (contentType = "")) as [->|Hct]; split; [done|done| |intros _; by rewrite lookup_insert_eq].
  intros key values Hk [Hne|?]; [|done]. by rewrite lookup_insert_ne.
Qed.
End hijacker.

(** ** connection.go *)

(** Messages without a name in the source. *)
Definition created_codec : codec string :=
  struct_codec "struct { Handle string }" "" (FCons "handle" false string_codec FNil)
    (λ h, (h, ())) (λ '(h, ()), h).
Definition bool_map_codec : codec (gomap bool) := map_codec "map[string]bool" bool_codec.

(** The streams of a [garden.ProcessIO] of the client: what the standard input
    yields, and whether the two outputs are given. *)
Record process_io := mk_process_io {
  pio_Stdin : option (list bytes * option error);
  pio_Stdout : bool;
  pio_Stderr : bool;
}.

(** A process that has been started: its handle, what the goroutine of its
    standard input sends on a working connection, the output streams being
    copied, and the messages that the goroutine waiting for its exit will read,
    if one was started. *)
Record started := mk_started {
  st_process : ProcessStream.process;
  st_input : ProcessStream.processStream;
  st_stdout : option reader;
  st_stderr : option reader;
  st_wait : option bytes;
}.

Definition handle_param (handle : string) : gmap string string := {["handle" := handle]}.
Definition key_params (handle key : string) : gmap string string := {["handle" := handle; "key" := key]}.

(** [strings.Join] *)
Definition join (sep : string) (l : list string) : string :=
  match l with [] => "" | x :: l' => foldl (λ acc y, acc +:+ sep +:+ y) x l' end.

Section connection.
Context {S : Type} `{JsonText} `{HijackStreamer S}.

(** The request is given as [transport.WriteMessage] writes it, [None] for nil;
    the response is decoded over [res]. *)
Definition do_ {A} (handler : string) (req : option (result json_error bytes)) (c : codec A) (res : A)
    (params : gmap string string) (query : option (gmap string (list string))) : io S (A * option error) :=
  match req with
  | Some (Err e) => mret (res, Some (JsonError e))
  | _ =>
      let body := match req with Some (Ok b) => Some b | _ => None end in
      let contentType := match req with Some _ => "application/json" | None => "" end in
      r ← Stream handler body params query contentType;
      match r with
      | (_, Some err) => mret (res, Some err)
      | (None, None) => panic
      | (Some response, None) =>
          let '(v, err, _) := decode_reader c (bd_reader response) res in mret (v, err)
      end
  end.

(** [if err != nil { return zero, err }; return f(res), nil] *)
Definition and_return {A A'} (zero : A') (f : A → A') (p : io S (A * option error)) : io S (A' * option error) :=
  r ← p; match r with (_, Some err) => mret (zero, Some err) | (res, None) => mret (f res, None) end.

(** Calls whose answer is only an error. *)
Definition do_empty (handler : string) (req : option (result json_error bytes)) (params : gmap string string)
  : io S (option error) :=
  r ← do_ handler req empty_codec () params None; mret r.2.

Definition Ping : io S (option error) := do_empty Routes.Ping None ∅.

Definition Capacity : io S (Capacity * option error) :=
  and_return (c_zero Capacity_codec) id (do_ Routes.Capacity None Capacity_codec (c_zero Capacity_codec) ∅ None).

Definition Create (spec : ContainerSpec) : io S (string * option error) :=
  and_return "" id (do_ Routes.Create (Some (Encode ContainerSpec_codec spec)) created_codec "" ∅ None).

Definition Stop (handle : string) (kill : bool) : io S (option error) :=
  do_empty Routes.Stop (Some (Encode bool_map_codec (Some {["kill" := kill]}))) (handle_param handle).

Definition Destroy (handle : string) : io S (option error) :=
  do_empty Routes.Destroy None (handle_param handle).

Definition NetIn (handle : string) (hostPort containerPort : Z) : io S (Z * Z * option error) :=
  and_return (0, 0)%Z (λ res, (nirs_HostPort res, nirs_ContainerPort res))
    (do_ Routes.NetIn (Some (Encode NetInRequest_codec (mk_NetInRequest handle hostPort containerPort)))
      NetInResponse_codec (c_zero NetInResponse_codec) (handle_param handle) None).

Definition BulkNetOut (handle : string) (rules : slice NetOutRule) : io S (option error) :=
  do_empty Routes.BulkNetOut (Some (Encode NetOutRules_codec rules)) (handle_param handle).

Definition NetOut (handle : string) (rule : NetOutRule) : io S (option error) :=
  do_empty Routes.NetOut (Some (Encode NetOutRule_codec rule)) (handle_param handle).

Definition Property (handle name : string) : io S (string * option error) :=
  do_ Routes.Property None Value_codec "" (key_params handle name) None.

Definition SetProperty (handle name value : string) : io S (option error) :=
  do_empty Routes.SetProperty (Some (Encode string_map_codec (Some {["value" := value]}))) (key_params handle name).

Definition RemoveProperty (handle name : string) : io S (option error) :=
  do_empty Routes.RemoveProperty None (key_params handle name).

(** The calls that read a struct of a container. *)
Definition get {A} (handler : string) (c : codec A) (res : A) (handle : string) : io S (A * option error) :=
  do_ handler None c res (handle_param handle) None.

Definition CurrentBandwidthLimits := get Routes.CurrentBandwidthLimits BandwidthLimits_codec (c_zero BandwidthLimits_codec).
Definition CurrentCPULimits := get Routes.CurrentCPULimits CPULimits_codec (c_zero CPULimits_codec).
Definition CurrentDiskLimits := get Routes.CurrentDiskLimits DiskLimits_codec (c_zero DiskLimits_codec).
Definition CurrentMemoryLimits := get Routes.CurrentMemoryLimits MemoryLimits_codec (c_zero MemoryLimits_codec).
Definition Metrics := get Routes.Metrics Metrics_codec (c_zero Metrics_codec).
(** The map the properties are decoded into is made first. *)
Definition Properties := get Routes.Properties Properties_codec (Some ∅).

Definition Info (handle : string) : io S (ContainerInfo * option error) :=
  and_return (c_zero ContainerInfo_codec) id (get Routes.Info ContainerInfo_codec (c_zero ContainerInfo_codec) handle).

Definition SetGraceTime (handle : string) (graceTime : Duration) : io S (option error) :=
  do_empty Routes.SetGraceTime (Some (Encode Duration_codec graceTime)) (handle_param handle).

(** The response is decoded over a pointer to the struct, which a null sets to
    nil. *)
Definition List (filterProperties : gomap string) : io S (slice string * option error) :=
  let values := (λ v, [v]) <$> default ∅ filterProperties in
  r ← do_ Routes.List None (ptr_codec Handles_codec) (Some None) ∅ (Some values);
  match r with
  | (_, Some err) => mret (None, Some err)
  | (None, None) => panic
  | (Some handles, None) => mret (handles, None)
  end.

Definition handles_query (handles : slice string) : gmap string (list string) :=
  {["handles" := [join "," (default [] handles)]]}.

Definition BulkInfo (handles : slice string) : io S (gomap ContainerInfoEntry * option error) :=
  do_ Routes.BulkInfo None (map_codec "map[string]garden.ContainerInfoEntry" ContainerInfoEntry_codec) (Some ∅) ∅
    (Some (handles_query handles)).

Definition BulkMetrics (handles : slice string) : io S (gomap ContainerMetricsEntry * option error) :=
  do_ Routes.BulkMetrics None (map_codec "map[string]garden.ContainerMetricsEntry" ContainerMetricsEntry_codec) (Some ∅) ∅
    (Some (handles_query handles)).

Definition StreamIn (handle : string) (spec : StreamInSpec) : io S (option error) :=
  r ← Stream Routes.StreamIn (Some (si_TarStream spec)) (handle_param handle)
        (Some {["user" := [si_User spec]; "destination" := [si_Path spec]]}) "application/x-tar";
  match r with
  | (_, Some err) => mret (Some err)
  | (None, None) => panic
  | (Some body, None) => mret (bd_close body)
  end.

Definition StreamOut (handle : string) (spec : StreamOutSpec) : io S (option response_body * option error) :=
  Stream Routes.StreamOut None (handle_param handle)
    (Some {["user" := [so_User spec]; "source" := [so_Path spec]]}) "".

(** The hijack of an output stream, if its writer is given: a failure ends the
    process as the client sees it. *)
Definition hijack_output (wanted : bool) (streamType : string) (params : gmap string string)
  : io S (result error (option reader)) :=
  if wanted then
    r ← Hijack streamType None params None "application/json";
    match r with
    | (_, Some err) =>
        mret (Err (OtherError ("connection: failed to hijack stream " +:+ streamType +:+ ": " +:+ error_text err)))
    | (None, None) => panic
    | (Some rd, None) => mret (Ok (Some rd))
    end
  else mret (Ok None).

Definition streamProcess (handle : string) (processIO : process_io) (rd : reader) : io S (option started * option error) :=
  match decode_reader ProcessPayload_codec rd (c_zero ProcessPayload_codec) with
  | (_, Some err, _) => mret (None, Some err)
  | (payload, None, rest) =>
      let params := {["handle" := handle; "pid" := pp_ProcessID payload; "streamid" := pp_StreamID payload]} in
      let process := ProcessStream.newProcess (pp_ProcessID payload) in
      let input := ProcessStream.streamIn [] (pio_Stdin processIO) (ProcessStream.mk_processStream (pp_ProcessID payload) []) in
      out ← hijack_output (pio_Stdout processIO) Routes.Stdout params;
      match out with
      | Err werr => mret (Some (mk_started (ProcessStream.exited 0 (Some werr) process) input None None None), None)
      | Ok stdout =>
          err ← hijack_output (pio_Stderr processIO) Routes.Stderr params;
          match err with
          | Err werr => mret (Some (mk_started (ProcessStream.exited 0 (Some werr) process) input stdout None None), None)
          | Ok stderr => mret (Some (mk_started process input stdout stderr (Some rest)), None)
          end
      end
  end.

Definition Run (handle : string) (spec : ProcessSpec) (processIO : process_io) : io S (option started * option error) :=
  match Encode ProcessSpec_codec spec with
  | Err e => mret (None, Some (JsonError e))
  | Ok reqBody =>
      r ← Hijack Routes.Run (Some reqBody) (handle_param handle) None "application/json";
      match r with
      | (_, Some err) => mret (None, Some err)
      | (None, None) => panic
      | (Some rd, None) => streamProcess handle processIO rd
      end
  end.

Definition Attach (handle processID : string) (processIO : process_io) : io S (option started * option error) :=
  r ← Hijack Routes.Attach (Some []) {["handle" := handle; "pid" := processID]} None "";
  match r with
  | (_, Some err) => mret (None, Some err)
  | (None, None) => panic
  | (Some rd, None) => streamProcess handle processIO rd
  end.
End connection.

(** ** The interface of the client *)
Record Connection (S : Type) := mk_Connection {
  c_Ping : io S (option error);
  c_Capacity : io S (Types.Capacity * option error);
  c_Create : ContainerSpec → io S (string * option error);
  c_List : gomap string → io S (slice string * option error);
  c_Destroy : string → io S (option error);
  c_Stop : string → bool → io S (option error);
  c_Info : string → io S (ContainerInfo * option error);
  c_BulkInfo : slice string → io S (gomap ContainerInfoEntry * option error);
  c_BulkMetrics : slice string → io S (gomap ContainerMetricsEntry * option error);
  c_StreamIn : string → StreamInSpec → io S (option error);
  c_StreamOut : string → StreamOutSpec → io S (option response_body * option error);
  c_CurrentBandwidthLimits : string → io S (BandwidthLimits * option error);
  c_CurrentCPULimits : string → io S (CPULimits * option error);
  c_CurrentDiskLimits : string → io S (DiskLimits * option error);
  c_CurrentMemoryLimits : string → io S (MemoryLimits * option error);
  c_Run : string → ProcessSpec → process_io → io S (option started * option error);
  c_Attach : string → string → process_io → io S (option started * option error);
  c_NetIn : string → Z → Z → io S (Z * Z * option error);
  c_NetOut : string → NetOutRule → io S (option error);
  c_BulkNetOut : string → slice NetOutRule → io S (option error);
  c_SetGraceTime : string → Duration → io S (option error);
  c_Properties : string → io S (gomap string * option error);
  c_Property : string → string → io S (string * option error);
  c_SetProperty : string → string → string → io S (option error);
  c_Metrics : string → io S (Types.Metrics * option error);
  c_RemoveProperty : string → string → io S (option error);
}.

Arguments c_Ping {S} _.
Arguments c_Capacity {S} _.
Arguments c_Create {S} _.
Arguments c_List {S} _.
Arguments c_Destroy {S} _.
Arguments c_Stop {S} _.
Arguments c_Info {S} _.
Arguments c_BulkInfo {S} _.
Arguments c_BulkMetrics {S} _.
Arguments c_StreamIn {S} _.
Arguments c_StreamOut {S} _.
Arguments c_CurrentBandwidthLimits {S} _.
Arguments c_CurrentCPULimits {S} _.
Arguments c_CurrentDiskLimits {S} _.
Arguments c_CurrentMemoryLimits {S} _.
Arguments c_Run {S} _.
Arguments c_Attach {S} _.
Arguments c_NetIn {S} _.
Arguments c_NetOut {S} _.
Arguments c_BulkNetOut {S} _.
Arguments c_SetGraceTime {S} _.
Arguments c_Properties {S} _.
Arguments c_Property {S} _.
Arguments c_SetProperty {S} _.
Arguments c_Metrics {S} _.
Arguments c_RemoveProperty {S} _.

(** [connection.Error], an error of the package's own, and its text. *)
Record connection_Error := mk_connection_Error {
  ce_StatusCode : Z;
  ce_Message : string;
}.
Definition connection_Error_Error (err : connection_Error) : string := ce_Message err.

Section constructors.
Context {S : Type} `{JsonText}.

Definition NewWithHijacker (hijacker : HijackStreamer S) : Connection S :=
  mk_Connection S Ping Capacity Create List Destroy Stop Info BulkInfo BulkMetrics StreamIn StreamOut
    CurrentBandwidthLimits CurrentCPULimits CurrentDiskLimits CurrentMemoryLimits Run Attach NetIn NetOut BulkNetOut
    SetGraceTime Properties Property SetProperty Metrics RemoveProperty.

Context `{Network S}.

Definition NewWithLogger (network address : string) : Connection S :=
  NewWithHijacker (hijack_streamer (NewHijackStreamer network address)).

(** The logger is [lager.NewLogger("garden-connection")]. *)
Definition New (network address : string) : Connection S := NewWithLogger network address.

Definition NewWithDialerAndLogger (dialer : DialerFunc S) : Connection S :=
  NewWithHijacker (hijack_streamer (NewHijackStreamerWithDialer dialer)).
End constructors.
End Connection.
