(* ===== verification/Client.v ===== *)
(** * The client (client/client.go, client/container.go)

    The [garden.Client] and [garden.Container] that a program uses: a container
    of the client is its handle, and every method asks the connection. *)
From S2P Require Import Prelude Types GoJson Errors Codec Connection.

Module Client.
Import Errors Connection.

Section client.
Context {S : Type}.

(** A client is its connection; a container has its handle too. *)
Record client := New { client_connection : Connection S }.
Record container := newContainer { handle : string; connection : Connection S }.

(** ** client.go *)
Definition Ping (cl : client) : io S (option error) := c_Ping (client_connection cl).
Definition Capacity (cl : client) : io S (Types.Capacity * option error) := c_Capacity (client_connection cl).

Definition Create (cl : client) (spec : ContainerSpec) : io S (option container * option error) :=
  r ← c_Create (client_connection cl) spec;
  match r with
  | (_, Some err) => mret (None, Some err)
  | (h, None) => mret (Some (newContainer h (client_connection cl)), None)
  end.

Definition Containers (cl : client) (properties : gomap string) : io S (slice container * option error) :=
  r ← c_List (client_connection cl) properties;
  match r with
  | (_, Some err) => mret (None, Some err)
  | (handles, None) => mret (Some ((λ h, newContainer h (client_connection cl)) <$> default [] handles), None)
  end.

Definition Destroy (cl : client) (h : string) : io S (option error) := c_Destroy (client_connection cl) h.
Definition BulkInfo (cl : client) (handles : slice string) := c_BulkInfo (client_connection cl) handles.
Definition BulkMetrics (cl : client) (handles : slice string) := c_BulkMetrics (client_connection cl) handles.

(** A container is looked up in the list of all of them. *)
Definition Lookup (cl : client) (h : string) : io S (option container * option error) :=
  r ← c_List (client_connection cl) None;
  match r with
  | (_, Some err) => mret (None, Some err)
  | (handles, None) =>
      if bool_decide (h ∈ default [] handles) then mret (Some (newContainer h (client_connection cl)), None)
      else mret (None, Some (ContainerNotFoundError h))
  end.

(** ** container.go *)
Definition Handle (c : container) : string := handle c.
Definition Stop (c : container) (kill : bool) : io S (option error) := c_Stop (connection c) (handle c) kill.
Definition Info (c : container) := c_Info (connection c) (handle c).
Definition StreamIn (c : container) (spec : StreamInSpec) := c_StreamIn (connection c) (handle c) spec.
Definition StreamOut (c : container) (spec : StreamOutSpec) := c_StreamOut (connection c) (handle c) spec.
Definition CurrentBandwidthLimits (c : container) := c_CurrentBandwidthLimits (connection c) (handle c).
Definition CurrentCPULimits (c : container) := c_CurrentCPULimits (connection c) (handle c).
Definition CurrentDiskLimits (c : container) := c_CurrentDiskLimits (connection c) (handle c).
Definition CurrentMemoryLimits (c : container) := c_CurrentMemoryLimits (connection c) (handle c).
Definition Run (c : container) (spec : ProcessSpec) (pio : process_io) := c_Run (connection c) (handle c) spec pio.
Definition Attach (c : container) (processID : string) (pio : process_io) :=
  c_Attach (connection c) (handle c) processID pio.
Definition NetIn (c : container) (hostPort containerPort : Z) := c_NetIn (connection c) (handle c) hostPort containerPort.
Definition NetOut (c : container) (rule : NetOutRule) := c_NetOut (connection c) (handle c) rule.
Definition BulkNetOut (c : container) (rules : slice NetOutRule) := c_BulkNetOut (connection c) (handle c) rules.
Definition Metrics (c : container) := c_Metrics (connection c) (handle c).
Definition SetGraceTime (c : container) (graceTime : Duration) := c_SetGraceTime (connection c) (handle c) graceTime.
Definition Properties (c : container) := c_Properties (connection c) (handle c).
Definition Property (c : container) (name : string) := c_Property (connection c) (handle c) name.
Definition SetProperty (c : container) (name value : string) := c_SetProperty (connection c) (handle c) name value.
Definition RemoveProperty (c : container) (name : string) := c_RemoveProperty (connection c) (handle c) name.
End client.
Arguments client : clear implicits.
Arguments container : clear implicits.
End Client.
