(* ===== verification/FakeContainer.v ===== *)
(** * FakeContainer (gardenfakes/fake_container.go)

    The fake of the interface [Container], after the pattern of [Counterfeiter.v]. *)
From S2P Require Import Prelude Types GoJson Errors Codec Backend Prog Counterfeiter.

Module FakeContainer.
Import GoJson Errors Codec Backend Prog Counterfeiter.

Section fake.
Context {W : Type} {P : Type}.

(** The methods: their arguments and the zero values of their results. *)
Definition sig : list entry := [
  mk_entry "Attach" (λ '((arg1, arg2) : string * ProcessIO), [Any arg1; Any arg2])
    ((None, None) : option P * option error);
  mk_entry "BulkNetOut" (λ arg1 : slice NetOutRule, [Any arg1]) (None : option error);
  mk_entry "CurrentBandwidthLimits" (λ _ : unit, [])
    ((c_zero BandwidthLimits_codec, None) : BandwidthLimits * option error);
  mk_entry "CurrentCPULimits" (λ _ : unit, []) ((c_zero CPULimits_codec, None) : CPULimits * option error);
  mk_entry "CurrentDiskLimits" (λ _ : unit, []) ((c_zero DiskLimits_codec, None) : DiskLimits * option error);
  mk_entry "CurrentMemoryLimits" (λ _ : unit, []) ((c_zero MemoryLimits_codec, None) : MemoryLimits * option error);
  mk_entry "Handle" (λ _ : unit, []) ("" : string);
  mk_entry "Info" (λ _ : unit, []) ((c_zero ContainerInfo_codec, None) : ContainerInfo * option error);
  mk_entry "Metrics" (λ _ : unit, []) ((c_zero Metrics_codec, None) : Types.Metrics * option error);
  mk_entry "NetIn" (λ '((arg1, arg2) : Z * Z), [Any arg1; Any arg2]) ((0%Z, 0%Z, None) : Z * Z * option error);
  mk_entry "NetOut" (λ arg1 : NetOutRule, [Any arg1]) (None : option error);
  mk_entry "Properties" (λ _ : unit, []) ((None, None) : gomap string * option error);
  mk_entry "Property" (λ arg1 : string, [Any arg1]) (("", None) : string * option error);
  mk_entry "RemoveProperty" (λ arg1 : string, [Any arg1]) (None : option error);
  mk_entry "Run" (λ '((arg1, arg2) : ProcessSpec * ProcessIO), [Any arg1; Any arg2])
    ((None, None) : option P * option error);
  mk_entry "SetGraceTime" (λ arg1 : Duration, [Any arg1]) (None : option error);
  mk_entry "SetProperty" (λ '((arg1, arg2) : string * string), [Any arg1; Any arg2]) (None : option error);
  mk_entry "Stop" (λ arg1 : bool, [Any arg1]) (None : option error);
  mk_entry "StreamIn" (λ arg1 : StreamInSpec, [Any arg1]) (None : option error);
  mk_entry "StreamOut" (λ arg1 : StreamOutSpec, [Any arg1]) ((None, None) : option reader * option error)
].

(** The struct. *)
Definition FakeContainer : Type := fake (W := W) sig.

(** The functions of each method. *)
Abbreviation functions := (functions (W := W) (sg := sig)).
Definition Attach : functions (string * ProcessIO)%type (option P * option error)%type :=
  with_args Newer (field_at sig 0).
Definition BulkNetOut : functions (slice NetOutRule) (option error) := with_args Newer (field_at sig 1).
Definition CurrentBandwidthLimits : functions unit (BandwidthLimits * option error)%type :=
  without_args Newer (field_at sig 2).
Definition CurrentCPULimits : functions unit (CPULimits * option error)%type := without_args Newer (field_at sig 3).
Definition CurrentDiskLimits : functions unit (DiskLimits * option error)%type := without_args Newer (field_at sig 4).
Definition CurrentMemoryLimits : functions unit (MemoryLimits * option error)%type :=
  without_args Newer (field_at sig 5).
Definition Handle : functions unit string := without_args Newer (field_at sig 6).
Definition Info : functions unit (ContainerInfo * option error)%type := without_args Newer (field_at sig 7).
Definition Metrics : functions unit (Types.Metrics * option error)%type := without_args Newer (field_at sig 8).
Definition NetIn : functions (Z * Z)%type (Z * Z * option error)%type := with_args Newer (field_at sig 9).
Definition NetOut : functions NetOutRule (option error) := with_args Newer (field_at sig 10).
Definition Properties : functions unit (gomap string * option error)%type := without_args Newer (field_at sig 11).
Definition Property : functions string (string * option error)%type := with_args Newer (field_at sig 12).
Definition RemoveProperty : functions string (option error) := with_args Newer (field_at sig 13).
Definition Run : functions (ProcessSpec * ProcessIO)%type (option P * option error)%type :=
  with_args Newer (field_at sig 14).
Definition SetGraceTime : functions Duration (option error) := with_args Newer (field_at sig 15).
Definition SetProperty : functions (string * string)%type (option error) := with_args Newer (field_at sig 16).
Definition Stop : functions bool (option error) := with_args Newer (field_at sig 17).
Definition StreamIn : functions StreamInSpec (option error) := with_args Newer (field_at sig 18).
Definition StreamOut : functions StreamOutSpec (option reader * option error)%type :=
  with_args Newer (field_at sig 19).

(** Over all methods. *)
Definition recordInvocation : string → list any → prog eff unit := Counterfeiter.recordInvocation (W := W) (sg := sig).
Definition Invocations : prog eff (gmap string (slice (list any))) := Counterfeiter.Invocations (W := W) (sg := sig).

Lemma FakeContainer_names : NoDup (e_name <$> sig).
Proof. apply (bool_decide_unpack _). by vm_compute. Qed.
End fake.
End FakeContainer.
