(* ===== verification/FakeClient.v ===== *)
(** * FakeClient (gardenfakes/fake_client.go)

    The fake of the interface [Client], after the pattern of [Counterfeiter.v]. *)
From S2P Require Import Prelude Types GoJson Errors Codec Backend Prog Counterfeiter.

Module FakeClient.
Import GoJson Errors Codec Backend Prog Counterfeiter.

Section fake.
Context {W : Type} {C : Type}.

(** The methods: their arguments and the zero values of their results. *)
Definition sig : list entry := [
  mk_entry "BulkInfo" (λ arg1 : slice string, [Any arg1]) ((None, None) : gomap ContainerInfoEntry * option error);
  mk_entry "BulkMetrics" (λ arg1 : slice string, [Any arg1])
    ((None, None) : gomap ContainerMetricsEntry * option error);
  mk_entry "Capacity" (λ _ : unit, []) ((c_zero Capacity_codec, None) : Types.Capacity * option error);
  mk_entry "Containers" (λ arg1 : gomap string, [Any arg1]) ((None, None) : slice (option C) * option error);
  mk_entry "Create" (λ arg1 : ContainerSpec, [Any arg1]) ((None, None) : option C * option error);
  mk_entry "Destroy" (λ arg1 : string, [Any arg1]) (None : option error);
  mk_entry "Lookup" (λ arg1 : string, [Any arg1]) ((None, None) : option C * option error);
  mk_entry "Ping" (λ _ : unit, []) (None : option error)
].

(** The struct. *)
Definition FakeClient : Type := fake (W := W) sig.

(** The functions of each method. *)
Abbreviation functions := (functions (W := W) (sg := sig)).
Definition BulkInfo : functions (slice string) (gomap ContainerInfoEntry * option error)%type :=
  with_args Newer (field_at sig 0).
Definition BulkMetrics : functions (slice string) (gomap ContainerMetricsEntry * option error)%type :=
  with_args Newer (field_at sig 1).
Definition Capacity : functions unit (Types.Capacity * option error)%type := without_args Newer (field_at sig 2).
Definition Containers : functions (gomap string) (slice (option C) * option error)%type :=
  with_args Newer (field_at sig 3).
Definition Create : functions ContainerSpec (option C * option error)%type := with_args Newer (field_at sig 4).
Definition Destroy : functions string (option error) := with_args Newer (field_at sig 5).
Definition Lookup : functions string (option C * option error)%type := with_args Newer (field_at sig 6).
Definition Ping : functions unit (option error) := without_args Newer (field_at sig 7).

(** Over all methods. *)
Definition recordInvocation : string → list any → prog eff unit := Counterfeiter.recordInvocation (W := W) (sg := sig).
Definition Invocations : prog eff (gmap string (slice (list any))) := Counterfeiter.Invocations (W := W) (sg := sig).

Lemma FakeClient_names : NoDup (e_name <$> sig).
Proof. apply (bool_decide_unpack _). by vm_compute. Qed.
End fake.
End FakeClient.
