(* ===== verification/FakeConnection.v ===== *)
(** * FakeConnection (client/connection/connectionfakes/fake_connection.go)

    The fake of the interface [Connection], after the pattern of [Counterfeiter.v]. *)
From S2P Require Import Prelude Types GoJson Errors Codec Prog Counterfeiter Connection.

Module FakeConnection.
Import GoJson Errors Codec Prog Counterfeiter Connection.

Section fake.
Context {W : Type}.

(** The methods: their arguments and the zero values of their results. *)
Definition sig : list entry := [
  mk_entry "Ping" (λ _ : unit, []) (None : option error);
  mk_entry "Capacity" (λ _ : unit, []) ((c_zero Capacity_codec, None) : Types.Capacity * option error);
  mk_entry "Create" (λ spec : ContainerSpec, [Any spec]) (("", None) : string * option error);
  mk_entry "List" (λ properties : gomap string, [Any properties]) ((None, None) : slice string * option error);
  mk_entry "Destroy" (λ handle : string, [Any handle]) (None : option error);
  mk_entry "Stop" (λ '((handle, kill) : string * bool), [Any handle; Any kill]) (None : option error);
  mk_entry "Info" (λ handle : string, [Any handle])
    ((c_zero ContainerInfo_codec, None) : ContainerInfo * option error);
  mk_entry "BulkInfo" (λ handles : slice string, [Any handles])
    ((None, None) : gomap ContainerInfoEntry * option error);
  mk_entry "BulkMetrics" (λ handles : slice string, [Any handles])
    ((None, None) : gomap ContainerMetricsEntry * option error);
  mk_entry "StreamIn" (λ '((handle, spec) : string * StreamInSpec), [Any handle; Any spec]) (None : option error);
  mk_entry "StreamOut" (λ '((handle, spec) : string * StreamOutSpec), [Any handle; Any spec])
    ((None, None) : option response_body * option error);
  mk_entry "CurrentBandwidthLimits" (λ handle : string, [Any handle])
    ((c_zero BandwidthLimits_codec, None) : BandwidthLimits * option error);
  mk_entry "CurrentCPULimits" (λ handle : string, [Any handle])
    ((c_zero CPULimits_codec, None) : CPULimits * option error);
  mk_entry "CurrentDiskLimits" (λ handle : string, [Any handle])
    ((c_zero DiskLimits_codec, None) : DiskLimits * option error);
  mk_entry "CurrentMemoryLimits" (λ handle : string, [Any handle])
    ((c_zero MemoryLimits_codec, None) : MemoryLimits * option error);
  mk_entry "Run" (λ '((handle, spec, io) : string * ProcessSpec * process_io), [Any handle; Any spec; Any io])
    ((None, None) : option started * option error);
  mk_entry "Attach" (λ '((handle, processID, io) : string * string * process_io), [Any handle; Any processID; Any io])
    ((None, None) : option started * option error);
  mk_entry "NetIn" (λ '((handle, hostPort, containerPort) : string * Z * Z), [Any handle; Any hostPort; Any containerPort])
    ((0%Z, 0%Z, None) : Z * Z * option error);
  mk_entry "NetOut" (λ '((handle, rule) : string * NetOutRule), [Any handle; Any rule]) (None : option error);
  mk_entry "BulkNetOut" (λ '((handle, rules) : string * slice NetOutRule), [Any handle; Any rules])
    (None : option error);
  mk_entry "SetGraceTime" (λ '((handle, graceTime) : string * Duration), [Any handle; Any graceTime])
    (None : option error);
  mk_entry "Properties" (λ handle : string, [Any handle]) ((None, None) : gomap string * option error);
  mk_entry "Property" (λ '((handle, name) : string * string), [Any handle; Any name])
    (("", None) : string * option error);
  mk_entry "SetProperty" (λ '((handle, name, value) : string * string * string), [Any handle; Any name; Any value])
    (None : option error);
  mk_entry "Metrics" (λ handle : string, [Any handle]) ((c_zero Metrics_codec, None) : Types.Metrics * option error);
  mk_entry "RemoveProperty" (λ '((handle, name) : string * string), [Any handle; Any name]) (None : option error)
].

(** The struct. *)
Definition FakeConnection : Type := fake (W := W) sig.

(** The functions of each method. *)
Abbreviation functions := (functions (W := W) (sg := sig)).
Definition Ping : functions unit (option error) := without_args Older (field_at sig 0).
Definition Capacity : functions unit (Types.Capacity * option error)%type := without_args Older (field_at sig 1).
Definition Create : functions ContainerSpec (string * option error)%type := with_args Older (field_at sig 2).
Definition List : functions (gomap string) (slice string * option error)%type := with_args Older (field_at sig 3).
Definition Destroy : functions string (option error) := with_args Older (field_at sig 4).
Definition Stop : functions (string * bool)%type (option error) := with_args Older (field_at sig 5).
Definition Info : functions string (ContainerInfo * option error)%type := with_args Older (field_at sig 6).
Definition BulkInfo : functions (slice string) (gomap ContainerInfoEntry * option error)%type :=
  with_args Older (field_at sig 7).
Definition BulkMetrics : functions (slice string) (gomap ContainerMetricsEntry * option error)%type :=
  with_args Older (field_at sig 8).
Definition StreamIn : functions (string * StreamInSpec)%type (option error) := with_args Older (field_at sig 9).
Definition StreamOut : functions (string * StreamOutSpec)%type (option response_body * option error)%type :=
  with_args Older (field_at sig 10).
Definition CurrentBandwidthLimits : functions string (BandwidthLimits * option error)%type :=
  with_args Older (field_at sig 11).
Definition CurrentCPULimits : functions string (CPULimits * option error)%type := with_args Older (field_at sig 12).
Definition CurrentDiskLimits : functions string (DiskLimits * option error)%type := with_args Older (field_at sig 13).
Definition CurrentMemoryLimits : functions string (MemoryLimits * option error)%type :=
  with_args Older (field_at sig 14).
Definition Run : functions (string * ProcessSpec * process_io)%type (option started * option error)%type :=
  with_args Older (field_at sig 15).
Definition Attach : functions (string * string * process_io)%type (option started * option error)%type :=
  with_args Older (field_at sig 16).
Definition NetIn : functions (string * Z * Z)%type (Z * Z * option error)%type := with_args Older (field_at sig 17).
Definition NetOut : functions (string * NetOutRule)%type (option error) := with_args Older (field_at sig 18).
Definition BulkNetOut : functions (string * slice NetOutRule)%type (option error) :=
  with_args Older (field_at sig 19).
Definition SetGraceTime : functions (string * Duration)%type (option error) := with_args Older (field_at sig 20).
Definition Properties : functions string (gomap string * option error)%type := with_args Older (field_at sig 21).
Definition Property : functions (string * string)%type (string * option error)%type :=
  with_args Older (field_at sig 22).
Definition SetProperty : functions (string * string * string)%type (option error) :=
  with_args Older (field_at sig 23).
Definition Metrics : functions string (Types.Metrics * option error)%type := with_args Older (field_at sig 24).
Definition RemoveProperty : functions (string * string)%type (option error) := with_args Older (field_at sig 25).

(** Over all methods. *)
Definition recordInvocation : string → list any → prog eff unit := Counterfeiter.recordInvocation (W := W) (sg := sig).
Definition Invocations : prog eff (gmap string (slice (list any))) := Counterfeiter.Invocations (W := W) (sg := sig).

Lemma FakeConnection_names : NoDup (e_name <$> sig).
Proof. apply (bool_decide_unpack _). by vm_compute. Qed.
End fake.
End FakeConnection.
