(* ===== verification/FakeHijackStreamer.v ===== *)
(** * FakeHijackStreamer (client/connection/connectionfakes/fake_hijack_streamer.go)

    The fake of the interface [HijackStreamer], after the pattern of [Counterfeiter.v]. *)
From S2P Require Import Prelude Types GoJson Errors Codec Backend Prog Counterfeiter Connection.

Module FakeHijackStreamer.
Import Errors Codec Backend Prog Counterfeiter Connection.

Section fake.
Context {W : Type} {Conn : Type}.

(** The arguments of both methods. *)
Definition arguments : Type := string * option bytes * gmap string string * option (gmap string (list string)) * string.
Definition arguments_list : arguments → list any :=
  λ '(handler, body, params, query, contentType), [Any handler; Any body; Any params; Any query; Any contentType].

(** The methods: their arguments and the zero values of their results. *)
Definition sig : list entry := [
  mk_entry "Stream" arguments_list ((None, None) : option response_body * option error);
  mk_entry "Hijack" arguments_list ((None, None, None) : option Conn * option reader * option error)
].

(** The struct. *)
Definition FakeHijackStreamer : Type := fake (W := W) sig.

(** The functions of each method. *)
Abbreviation functions := (functions (W := W) (sg := sig)).
Definition Stream : functions arguments (option response_body * option error)%type :=
  with_args Older (field_at sig 0).
Definition Hijack : functions arguments (option Conn * option reader * option error)%type :=
  with_args Older (field_at sig 1).

(** Over all methods. *)
Definition recordInvocation : string → list any → prog eff unit := Counterfeiter.recordInvocation (W := W) (sg := sig).
Definition Invocations : prog eff (gmap string (slice (list any))) := Counterfeiter.Invocations (W := W) (sg := sig).

Lemma FakeHijackStreamer_names : NoDup (e_name <$> sig).
Proof. apply (bool_decide_unpack _). by vm_compute. Qed.
End fake.
End FakeHijackStreamer.
