(* ===== verification/Delegation.v ===== *)
(** * The client over a fake connection

    The fakes stand for the interfaces they fake: [FakeConnection] is a
    [Connection] and [FakeHijackStreamer] a [HijackStreamer], whose calls are run
    to their end.  Over the fake connection the methods of the client and of its
    containers are seen to be what they are meant to be: one call of the
    connection each, with the container's handle in front. *)
From S2P Require Import Prelude Types GoJson Errors Codec Backend Prog Counterfeiter Connection Client FakeConnection FakeHijackStreamer.

Module Delegation.
Import Errors Prog Counterfeiter Connection.

(** ** Fakes as implementations *)
Section implementations.
Context {W : Type}.

(** A call by the only goroutine. *)
Definition run_io {sg A} (p : prog (eff (W := W) (sg := sg)) A) : io machine A := λ m,
  match run p m with Ended a m' => Some (a, m') | _ => None end.

Abbreviation connection_machine := (machine (W := W) (sg := FakeConnection.sig)).

(** [var _ connection.Connection = new(FakeConnection)] *)
Definition fake_connection : Connection connection_machine :=
  mk_Connection connection_machine
    (run_io (call FakeConnection.Ping ()))
    (run_io (call FakeConnection.Capacity ()))
    (λ spec, run_io (call FakeConnection.Create spec))
    (λ properties, run_io (call FakeConnection.List properties))
    (λ handle, run_io (call FakeConnection.Destroy handle))
    (λ handle kill, run_io (call FakeConnection.Stop (handle, kill)))
    (λ handle, run_io (call FakeConnection.Info handle))
    (λ handles, run_io (call FakeConnection.BulkInfo handles))
    (λ handles, run_io (call FakeConnection.BulkMetrics handles))
    (λ handle spec, run_io (call FakeConnection.StreamIn (handle, spec)))
    (λ handle spec, run_io (call FakeConnection.StreamOut (handle, spec)))
    (λ handle, run_io (call FakeConnection.CurrentBandwidthLimits handle))
    (λ handle, run_io (call FakeConnection.CurrentCPULimits handle))
    (λ handle, run_io (call FakeConnection.CurrentDiskLimits handle))
    (λ handle, run_io (call FakeConnection.CurrentMemoryLimits handle))
    (λ handle spec pio, run_io (call FakeConnection.Run (handle, spec, pio)))
    (λ handle processID pio, run_io (call FakeConnection.Attach (handle, processID, pio)))
    (λ handle hostPort containerPort, run_io (call FakeConnection.NetIn (handle, hostPort, containerPort)))
    (λ handle rule, run_io (call FakeConnection.NetOut (handle, rule)))
    (λ handle rules, run_io (call FakeConnection.BulkNetOut (handle, rules)))
    (λ handle graceTime, run_io (call FakeConnection.SetGraceTime (handle, graceTime)))
    (λ handle, run_io (call FakeConnection.Properties handle))
    (λ handle name, run_io (call FakeConnection.Property (handle, name)))
    (λ handle name value, run_io (call FakeConnection.SetProperty (handle, name, value)))
    (λ handle, run_io (call FakeConnection.Metrics handle))
    (λ handle name, run_io (call FakeConnection.RemoveProperty (handle, name))).

(** [var _ connection.HijackStreamer = new(FakeHijackStreamer)]; of a hijacked
    connection only its reader is used. *)
Definition fake_streamer {Conn : Type} : HijackStreamer (machine (W := W) (sg := FakeHijackStreamer.sig (Conn := Conn))) := {|
  Stream := λ handler body params query contentType,
    run_io (call FakeHijackStreamer.Stream (handler, body, params, query, contentType));
  Hijack := λ handler body params query contentType,
    r ← run_io (call FakeHijackStreamer.Hijack (handler, body, params, query, contentType));
    let '(conn, rd, err) := r in mret (rd, err);
|}.
End implementations.

(** ** One call each *)
Section delegation.
Context {W : Type}.
Abbreviation sig := FakeConnection.sig.
Abbreviation machine := (machine (W := W) (sg := sig)).

(** [p] calls the method of the fake with [a], once, and returns [k] of what the
    call returned. *)
Definition calls_once {e A} (f : field sig e) (a : e_args e) (p : io machine A) (k : e_results e → A) : Prop :=
  ∀ m, free m → ∃ m', p m = Some (k (reply (method_of f m) a (world m)).1, m') ∧
    the_fake m' = called f a (the_fake m) ∧ free m'.

Lemma calls_once_Call {e} (f : field sig e) a : calls_once f a (run_io (Call f a)) id.
Proof.
  intros m Hf. destruct (does_Call f a m Hf) as (m' & Hr & HF & _ & Hf'). exists m'. split; [|done].
  unfold run_io. by rewrite Hr.
Qed.

Lemma calls_once_then {e A} (f : field sig e) a (g : e_results e → io machine A) k :
  (∀ r m, g r m = Some (k r, m)) → calls_once f a (run_io (Call f a) ≫= g) k.
Proof.
  intros Hg m Hf. destruct (calls_once_Call f a m Hf) as (m' & Hr & Hrest). exists m'. split; [|done].
  unfold mbind, io_bind. rewrite Hr. apply Hg.
Qed.

Definition the_client : Client.client machine := Client.New fake_connection.
Definition the_container (h : string) : Client.container machine := Client.newContainer h fake_connection.
Abbreviation at_ n := (field_at sig n).

(** Over a fake connection every method of a client is one call of the
    connection, with its own arguments, and what the call returned is returned;
    [Lookup] asks for all containers, and [Create], [Containers] and [Lookup] make
    containers of the handles. *)
Lemma client_delegates (spec : ContainerSpec) (properties : gomap string) (h : string) (handles : slice string) :
  calls_once (at_ 0) () (Client.Ping the_client) id ∧
  calls_once (at_ 1) () (Client.Capacity the_client) id ∧
  calls_once (at_ 2) spec (Client.Create the_client spec)
    (λ '(h, err), match err with Some err => (None, Some err) | None => (Some (the_container h), None) end) ∧
  calls_once (at_ 3) properties (Client.Containers the_client properties)
    (λ '(hs, err), match err with Some err => (None, Some err) | None => (Some (the_container <$> default [] hs), None) end) ∧
  calls_once (at_ 4) h (Client.Destroy the_client h) id ∧
  calls_once (at_ 7) handles (Client.BulkInfo the_client handles) id ∧
  calls_once (at_ 8) handles (Client.BulkMetrics the_client handles) id ∧
  calls_once (at_ 3) None (Client.Lookup the_client h)
    (λ '(hs, err), match err with
                   | Some err => (None, Some err)
                   | None => if bool_decide (h ∈ default [] hs) then (Some (the_container h), None)
                             else (None, Some (ContainerNotFoundError h))
                   end).
Proof.
  repeat apply conj; try exact (calls_once_Call _ _).
  - refine (calls_once_then (at_ 2) spec (λ r, match r with (_, Some err) => mret (None, Some err)
      | (h, None) => mret (Some (the_container h), None) end) _ _). by intros [r [err|]] m.
  - refine (calls_once_then (at_ 3) properties (λ r, match r with (_, Some err) => mret (None, Some err)
      | (hs, None) => mret (Some (the_container <$> default [] hs), None) end) _ _). by intros [r [err|]] m.
  - refine (calls_once_then (at_ 3) None (λ r, match r with (_, Some err) => mret (None, Some err)
      | (hs, None) => if bool_decide (h ∈ default [] hs) then mret (Some (the_container h), None)
                      else mret (None, Some (ContainerNotFoundError h)) end) _ _).
    intros [r [err|]] m; [done|]. by destruct (bool_decide _).
Qed.

(** So are the methods of a container: one call of the connection each, with the
    container's handle and the method's own arguments. *)
Lemma container_delegates (h : string) (kill : bool) (si : StreamInSpec) (so : StreamOutSpec) (spec : ProcessSpec)
    (pio : process_io) (pid name value : string) (hostPort containerPort : Z) (rule : NetOutRule)
    (rules : slice NetOutRule) (graceTime : Duration) :
  let c := the_container h in
  calls_once (at_ 5) (h, kill) (Client.Stop c kill) id ∧
  calls_once (at_ 6) h (Client.Info c) id ∧
  calls_once (at_ 9) (h, si) (Client.StreamIn c si) id ∧
  calls_once (at_ 10) (h, so) (Client.StreamOut c so) id ∧
  calls_once (at_ 11) h (Client.CurrentBandwidthLimits c) id ∧
  calls_once (at_ 12) h (Client.CurrentCPULimits c) id ∧
  calls_once (at_ 13) h (Client.CurrentDiskLimits c) id ∧
  calls_once (at_ 14) h (Client.CurrentMemoryLimits c) id ∧
  calls_once (at_ 15) (h, spec, pio) (Client.Run c spec pio) id ∧
  calls_once (at_ 16) (h, pid, pio) (Client.Attach c pid pio) id ∧
  calls_once (at_ 17) (h, hostPort, containerPort) (Client.NetIn c hostPort containerPort) id ∧
  calls_once (at_ 18) (h, rule) (Client.NetOut c rule) id ∧
  calls_once (at_ 19) (h, rules) (Client.BulkNetOut c rules) id ∧
  calls_once (at_ 20) (h, graceTime) (Client.SetGraceTime c graceTime) id ∧
  calls_once (at_ 21) h (Client.Properties c) id ∧
  calls_once (at_ 22) (h, name) (Client.Property c name) id ∧
  calls_once (at_ 23) (h, name, value) (Client.SetProperty c name value) id ∧
  calls_once (at_ 24) h (Client.Metrics c) id ∧
  calls_once (at_ 25) (h, name) (Client.RemoveProperty c name) id.
Proof. intros c. repeat apply conj; exact (calls_once_Call _ _). Qed.
End delegation.
End Delegation.
