(* ===== verification/Godoc.v ===== *)
(** * The documentation publisher (scripts/update-godoc/main.go)

    A script that asks godoc.org to refresh the page of every package, all at
    once: its main goroutine and those it starts, interleaved. *)
From S2P Require Import Prelude Types Utf8 Url Prog.

Module Godoc.
Import Utf8 Url Prog.

(** ** Actions *)
Inductive message :=
| Unlisted (err : string)
| Updating (pkg : string)
| Failed (pkg err : string)
| Unexpected (pkg : string) (status : Z).

(** What the script does outside: it runs [go list ./...], ends with [log.Fatal],
    uses the wait group, starts a goroutine for a package, logs and posts. *)
Inductive eff : Type → Type :=
| CombinedOutput : eff (bytes * option string)
| Fatal (err : string) : eff unit
| Add (n : Z) : eff unit
| Go (pkg : string) : eff unit
| Wait : eff unit
| Done : eff unit
| Printf (m : message) : eff unit
| Post (url contentType : string) (body : bytes) : eff (result string Z).

(** ** The functions *)

Definition refresh (pkg : string) : bytes := to_bytes "path=" ++ QueryEscape pkg.

(** A response is its status; there is none after an error, and [resp.Body] of
    nil is a panic. *)
Definition updatePackageGodoc (pkg : string) : prog eff unit :=
  pdefer (act Done) (
    act (Printf (Updating pkg));;
    resp ← act (Post "http://godoc.org/-/refresh" "application/x-www-form-urlencoded" (refresh pkg));
    match resp with
    | Err err => act (Printf (Failed pkg err));; Panic
    | Ok status => if decide (status = 200%Z) then Ret () else act (Printf (Unexpected pkg status))
    end).

Fixpoint update_all (packages : list string) : prog eff unit :=
  match packages with
  | [] => Ret ()
  | pkg :: packages' =>
      if decide (pkg = "") then update_all packages'
      else act (Add 1);; act (Go pkg);; update_all packages'
  end.

Definition split_lines (output : bytes) : list string := of_bytes <$> split_bytes (chr 10) output.

Definition main : prog eff unit :=
  r ← act CombinedOutput;
  let '(output, err) := (r : bytes * option string) in
  match err with
  | Some err => act (Fatal err)
  | None => update_all (split_lines output);; act Wait
  end.

(** ** The script *)

(** The wait group, what was posted, what was logged, and the exit status of a
    script that does not end by itself. *)
Record world := mk_world {
  wg : Z;
  posts : list bytes;
  log : list message;
  exit : option Z;
}.
Definition new_world : world := mk_world 0 [] [] None.

Definition perform {R} (e : eff R) (w : world) : world :=
  match e with
  | Fatal err => mk_world (wg w) (posts w) (log w ++ [Unlisted err]) (Some 1%Z)
  | Add n => mk_world (wg w + n) (posts w) (log w) (exit w)
  | Done => mk_world (wg w - 1) (posts w) (log w) (exit w)
  | Printf m => mk_world (wg w) (posts w) (log w ++ [m]) (exit w)
  | Post _ _ body => mk_world (wg w) (posts w ++ [body]) (log w) (exit w)
  | CombinedOutput | Go _ | Wait => w
  end.

Definition enabled {R} (e : eff R) (w : world) : bool :=
  match e with Wait => (wg w =? 0)%Z | _ => true end.
Definition spawned {R} (e : eff R) : list (prog eff unit) :=
  match e with Go pkg => [updatePackageGodoc pkg] | _ => [] end.

Section script.
(** The answer of [go list ./...]. *)
Context (listed : bytes * option string).

Definition possible {R} (e : eff R) : R → Prop :=
  match e with CombinedOutput => λ r, r = listed | _ => λ _, True end.

(** The first goroutine is that of [main], with which the script ends. *)
Definition over (st : world * list (prog eff unit)) : bool :=
  match exit st.1, st.2 with Some _, _ | _, Ret _ :: _ => true | _, _ => false end.

Inductive step : world * list (prog eff unit) → world * list (prog eff unit) → Prop :=
| step_act w ts i R (e : eff R) k r :
    over (w, ts) = false → ts !! i = Some (Act e k) → enabled e w = true → possible e r →
    step (w, ts) (perform e w, <[i := k r]> ts ++ spawned e)
(** a panic ends the script, with status 2 *)
| step_crash w ts i :
    over (w, ts) = false → ts !! i = Some Panic →
    step (w, ts) (mk_world (wg w) (posts w) (log w) (Some 2%Z), ts).

(** ** The protocol of its goroutines *)

(** What a goroutine has done: [main], whether it has added to the wait group for
    a goroutine that it has not started yet, the packages it has started
    goroutines for, and whether it has waited; one of those, whether it has
    posted and whether it has told the wait group. *)
Record goroutine := mk_goroutine {
  g_pkg : string;
  g_posted : bool;
  g_told : bool;
}.

Inductive tstate :=
| TMain (added : bool) (gone : list string) (waited : bool)
| TGo (g : goroutine).

Definition allow {R} (e : eff R) (t : tstate) : Prop :=
  match e, t with
  | CombinedOutput, TMain false [] false | Add 1, TMain false _ false
  | Go _, TMain true _ false | Wait, TMain false _ false
  | Printf _, TGo _ | Done, TGo (mk_goroutine _ true false) => True
  | Post _ _ body, TGo (mk_goroutine pkg false false) => body = refresh pkg
  | _, _ => False
  end.

Definition next {R} (e : eff R) (r : R) (t : tstate) : tstate :=
  match e, t with
  | Add _, TMain _ gone waited => TMain true gone waited
  | Go pkg, TMain _ gone waited => TMain false (gone ++ [pkg]) waited
  | Wait, TMain added gone _ => TMain added gone true
  | Post _ _ _, TGo g => TGo (mk_goroutine (g_pkg g) true (g_told g))
  | Done, TGo g => TGo (mk_goroutine (g_pkg g) (g_posted g) true)
  | _, _ => t
  end.

Definition packages (output : bytes) : list string := filter (λ pkg, pkg ≠ "") (split_lines output).

(** How a goroutine ends. *)
Definition ends (output : bytes) (o : option unit) (t : tstate) : Prop :=
  match t with
  | TMain _ gone waited => o = Some () ∧ gone = packages output ∧ waited = true
  | TGo g => g_told g = true
  end.

Abbreviation follows := (λ output t p, wp (@allow) (@possible) (@next) t p (ends output)).

Lemma update_follows output pkg : follows output (TGo (mk_goroutine pkg false false)) (updatePackageGodoc pkg).
Proof.
  cbn. split; [done|]. intros [] _. split; [done|]. intros [status|err] _.
  - destruct (decide (status = 200%Z)); cbn; [split; [done|]; by intros [] _|].
    split; [done|]. intros [] _. split; [done|]. by intros [] _.
  - cbn. split; [done|]. intros [] _. split; [done|]. by intros [] _.
Qed.

Lemma update_all_follows output pkgs gone (k : prog eff unit) :
  follows output (TMain false (gone ++ filter (λ pkg, pkg ≠ "") pkgs) false) k →
  follows output (TMain false gone false) (update_all pkgs;; k).
Proof.
  revert gone. induction pkgs as [|pkg pkgs IH]; intros gone Hk; cbn [update_all].
  - by rewrite app_nil_r in Hk.
  - rewrite filter_cons in Hk. destruct (decide (pkg = "")) as [->|Hne].
    + rewrite decide_False in Hk by (by intros ?). by apply IH.
    + rewrite decide_True in Hk by done. cbn. split; [done|]. intros [] _. split; [done|]. intros [] _.
      apply (IH (gone ++ [pkg])). by rewrite <- app_assoc.
Qed.

Lemma main_follows output : listed = (output, None) → follows output (TMain false [] false) main.
Proof.
  intros Hl. cbn. split; [done|]. intros r ->. rewrite Hl.
  apply (update_all_follows output (split_lines output) [] (act Wait)). cbn. split; [done|]. by intros [] _.
Qed.

(** ** What every interleaving keeps *)
Definition busy (g : goroutine) : bool := negb (g_told g).
Definition posted (g : goroutine) : option bytes := if g_posted g then Some (refresh (g_pkg g)) else None.

Record sane (output : bytes) (w : world) (ts : list (prog eff unit)) (added : bool) (gone : list string)
    (waited : bool) (gs : list goroutine) : Prop := {
  sa_follow : Forall2 (λ p t, follows output t p) ts (TMain added gone waited :: (TGo <$> gs));
  sa_gone : g_pkg <$> gs = gone;
  sa_wg : wg w = ((if added then 1 else 0) + Z.of_nat (count busy gs))%Z;
  sa_posts : posts w ≡ₚ omap posted gs;
  sa_told g : g ∈ gs → g_told g = true → g_posted g = true;
  sa_waited : waited = true → added = false ∧ count busy gs = 0%nat;
}.

Lemma omap_posted_insert gs j g g' :
  gs !! j = Some g → posted g = None →
  omap posted (<[j := g']> gs) ≡ₚ option_list (posted g') ++ omap posted gs.
Proof.
  revert j. induction gs as [|x gs IH]; intros [|j] Hj Hg; try done.
  - injection Hj as ->. cbn. rewrite Hg. by destruct (posted g').
  - change (<[S j := g']> (x :: gs)) with (x :: <[j := g']> gs). cbn. specialize (IH j Hj Hg).
    destruct (posted x); [|done]. rewrite IH. by destruct (posted g'); cbn; [apply Permutation_swap|].
Qed.

Lemma omap_posted_same (gs : list goroutine) (j : nat) g g' :
  gs !! j = Some g → posted g' = posted g → omap posted (<[j := g']> gs) = omap posted gs.
Proof.
  revert j. induction gs as [|x gs IH]; intros [|j] Hj Hg; try done.
  - injection Hj as ->. cbn. by rewrite Hg.
  - change (<[S j := g']> (x :: gs)) with (x :: <[j := g']> gs). cbn. by rewrite (IH j Hj Hg).
Qed.

(** A goroutine of a package moves on. *)
Lemma sane_go output w w' ts added gone waited gs j g g' (p : prog eff unit) :
  sane output w ts added gone waited gs → gs !! j = Some g → follows output (TGo g') p →
  g_pkg g' = g_pkg g → wg w' = (wg w + (if busy g' then 1 else 0) - (if busy g then 1 else 0))%Z →
  posts w' ≡ₚ omap posted (<[j := g']> gs) → (g_told g' = true → g_posted g' = true) → (busy g' = true → busy g = true) →
  sane output w' (<[S j := p]> ts) added gone waited (<[j := g']> gs).
Proof.
  intros [Hf Hgo Hwg Hp Ht Hw] Hj Hfp Hpk Hwg' Hp' Ht' Hb'. pose proof (count_insert busy gs j g g' Hj) as Hcnt. split.
  - destruct ts as [|p0 ts]; [by apply Forall2_nil_inv_l in Hf|]. apply Forall2_cons in Hf as [Hf0 Hf].
    cbn [insert list_insert]. constructor; [done|]. rewrite list_fmap_insert. by apply Forall2_insert.
  - rewrite list_fmap_insert, Hpk, Hgo. apply list_insert_id. by rewrite <- Hgo, list_lookup_fmap, Hj.
  - destruct (busy g), (busy g'), added; lia.
  - done.
  - intros x [k Hk]%list_elem_of_lookup. destruct (decide (j = k)) as [<-|Hne].
    + rewrite list_lookup_insert_eq in Hk by (by eapply lookup_lt_Some). by simplify_eq.
    + rewrite list_lookup_insert_ne in Hk by done. by eapply Ht, list_elem_of_lookup_2.
  - intros Hwd. destruct (Hw Hwd) as [? Hz]. split; [done|]. pose proof (count_pos busy gs j g Hj).
    destruct (busy g), (busy g'); try lia; specialize (Hb' eq_refl); done.
Qed.

Definition saved (output : bytes) (st : world * list (prog eff unit)) : Prop :=
  ∃ added gone waited gs, sane output st.1 st.2 added gone waited gs.

Lemma main_step output w ts added gone waited gs R (e : eff R) k r :
  sane output w (Act e k :: ts) added gone waited gs → enabled e w = true → possible e r →
  saved output (perform e w, (k r :: ts) ++ spawned e).
Proof.
  intros [Hf Hgo Hwg Hp Ht Hw] He Hr. apply Forall2_cons in Hf as [[Ha Hk] Hf]. specialize (Hk r Hr).
  destruct e as [|err|n|pkg| | |m|u ct body]; try done; cbn [perform spawned next] in *; rewrite ?app_nil_r; unfold saved; cbn [fst snd].
  - exists added, gone, waited, gs. by split; [constructor|..].
  - destruct added, waited; try (by destruct n as [|[]|]). destruct n as [|[]|]; try done.
    exists true, gone, false, gs. split; cbn [wg posts]; try done; [by constructor|]. lia.
  - destruct added, waited; try done. exists false, (gone ++ [pkg]), false, (gs ++ [mk_goroutine pkg false false]).
    split; try done.
    + rewrite fmap_app. cbn [app]. constructor; [done|]. apply Forall2_app; [done|].
      constructor; [apply update_follows|constructor].
    + by rewrite fmap_app, Hgo.
    + rewrite count_snoc. cbn. lia.
    + rewrite omap_app. cbn. by rewrite app_nil_r.
    + intros g [Hg| ->%list_elem_of_singleton]%elem_of_app; [by apply Ht|done].
  - destruct added, waited; try done. exists false, gone, true, gs. split; try done; [by constructor|].
    intros _. apply Z.eqb_eq in He. split; [done|]. lia.
Qed.

Lemma go_step output w ts added gone waited gs j g R (e : eff R) k r :
  sane output w ts added gone waited gs → gs !! j = Some g → ts !! S j = Some (Act e k) → possible e r →
  saved output (perform e w, <[S j := k r]> ts ++ spawned e).
Proof.
  intros Hs Hj Hts Hr. pose proof Hs as [Hf Hgo Hwg Hp Ht Hw].
  destruct (Forall2_lookup_l _ _ _ _ _ Hf Hts) as (t & Htt & Ha & Hk). change ((TGo <$> gs) !! j = Some t) in Htt. rewrite list_lookup_fmap, Hj in Htt.
  injection Htt as <-. specialize (Hk r Hr). destruct g as [pkg po to].
  destruct e as [|err|n|pkg'| | |m|u ct body]; try done; cbn [allow] in Ha; try (by destruct n as [|[]|]);
    cbn [perform spawned next] in *; rewrite ?app_nil_r; unfold saved; cbn [fst snd].
  - destruct po, to; try done. exists added, gone, waited, (<[j := mk_goroutine pkg true true]> gs).
    eapply sane_go; [done..| | |done|done]; [cbn; lia|]. cbn [posts]. rewrite Hp.
    by rewrite (omap_posted_same gs j _ _ Hj).
  - exists added, gone, waited, (<[j := mk_goroutine pkg po to]> gs).
    eapply sane_go; [done..| | | |done]; [cbn; lia| |].
    + cbn [posts]. by rewrite list_insert_id.
    + by eapply Ht, list_elem_of_lookup_2.
  - destruct po, to; try done. subst body. exists added, gone, waited, (<[j := mk_goroutine pkg true false]> gs).
    eapply sane_go; [done..| | |done|done]; [cbn; lia|]. cbn [posts].
    rewrite (omap_posted_insert gs j _ _ Hj), Hp by done. cbn. by rewrite Permutation_app_comm.
Qed.

Lemma saved_step output st st' : saved output st → step st st' → saved output st'.
Proof.
  intros (added & gone & waited & gs & Hs) Hst. destruct Hst as [w ts i R e k r Hov Hi He Hr|w ts i Hov Hi]; cbn [fst snd] in Hs.
  - destruct i as [|j].
    + destruct ts as [|p ts]; [done|]. injection Hi as ->. by eapply main_step.
    + destruct (Forall2_lookup_l _ _ _ _ _ (sa_follow _ _ _ _ _ _ _ Hs) Hi) as (t & Ht & _).
      change ((TGo <$> gs) !! j = Some t) in Ht. rewrite list_lookup_fmap in Ht. destruct (gs !! j) as [g|] eqn:Hj; [|done]. by eapply go_step.
  - exists added, gone, waited, gs. by destruct Hs.
Qed.

Lemma saved_run output w ts :
  listed = (output, None) → rtc step (new_world, [main]) (w, ts) → saved output (w, ts).
Proof.
  intros Hl Hr. assert (saved output (new_world, [main])) as Hs.
  { exists false, [], false, []. split; try done; [constructor; [by apply main_follows|constructor]|by intros g ?%elem_of_nil]. }
  induction Hr as [|x y z Hxy Hyz IH]; [done|]. by eapply IH, saved_step.
Qed.

Definition returned (p : prog eff unit) : bool := match p with Ret _ => true | _ => false end.

Lemma answered {R} (e : eff R) : ∃ r, possible e r.
Proof. destruct e; try (by exists ()); [by eexists|by exists (Ok 200%Z)]. Qed.

Lemma all_told output ts gs :
  Forall2 (λ p t, follows output t p) ts (TGo <$> gs) → (∀ p, p ∈ ts → returned p = true) → count busy gs = 0%nat.
Proof.
  intros Hf Hr. apply count_zero. intros g [j Hj]%list_elem_of_lookup.
  destruct (Forall2_lookup_r _ _ _ j (TGo g) Hf) as (p & Hp & Hfp); [by rewrite list_lookup_fmap, Hj|].
  specialize (Hr p (list_elem_of_lookup_2 _ _ _ Hp)). destruct p; try done. cbn in Hfp. unfold busy. by rewrite Hfp.
Qed.

(** As long as the script is not over, it can go on. *)
Lemma saved_progress output w ts :
  saved output (w, ts) → over (w, ts) = false → ∃ st', step (w, ts) st'.
Proof.
  intros (added & gone & waited & gs & [Hf _ Hwg _ _ _]) Hov. cbn [fst snd] in *.
  destruct ts as [|p0 ts]; [by apply Forall2_nil_inv_l in Hf|]. apply Forall2_cons in Hf as [Hf0 Hf].
  destruct (decide (Exists (λ p, returned p = false) ts)) as [(p & [j Hj]%list_elem_of_lookup & Hp)%Exists_exists|Hall].
  - destruct (Forall2_lookup_l _ _ _ _ _ Hf Hj) as (t & (g & -> & Hg)%list_lookup_fmap_Some & Hfp).
    destruct p as [[]| |R e k]; [done|eexists; by apply (step_crash w (p0 :: ts) (S j))|].
    destruct Hfp as [Ha _]. destruct (answered e) as [r Hr].
    eexists. apply (step_act w (p0 :: ts) (S j) R e k r); [done..| |done]. by destruct e.
  - assert (count busy gs = 0%nat) as Hz.
    { eapply all_told; [done|]. intros p Hp. destruct (returned p) eqn:E; [done|]. destruct Hall. apply Exists_exists. by exists p. }
    destruct p0 as [[]| |R e k]; [by unfold over in Hov; cbn in Hov; destruct (exit w)|by destruct Hf0|].
    destruct Hf0 as [Ha _]. destruct (answered e) as [r Hr].
    eexists. apply (step_act w (Act e k :: ts) 0 R e k r); [done..| |done]. destruct e; try done.
    destruct added; [done|]. cbn. apply Z.eqb_eq. lia.
Qed.

(** C33 The publisher asks for every package once: whatever the order in which its
    goroutines act and whatever the service answers, when its main goroutine has
    returned, there was exactly one request for each package listed, with its
    name escaped, and until the script is over it is never stuck. *)
Theorem every_package_refreshed (output : bytes) (w : world) (ts : list (prog eff unit))
    (Hlisted : listed = (output, None)) (Hrun : rtc step (new_world, [main]) (w, ts)) :
  (ts !! 0%nat = Some (Ret ()) → posts w ≡ₚ refresh <$> packages output) ∧
  (over (w, ts) = false → ∃ st', step (w, ts) st').
Proof.
  pose proof (saved_run output w ts Hlisted Hrun) as Hs. split; [|by eapply saved_progress].
  destruct Hs as (added & gone & waited & gs & [Hf Hgo Hwg Hp Ht Hw]). cbn [fst snd] in *. intros Hm.
  destruct ts as [|p0 ts]; [done|]. injection Hm as ->. apply Forall2_cons in Hf as [(_ & Hg & ->) _].
  destruct (Hw eq_refl) as [_ Hz]. rewrite Hp, <- Hg, <- Hgo. clear - Ht Hz.
  induction gs as [|g gs IH]; [done|]. rewrite count_cons in Hz. cbn. unfold posted at 1.
  rewrite (Ht g) by (by left || (unfold busy in Hz; destruct (g_told g); [done|cbn in Hz; lia])).
  constructor. apply IH; [|lia]. intros g' ?. apply Ht. by right.
Qed.

Lemma main_not_over pkgs w ts : exit w = None → over (w, pbind (λ _, act Wait) (update_all pkgs) :: ts) = false.
Proof.
  intros He. unfold over. cbn [fst snd]. rewrite He.
  induction pkgs as [|pkg pkgs IH]; [done|]. cbn [update_all]. by destruct (decide (pkg = "")).
Qed.

Local Ltac goes i e r :=
  eapply rtc_l; [eapply (step_act _ _ i _ e _ r);
    [first [reflexivity|by apply main_not_over]|reflexivity|reflexivity|done]|];
  cbn [mbind prog_bind pdefer act main insert list_insert spawned app perform].

Lemma update_all_filter pkgs : update_all pkgs = update_all (filter (λ pkg, pkg ≠ "") pkgs).
Proof.
  induction pkgs as [|pkg pkgs IH]; [done|]. rewrite filter_cons. cbn [update_all].
  destruct (decide (pkg = "")) as [->|Hne].
  - by rewrite decide_False by (by intros ?).
  - rewrite decide_True by done. cbn [update_all]. rewrite decide_False by done. by rewrite IH.
Qed.

(** One request that fails is enough to end the script: the response is nil, and
    the goroutine panics where it defers the closing of its body; the packages
    that were not asked for by then never are. *)
Lemma failed_post_crashes (output : bytes) (pkg : string) (rest : list string) (err : string) :
  listed = (output, None) → packages output = pkg :: rest →
  ∃ w ts, rtc step (new_world, [main]) (w, ts) ∧ exit w = Some 2%Z ∧ posts w = [refresh pkg].
Proof.
  intros Hl Hp. assert (pkg ≠ "") as Hne.
  { assert (pkg ∈ packages output) as [? _]%list_elem_of_filter by (rewrite Hp; by left). done. }
  eexists _, _. split; [|split].
  - goes 0 CombinedOutput listed.
    rewrite Hl. cbn [mbind prog_bind insert list_insert spawned app perform].
    rewrite update_all_filter. fold (packages output). rewrite Hp. cbn [update_all]. rewrite decide_False by done.
    goes 0 (Add 1) tt.
    goes 0 (Go pkg) tt.
    goes 1 (Printf (Updating pkg)) tt.
    goes 1 (Post "http://godoc.org/-/refresh" "application/x-www-form-urlencoded" (refresh pkg)) (Err (E := string) (A := Z) err).
    goes 1 (Printf (Failed pkg err)) tt.
    goes 1 Done tt.
    eapply rtc_l; [eapply (step_crash _ _ 1); [by apply main_not_over|done]|]. apply rtc_refl.
  - done.
  - done.
Qed.
End script.

(** ** An example: two packages *)
Definition example_output : bytes := to_bytes "a/b" ++ [chr 10] ++ to_bytes "c" ++ [chr 10].

Local Ltac does i r :=
  eapply rtc_l; [eapply (step_act _ _ _ i _ _ _ r); vm_compute; reflexivity || exact I|];
  match goal with |- rtc _ (?w, _) _ => let w' := eval vm_compute in w in change w with w' end;
  cbn [mbind prog_bind pbind pdefer act main insert list_insert spawned app update_all].

Lemma two_packages :
  ∃ w ts, rtc (step (example_output, None)) (new_world, [main]) (w, ts) ∧ ts !! 0%nat = Some (Ret ()) ∧
    log w = [Updating "c"; Updating "a/b"; Unexpected "a/b" 404].
Proof.
  eexists _, _. split.
  - does 0%nat (example_output, None (A := string)). does 0%nat tt. does 0%nat tt. does 0%nat tt. does 0%nat tt.
    does 2%nat tt. does 1%nat tt. does 1%nat (Ok (E := string) 404%Z). does 2%nat (Ok (E := string) 200%Z).
    does 1%nat tt. does 1%nat tt. does 2%nat tt. does 0%nat tt. apply rtc_refl.
  - by vm_compute.
Qed.

Lemma every_package_refreshed_witness :
  ∃ w, log w = [Updating "c"; Updating "a/b"; Unexpected "a/b" 404] ∧
    posts w ≡ₚ [to_bytes "path=a%2Fb"; to_bytes "path=c"].
Proof.
  destruct two_packages as (w & ts & Hr & Hm & Hlog). exists w. split; [done|].
  exact (proj1 (every_package_refreshed (example_output, None) example_output w ts eq_refl Hr) Hm).
Defined.
End Godoc.
