(* ===== verification/EndToEnd.v ===== *)
(** * Client and server together

    The client's connection over a network whose other end is the server: a
    request is written as a URL, routed, handled, and its response read.  Every
    call is shown to do what the backend does when it is called directly. *)
From S2P Require Import Prelude Types Utf8 Json GoJson Errors Codec Url Routes Backend Sample Bomberman Streamer Prog Handlers Server ProcessStream Connection Client.

Module EndToEnd.
Import Utf8 Json GoJson Errors Codec Url Backend Prog Handlers Server Connection.

(** The side conditions of a call: its route and the captures of its path. *)
Ltac route := first [by vm_compute | done | by apply map_Forall_empty].

Section end_to_end.
Context {C P B : Type} `{Backend C P B} `{JsonText}.

(** ** The network *)

(** What goes on outside the server, and what the client reports of a connection
    that the server has dropped. *)
Context (x : env P) (lost : error).

Abbreviation server := (GardenServer C B).

(** What the client gets of a handler that has run: net/http answers 200 when the
    handler did not say otherwise, and drops the connection of one that has
    panicked. *)
Definition http_response_of (w : response) : http_response :=
  mk_http_response (default 200%Z (rs_status w)) (mk_body (mk_reader (rs_body w) None) None).

Definition respond (r : ran unit) : option (result error (http_response * reader) * server) :=
  match r with
  | Returns _ s w => Some (Ok (http_response_of w, mk_reader (rs_conn w) None), s)
  | Panics s _ => Some (Err lost, s)
  | Blocked | Crashes => None
  end.

(** The answers that are not a handler's (net/http and pat). *)
Definition plain_response (status : Z) (text : string) : http_response * reader :=
  (mk_http_response status (mk_body (mk_reader (to_bytes text) None) None), mk_reader [] None).

Definition serve_request (req : http_request) : io server (result error (http_response * reader)) := λ s,
  match Routes.NewRouter Routes.Routes (handlers (containerGraceTime s)), Parse (URL_String (hr_url req)) with
  | Ok mux, Some u =>
      match Routes.ServeHTTP mux (hr_method req) u with
      | Routes.Calls h q => respond (run x (h (mk_request (ParseQuery q) (default [] (hr_body req)))) s new_response)
      | Routes.Redirects => Some (Ok (plain_response 301 ""), s)
      | Routes.NotAllowed => Some (Ok (plain_response 405 "Method Not Allowed"), s)
      | Routes.NotFound => Some (Ok (plain_response 404 "404 page not found"), s)
      end
  | Ok _, None => Some (Ok (plain_response 400 "400 Bad Request"), s)
  | Err _, _ => None
  end.

#[local] Instance loopback : Network server := {|
  Do dial req := derr ← dial "tcp" "api:80";
    match derr with Some err => mret (Err err) | None => r ← serve_request req; mret (rmap fst r) end;
  DialTimeout _ _ _ := mret None;
  ClientDo := serve_request;
|}.

(** The connection to the server's address, a client over it, and the container
    of a handle. *)
Context (network address : string).
Abbreviation hijacker := (NewHijackStreamer (S := server) network address).
#[local] Instance connected : HijackStreamer server := hijack_streamer hijacker.
Definition the_client : Client.client server := Client.New (Connection.New network address).
Definition container_of (h : string) : Client.container server :=
  Client.newContainer h (Client.client_connection the_client).

Lemma Do_eq req s :
  Do (dialer hijacker) req s = match serve_request req s with Some (r, s') => Some (rmap fst r, s') | None => None end.
Proof. reflexivity. Qed.

(** ** A request reaches its handler *)
Definition handler_named (g : Duration) (name : string) : request → prog eff unit :=
  default (λ _, Ret ()) (handlers g name).

Lemma handlers_named g r :
  r ∈ Routes.Routes → handlers g (Routes.Name r) = Some (handler_named g (Routes.Name r)).
Proof.
  assert (Forall (λ r, is_Some (handlers g (Routes.Name r))) Routes.Routes) as Hall by (repeat constructor; by eexists).
  intros Hr. rewrite Forall_forall in Hall. destruct (Hall r Hr) as [h Hh]. unfold handler_named. by rewrite Hh.
Qed.

(** The request a handler sees. *)
Definition request_of (r : Routes.Route) (params : gmap string string)
    (query : gmap string (list string)) (body : option bytes) : request :=
  mk_request (foldl add_value (Routes.path_values params r) (pairs query)) (default [] body).

Lemma create_query r params query body contentType :
  r ∈ Routes.Routes → Routes.params_ok params r = true →
  map_Forall (λ _ vs, vs ≠ []) (default ∅ query) →
  ∃ u, create hijacker (Routes.Name r) body params query contentType
       = Ok (mk_http_request (Routes.Method r) u (request_header (Some ∅) contentType) body) ∧
    ∀ s, serve_request (mk_http_request (Routes.Method r) u (request_header (Some ∅) contentType) body) s =
      respond (run x (handler_named (containerGraceTime s) (Routes.Name r)
        (request_of r params (default ∅ query) body)) s new_response).
Proof.
  intros Hr Hp Hq.
  assert (∀ g, ∃ p u u' q, Routes.NewRouter Routes.Routes (handlers g) = Ok p ∧
    Routes.CreateRequest (Routes.Name r) params = Ok (Routes.Method r, u) ∧ RawQuery u = [] ∧
    Parse (URL_String (Routes.with_query u (Values_Encode (default ∅ query)))) = Some u' ∧
    Routes.ServeHTTP p (Routes.Method r) u' = Routes.Calls (handler_named g (Routes.Name r)) q ∧
    ParseQuery q = foldl add_value (Routes.path_values params r) (pairs (default ∅ query))) as Hroute.
  { intros g. destruct (Routes.Routes_mux (handler_named g) (handlers g) (handlers_named g)) as (p & Hmux & Hm).
    destruct (Routes.route_delivers (handler_named g) (handlers g) r params (default ∅ query) p Hm Hr Hp Hq Hmux)
      as (u & u' & q & Hall). exists p, u, u', q. exact (conj Hmux Hall). }
  destruct (Hroute 0%Z) as (_ & u & _ & _ & _ & Hc & Hraw & _).
  exists (match query with Some q => Routes.with_query u (Values_Encode q) | None => u end).
  unfold create. rewrite Hc. split; [reflexivity|]. intros s.
  destruct (Hroute (containerGraceTime s)) as (p & u2 & u' & q & Hmux & Hc2 & _ & Hu & Hs & Hpq).
  rewrite Hc in Hc2. injection Hc2 as <-. unfold serve_request. cbn [hr_url hr_method hr_body].
  rewrite Hmux.
  assert (Parse (URL_String (match query with Some q => Routes.with_query u (Values_Encode q) | None => u end)) = Some u') as ->.
  { destruct query as [q0|]; [exact Hu|]. rewrite <- Hu. destruct u as [pa ra rq]. cbn [RawQuery] in Hraw. subst rq. reflexivity. }
  rewrite Hs. unfold request_of. rewrite Hpq. reflexivity.
Qed.

(** ** Running a handler *)

(** What the client will read of a response: the result, through the decoder [dc]
    over the value [res]. *)
Definition replied {A} (dc : codec A) (res : A) (r : result error A) (w : response) : Prop :=
  match r with
  | Ok a => failed_status (default 200%Z (rs_status w)) = false ∧
      ∃ rest, Decode dc (rs_body w) res = (a, None, rest)
  | Err e => rs_status w = Some (StatusCode (mk_Error (Some e))) ∧
      Encode Error_codec (mk_Error (Some e)) = Ok (rs_body w)
  end.

(** What a message sent with one codec is for a reader with another. *)
Definition transfers {A A'} (c : codec A') (m : A') (dc : codec A) (res a : A) : Prop :=
  ∃ b rest, Encode c m = Ok b ∧ Decode dc b res = (a, None, rest).

Lemma transfers_same {A} (c : codec A) a : codec_ok c → c_wf c a = true → transfers c a c (c_zero c) a.
Proof.
  intros Hc Ha. destruct (Decode_Encode c a [] Hc Ha) as (b & rest & He & Hd & _).
  rewrite app_nil_r in Hd. by exists b, rest.
Qed.

Lemma transfers_json {A A'} (c : codec A') (m : A') (dc : codec A) (res a : A) j :
  c_enc c m = Ok j → json_ok j = true → c_dec dc j res = (a, Good) → transfers c m dc res a.
Proof.
  intros He Hj Hd. destruct (decode_encode j [] Hj) as (rest & Hdec & _). rewrite app_nil_r in Hdec.
  exists (encode j), rest. unfold Encode, Decode. rewrite He, Hdec, Hd. done.
Qed.

(** A map is decoded into an empty map as into a nil one. *)
Lemma transfers_map {A} ty (c : codec A) (m : gomap A) :
  codec_ok c → c_wf (map_codec ty c) m = true → transfers (map_codec ty c) m (map_codec ty c) (Some ∅) m.
Proof.
  intros Hc Hm. destruct (ok_round _ (map_ok ty c Hc) m Hm) as (j & He & Hj & Hd).
  apply (transfers_json _ _ _ _ _ j He Hj). rewrite <- Hd. cbn [c_dec map_codec c_zero].
  cbn [c_enc map_codec] in He. destruct m as [m|]; [|by injection He as <-].
  destruct (enc_entries c (sorted_entries m)); [|done]. by injection He as <-.
Qed.

Lemma transfers_kill (kill : bool) : transfers bool_map_codec (Some {["kill" := kill]}) Kill_codec false kill.
Proof. by eapply transfers_json; [vm_compute; reflexivity|by destruct kill|]. Qed.

Lemma transfers_value v : valid_string v = true → transfers string_map_codec (Some {["value" := v]}) Value_codec "" v.
Proof.
  intros Hv. apply (transfers_json _ _ _ _ _ (JObj [("value", JStr v)])); [by vm_compute| |done].
  cbn. by rewrite Hv.
Qed.

Lemma transfers_handle h : valid_string h = true → transfers Handle_codec h created_codec "" h.
Proof.
  intros Hh. apply (transfers_json _ _ _ _ _ (JObj [("Handle", JStr h)])); [done| |done]. cbn. by rewrite Hh.
Qed.

Lemma Handles_ok : codec_ok Handles_codec.
Proof. codec_struct. Qed.

Lemma transfers_handles (hs : list string) :
  forallb valid_string hs = true →
  transfers Handles_codec (Some hs) (ptr_codec Handles_codec) (Some None) (Some (Some hs)).
Proof.
  intros Hh. destruct (ok_round _ Handles_ok (Some hs)) as (j & He & Hj & Hd).
  { cbn. by rewrite Hh. }
  apply (transfers_json _ _ _ _ _ j He Hj). cbn [c_dec ptr_codec]. change (default ?z (Some ?v)) with v.
  change (c_zero Handles_codec) with (@None (list string)) in Hd. rewrite Hd. by destruct j.
Qed.

Lemma transfers_empty : transfers empty_codec () empty_codec () ().
Proof. by apply (transfers_json _ _ _ _ _ (JObj [])). Qed.

(** A server between requests: the bomberman is there and nothing is being
    destroyed. *)
Record ready (g : Duration) (s : server) : Prop := mk_ready {
  ready_bomberman : is_Some (bomberman s);
  ready_lock : destroysL s = false;
  ready_destroys : destroys s = ∅;
  ready_grace : containerGraceTime s = g;
}.

(** ** Direct calls of the backend *)
Definition direct (A : Type) : Type := B → result error A * B.

#[local] Instance direct_ret : MRet direct := λ A a b, (Ok a, b).
#[local] Instance direct_bind : MBind direct := λ A A' f m b,
  match m b with (Ok a, b') => f a b' | (Err e, b') => (Err e, b') end.

Definition call {A} (op : backend_op C P (result error A)) : direct A := exec op.
Definition call_err (op : backend_op C P (option error)) : direct unit := λ b,
  let (e, b') := exec op b in (match e with None => Ok () | Some e => Err e end, b').

(** A result the wire can carry. *)
Definition sendable {A} (wf : A → bool) (r : result error A) : bool :=
  match r with Ok a => wf a | Err e => error_valid e end.

(** A handler answers with what the direct calls return, and leaves the backend
    as they do. *)
Definition implements {A} (g : Duration) (wf : A → bool) (dc : codec A) (res : A) (p : prog eff unit) (m : direct A) : Prop :=
  ∀ s, ready g s → sendable wf (m (backend s)).1 = true →
  ∃ s' w, run x p s new_response = Returns () s' w ∧ replied dc res (m (backend s)).1 w ∧
    backend s' = (m (backend s)).2 ∧ ready g s'.

Lemma implements_response {A A'} g wf (c : codec A') (v : A') (dc : codec A) (res a : A) :
  (wf a = true → transfers c v dc res a) → implements g wf dc res (writeResponse c v) (mret a).
Proof.
  intros Ht s Hs Ha. destruct (Ht Ha) as (b & rest & He & Hd). unfold writeResponse. rewrite He.
  eexists s, _. split; [done|]. split_and!; [|done..]. split; [done|]. by exists rest.
Qed.

Lemma implements_error {A} g wf (dc : codec A) (res : A) e :
  implements g wf dc res (writeError e) (λ b, (Err e, b)).
Proof.
  intros s Hs He. destruct (Error_enc_dec e (error_valid_wf e He)) as (j & Hj & _).
  assert (Encode Error_codec (mk_Error (Some e)) = Ok (encode j)) as Henc.
  { unfold Encode. change (c_enc Error_codec) with MarshalJSON. by rewrite Hj. }
  unfold writeError. rewrite Henc. eexists s, _. split; [done|]. split_and!; [|done..].
  split; [done|]. exact Henc.
Qed.

Lemma ready_backend g s b : ready g s → ready g (set_backend b s).
Proof. by intros []. Qed.
Lemma ready_bomb g s b : ready g s → ready g (set_bomberman (Some b) s).
Proof. by intros []; split. Qed.

Lemma implements_checked {A A'} g wf dc (res : A) (op : backend_op C P (result error A')) k f :
  (∀ a, implements g wf dc res (k a) (f a)) → implements g wf dc res (checked op k) (call op ≫= f).
Proof.
  intros Hk s Hs. unfold checked, call, mbind, direct_bind. change (mbind ?f ?p) with (pbind f p). rewrite run_bind.
  cbn [act run perform]. destruct (exec op (backend s)) as [[a|e] b']; intros Hsend.
  - by apply (Hk a (set_backend b' s)); [apply ready_backend|].
  - by apply (implements_error g wf dc res e (set_backend b' s)); [apply ready_backend|].
Qed.

Lemma implements_checked_err {A} g wf dc (res : A) (op : backend_op C P (option error)) k f :
  implements g wf dc res k f → implements g wf dc res (checked_err op k) (call_err op ≫= λ _, f).
Proof.
  intros Hk s Hs. unfold checked_err, call_err, mbind, direct_bind. change (mbind ?f ?p) with (pbind f p). rewrite run_bind.
  cbn [act run perform]. destruct (exec op (backend s)) as [[e|] b']; intros Hsend.
  - by apply (implements_error g wf dc res e (set_backend b' s)); [apply ready_backend|].
  - by apply (Hk (set_backend b' s)); [apply ready_backend|].
Qed.

Lemma run_bomb g m s w :
  ready g s → ∃ b, run x (bomb m) s w = Returns () (set_bomberman (Some b) s) w.
Proof.
  intros [[b Hb] _ _ _]. exists (Bomberman.manageBombs Handle (now s) (GraceTime (backend s)) m b).
  unfold bomb. change (mbind ?f ?p) with (pbind f p). rewrite run_bind. cbn [act run perform]. by rewrite Hb.
Qed.

Lemma implements_bomb {A} g wf dc (res : A) m k f :
  implements g wf dc res k f → implements g wf dc res (bomb m;; k) f.
Proof.
  intros Hk s Hs Hsend. change (mbind ?f ?p) with (pbind f p). rewrite run_bind.
  destruct (run_bomb g m s new_response Hs) as (b & ->). by apply (Hk _ (ready_bomb g s b Hs)).
Qed.

Lemma implements_paused {A} g wf dc (res : A) h k f :
  implements g wf dc res k f → implements g wf dc res (paused h k) f.
Proof.
  intros Hk. apply implements_bomb. intros s Hs Hsend. rewrite run_defer.
  destruct (Hk s Hs Hsend) as (s' & w & -> & Hrep & Hb & Hs').
  destruct (run_bomb g (Bomberman.Unpause h) s' w Hs') as (b & ->).
  eexists _, w. split; [done|]. split_and!; [done..|by apply ready_bomb].
Qed.

Lemma implements_container {A} g wf dc (res : A) handle k f :
  (∀ c, implements g wf dc res (k c) (f c)) →
  implements g wf dc res (with_container handle k) (call (Lookup handle) ≫= f).
Proof. intros Hk. apply implements_checked. intros c. apply implements_paused, Hk. Qed.

(** A handler that reads a request gets what the client encoded. *)
Lemma readRequest_transfers {A A'} (c : codec A') (m : A') (dc : codec A) a r (k : A → prog (eff (C := C) (P := P)) unit) b :
  Encode c m = Ok b → transfers c m dc (c_zero dc) a → r_body r = b → readRequest dc r k = k a.
Proof. intros He (b' & rest & He' & Hd) Hr. unfold readRequest. assert (b' = b) as -> by congruence. by rewrite Hr, Hd. Qed.

(** ** Calls of the client *)

(** What a call of the client returns for a result of the backend. *)
Definition answer {A} (res : A) (r : result error A) : A * option error :=
  match r with Ok a => (a, None) | Err e => (res, Some (received e)) end.

(** A call of the client over the network does what direct calls do. *)
Definition refines {A} (g : Duration) (wf : A → bool) (res : A) (p : io server (A * option error)) (m : direct A) : Prop :=
  ∀ s, ready g s → sendable wf (m (backend s)).1 = true →
  ∃ s', p s = Some (answer res (m (backend s)).1, s') ∧ backend s' = (m (backend s)).2 ∧ ready g s'.

Lemma failed_StatusCode e : failed_status (StatusCode (mk_Error (Some e))) = true.
Proof. by destruct e. Qed.

Lemma decode_error e b rest :
  error_valid e = true → Encode Error_codec (mk_Error (Some e)) = Ok b →
  ∃ rest', Decode Error_codec (b ++ rest) (mk_Error None) = (mk_Error (Some (received e)), None, rest').
Proof.
  intros He Henc. destruct (Error_enc_dec e (error_valid_wf e He)) as (j & Hj & Hok & Hd).
  unfold Encode in Henc. change (c_enc Error_codec) with MarshalJSON in Henc. rewrite Hj in Henc. injection Henc as <-.
  destruct (decode_encode j rest Hok) as (rest' & Hdec & _). exists rest'. unfold Decode. rewrite Hdec.
  change (c_dec Error_codec) with UnmarshalJSON. by rewrite Hd.
Qed.

(** A call, through [hijackable.Stream], the server and back. *)
Lemma stream_served {A} g wf dc (res : A) m r params query body contentType :
  r ∈ Routes.Routes → Routes.params_ok params r = true →
  map_Forall (λ _ vs, vs ≠ []) (default ∅ query) →
  implements g wf dc res (handler_named g (Routes.Name r) (request_of r params (default ∅ query) body)) m →
  ∀ s, ready g s → sendable wf (m (backend s)).1 = true →
  ∃ s', backend s' = (m (backend s)).2 ∧ ready g s' ∧
    match (m (backend s)).1 with
    | Ok a => ∃ b rest, hijackable_Stream hijacker (Routes.Name r) body params query contentType s
          = Some (Some (mk_body (mk_reader b None) None), None, s') ∧ Decode dc b res = (a, None, rest)
    | Err e => hijackable_Stream hijacker (Routes.Name r) body params query contentType s
          = Some (None, Some (received e), s')
    end.
Proof.
  intros Hr Hp Hq Himp s Hs Hsend.
  destruct (create_query r params query body contentType Hr Hp Hq) as (u & Hc & Hserve).
  destruct (Himp s Hs Hsend) as (s' & w & Hrun & Hrep & Hb & Hs').
  exists s'. split; [done|]. split; [done|]. unfold hijackable_Stream. rewrite Hc.
  unfold mbind, io_bind. rewrite Do_eq, Hserve, (ready_grace g s Hs), Hrun. cbn [respond rmap fst].
  destruct (m (backend s)).1 as [a|e] eqn:Hm.
  - destruct Hrep as (Hst & rest & Hd). exists (rs_body w), rest. split; [|done].
    cbn [http_response_of hs_status]. by rewrite Hst.
  - destruct Hrep as (Hst & He). cbn [http_response_of hs_status hs_body bd_reader]. rewrite Hst.
    change (default 200%Z (Some ?a)) with a. rewrite failed_StatusCode.
    destruct (decode_error e (rs_body w) [] Hsend He) as (rest' & Hd). rewrite app_nil_r in Hd.
    unfold decode_reader. cbn [rd_err rd_data]. by rewrite Hd.
Qed.

Lemma do_served {A} g wf dc (res : A) m r params query req :
  r ∈ Routes.Routes → Routes.params_ok params r = true →
  map_Forall (λ _ vs, vs ≠ []) (default ∅ query) →
  (∀ e, req ≠ Some (Err e)) →
  implements g wf dc res (handler_named g (Routes.Name r) (request_of r params (default ∅ query)
    (match req with Some (Ok b) => Some b | _ => None end))) m →
  refines g wf res (do_ (Routes.Name r) req dc res params query) m.
Proof.
  intros Hr Hp Hq Hreq Himp s Hs Hsend.
  destruct (stream_served g wf dc res m r params query (match req with Some (Ok b) => Some b | _ => None end)
    (match req with Some _ => "application/json" | None => "" end) Hr Hp Hq Himp s Hs Hsend) as (s' & Hb & Hs' & Hres).
  exists s'. split; [|done]. unfold do_.
  assert (∀ k : io server (A * option error), match req with Some (Err e) => mret (res, Some (JsonError e)) | _ => k end = k) as Hk
    by (intros k; destruct req as [[b|e]|]; [done|by destruct (Hreq e)|done]).
  rewrite Hk. cbn [Stream connected hijack_streamer]. unfold mbind, io_bind.
  destruct (m (backend s)).1 as [a|e].
  - destruct Hres as (b & rest & -> & Hd). unfold decode_reader. cbn [bd_reader rd_err rd_data]. by rewrite Hd.
  - by rewrite Hres.
Qed.

(** ** The calls *)
Inductive client_call : Type → Type :=
| CPing : client_call unit
| CCapacity : client_call Types.Capacity
| CCreate (spec : ContainerSpec) : client_call string
| CList (properties : gomap string) : client_call (slice string)
| CDestroy (handle : string) : client_call unit
| CStop (handle : string) (kill : bool) : client_call unit
| CInfo (handle : string) : client_call ContainerInfo
| CBulkInfo (handles : slice string) : client_call (gomap ContainerInfoEntry)
| CBulkMetrics (handles : slice string) : client_call (gomap ContainerMetricsEntry)
| CStreamIn (handle : string) (spec : StreamInSpec) : client_call unit
| CCurrentBandwidthLimits (handle : string) : client_call BandwidthLimits
| CCurrentCPULimits (handle : string) : client_call CPULimits
| CCurrentDiskLimits (handle : string) : client_call DiskLimits
| CCurrentMemoryLimits (handle : string) : client_call MemoryLimits
| CNetIn (handle : string) (hostPort containerPort : Z) : client_call (Z * Z)
| CNetOut (handle : string) (rule : NetOutRule) : client_call unit
| CBulkNetOut (handle : string) (rules : slice NetOutRule) : client_call unit
| CMetrics (handle : string) : client_call Types.Metrics
| CProperties (handle : string) : client_call (gomap string)
| CProperty (handle name : string) : client_call string
| CSetProperty (handle name value : string) : client_call unit
| CRemoveProperty (handle name : string) : client_call unit.

(** A call that returns only an error. *)
Definition with_unit (p : io server (option error)) : io server (unit * option error) :=
  e ← p; mret ((), e).

(** The call, by the client. *)
Definition remote {A} (k : client_call A) : io server (A * option error) :=
  match k in client_call A return io server (A * option error) with
  | CPing => with_unit (Client.Ping the_client)
  | CCapacity => Client.Capacity the_client
  | CCreate spec =>
      r ← Client.Create the_client spec; mret (from_option Client.Handle "" r.1, r.2)
  | CList properties =>
      r ← Client.Containers the_client properties; mret ((λ cs : list (Client.container server), Client.Handle <$> cs) <$> r.1, r.2)
  | CDestroy handle => with_unit (Client.Destroy the_client handle)
  | CStop handle kill => with_unit (Client.Stop (container_of handle) kill)
  | CInfo handle => Client.Info (container_of handle)
  | CBulkInfo handles => Client.BulkInfo the_client handles
  | CBulkMetrics handles => Client.BulkMetrics the_client handles
  | CStreamIn handle spec => with_unit (Client.StreamIn (container_of handle) spec)
  | CCurrentBandwidthLimits handle => Client.CurrentBandwidthLimits (container_of handle)
  | CCurrentCPULimits handle => Client.CurrentCPULimits (container_of handle)
  | CCurrentDiskLimits handle => Client.CurrentDiskLimits (container_of handle)
  | CCurrentMemoryLimits handle => Client.CurrentMemoryLimits (container_of handle)
  | CNetIn handle hp cp => Client.NetIn (container_of handle) hp cp
  | CNetOut handle rule => with_unit (Client.NetOut (container_of handle) rule)
  | CBulkNetOut handle rules => with_unit (Client.BulkNetOut (container_of handle) rules)
  | CMetrics handle => Client.Metrics (container_of handle)
  | CProperties handle => Client.Properties (container_of handle)
  | CProperty handle name => Client.Property (container_of handle) name
  | CSetProperty handle name value => with_unit (Client.SetProperty (container_of handle) name value)
  | CRemoveProperty handle name => with_unit (Client.RemoveProperty (container_of handle) name)
  end.

(** The call, on the backend: on the container that [Lookup] returns; a grace
    time of zero stands for the server's. *)
Definition on_container {A} (handle : string) (f : C → direct A) : direct A := call (Lookup handle) ≫= f.

Definition local {A} (g : Duration) (k : client_call A) : direct A :=
  match k in client_call A return direct A with
  | CPing => call_err Backend.Ping
  | CCapacity => call GetCapacity
  | CCreate spec =>
      c ← call (Backend.Create (if (spec_GraceTime spec =? 0)%Z then set_grace_time g spec else spec)); mret (Handle c)
  | CList properties =>
      cs ← call (Containers (Some (default ∅ properties))); mret (Some (Handle <$> cs))
  | CDestroy handle => call_err (Backend.Destroy handle)
  | CStop handle kill => on_container handle (λ c, call_err (Backend.Stop c kill))
  | CInfo handle => on_container handle (λ c, call (Backend.Info c))
  | CBulkInfo handles => call (Backend.BulkInfo (Some (default [] handles)))
  | CBulkMetrics handles => call (Backend.BulkMetrics (Some (default [] handles)))
  | CStreamIn handle spec => on_container handle (λ c, call_err (Backend.StreamIn c spec))
  | CCurrentBandwidthLimits handle => on_container handle (λ c, call (Backend.CurrentBandwidthLimits c))
  | CCurrentCPULimits handle => on_container handle (λ c, call (Backend.CurrentCPULimits c))
  | CCurrentDiskLimits handle => on_container handle (λ c, call (Backend.CurrentDiskLimits c))
  | CCurrentMemoryLimits handle => on_container handle (λ c, call (Backend.CurrentMemoryLimits c))
  | CNetIn handle hp cp => on_container handle (λ c, call (NetInOp c hp cp))
  | CNetOut handle rule => on_container handle (λ c, call_err (Backend.NetOut c rule))
  | CBulkNetOut handle rules => on_container handle (λ c, call_err (Backend.BulkNetOut c rules))
  | CMetrics handle => on_container handle (λ c, call (GetMetrics c))
  | CProperties handle => on_container handle (λ c, call (GetProperties c))
  | CProperty handle name => on_container handle (λ c, call (Backend.Property c name))
  | CSetProperty handle name value => on_container handle (λ c, call_err (Backend.SetProperty c name value))
  | CRemoveProperty handle name => on_container handle (λ c, call_err (Backend.RemoveProperty c name))
  end.

(** What the wire can carry of a call: handles and property names that are plain
    path segments, and messages whose text is UTF-8 and whose numbers are in
    range. *)
Definition no_comma (h : string) : bool := forallb (λ a, negb (bool_decide (a = chr 44))) (to_bytes h).

Definition handles_ok (handles : slice string) : bool :=
  forallb no_comma (default [] handles) && negb (bool_decide (default [] handles = [""])).

Definition valid_call {A} (k : client_call A) : bool :=
  match k with
  | CPing | CCapacity | CList _ => true
  | CCreate spec => c_wf ContainerSpec_codec spec
  | CDestroy h | CStop h _ | CInfo h | CStreamIn h _ | CCurrentBandwidthLimits h | CCurrentCPULimits h
  | CCurrentDiskLimits h | CCurrentMemoryLimits h | CMetrics h | CProperties h => Routes.plain h
  | CBulkInfo hs | CBulkMetrics hs => handles_ok hs
  | CNetIn h hp cp => Routes.plain h && c_wf NetInRequest_codec (mk_NetInRequest h hp cp)
  | CNetOut h rule => Routes.plain h && c_wf NetOutRule_codec rule
  | CBulkNetOut h rules => Routes.plain h && c_wf NetOutRules_codec rules
  | CProperty h n | CRemoveProperty h n => Routes.plain h && Routes.plain n
  | CSetProperty h n v => Routes.plain h && Routes.plain n && valid_string v
  end.

Definition reply_wf {A} (k : client_call A) : A → bool :=
  match k in client_call A return A → bool with
  | CPing | CDestroy _ | CStop _ _ | CStreamIn _ _ | CNetOut _ _ | CBulkNetOut _ _ | CSetProperty _ _ _
  | CRemoveProperty _ _ => λ _, true
  | CCapacity => c_wf Capacity_codec
  | CCreate _ | CProperty _ _ => valid_string
  | CList _ => λ hs, forallb valid_string (default [] hs)
  | CInfo _ => c_wf ContainerInfo_codec
  | CBulkInfo _ => c_wf (map_codec "map[string]garden.ContainerInfoEntry" ContainerInfoEntry_codec)
  | CBulkMetrics _ => c_wf (map_codec "map[string]garden.ContainerMetricsEntry" ContainerMetricsEntry_codec)
  | CCurrentBandwidthLimits _ => c_wf BandwidthLimits_codec
  | CCurrentCPULimits _ => c_wf CPULimits_codec
  | CCurrentDiskLimits _ => c_wf DiskLimits_codec
  | CCurrentMemoryLimits _ => c_wf MemoryLimits_codec
  | CNetIn _ _ _ => λ r, c_wf NetInResponse_codec (mk_NetInResponse r.1 r.2)
  | CMetrics _ => c_wf Metrics_codec
  | CProperties _ => c_wf Properties_codec
  end.

(** What a call returns beside an error. *)
Definition on_error {A} (k : client_call A) : A :=
  match k in client_call A return A with
  | CPing | CDestroy _ | CStop _ _ | CStreamIn _ _ | CNetOut _ _ | CBulkNetOut _ _ | CSetProperty _ _ _
  | CRemoveProperty _ _ => ()
  | CCapacity => c_zero Capacity_codec
  | CCreate _ | CProperty _ _ => ""
  | CList _ => None
  | CInfo _ => c_zero ContainerInfo_codec
  | CBulkInfo _ => Some ∅
  | CBulkMetrics _ => Some ∅
  | CCurrentBandwidthLimits _ => c_zero BandwidthLimits_codec
  | CCurrentCPULimits _ => c_zero CPULimits_codec
  | CCurrentDiskLimits _ => c_zero DiskLimits_codec
  | CCurrentMemoryLimits _ => c_zero MemoryLimits_codec
  | CNetIn _ _ _ => (0, 0)%Z
  | CMetrics _ => c_zero Metrics_codec
  | CProperties _ => Some ∅
  end.

(** ** Refinement, call by call *)
Lemma find_route name r :
  Routes.FindRouteByName Routes.Routes name = Some r → r ∈ Routes.Routes ∧ Routes.Name r = name.
Proof.
  generalize Routes.Routes. intros l. induction l as [|r' l IH]; [done|]. cbn.
  destruct (decide (Routes.Name r' = name)) as [Hn|]; [intros [= ->]; split; [by left|done]|].
  intros [Hr Hn]%IH. split; [by right|done].
Qed.

Lemma do_named {A} g wf dc (res : A) m name r params query req :
  Routes.FindRouteByName Routes.Routes name = Some r → Routes.params_ok params r = true →
  map_Forall (λ _ vs, vs ≠ []) (default ∅ query) →
  (∀ e, req ≠ Some (Err e)) →
  implements g wf dc res (handler_named g name (request_of r params (default ∅ query)
    (match req with Some (Ok b) => Some b | _ => None end))) m →
  refines g wf res (do_ name req dc res params query) m.
Proof. intros [Hr <-]%find_route. by apply do_served. Qed.

Lemma params_handle r h :
  Routes.captures (Routes.segs r) = [to_bytes "handle"] → Routes.plain h = true →
  Routes.params_ok (handle_param h) r = true.
Proof.
  intros Hc Hh. unfold Routes.params_ok, handle_param. rewrite Hc. cbn [forallb].
  by rewrite of_to_bytes, lookup_singleton_eq, Hh.
Qed.

Lemma params_key r h n :
  Routes.captures (Routes.segs r) = [to_bytes "handle"; to_bytes "key"] → Routes.plain h = true → Routes.plain n = true →
  Routes.params_ok (key_params h n) r = true.
Proof.
  intros Hc Hh Hn. unfold Routes.params_ok, key_params. rewrite Hc. cbn [forallb].
  rewrite !of_to_bytes, lookup_insert_eq, lookup_insert_ne, lookup_singleton_eq by done. by rewrite Hh, Hn.
Qed.

Lemma request_handle r h b :
  Routes.captures (Routes.segs r) = [to_bytes "handle"] →
  request_of r (handle_param h) ∅ b = mk_request {[":handle" := [h]]} (default [] b).
Proof. intros Hc. unfold request_of, Routes.path_values. rewrite Hc. reflexivity. Qed.

Lemma request_key r h n b :
  Routes.captures (Routes.segs r) = [to_bytes "handle"; to_bytes "key"] →
  request_of r (key_params h n) ∅ b = mk_request {[":handle" := [h]; ":key" := [n]]} (default [] b).
Proof. intros Hc. unfold request_of, Routes.path_values. rewrite Hc. reflexivity. Qed.

Lemma request_none r q b :
  Routes.captures (Routes.segs r) = [] → map_Forall (λ _ vs, vs ≠ []) q →
  request_of r ∅ q b = mk_request q (default [] b).
Proof.
  intros Hc Hq. unfold request_of, Routes.path_values. rewrite Hc. cbn [fmap list_fmap foldl].
  rewrite <- (ParseQuery_roundtrip q Hq) at 2. unfold ParseQuery. by rewrite add_pairs_Encode.
Qed.

Lemma implements_call {A A'} g wf (c : codec A') (enc : A → A') (dc : codec A) (res : A)
    (op : backend_op C P (result error A)) :
  (∀ a, wf a = true → transfers c (enc a) dc res a) →
  implements g wf dc res (checked op (λ a, writeResponse c (enc a))) (call op).
Proof.
  intros Ht s Hs Hsend.
  assert ((call op ≫= mret) (backend s) = call op (backend s)) as Heq.
  { unfold mbind, direct_bind. by destruct (call op (backend s)) as [[a|e] b]. }
  rewrite <- Heq in *. apply (implements_checked g wf dc res op (λ a, writeResponse c (enc a)) mret); [|done..].
  intros a. by apply implements_response, Ht.
Qed.

Lemma implements_call_err g (op : backend_op C P (option error)) :
  implements g (λ _, true) empty_codec () (checked_err op writeSuccess) (call_err op).
Proof.
  intros s Hs Hsend.
  assert ((call_err op ≫= λ _, mret ()) (backend s) = call_err op (backend s)) as Heq.
  { unfold mbind, direct_bind. by destruct (call_err op (backend s)) as [[[]|e] b]. }
  rewrite <- Heq in *. apply (implements_checked_err g (λ _, true) empty_codec () op writeSuccess (mret ())); [|done..].
  apply implements_response. intros _. apply transfers_empty.
Qed.

(** A call that reads a struct of a container. *)
Lemma refines_get {A} g (c : codec A) (res : A) name r h (op : C → backend_op C P (result error A)) :
  Routes.FindRouteByName Routes.Routes name = Some r →
  Routes.captures (Routes.segs r) = [to_bytes "handle"] → Routes.plain h = true →
  handler_named g name = (λ r, with_container (FormValue r ":handle") (λ c', checked (op c') (writeResponse c))) →
  (∀ a, c_wf c a = true → transfers c a c res a) →
  refines g (c_wf c) res (get name c res h) (on_container h (λ c', call (op c'))).
Proof.
  intros Hn Hc Hh Hname Ht. eapply do_named; [done|by apply params_handle|by apply map_Forall_empty|done|].
  rewrite Hname, request_handle by done. apply implements_container. intros c'. by apply (implements_call g (c_wf c) c id).
Qed.

(** A call that returns an error. *)
Lemma refines_empty g name req params m :
  refines g (λ _, true) () (do_ name req empty_codec () params None) m →
  refines g (λ _, true) () (with_unit (do_empty name req params)) m.
Proof.
  intros Hr s Hs Hsend. destruct (Hr s Hs Hsend) as (s' & He & Hb & Hs'). exists s'. split; [|done].
  unfold with_unit, do_empty, mbind, io_bind. rewrite He. by destruct (m (backend s)).1 as [[]|e].
Qed.

(** A command for a container, whose request the server decodes to [v]. *)
Lemma refines_command {A A'} g (c : codec A') (q : A') (dc : codec A) (v : A) name r h
    (op : A → C → backend_op C P (option error)) :
  Routes.FindRouteByName Routes.Routes name = Some r →
  Routes.captures (Routes.segs r) = [to_bytes "handle"] → Routes.plain h = true →
  handler_named g name = (λ r, readRequest dc r (λ v,
    with_container (FormValue r ":handle") (λ c', checked_err (op v c') writeSuccess))) →
  transfers c q dc (c_zero dc) v →
  refines g (λ _, true) () (with_unit (do_empty name (Some (Encode c q)) (handle_param h)))
    (on_container h (λ c', call_err (op v c'))).
Proof.
  intros Hn Hc Hh Hname Ht. apply refines_empty. pose proof Ht as (b & _ & He & _). rewrite He.
  eapply do_named; [done|by apply params_handle|by apply map_Forall_empty|done|].
  rewrite Hname, request_handle by done. rewrite (readRequest_transfers c q dc v _ _ b) by done.
  apply implements_container. intros c'. apply implements_call_err.
Qed.

Lemma refines_pure {A A'} g (wf : A' → bool) (res : A) (res' : A') f p m m' :
  (∀ b, m' b = (rmap f (m b).1, (m b).2)) →
  refines g (λ a, wf (f a)) res p m → refines g wf res' (and_return res' f p) m'.
Proof.
  intros Hm Hr s Hs. rewrite Hm. cbn [fst snd]. intros Hsend.
  destruct (Hr s Hs) as (s' & He & Hb & Hs'); [by destruct (m (backend s)).1|].
  exists s'. split; [|done]. unfold and_return, mbind, io_bind. rewrite He. by destruct (m (backend s)).1.
Qed.

Ltac get_call := eapply refines_get; [route..|reflexivity|intros a; apply transfers_same; auto with codec].

Lemma refines_Info g h :
  Routes.plain h = true →
  refines g (c_wf ContainerInfo_codec) (c_zero ContainerInfo_codec) (Connection.Info h)
    (on_container h (λ c, call (Backend.Info c))).
Proof.
  intros Hh. eapply (refines_pure g (c_wf ContainerInfo_codec) _ _ id).
  2: get_call.
  intros b. by destruct (on_container h _ b) as [[] ?].
Qed.

Lemma refines_Ping g : refines g (λ _, true) () (with_unit Connection.Ping) (call_err Backend.Ping).
Proof.
  apply refines_empty. eapply do_named; [route..|]. apply implements_call_err.
Qed.

Lemma refines_Capacity g :
  refines g (c_wf Capacity_codec) (c_zero Capacity_codec) Connection.Capacity (call GetCapacity).
Proof.
  apply (refines_pure g (c_wf Capacity_codec) (c_zero Capacity_codec) (c_zero Capacity_codec) id
    (do_ Routes.Capacity None Capacity_codec (c_zero Capacity_codec) ∅ None) (call GetCapacity));
    [intros b; by destruct (call GetCapacity b) as [[] ?]|].
  eapply do_named; [route..|]. apply (implements_call g _ _ id). intros a. apply transfers_same. auto with codec.
Qed.

Lemma refines_Create g spec :
  c_wf ContainerSpec_codec spec = true →
  refines g valid_string "" (Connection.Create spec) (local g (CCreate spec)).
Proof.
  intros Hwf. pose proof (transfers_same ContainerSpec_codec spec ltac:(auto with codec) Hwf) as Ht.
  pose proof Ht as (b & _ & He & _).
  apply (refines_pure g valid_string "" "" id
    (do_ Routes.Create (Some (Encode ContainerSpec_codec spec)) created_codec "" ∅ None) (local g (CCreate spec)));
    [intros b'; by destruct (local g (CCreate spec) b') as [[] ?]|].
  rewrite He. eapply do_named; [route..|]. change (handler_named g Routes.Create) with (handleCreate (C := C) (P := P) (B := B) g).
  unfold handleCreate. rewrite (readRequest_transfers ContainerSpec_codec spec ContainerSpec_codec spec _ _ b) by done.
  apply implements_checked. intros c. apply implements_bomb, implements_response, transfers_handle.
Qed.

Lemma refines_Property g h n :
  Routes.plain h = true → Routes.plain n = true →
  refines g valid_string "" (Connection.Property h n) (local g (CProperty h n)).
Proof.
  intros Hh Hn. eapply do_named; [route|apply params_key; [route|done..]|route..|].
  rewrite request_key by route. apply implements_container. intros c.
  apply (implements_call g valid_string string_map_codec (λ v, Some {["value" := v]})). apply transfers_value.
Qed.

Lemma refines_SetProperty g h n v :
  Routes.plain h = true → Routes.plain n = true → valid_string v = true →
  refines g (λ _, true) () (with_unit (Connection.SetProperty h n v)) (local g (CSetProperty h n v)).
Proof.
  intros Hh Hn Hv. apply refines_empty. pose proof (transfers_value v Hv) as Ht. pose proof Ht as (b & _ & He & _).
  rewrite He. eapply do_named; [route|apply params_key; [route|done..]|route..|].
  rewrite request_key by route.
  change (handler_named g Routes.SetProperty) with (handleSetProperty (C := C) (P := P) (B := B)). unfold handleSetProperty.
  rewrite (readRequest_transfers string_map_codec (Some {["value" := v]}) Value_codec v _ _ b) by done.
  apply implements_container. intros c. apply implements_call_err.
Qed.

Lemma refines_RemoveProperty g h n :
  Routes.plain h = true → Routes.plain n = true →
  refines g (λ _, true) () (with_unit (Connection.RemoveProperty h n)) (local g (CRemoveProperty h n)).
Proof.
  intros Hh Hn. apply refines_empty. eapply do_named; [route|apply params_key; [route|done..]|route..|].
  rewrite request_key by route. apply implements_container. intros c. apply implements_call_err.
Qed.

Lemma refines_NetIn g h hp cp :
  Routes.plain h = true → c_wf NetInRequest_codec (mk_NetInRequest h hp cp) = true →
  refines g (λ r, c_wf NetInResponse_codec (mk_NetInResponse r.1 r.2)) (0, 0)%Z (Connection.NetIn h hp cp)
    (local g (CNetIn h hp cp)).
Proof.
  intros Hh Hwf. pose proof (transfers_same NetInRequest_codec _ ltac:(auto with codec) Hwf) as Ht.
  pose proof Ht as (b & _ & He & _).
  eapply (refines_pure g _ _ _ _ _ (on_container h (λ c, '(a, b) ← call (NetInOp c hp cp); mret (mk_NetInResponse a b)))).
  { intros b'. cbn [local]. unfold on_container, mbind, direct_bind. destruct (call (Lookup h) b') as [[c|e] b1]; [|done].
    by destruct (call (NetInOp c hp cp) b1) as [[[] |e] b2]. }
  rewrite He. eapply do_named; [route|apply params_handle; [route|done]|route..|].
  rewrite request_handle by route.
  change (handler_named g Routes.NetIn) with (handleNetIn (C := C) (P := P) (B := B)). unfold handleNetIn.
  rewrite (readRequest_transfers NetInRequest_codec _ NetInRequest_codec (mk_NetInRequest h hp cp) _ _ b) by done.
  apply implements_container. intros c. apply implements_checked. intros [a b'].
  apply implements_response. intros Ha. by apply transfers_same; [auto with codec|].
Qed.

(** The list of handles of the bulk calls. *)
Lemma no_comma_spec h : no_comma h = true → chr 44 ∉ to_bytes h.
Proof.
  unfold no_comma. rewrite forallb_forall. intros Hh Hin%list_elem_of_In. specialize (Hh _ Hin).
  by rewrite bool_decide_true in Hh.
Qed.

Lemma split_joined hs acc :
  forallb no_comma hs = true →
  split_bytes (chr 44) (to_bytes (foldl (λ acc y, acc +:+ "," +:+ y) acc hs)) =
  split_bytes (chr 44) (to_bytes acc) ++ (to_bytes <$> hs).
Proof.
  revert acc. induction hs as [|h hs IH]; intros acc; cbn [foldl forallb]; [by rewrite app_nil_r|].
  intros [Hh Hhs]%andb_prop. rewrite IH by done. rewrite !to_bytes_app. cbn [fmap list_fmap].
  change (to_bytes ",") with [chr 44]. cbn [app].
  rewrite split_bytes_app, (split_bytes_none _ (to_bytes h)) by (by apply no_comma_spec).
  by rewrite <- app_assoc.
Qed.

Lemma splitHandles_join handles :
  handles_ok handles = true → splitHandles (join "," (default [] handles)) = Some (default [] handles).
Proof.
  unfold handles_ok. set (hs := default [] handles). clearbody hs. intros [Hc Hne%negb_true_iff]%andb_prop.
  apply bool_decide_eq_false in Hne. unfold splitHandles, join. destruct hs as [|h hs]; [done|].
  cbn [forallb] in Hc. apply andb_prop in Hc as [Hh Hhs].
  assert (∀ acc, foldl (λ acc y, acc +:+ "," +:+ y) acc hs = "" → acc = "" ∧ hs = []) as Hempty.
  { clear. induction hs as [|y hs IH]; intros acc; cbn; [done|]. intros [Ha _]%IH.
    by destruct acc. }
  rewrite decide_False by (intros [-> ->]%Hempty; done).
  rewrite split_joined, split_bytes_none by (done || by apply no_comma_spec). cbn [app].
  rewrite <- fmap_cons, <- list_fmap_compose. f_equal. rewrite <- (list_fmap_id (h :: hs)) at 2.
  apply list_fmap_ext. intros i y _. apply of_to_bytes.
Qed.

Lemma implements_handles {A} g wf dc (res : A) handles k m b :
  handles_ok handles = true → implements g wf dc res (k (Some (default [] handles))) m →
  implements g wf dc res (query_handles (mk_request (handles_query handles) b) k) m.
Proof.
  intros Hh Hk. unfold query_handles, handles_query. cbn [r_query]. rewrite lookup_singleton_eq.
  by rewrite splitHandles_join.
Qed.

Lemma handles_query_ne handles : map_Forall (λ _ vs, vs ≠ []) (handles_query handles).
Proof. by apply map_Forall_singleton. Qed.

Lemma refines_BulkInfo g handles :
  handles_ok handles = true →
  refines g (c_wf (map_codec "map[string]garden.ContainerInfoEntry" ContainerInfoEntry_codec)) (Some ∅)
    (Connection.BulkInfo handles) (local g (CBulkInfo handles)).
Proof.
  intros Hh. eapply do_named; [route|route|apply handles_query_ne|done|].
  rewrite request_none by (by apply handles_query_ne || route).
  apply implements_handles; [done|]. apply (implements_call g _ _ id). intros a. apply transfers_map. auto with codec.
Qed.

Lemma refines_BulkMetrics g handles :
  handles_ok handles = true →
  refines g (c_wf (map_codec "map[string]garden.ContainerMetricsEntry" ContainerMetricsEntry_codec)) (Some ∅)
    (Connection.BulkMetrics handles) (local g (CBulkMetrics handles)).
Proof.
  intros Hh. eapply do_named; [route|route|apply handles_query_ne|done|].
  rewrite request_none by (by apply handles_query_ne || route).
  apply implements_handles; [done|]. apply (implements_call g _ _ id). intros a. apply transfers_map. auto with codec.
Qed.

(** The list of containers. *)
Lemma properties_query (m : gmap string string) :
  map_Forall (λ _ vs, vs ≠ []) ((λ v, [v]) <$> m) ∧ omap (λ vals : list string, head vals) ((λ v, [v]) <$> m) = m.
Proof.
  split.
  - intros k vs (v & <- & _)%lookup_fmap_Some. done.
  - apply map_eq. intros k. rewrite lookup_omap, lookup_fmap. by destruct (m !! k).
Qed.

Lemma refines_List g properties :
  refines g (λ hs, forallb valid_string (default [] hs)) None (Connection.List properties) (local g (CList properties)).
Proof.
  set (m := cs ← call (Containers (Some (default ∅ properties))); mret (Some (Some (Handle <$> cs)))).
  destruct (properties_query (default ∅ properties)) as [Hq Hom].
  assert (refines g (λ o, forallb valid_string (default [] (default None o))) (Some None)
    (do_ Routes.List None (ptr_codec Handles_codec) (Some None) ∅ (Some ((λ v, [v]) <$> default ∅ properties))) m) as Hr.
  { eapply do_named; [route|route|exact Hq|done|]. rewrite request_none by (done || route).
    change (handler_named g Routes.List) with (handleList (C := C) (P := P) (B := B)). unfold handleList.
    cbn [r_query]. change (default ∅ (Some ?a)) with a. rewrite Hom. apply implements_checked. intros cs.
    apply implements_response, transfers_handles. }
  intros s Hs Hsend. destruct (Hr s Hs) as (s' & He & Hb & Hs').
  { revert Hsend. unfold m, local, mbind, direct_bind. by destruct (call _ (backend s)) as [[cs|e] b]. }
  exists s'. unfold Connection.List, mbind, io_bind. cbn zeta. rewrite He. split_and!; [|rewrite Hb|done];
    unfold m, local, mbind, direct_bind; by destruct (call _ (backend s)) as [[cs|e] b].
Qed.

(** The archive of [StreamIn] is the body of the request, its user and path are in
    the query. *)
Lemma refines_StreamIn g h spec :
  Routes.plain h = true →
  refines g (λ _, true) () (with_unit (Connection.StreamIn h spec)) (local g (CStreamIn h spec)).
Proof.
  intros Hh s Hs Hsend. set (q := {["user" := [si_User spec]; "destination" := [si_Path spec]]} : gmap string (list string)).
  set (r := Routes.mk_Route Routes.StreamIn "PUT" "/containers/:handle/files").
  assert (Routes.captures (Routes.segs r) = [to_bytes "handle"]) as Hc by route.
  destruct (stream_served g (λ _, true) empty_codec () (local g (CStreamIn h spec)) r
    (handle_param h) (Some q) (Some (si_TarStream spec)) "application/x-tar") with (s := s)
    as (s' & Hb & Hs' & Hres); [..|done|done|].
  - refine (proj1 (find_route Routes.StreamIn r _)). route.
  - by apply params_handle.
  - unfold q. apply map_Forall_insert_2; [done|]. by apply map_Forall_singleton.
  - assert (request_of r (handle_param h) q (Some (si_TarStream spec)) =
      mk_request {[":handle" := [h]; "user" := [si_User spec]; "destination" := [si_Path spec]]} (si_TarStream spec)) as Hreq.
    { unfold request_of, Routes.path_values. rewrite Hc. by vm_compute. }
    change (default ∅ (Some q)) with q. rewrite Hreq.
    change (handler_named g (Routes.Name r)) with (handleStreamIn (C := C) (P := P) (B := B)). unfold handleStreamIn.
    apply implements_container. intros c.
    replace (mk_StreamInSpec _ _ _) with spec by (by destruct spec). apply implements_call_err.
  - exists s'. split; [|done]. unfold with_unit, Connection.StreamIn, mbind, io_bind.
    cbn [Stream connected hijack_streamer]. fold q. change Routes.StreamIn with (Routes.Name r).
    destruct (local g (CStreamIn h spec) (backend s)).1 as [[]|e].
    + destruct Hres as (b & rest & -> & _). done.
    + by rewrite Hres.
Qed.

(** Destroying: with nothing being destroyed, the mark is set and taken back. *)
Lemma run_begin_destroy g h s w :
  ready g s → ∃ s1, run x (begin_destroy h) s w = Returns false s1 w ∧ backend s1 = backend s ∧
    is_Some (bomberman s1) ∧ destroysL s1 = false ∧ destroys s1 = {[h]} ∧ containerGraceTime s1 = g.
Proof.
  intros [Hb HL HD Hg]. eexists. unfold begin_destroy. cbn [mbind prog_bind pbind act run perform].
  rewrite HL. cbn [run perform].
  rewrite (bool_decide_false (h ∈ destroys (set_destroysL true s))) by (change (h ∉ destroys s); rewrite HD; apply not_elem_of_empty).
  cbn. split; [reflexivity|]. cbn. rewrite HD. split_and!; [done..|apply (right_id_L ∅ (∪))|done].
Qed.

Lemma run_end_destroy h s w :
  destroysL s = false → run x (end_destroy h) s w =
  Returns () (set_destroysL false (set_destroys (destroys s ∖ {[h]}) (set_destroysL true s))) w.
Proof. intros HL. unfold end_destroy. cbn. rewrite HL. done. Qed.

Lemma implements_destroy g h :
  implements g (λ _, true) empty_codec () (handleDestroy (mk_request {[":handle" := [h]]} [])) (call_err (Backend.Destroy h)).
Proof.
  intros s Hs Hsend. unfold handleDestroy. change (FormValue _ _) with h.
  change (mbind ?f ?p) with (pbind f p). rewrite run_bind.
  destruct (run_begin_destroy g h s new_response Hs) as (s1 & -> & Hb1 & Hbm & HL & HD & Hg).
  change (mbind ?f ?p) with (pbind f p). rewrite run_bind. cbn [act run perform]. rewrite Hb1.
  unfold call_err in *. destruct (exec (Backend.Destroy h) (backend s)) as [e b'] eqn:He.
  cbn [negb]. change (mbind ?f ?p) with (pbind f p). rewrite run_bind, run_end_destroy by done.
  set (s2 := set_destroysL false _).
  assert (ready g s2) as Hs2.
  { unfold s2. split; [done|done| |done]. cbn. rewrite HD. apply difference_diag_L. }
  destruct e as [e|].
  - apply (implements_error g (λ _, true) empty_codec () e s2 Hs2 Hsend).
  - apply (implements_bomb g (λ _, true) empty_codec () (Bomberman.Defuse h) writeSuccess (mret ())
      (implements_response g (λ _, true) empty_codec () empty_codec () () (λ _, transfers_empty)) s2 Hs2 eq_refl).
Qed.

Lemma refines_Destroy g h :
  Routes.plain h = true →
  refines g (λ _, true) () (with_unit (Connection.Destroy h)) (local g (CDestroy h)).
Proof.
  intros Hh. apply refines_empty. eapply do_named; [route|apply params_handle; [route|done]|route..|].
  rewrite request_handle by route. apply implements_destroy.
Qed.

Lemma refines_Properties g h :
  Routes.plain h = true →
  refines g (c_wf Properties_codec) (Some ∅) (Connection.Properties h) (local g (CProperties h)).
Proof.
  intros Hh. eapply refines_get; [route..|reflexivity|]. intros a. apply transfers_map. auto with codec.
Qed.

Lemma refines_Stop g h kill :
  Routes.plain h = true → refines g (λ _, true) () (with_unit (Connection.Stop h kill)) (local g (CStop h kill)).
Proof.
  intros Hh. eapply (refines_command g _ _ Kill_codec kill _ _ h (λ kill c, Backend.Stop c kill)); [route..|reflexivity|].
  apply transfers_kill.
Qed.

Lemma refines_NetOut g h rule :
  Routes.plain h = true → c_wf NetOutRule_codec rule = true →
  refines g (λ _, true) () (with_unit (Connection.NetOut h rule)) (local g (CNetOut h rule)).
Proof.
  intros Hh Hr.
  eapply (refines_command g _ _ NetOutRule_codec rule _ _ h (λ rule c, Backend.NetOut c rule)); [route..|reflexivity|].
  by apply transfers_same; [auto with codec|].
Qed.

Lemma refines_BulkNetOut g h rules :
  Routes.plain h = true → c_wf NetOutRules_codec rules = true →
  refines g (λ _, true) () (with_unit (Connection.BulkNetOut h rules)) (local g (CBulkNetOut h rules)).
Proof.
  intros Hh Hr.
  eapply (refines_command g _ _ NetOutRules_codec rules _ _ h (λ rules c, Backend.BulkNetOut c rules)); [route..|reflexivity|].
  by apply transfers_same; [apply slice_ok; auto with codec|].
Qed.

(** The client keeps what the connection returned. *)
Lemma refines_client_Create g spec :
  c_wf ContainerSpec_codec spec = true → refines g valid_string "" (remote (CCreate spec)) (local g (CCreate spec)).
Proof.
  intros Hwf s Hs Hsend. destruct (refines_Create g spec Hwf s Hs Hsend) as (s' & He & Hb & Hs'). exists s'.
  split; [|done]. cbn [remote]. unfold Client.Create, mbind, io_bind. cbn [Client.client_connection the_client].
  change (c_Create (Connection.New network address)) with (Connection.Create (S := server)). rewrite He.
  by destruct (local g (CCreate spec) (backend s)).1.
Qed.

Lemma handles_of (conn : Connection server) (l : list string) :
  Client.Handle <$> ((λ h, Client.newContainer h conn) <$> l) = l.
Proof. induction l as [|h l IH]; cbn; [done|]. f_equal. exact IH. Qed.

Lemma refines_client_List g properties :
  refines g (λ hs, forallb valid_string (default [] hs)) None (remote (CList properties)) (local g (CList properties)).
Proof.
  intros s Hs Hsend. destruct (refines_List g properties s Hs Hsend) as (s' & He & Hb & Hs'). exists s'.
  split; [|done]. cbn [remote]. unfold Client.Containers, mbind, io_bind. cbn [Client.client_connection the_client].
  change (c_List (Connection.New network address)) with (Connection.List (S := server)). rewrite He.
  unfold local, mbind, direct_bind. destruct (call _ (backend s)) as [[cs|e] b]; [|done].
  cbn. by rewrite handles_of.
Qed.

(** Looking a container up, by the list of all of them. *)
Lemma Lookup_lists g h s cs b :
  ready g s → call (Containers (Some ∅)) (backend s) = (Ok cs, b) → forallb valid_string (Handle <$> cs) = true →
  ∃ s', Client.Lookup the_client h s =
    Some (if bool_decide (h ∈ Handle <$> cs) then (Some (container_of h), None) else (None, Some (ContainerNotFoundError h)), s') ∧
    backend s' = b ∧ ready g s'.
Proof.
  intros Hs Hc Hv. destruct (refines_List g None s Hs) as (s' & He & Hb & Hs').
  { unfold local, mbind, direct_bind. change (default ∅ (@None (gmap string string))) with (∅ : gmap string string).
    rewrite Hc. exact Hv. }
  exists s'. unfold local, mbind, direct_bind in He, Hb. change (default ∅ (@None (gmap string string))) with (∅ : gmap string string) in *.
  rewrite Hc in He, Hb. split; [|exact (conj Hb Hs')].
  change (answer None _) with (Some (Handle <$> cs), @None error) in He. unfold Client.Lookup, mbind, io_bind. cbn [Client.client_connection the_client].
  change (c_List (Connection.New network address)) with (Connection.List (S := server)). rewrite He.
  change (default [] (Some (Handle <$> cs))) with (Handle <$> cs).
  destruct (bool_decide (h ∈ Handle <$> cs)); reflexivity.
Qed.

Lemma remote_refines {A} g (k : client_call A) :
  valid_call k = true → refines g (reply_wf k) (on_error k) (remote k) (local g k).
Proof.
  destruct k; cbn [valid_call reply_wf on_error remote]; intros Hk;
    repeat match goal with H : _ && _ = true |- _ => apply andb_prop in H as [? ?] end.
  - apply refines_Ping.
  - apply refines_Capacity.
  - by apply refines_client_Create.
  - apply refines_client_List.
  - by apply refines_Destroy.
  - by apply refines_Stop.
  - by apply refines_Info.
  - by apply refines_BulkInfo.
  - by apply refines_BulkMetrics.
  - by apply refines_StreamIn.
  - get_call.
  - get_call.
  - get_call.
  - get_call.
  - by apply refines_NetIn.
  - by apply refines_NetOut.
  - by apply refines_BulkNetOut.
  - get_call.
  - by apply refines_Properties.
  - by apply refines_Property.
  - by apply refines_SetProperty.
  - by apply refines_RemoveProperty.
Qed.

(** ** Sessions

    A program of a client: calls, each chosen from the answers of those before. *)
Inductive session (R : Type) : Type :=
| Finished (r : R)
| Calls {A} (k : client_call A) (next : A * option error → session R).
#[global] Arguments Finished {R} r.
#[global] Arguments Calls {R A} k next.

Fixpoint remotely {R} (p : session R) : io server R :=
  match p with
  | Finished r => mret r
  | Calls k next => a ← remote k; remotely (next a)
  end.

(** The same program on the backend; [None] when a message of it cannot be
    carried by the wire. *)
Fixpoint locally {R} (g : Duration) (p : session R) (b : B) : option (R * B) :=
  match p with
  | Finished r => Some (r, b)
  | Calls k next =>
      let (r, b') := local g k b in
      if valid_call k && sendable (reply_wf k) r then locally g (next (answer (on_error k) r)) b' else None
  end.

End end_to_end.

(** ** Witnesses on the sample backend *)
Section witnesses.
#[local] Existing Instance Sample.sample_backend.
#[local] Existing Instance Sample.sample_text.

Definition idle_server : GardenServer string Sample.store :=
  set_started true (set_bomberman (Some Bomberman.New) (Prog.New "tcp" ":7777" 100%Z ∅)).

Definition idle_env : env string := mk_env None (λ _, Exited 0) 0.

Lemma idle_ready : ready 100%Z idle_server.
Proof. split; [by eexists|done..]. Qed.

(** Creates a container, sets a property of it and reads it, destroys the
    container, and asks for the property again. *)
Definition example_spec : ContainerSpec :=
  mk_ContainerSpec "a" 0 "" (c_zero ImageRef_codec) None "" None None false (c_zero Limits_codec) None None.

Definition example_session : session (string * string * option error * option error) :=
  Calls (CCreate example_spec) (λ created, Calls (CSetProperty created.1 "k" "v") (λ _,
  Calls (CProperty created.1 "k") (λ v, Calls (CDestroy created.1) (λ destroyed,
  Calls (CProperty created.1 "k") (λ gone, Finished (created.1, v.1, destroyed.2, gone.2)))))).

End witnesses.
End EndToEnd.
