(* ===== verification/Processes.v ===== *)
(** * Processes and archives, from the client to the backend

    The calls whose answer is a stream, over the same network as [EndToEnd.v]:
    the exit status of a process that a client has run, the archive that it
    streams out; and the grace time that it sets. *)
From S2P Require Import Prelude Types Utf8 Json GoJson Errors Codec Url Routes Backend Sample Bomberman Streamer Prog Handlers Server ServerStream ProcessStream Connection Client EndToEnd.

Module Processes.
Import Utf8 Json GoJson Errors Codec Url Backend Prog Handlers Server Connection EndToEnd.

Section processes.
Context {C P B : Type} `{Backend C P B} `{JsonText}.
Context (x : env P) (lost : error) (network address : string).
#[local] Instance wire : Network (GardenServer C B) := loopback x lost.
#[local] Instance dialed : HijackStreamer (GardenServer C B) := connected x lost network address.
Abbreviation hijacker := (NewHijackStreamer (S := GardenServer C B) network address).
Abbreviation container_of := (EndToEnd.container_of (C := C) (B := B) x lost network address).

(** ** The server's end *)

(** The messages of [streamProcess]. *)
Definition first_message (p : P) (streamID : string) : ProcessPayload :=
  mk_ProcessPayload (ProcessID p) streamID None None None None None None.

Definition last_message (p : P) (c : wait_case) : option ProcessPayload :=
  match c with
  | Exited status => Some (mk_ProcessPayload (ProcessID p) "" None None (Some status) None None None)
  | WaitFailed err => Some (mk_ProcessPayload (ProcessID p) "" None None None (Some (error_text err)) None None)
  | Stopping | ConnClosed => None
  end.

(** What they say is text, and the status is an int. *)
Definition case_ok (c : wait_case) : bool :=
  match c with
  | Exited status => c_wf (ptr_codec (int64_codec "int")) (Some status)
  | WaitFailed err => valid_string (error_text err)
  | Stopping | ConnClosed => true
  end.

Lemma first_wf p sid :
  valid_string (ProcessID p) = true → valid_string sid = true → c_wf ProcessPayload_codec (first_message p sid) = true.
Proof. intros Hp Hs. unfold first_message. by rewrite ProcessStream.payload_fields, !ProcessStream.nil_field. Qed.

Lemma last_wf p c m :
  valid_string (ProcessID p) = true → case_ok c = true → last_message p c = Some m →
  c_wf ProcessPayload_codec m = true.
Proof.
  intros Hp Hc. destruct c as [status|err| |]; cbn [last_message case_ok] in *; intros [= <-];
    rewrite ProcessStream.payload_fields, !ProcessStream.nil_field, ProcessStream.ptr_field by done.
  - by rewrite Hc.
  - cbn. by rewrite Hc.
Qed.

Definition message_bytes (m : ProcessPayload) : bytes :=
  match Encode ProcessPayload_codec m with Ok b => b | Err _ => [] end.

Definition last_bytes (p : P) : bytes :=
  match last_message p (env_await x p) with Some m => message_bytes m | None => [] end.

Abbreviation server := (GardenServer C B).

Lemma run_conn_message m (s : server) w :
  ∃ w', run x (conn_message m) s w = Returns () s w' ∧ rs_status w' = rs_status w ∧
    rs_conn w' = rs_conn w ++ message_bytes m.
Proof.
  unfold conn_message, message_bytes. destruct (Encode ProcessPayload_codec m) as [b|e].
  - by exists (conn_write b w).
  - exists w. by rewrite app_nil_r.
Qed.

Lemma run_streamProcess p i (s : server) w :
  ∃ w', run x (Handlers.streamProcess p i) s w = Returns () s w' ∧ rs_status w' = rs_status w ∧
    rs_conn w' = rs_conn w ++ last_bytes p.
Proof.
  unfold Handlers.streamProcess, last_bytes. cbn [mbind prog_bind pbind act run perform].
  destruct (env_await x p); cbn [last_message];
    [| |exists w; by rewrite app_nil_r..];
    change (mbind ?f ?p) with (pbind f p); rewrite run_bind;
    edestruct run_conn_message as (w' & -> & Hst & Hc); by exists w'.
Qed.

(** The stream that has just been made is there to be stopped. *)
Lemma stop_fresh o e m :
  ∃ m' m'', Streamer.Stream o e m = Streamer.Next m' [Streamer.Returns (Streamer.next (Streamer.idGen m)).2] ∧
    Streamer.Stop (Streamer.next (Streamer.idGen m)).2 m' = Streamer.Next m'' [].
Proof.
  eexists _, _. split; [reflexivity|]. unfold Streamer.Stop, Streamer.loadStream. cbn [Streamer.streams Streamer.heap].
  rewrite lookup_insert_eq, lookup_app_r, Nat.sub_diag by done. reflexivity.
Qed.

Lemma ready_streamer g m (s : server) : ready g s → ready g (set_streamer m s).
Proof. by intros []. Qed.

Lemma run_serve_process g status p o e i (s : server) :
  env_hijack x = None → ready g s →
  ∃ m w, run x (serve_process status p o e i) s new_response = Returns () (set_streamer m s) w ∧
    rs_status w = Some status ∧
    rs_conn w = message_bytes (first_message p (Streamer.next (Streamer.idGen (streamer s))).2) ++ last_bytes p.
Proof.
  intros Hh Hs. destruct (stop_fresh o e (streamer s)) as (m' & m'' & Hstart & Hstop).
  unfold serve_process. change (mbind ?f ?p) with (pbind f p). rewrite run_bind. cbn [act run perform].
  rewrite Hstart. cbn [on_streamer returned_id]. rewrite run_defer.
  cbn [mbind prog_bind pbind act run perform]. rewrite Hh. rewrite run_defer.
  change (mbind ?f ?p) with (pbind f p). rewrite run_bind.
  edestruct run_conn_message as (w1 & -> & Hst1 & Hc1). cbn [mbind prog_bind pbind act run perform].
  edestruct run_streamProcess as (w2 & -> & Hst2 & Hc2). cbn [run perform act]. unfold stream_stop.
  change (mbind ?f ?p) with (pbind f p). rewrite run_bind. cbn [act run perform].
  change (streamer (set_streamer m' s)) with m'. rewrite Hstop. cbn [on_streamer run].
  eexists m'', _. split; [reflexivity|]. cbn [conn_close rs_status rs_conn]. rewrite Hst2, Hst1, Hc2, Hc1. done.
Qed.

(** A handler that returns with a response of which [Q] holds and the backend in
    the state [b]. *)
Definition serves (g : Duration) (p : prog eff unit) (s : server) (Q : response → Prop) (b : B) : Prop :=
  ∃ s' w, run x p s new_response = Returns () s' w ∧ Q w ∧ backend s' = b ∧ ready g s'.

(** A container is paused in the bomberman while its request is served. *)
Lemma serves_container g h k (s : server) c b1 Q b :
  ready g s → exec (Backend.Lookup h) (backend s) = (Ok c, b1) →
  (∀ s1, ready g s1 → backend s1 = b1 → streamer s1 = streamer s → serves g (k c) s1 Q b) →
  serves g (with_container h k) s Q b.
Proof.
  intros Hs Hl Hk. unfold serves, with_container, checked. change (mbind ?f ?p) with (pbind f p). rewrite run_bind.
  cbn [act run perform]. rewrite Hl. unfold paused. change (mbind ?f ?p) with (pbind f p). rewrite run_bind.
  destruct (run_bomb x g (Bomberman.Pause (Handle c)) (set_backend b1 s) new_response (ready_backend g s b1 Hs)) as (bm & Hp).
  rewrite Hp, run_defer.
  destruct (Hk (set_bomberman (Some bm) (set_backend b1 s))) as (s2 & w & -> & HQ & Hb & Hs2);
    [by apply ready_bomb, ready_backend|done..|].
  destruct (run_bomb x g (Bomberman.Unpause (Handle c)) s2 w Hs2) as (bm' & ->).
  eexists _, w. split_and!; [done..|by apply ready_bomb].
Qed.

Lemma serves_process g status p o e i (s : server) :
  env_hijack x = None → ready g s →
  serves g (serve_process status p o e i) s
    (λ w, rs_status w = Some status ∧
      rs_conn w = message_bytes (first_message p (Streamer.next (Streamer.idGen (streamer s))).2) ++ last_bytes p)
    (backend s).
Proof.
  intros Hh Hs. destruct (run_serve_process g status p o e i s Hh Hs) as (m & w & Hr & Hw).
  exists (set_streamer m s), w. split; [done|]. split; [done|]. by split; [|apply ready_streamer].
Qed.

(** ** The client's end *)

(** What the client reports of the end of the process. *)
Definition reported (c : wait_case) : Z * option error :=
  match c with
  | Exited status => (status, None)
  | WaitFailed err => (0%Z, Some (OtherError ("connection: process error: " +:+ error_text err)))
  | Stopping | ConnClosed => (0%Z, Some (OtherError ("connection: decode failed: " +:+ json_text EOF)))
  end.

Lemma waited_reported p b :
  valid_string (ProcessID p) = true → case_ok (env_await x p) = true → decode b = decode (last_bytes p) →
  ProcessStream.waited b = reported (env_await x p).
Proof.
  intros Hp Hc Hb. rewrite ProcessStream.waited_eq. unfold Decode. rewrite Hb. unfold last_bytes.
  destruct (last_message p (env_await x p)) as [m|] eqn:Hm.
  - pose proof (last_wf p _ m Hp Hc Hm) as Hwf.
    destruct (Decode_Encode ProcessPayload_codec m [] ProcessPayload_ok Hwf) as (b' & rest & He & Hd & _).
    unfold message_bytes. rewrite He. rewrite app_nil_r in Hd. unfold Decode in Hd.
    rewrite Hd. destruct (env_await x p); by simplify_eq/=.
  - by destruct (env_await x p).
Qed.

Lemma digits_ascii d :
  Forall (λ a, code a < 128)%N (to_bytes (DecimalString.NilEmpty.string_of_uint d)).
Proof. induction d; cbn; [by constructor|by constructor..]. Qed.

Lemma format_int_valid z : valid_string (format_int z) = true.
Proof.
  apply valid_ascii. unfold format_int.
  assert (∀ d, Forall (λ a, code a < 128)%N (to_bytes (DecimalString.NilZero.string_of_uint d))) as Hd.
  { intros []; [by repeat constructor|apply (digits_ascii (_ _))..]. }
  destruct (Z.to_int z) as [d|d]; [apply Hd|]. cbn. by constructor.
Qed.

(** The client's [streamProcess] with no output wanted. *)
Lemma streamProcess_started h stdin p (s s' : server) :
  valid_string (ProcessID p) = true → case_ok (env_await x p) = true →
  ∃ st b, Connection.streamProcess h (mk_process_io stdin false false)
      (mk_reader (message_bytes (first_message p (Streamer.next (Streamer.idGen (streamer s))).2) ++ last_bytes p) None) s'
      = Some (Some st, None, s') ∧
    st_process st = ProcessStream.newProcess (ProcessID p) ∧ st_wait st = Some b ∧
    ProcessStream.waited b = reported (env_await x p).
Proof.
  intros Hp Hc.
  destruct (Decode_Encode ProcessPayload_codec (first_message p (Streamer.next (Streamer.idGen (streamer s))).2)
    (last_bytes p) ProcessPayload_ok) as (b & rest & He & Hd & Hr); [by apply first_wf, format_int_valid|].
  eexists _, rest. unfold Connection.streamProcess, decode_reader, message_bytes. cbn [rd_data rd_err].
  rewrite He, Hd. split; [reflexivity|]. split_and!; [done..|by apply waited_reported].
Qed.

(** A hijack that the handler serves. *)
Lemma hijack_served g name r params body contentType (s : server) status conn b :
  Routes.FindRouteByName Routes.Routes name = Some r → Routes.params_ok params r = true →
  failed_status status = false → ready g s →
  serves g (handler_named g name (request_of r params ∅ body)) s
    (λ w, rs_status w = Some status ∧ rs_conn w = conn) b →
  ∃ s', hijackable_Hijack hijacker name body params None contentType s = Some (Some (mk_reader conn None), None, s') ∧
    backend s' = b ∧ ready g s'.
Proof.
  intros [Hr <-]%find_route Hp Hst Hs (s' & w & Hrun & (Hw & Hc) & Hb & Hs').
  destruct (create_query x lost network address r params None body contentType Hr Hp) as (u & Hcr & Hserve);
    [by apply map_Forall_empty|].
  exists s'. split; [|done]. unfold hijackable_Hijack, wire. rewrite Hcr. unfold mbind, io_bind.
  cbn [dialer NewHijackStreamer NewHijackStreamerWithDialer defaultDialerFunc DialTimeout loopback mret io_ret ClientDo].
  rewrite Hserve, (ready_grace g s Hs).
  change (default ∅ (@None (gmap string (list string)))) with (∅ : gmap string (list string)). rewrite Hrun.
  cbn [respond http_response_of hs_status]. rewrite Hw. change (default 200%Z (Some status)) with status.
  by rewrite Hst, Hc.
Qed.

(** The streams that the server gives a process. *)
Definition server_io (s : server) : ProcessIO :=
  let n := length (Streamer.chans (streamer s)) in mk_ProcessIO (Some (env_pipe x)) (Some n) (Some (S n)).

(** The part that [handleRun] and [handleAttach] share. *)
Lemma serves_started g status (op : ProcessIO → backend_op C P (result error P)) (s : server) p b2 :
  env_hijack x = None → ready g s → exec (op (server_io s)) (backend s) = (Ok p, b2) →
  serves g (
    stdout ← act (MakeChan 4000);
    stderr ← act (MakeChan 4000);
    stdin ← act Pipe;
    process ← act (Call (op (mk_ProcessIO (Some stdin) (Some stdout) (Some stderr))));
    match process with
    | Err err => writeError err;; act (ClosePipe stdin)
    | Ok process => serve_process status process stdout stderr stdin
    end) s
    (λ w, rs_status w = Some status ∧
      rs_conn w = message_bytes (first_message p (Streamer.next (Streamer.idGen (streamer s))).2) ++ last_bytes p) b2.
Proof.
  intros Hh Hs Hop. unfold serves. cbn [mbind prog_bind pbind act run perform on_streamer Streamer.make_chan].
  cbn [set_streamer streamer backend Streamer.chans]. rewrite length_app, Nat.add_comm.
  unfold server_io in Hop. cbn [length Nat.add]. rewrite Hop.
  eapply (serves_process g status p); [done|by apply ready_backend, ready_streamer, ready_streamer].
Qed.

(** ** Properties *)


(** A client that attaches to a process learns how it ended, in the same way as
    one that has started it. *)
Lemma Attach_reports_exit g h pid stdin s c b1 p b2
    (Hs : ready g s) (Hh : Routes.plain h = true) (Hpid : Routes.plain pid = true)
    (Hlookup : exec (Backend.Lookup h) (backend s) = (Ok c, b1))
    (Hattach : exec (Backend.Attach c pid (server_io s)) b1 = (Ok p, b2))
    (Hhijack : env_hijack x = None)
    (Hp : valid_string (ProcessID p) = true) (Hcase : case_ok (env_await x p) = true) :
  ∃ st b s', Client.Attach (container_of h) pid (mk_process_io stdin false false) s = Some (Some st, None, s') ∧
    backend s' = b2 ∧ ready g s' ∧
    st_process st = ProcessStream.newProcess (ProcessID p) ∧ st_wait st = Some b ∧
    ProcessStream.waited b = reported (env_await x p).
Proof.
  set (r := Routes.mk_Route Routes.Attach "GET" "/containers/:handle/processes/:pid").
  set (ps := {["handle" := h; "pid" := pid]} : gmap string string).
  assert (Routes.captures (Routes.segs r) = [to_bytes "handle"; to_bytes "pid"]) as Hcap by route.
  destruct (hijack_served g Routes.Attach r ps (Some []) "" s StatusOK
    (message_bytes (first_message p (Streamer.next (Streamer.idGen (streamer s))).2) ++ last_bytes p) b2)
    as (s' & Hj & Hb & Hs'); [route| |done|done| |].
  - unfold Routes.params_ok, ps. rewrite Hcap. cbn [forallb].
    rewrite !of_to_bytes, lookup_insert_eq, lookup_insert_ne, lookup_singleton_eq by done. by rewrite Hh, Hpid.
  - change (handler_named g Routes.Attach) with (handleAttach (C := C) (P := P) (B := B)).
    assert (request_of r ps ∅ (Some []) = mk_request {[":handle" := [h]; ":pid" := [pid]]} []) as ->.
    { unfold request_of, Routes.path_values, ps. rewrite Hcap. reflexivity. }
    apply (serves_container g h _ s c b1); [done|exact Hlookup|]. intros s1 Hs1 Hb1 Hm. rewrite <- Hm.
    apply (serves_started g StatusOK (Backend.Attach c pid)); [done..|].
    unfold server_io. rewrite Hm, Hb1. exact Hattach.
  - destruct (streamProcess_started h stdin p s s' Hp Hcase) as (st & b & Hst & Hrest).
    exists st, b, s'. split; [|done].
    change (Connection.Attach h pid (mk_process_io stdin false false) s = Some (Some st, None, s')).
    unfold Connection.Attach, mbind, io_bind. cbn [Hijack dialed connected hijack_streamer].
    fold ps. unfold wire in *. rewrite Hj. exact Hst.
Qed.

(** A call of the backend whose error is dropped. *)
Definition call_quiet (op : backend_op C P (option error)) : B → result error unit * B :=
  λ b, (Ok (), (exec op b).2).

Lemma implements_quiet g op m :
  implements x g (λ _, true) empty_codec () (act (Call op);; bomb m;; writeSuccess) (call_quiet op).
Proof.
  intros s Hs Hsend. change (mbind ?f ?p) with (pbind f p). rewrite run_bind. cbn [act run perform].
  unfold call_quiet. destruct (exec op (backend s)) as [e b].
  apply (implements_bomb x g (λ _, true) empty_codec () m writeSuccess (λ b, (Ok (), b)));
    [|by apply ready_backend|done].
  apply (implements_response x g (λ _, true) empty_codec () empty_codec () ()). intros _. apply transfers_empty.
Qed.

Lemma refines_SetGraceTime g h d :
  Routes.plain h = true → c_wf Duration_codec d = true →
  refines g (λ _, true) () (with_unit (Connection.SetGraceTime h d))
    (on_container h (λ c, call_quiet (Backend.SetGraceTime c d))).
Proof.
  intros Hh Hd. pose proof (transfers_same Duration_codec d (int64_ok "time.Duration") Hd) as Ht. pose proof Ht as (body & _ & He & _).
  apply refines_empty. rewrite He.
  eapply do_named; [route|apply params_handle; [route|done]|by apply map_Forall_empty|done|].
  change (handler_named g Routes.SetGraceTime) with (handleSetGraceTime (C := C) (P := P)).
  rewrite request_handle by route. unfold handleSetGraceTime.
  rewrite (readRequest_transfers Duration_codec d Duration_codec d _ _ body) by done.
  apply implements_checked. intros c. apply implements_quiet.
Qed.

(** The client is told that the grace time was set whenever the container
    exists, also when the backend has refused it. *)
Lemma SetGraceTime_hides_failure g h d s c b1 e b2
    (Hs : ready g s) (Hh : Routes.plain h = true) (Hd : c_wf Duration_codec d = true)
    (Hlookup : exec (Backend.Lookup h) (backend s) = (Ok c, b1))
    (Hset : exec (Backend.SetGraceTime c d) b1 = (Some e, b2)) :
  ∃ s', Client.SetGraceTime (container_of h) d s = Some (None, s') ∧ backend s' = b2 ∧ ready g s'.
Proof.
  destruct (refines_SetGraceTime g h d Hh Hd s Hs) as (s' & Hr & Hb & Hs');
    unfold on_container, call, call_quiet, mbind, EndToEnd.direct_bind in *; rewrite Hlookup in *; [done|].
  rewrite Hset in Hb. exists s'. split; [|done]. change (Connection.SetGraceTime h d s = Some (None, s')). unfold with_unit, mbind, io_bind in Hr.
  destruct (Connection.SetGraceTime h d s) as [[e' s'']|]; [|done]. by injection Hr as -> ->.
Qed.

(** The state of the backend once the archive has been copied: only a reader that
    has failed is closed. *)
Definition after_copy (rd : reader) (b : B) : B :=
  match rd_err rd with Some _ => (exec (CloseReader rd) b).2 | None => b end.

Lemma serves_archive g (rd : reader) (s : server) :
  ready g s → rd_err rd = None ∨ rd_data rd ≠ [] →
  serves g (copy rd;;
      match rd_err rd with
      | Some err =>
          act (Call (CloseReader rd));;
          if bool_decide (length (rd_data rd) = 0%nat) then writeError err else Ret ()
      | None => Ret ()
      end) s
    (λ w, default 200%Z (rs_status w) = 200%Z ∧ rs_body w = rd_data rd) (after_copy rd (backend s)).
Proof.
  intros Hs Hrd. unfold serves, copy, after_copy. destruct rd as [[|a data] [err|]]; cbn [rd_data rd_err] in *.
  - by destruct Hrd as [?|[]].
  - by eexists s, _.
  - cbn [mbind prog_bind pbind act run perform].
    destruct (exec (CloseReader _) (backend s)) as [e b]. eexists _, _.
    split; [reflexivity|]. split; [done|]. split; [done|by apply ready_backend].
  - by eexists s, _.
Qed.

(** C32 The archive that a client streams out is the one that the backend reads
    from the container, byte for byte, as long as the reader does not fail.  A
    reader that fails after its first bytes is not told from one that has ended:
    the client gets the part before the failure as the whole archive. *)
Theorem StreamOut_delivers g h spec s c b1 rd b2
    (Hs : ready g s) (Hh : Routes.plain h = true)
    (Hlookup : exec (Backend.Lookup h) (backend s) = (Ok c, b1))
    (Hout : exec (Backend.StreamOut c spec) b1 = (Ok rd, b2))
    (Hrd : rd_err rd = None ∨ rd_data rd ≠ []) :
  ∃ s', Client.StreamOut (container_of h) spec s = Some (Some (mk_body (mk_reader (rd_data rd) None) None), None, s') ∧
    backend s' = after_copy rd b2 ∧ ready g s'.
Proof.
  set (r := Routes.mk_Route Routes.StreamOut "GET" "/containers/:handle/files").
  set (q := {["user" := [so_User spec]; "source" := [so_Path spec]]} : gmap string (list string)).
  assert (Routes.captures (Routes.segs r) = [to_bytes "handle"]) as Hcap by route.
  assert (r ∈ Routes.Routes) as Hr by (refine (proj1 (find_route Routes.StreamOut r _)); route).
  destruct (create_query x lost network address r (handle_param h) (Some q) None "" Hr) as (u & Hc & Hserve);
    [by apply params_handle|unfold q; apply map_Forall_insert_2; [done|by apply map_Forall_singleton]|].
  assert (serves g (handler_named g (Routes.Name r) (request_of r (handle_param h) q None)) s
    (λ w, default 200%Z (rs_status w) = 200%Z ∧ rs_body w = rd_data rd) (after_copy rd b2)) as (s' & w & Hrun & (Hst & Hb) & Hrest).
  { assert (request_of r (handle_param h) q None =
      mk_request {[":handle" := [h]; "user" := [so_User spec]; "source" := [so_Path spec]]} []) as ->.
    { unfold request_of, Routes.path_values. rewrite Hcap. by vm_compute. }
    change (handler_named g (Routes.Name r)) with (handleStreamOut (C := C) (P := P)).
    apply (serves_container g h _ s c b1); [done|exact Hlookup|]. intros s1 Hs1 Hb1 Hm. unfold checked, serves.
    change (mk_StreamOutSpec _ _) with (mk_StreamOutSpec (so_Path spec) (so_User spec)).
    replace (mk_StreamOutSpec _ _) with spec by (by destruct spec).
    change (mbind ?f (act ?e)) with (pbind f (act e)). rewrite run_bind. cbn [act run perform].
    rewrite Hb1, Hout. by apply (serves_archive g rd (set_backend b2 s1)); [apply ready_backend|]. }
  exists s'. split; [|done]. unfold Client.StreamOut.
  change (Connection.StreamOut h spec s = Some (Some (mk_body (mk_reader (rd_data rd) None) None), None, s')).
  unfold Connection.StreamOut. cbn [Stream dialed connected hijack_streamer]. unfold hijackable_Stream.
  change Routes.StreamOut with (Routes.Name r). fold q. rewrite Hc. unfold mbind, io_bind.
  unfold wire. rewrite (Do_eq x lost network address), Hserve, (ready_grace g s Hs). change (default ∅ (Some q)) with q. rewrite Hrun.
  cbn [respond rmap fst http_response_of hs_status hs_body]. by rewrite Hst, Hb.
Qed.
End processes.

(** ** Witnesses on the sample backend *)
Section witnesses.
#[local] Existing Instance Sample.sample_backend.
#[local] Existing Instance Sample.sample_text.

(** A server with one container, whose processes exit with 3. *)
Definition one_container : Sample.store := {["a" := (100%Z, ∅)]}.
Definition busy_server : GardenServer string Sample.store := set_backend one_container idle_server.
Definition exits_3 : env string := mk_env None (λ _, Exited 3) 0.
Definition eof : error := OtherError "EOF".

Abbreviation container_a := (EndToEnd.container_of exits_3 eof "tcp" ":7777" "a").

Lemma busy_ready : ready 100%Z busy_server.
Proof. apply ready_backend, idle_ready. Qed.

Definition example_process : ProcessSpec :=
  mk_ProcessSpec "p-1" "/bin/sh" (Some ["-c"; "exit 3"]) None "/" "root" (c_zero ResourceLimits_codec) None None
    (c_zero ImageRef_codec) None.


Lemma Attach_reports_exit_witness :
  ∃ st b s', Client.Attach container_a "p-1" (mk_process_io None false false) busy_server = Some (Some st, None, s') ∧
    backend s' = one_container ∧ ready 100%Z s' ∧
    st_process st = ProcessStream.newProcess "p-1" ∧ st_wait st = Some b ∧
    ProcessStream.waited b = (3%Z, None).
Proof.
  refine (Attach_reports_exit exits_3 eof "tcp" ":7777" 100%Z "a" "p-1" None busy_server "a" one_container "p-1" one_container
    busy_ready _ _ _ _ _ _ _); by vm_compute.
Defined.

Lemma SetGraceTime_hides_failure_witness :
  Sample.sample_exec (Backend.SetGraceTime "a" (-1)%Z) one_container
    = (Some (OtherError "invalid grace time"), one_container) ∧
  ∃ s', Client.SetGraceTime container_a (-1)%Z busy_server = Some (None, s') ∧
    backend s' = one_container ∧ ready 100%Z s'.
Proof.
  split; [by vm_compute|].
  refine (SetGraceTime_hides_failure exits_3 eof "tcp" ":7777" 100%Z "a" (-1)%Z busy_server "a" one_container
    (OtherError "invalid grace time") one_container busy_ready _ _ _ _); by vm_compute.
Defined.

(** The reader of this path fails after four bytes. *)
Lemma StreamOut_delivers_witness :
  ∃ s', Client.StreamOut container_a (mk_StreamOutSpec "/broken" "root") busy_server
      = Some (Some (mk_body (mk_reader (to_bytes "part") None) None), None, s') ∧
    backend s' = one_container ∧ ready 100%Z s'.
Proof.
  refine (StreamOut_delivers exits_3 eof "tcp" ":7777" 100%Z "a" (mk_StreamOutSpec "/broken" "root") busy_server "a" one_container
    (mk_reader (to_bytes "part") (Some (OtherError "read error"))) one_container busy_ready _ _ _ _);
    [by vm_compute..|by right].
Defined.
End witnesses.
End Processes.
